(** * Voice dialog engine: a shallow embedding of the turn-taking layer

    The development follows the Python sources of the repository:
    - [voice/vad.py]            the voice-activity detector,
    - [voice/aec.py]            the echo-cancellation bridge (its two FIFOs),
    - [voice/asr.py]            the streaming recognizer client,
    - [voice/tts.py]            the streaming synthesizer client,
    - [voice/dialog_manager.py] the dialog engine,
    - [voice/speaker_id.py]     the registry of known voices,
    - [voice/audio_device.py]   playback through the sound card or the bridge.

    Python values are modelled as the code has them: [bytes] as lists of
    [Byte.byte], [int] as [Z], [str] as lists of Unicode code points, and a
    computation that may raise as a value of [res].  Libraries that are not
    part of the repository (webrtcvad, gzip, json, the network, the audio
    hardware, the conversation collaborators) are interfaces (type classes);
    every theorem holds for all of their implementations. *)

From Stdlib Require Import List ZArith Lia Bool.
From Stdlib.Strings Require Import Byte.
From Stdlib.Strings Require String Ascii.
From Stdlib Require Uint63 PrimFloat.
From Stdlib.Floats Require FloatOps SpecFloat FloatAxioms.
From Stdlib Require DecimalString DecimalZ DecimalPos.
Import String.StringSyntax.
Import ListNotations.
Open Scope Z_scope.

(* ================================================================== *)
(** * Part I. Definitions                                              *)
(* ================================================================== *)

(** ** The Python runtime fragment used by the sources *)

Module Py.

Definition bytes := list byte.

(** [str]: a sequence of Unicode code points. *)
Definition str := list Z.

(** [len(x)] as a Python [int]. *)
Definition len {A : Type} (l : list A) : Z := Z.of_nat (length l).

(** Exceptions that the modelled code can meet. *)
Inductive exn : Type :=
| ValueError
| TypeError
| AttributeError
| ZeroDivisionError
| OverflowError
| RuntimeError
| OSError (errno : Z)
| TimeoutError
| ConnectionClosed
| JSONDecodeError
| BadGzipFile
| ExternalError.

(** The outcome of evaluating an expression: a value or a raised exception. *)
Inductive res (A : Type) : Type :=
| Ret (a : A)
| Raise (e : exn).
Arguments Ret {A} a.
Arguments Raise {A} e.

Definition bind {A B : Type} (m : res A) (k : A -> res B) : res B :=
  match m with
  | Ret a => k a
  | Raise e => Raise e
  end.

(** [try: m  except: h] with a bare [except] (or [except Exception]). *)
Definition try_except {A : Type} (m : res A) (h : exn -> res A) : res A :=
  match m with
  | Ret a => Ret a
  | Raise e => h e
  end.

(** Index normalisation of a slice bound [i] for a sequence of length [n]:
    negative bounds count from the end, and bounds are clamped to [0..n]. *)
Definition clamp_index (n i : Z) : Z :=
  if i <? 0 then Z.max 0 (i + n) else Z.min i n.

(** [l[i:j]] *)
Definition slice {A : Type} (i j : Z) (l : list A) : list A :=
  let a := clamp_index (len l) i in
  let b := clamp_index (len l) j in
  firstn (Z.to_nat (b - a)) (skipn (Z.to_nat a) l).

(** [l[i:]] *)
Definition slice_from {A : Type} (i : Z) (l : list A) : list A :=
  skipn (Z.to_nat (clamp_index (len l) i)) l.

(** [l[:j]] *)
Definition slice_to {A : Type} (j : Z) (l : list A) : list A :=
  firstn (Z.to_nat (clamp_index (len l) j)) l.

(** [range(n)] *)
Definition range (n : Z) : list Z :=
  map Z.of_nat (seq 0 (Z.to_nat n)).

(** [range(start, stop, step)]; a zero step raises [ValueError] in Python and
    is guarded by every caller in the sources, so it yields no index here. *)
Definition range_step (start stop step : Z) : list Z :=
  if 0 <? step then
    map (fun k => start + Z.of_nat k * step)
        (seq 0 (Z.to_nat ((stop - start + step - 1) / step)))
  else if step <? 0 then
    map (fun k => start + Z.of_nat k * step)
        (seq 0 (Z.to_nat ((start - stop - step - 1) / (- step))))
  else [].

(** [b'\x00' * n] *)
Definition zeros (n : Z) : bytes := repeat x00 (Z.to_nat n).

(** [b''.join(frames)] *)
Definition join (frames : list bytes) : bytes := concat frames.

(** [collections.deque(maxlen=m).append(x)]: when the deque is full the
    oldest element is discarded from the left. *)
Definition deque_append {A : Type} (maxlen : Z) (d : list A) (x : A) : list A :=
  let d' := d ++ [x] in
  skipn (length d' - Z.to_nat maxlen) d'.

(** Truth value of a byte string: [if data:] *)
Definition truthy {A : Type} (l : list A) : bool :=
  match l with [] => false | _ => true end.

(** *** Integers and bytes *)

(** [data[i]] as an [int] (every use in the sources is guarded by a length
    test). *)
Definition byte_at (i : nat) (data : bytes) : Z :=
  Z.of_N (Byte.to_N (nth i data x00)).

(** One element of [bytes([...])]: a value outside [range(256)] raises. *)
Definition byte_of_int (z : Z) : res byte :=
  if (0 <=? z) && (z <? 256) then
    match Byte.of_N (Z.to_N z) with
    | Some b => Ret b
    | None => Raise ValueError
    end
  else Raise ValueError.

(** [bytes([z1, ..., zn])] *)
Fixpoint bytes_of_ints (zs : list Z) : res bytes :=
  match zs with
  | [] => Ret []
  | z :: rest =>
      bind (byte_of_int z) (fun b =>
      bind (bytes_of_ints rest) (fun bs => Ret (b :: bs)))
  end.

(** [int.from_bytes(data, 'big')] *)
Definition int_from_bytes (data : bytes) : Z :=
  fold_left (fun acc b => acc * 256 + Z.of_N (Byte.to_N b)) data 0.

(** The big-endian digits of [n], [k] of them. *)
Fixpoint be_digits (k : nat) (n : Z) : list Z :=
  match k with
  | O => []
  | S k' => be_digits k' (n / 256) ++ [n mod 256]
  end.

(** [n.to_bytes(4, 'big')]: [OverflowError] when [n] does not fit. *)
Definition to_bytes4 (n : Z) : res bytes :=
  if (0 <=? n) && (n <? 2 ^ 32) then bytes_of_ints (be_digits 4 n)
  else Raise OverflowError.

(** Whether [pat] is a prefix of [data]. *)
Fixpoint starts_with (pat data : bytes) : bool :=
  match pat, data with
  | [], _ => true
  | p :: pat', d :: data' => Byte.eqb p d && starts_with pat' data'
  | _ :: _, [] => false
  end.

(** [data.find(pat)], from position [pos] on: the lowest index, or [-1]. *)
Fixpoint find_from (pat data : bytes) (pos : Z) : Z :=
  if starts_with pat data then pos
  else
    match data with
    | [] => -1
    | _ :: data' => find_from pat data' (pos + 1)
    end.

Definition find (pat data : bytes) : Z := find_from pat data 0.

(** *** Text *)

(** A string literal of the sources that is plain ASCII. *)
Definition text (s : String.string) : str :=
  map (fun c => Z.of_nat (Ascii.nat_of_ascii c)) (String.list_ascii_of_string s).
Arguments text s%_string_scope.

Definition str_eqb (a b : str) : bool :=
  (length a =? length b)%nat && forallb (fun p => fst p =? snd p) (combine a b).

Fixpoint str_prefix (pat s : str) : bool :=
  match pat, s with
  | [], _ => true
  | p :: pat', c :: s' => (p =? c) && str_prefix pat' s'
  | _ :: _, [] => false
  end.

(** [pat in s] for strings. *)
Fixpoint str_contains (pat s : str) : bool :=
  str_prefix pat s ||
  match s with
  | [] => false
  | _ :: s' => str_contains pat s'
  end.

(** [s.replace(old, new)] for a non-empty [old]: occurrences are replaced
    from the left, without overlap. *)
Fixpoint replace_from (fuel : nat) (old new s : str) : str :=
  match fuel with
  | O => s
  | S fuel' =>
      match s with
      | [] => []
      | c :: s' =>
          if str_prefix old s then new ++ replace_from fuel' old new (skipn (length old) s)
          else c :: replace_from fuel' old new s'
      end
  end.

(** [s.replace(old, new)]; an empty [old] matches before every character
    and at the end. *)
Definition str_replace (old new s : str) : str :=
  match old with
  | [] => new ++ flat_map (fun c => c :: new) s
  | _ => replace_from (length s) old new s
  end.

(** Whether [c.isspace()] holds for the code point [c]. *)
Definition is_space (c : Z) : bool :=
  ((9 <=? c) && (c <=? 13)) || ((28 <=? c) && (c <=? 32)) || (c =? 133) || (c =? 160)
  || (c =? 5760) || ((8192 <=? c) && (c <=? 8202)) || (c =? 8232) || (c =? 8233)
  || (c =? 8239) || (c =? 8287) || (c =? 12288).

(** [s.lstrip()] *)
Fixpoint str_lstrip (s : str) : str :=
  match s with
  | c :: s' => if is_space c then str_lstrip s' else s
  | [] => []
  end.

(** [s.strip()] *)
Definition str_strip (s : str) : str := rev (str_lstrip (rev (str_lstrip s))).

(** [b.strip()] for a byte string: ASCII whitespace is removed. *)
Definition is_ascii_space (b : byte) : bool :=
  let c := Z.of_N (Byte.to_N b) in ((9 <=? c) && (c <=? 13)) || (c =? 32).

Fixpoint bytes_lstrip (b : bytes) : bytes :=
  match b with
  | c :: b' => if is_ascii_space c then bytes_lstrip b' else b
  | [] => []
  end.

Definition bytes_strip (b : bytes) : bytes := rev (bytes_lstrip (rev (bytes_lstrip b))).

(** *** UTF-8 *)

Definition is_cont (b : Z) : bool := (128 <=? b) && (b <=? 191).

(** Decoding of the sequence that starts with the byte [b0], followed by
    [rest]: the code point and the bytes that follow it, or the number of
    bytes that form the ill-formed prefix. *)
Definition utf8_step (b0 : Z) (rest : list Z) : (Z * list Z) + nat :=
  if b0 <? 128 then inl (b0, rest)
  else if (194 <=? b0) && (b0 <=? 223) then
    match rest with
    | b1 :: r => if is_cont b1 then inl ((b0 - 192) * 64 + (b1 - 128), r) else inr 1%nat
    | [] => inr 1%nat
    end
  else if (224 <=? b0) && (b0 <=? 239) then
    match rest with
    | b1 :: r1 =>
        let lo := if b0 =? 224 then 160 else 128 in
        let hi := if b0 =? 237 then 159 else 191 in
        if (lo <=? b1) && (b1 <=? hi) then
          match r1 with
          | b2 :: r2 =>
              if is_cont b2
              then inl ((b0 - 224) * 4096 + (b1 - 128) * 64 + (b2 - 128), r2)
              else inr 2%nat
          | [] => inr 2%nat
          end
        else inr 1%nat
    | [] => inr 1%nat
    end
  else if (240 <=? b0) && (b0 <=? 244) then
    match rest with
    | b1 :: r1 =>
        let lo := if b0 =? 240 then 144 else 128 in
        let hi := if b0 =? 244 then 143 else 191 in
        if (lo <=? b1) && (b1 <=? hi) then
          match r1 with
          | b2 :: r2 =>
              if is_cont b2 then
                match r2 with
                | b3 :: r3 =>
                    if is_cont b3
                    then inl ((b0 - 240) * 262144 + (b1 - 128) * 4096
                              + (b2 - 128) * 64 + (b3 - 128), r3)
                    else inr 3%nat
                | [] => inr 3%nat
                end
              else inr 2%nat
          | [] => inr 2%nat
          end
        else inr 1%nat
    | [] => inr 1%nat
    end
  else inr 1%nat.

(** [data.decode('utf-8')] when [ignore] is false, and
    [data.decode('utf-8', errors='ignore')] when it is true. *)
Fixpoint utf8_decode_from (fuel : nat) (ignore : bool) (data : list Z) : res str :=
  match fuel with
  | O => Ret []
  | S fuel' =>
      match data with
      | [] => Ret []
      | b0 :: rest =>
          match utf8_step b0 rest with
          | inl (c, rest') =>
              bind (utf8_decode_from fuel' ignore rest') (fun s => Ret (c :: s))
          | inr bad =>
              if ignore then utf8_decode_from fuel' ignore (skipn bad data)
              else Raise ValueError
          end
      end
  end.

Definition utf8_decode (ignore : bool) (data : bytes) : res str :=
  utf8_decode_from (length data) ignore (map (fun b => Z.of_N (Byte.to_N b)) data).

(** The UTF-8 bytes of one code point; surrogates cannot be encoded. *)
Definition utf8_char (c : Z) : res (list Z) :=
  if c <? 0 then Raise ValueError
  else if c <? 128 then Ret [c]
  else if c <? 2048 then Ret [192 + c / 64; 128 + c mod 64]
  else if (55296 <=? c) && (c <=? 57343) then Raise ValueError
  else if c <? 65536 then Ret [224 + c / 4096; 128 + (c / 64) mod 64; 128 + c mod 64]
  else if c <? 1114112 then
    Ret [240 + c / 262144; 128 + (c / 4096) mod 64; 128 + (c / 64) mod 64; 128 + c mod 64]
  else Raise ValueError.

(** [s.encode('utf-8')] *)
Fixpoint utf8_encode (s : str) : res bytes :=
  match s with
  | [] => Ret []
  | c :: s' =>
      bind (utf8_char c) (fun zs =>
      bind (bytes_of_ints zs) (fun bs =>
      bind (utf8_encode s') (fun rest => Ret (bs ++ rest))))
  end.

(** *** Values *)

(** The Python values that travel through the protocol clients: what
    [json.loads] returns, and the dictionaries the code builds.  A [float]
    is kept as the literal it was read from, with its truth value. *)
#[warnings="-register-all"]
Inductive pyval : Type :=
| PNone
| PBool (b : bool)
| PInt (z : Z)
| PFloat (nonzero : bool) (literal : str)
| PStr (s : str)
| PBytes (b : bytes)
| PList (items : list pyval)
| PDict (items : list (str * pyval)).

(** [d.get(key)] on the items of a dictionary. *)
Fixpoint lookup (key : str) (items : list (str * pyval)) : option pyval :=
  match items with
  | [] => None
  | (k, v) :: rest => if str_eqb k key then Some v else lookup key rest
  end.

(** Truth value: [if v:] *)
Definition truth (v : pyval) : bool :=
  match v with
  | PNone => false
  | PBool b => b
  | PInt z => negb (z =? 0)
  | PFloat nz _ => nz
  | PStr s => truthy s
  | PBytes b => truthy b
  | PList l => truthy l
  | PDict d => truthy d
  end.

Definition pyval_is_str (v : pyval) (s : str) : bool :=
  match v with PStr s' => str_eqb s' s | _ => false end.

(** [key in v] for a string [key]: a key of a dictionary, an element of a
    list, a substring of a string; other values raise [TypeError]. *)
Definition contains (key : str) (v : pyval) : res bool :=
  match v with
  | PDict d => Ret (match lookup key d with Some _ => true | None => false end)
  | PList l => Ret (existsb (fun x => pyval_is_str x key) l)
  | PStr s => Ret (str_contains key s)
  | _ => Raise TypeError
  end.

(** [for x in v]: the elements a loop over [v] visits. *)
Definition iterate (v : pyval) : res (list pyval) :=
  match v with
  | PList l => Ret l
  | PDict d => Ret (map (fun kv => PStr (fst kv)) d)
  | PStr s => Ret (map (fun c => PStr [c]) s)
  | PBytes b => Ret (map (fun x => PInt (Z.of_N (Byte.to_N x))) b)
  | _ => Raise TypeError
  end.

(** *** Lists and arrays of 16-bit samples *)

(** [l[i] = v] for an index in range. *)
Fixpoint list_set {A : Type} (i : nat) (v : A) (l : list A) : list A :=
  match l, i with
  | [], _ => []
  | _ :: rest, O => v :: rest
  | x :: rest, S i' => x :: list_set i' v rest
  end.

(** The signed 16-bit integer with low byte [lo] and high byte [hi]. *)
Definition int16_of_le (lo hi : byte) : Z :=
  let u := Z.of_N (Byte.to_N lo) + 256 * Z.of_N (Byte.to_N hi) in
  if u <? 32768 then u else u - 65536.

(** [array.array('h').frombytes(data)] on a little-endian machine; a
    length that is not a multiple of the item size raises [ValueError]. *)
Fixpoint array_h_frombytes (data : bytes) : res (list Z) :=
  match data with
  | [] => Ret []
  | [_] => Raise ValueError
  | lo :: hi :: rest =>
      bind (array_h_frombytes rest) (fun samples => Ret (int16_of_le lo hi :: samples))
  end.

(** The value stored by [out[i] = v] in an [array.array('h')]:
    [OverflowError] outside the signed 16-bit range. *)
Definition array_h_item (v : Z) : res Z :=
  if (-32768 <=? v) && (v <=? 32767) then Ret v else Raise OverflowError.

(** [array.array('h', items).tobytes()] on a little-endian machine. *)
Fixpoint array_h_tobytes (items : list Z) : res bytes :=
  match items with
  | [] => Ret []
  | v :: rest =>
      let u := v mod 65536 in
      bind (bytes_of_ints [u mod 256; u / 256]) (fun pair =>
      bind (array_h_tobytes rest) (fun tail_ => Ret (pair ++ tail_)))
  end.

(** [p(z) and p(z+1) and ...], [n] values. *)
Fixpoint all_from (n : nat) (z : Z) (p : Z -> bool) : bool :=
  match n with
  | O => true
  | S n' => p z && all_from n' (z + 1) p
  end.

(** *** Dictionaries with string keys

    A [dict] is the list of its items in insertion order; the keys of a
    dictionary are pairwise different. *)

(** [d.get(key)] *)
Fixpoint getitem {V : Type} (key : str) (d : list (str * V)) : option V :=
  match d with
  | [] => None
  | (k, v) :: rest => if str_eqb k key then Some v else getitem key rest
  end.

(** [key in d] *)
Definition has_key {V : Type} (key : str) (d : list (str * V)) : bool :=
  match getitem key d with Some _ => true | None => false end.

(** [d[key] = v]: the value of an old key is replaced where it stands, a
    new key goes to the end. *)
Fixpoint setitem {V : Type} (key : str) (v : V) (d : list (str * V)) : list (str * V) :=
  match d with
  | [] => [(key, v)]
  | (k, x) :: rest =>
      if str_eqb k key then (k, v) :: rest else (k, x) :: setitem key v rest
  end.

(** [del d[key]] for a key of [d]. *)
Definition delitem {V : Type} (key : str) (d : list (str * V)) : list (str * V) :=
  filter (fun kv => negb (str_eqb (fst kv) key)) d.

(** [d.update(other)] *)
Definition update {V : Type} (d other : list (str * V)) : list (str * V) :=
  fold_left (fun acc kv => setitem (fst kv) (snd kv) acc) other d.

(** [str(n)] for an [int]: the decimal digits, after a minus sign when [n]
    is negative. *)
Definition str_of_int (n : Z) : str :=
  text (DecimalString.NilZero.string_of_int (Z.to_int n)).

(** *** Floating point *)

(** [votes / total >= threshold] as Python computes it for two small
    integers: the division and the comparison of IEEE 754 binary64. *)
Module PyFloat.
Import PrimFloat.

Definition float_of_int (z : Z) : float := of_uint63 (Uint63.of_Z z).

Definition ratio_at_least (votes total : Z) (threshold : float) : bool :=
  leb threshold (div (float_of_int votes) (float_of_int total)).

#[warnings="-inexact-float"]
Definition six_tenths : float := 0.6%float.

Definition one_half : float := 0.5%float.

Definition one : float := 1%float.

Definition hundred : float := 100%float.

Definition zero : float := 0%float.

#[warnings="-inexact-float"]
Definition nine_tenths : float := 0.9%float.

(** [float(z)] for an integer of either sign below [2^63] in size. *)
Definition float_of_signed (z : Z) : float :=
  if z <? 0 then opp (float_of_int (- z)) else float_of_int z.

(** [a / b] for two integers: the true division, which is the binary64
    division of the two integers when both are below [2^53] in size. *)
Definition true_div (a b : Z) : res float :=
  if b =? 0 then Raise ZeroDivisionError
  else Ret (div (float_of_signed a) (float_of_signed b)).

(** [int(x)] for a float: the integer part, with [OverflowError] for an
    infinity and [ValueError] for a NaN. *)
Definition int_of_float (x : float) : res Z :=
  match FloatOps.Prim2SF x with
  | SpecFloat.S754_zero _ => Ret 0
  | SpecFloat.S754_finite s m e =>
      let v := if 0 <=? e then Z.shiftl (Z.pos m) e else Z.shiftr (Z.pos m) (- e) in
      Ret (if s then - v else v)
  | SpecFloat.S754_infinity _ => Raise OverflowError
  | SpecFloat.S754_nan => Raise ValueError
  end.

End PyFloat.

End Py.
Import Py.

(** ** The libraries and the network *)

(** The [json] module: [json.dumps(v, ensure_ascii=...)] and
    [json.loads(s)]. *)
Class Json : Type := {
  json_dumps : bool -> pyval -> res str;
  json_loads : str -> res pyval
}.

(** The [gzip] module: [gzip.compress(data)] and [gzip.decompress(data)]. *)
Class Gzip : Type := {
  gzip_compress : bytes -> bytes;
  gzip_decompress : bytes -> res bytes
}.

(** What comes next on a websocket. *)
Inductive incoming : Type :=
| Message (data : bytes)
| Closed
| Failure.

(** The server side of a connection: what arrives, each item with the time
    in milliseconds that passes before it arrives.  After the last item the
    connection stays silent. *)
Definition arrival : Type := Z * incoming.

(** [await asyncio.wait_for(ws.recv(), timeout=timeout_s)] when the next
    event is [a]. *)
Definition wait_for_recv (timeout_s : Z) (a : arrival) : res bytes :=
  let '(delay_ms, ev) := a in
  if delay_ms <? timeout_s * 1000 then
    match ev with
    | Message data => Ret data
    | Closed => Raise ConnectionClosed
    | Failure => Raise ExternalError
    end
  else Raise TimeoutError.

(** The same on a connection described by [sock]: the outcome and the
    events still to come. *)
Definition recv (timeout_s : Z) (sock : list arrival) : res bytes * list arrival :=
  match sock with
  | [] => (Raise TimeoutError, [])
  | a :: rest => (wait_for_recv timeout_s a, rest)
  end.

(** ** voice/vad.py *)

(** The webrtcvad binding: [webrtcvad.Vad(aggressiveness)] and
    [Vad.is_speech(buf, sample_rate)].  The native detector keeps adaptive
    state between calls, so a call returns the next state of the handle. *)
Class WebRtcVad : Type := {
  vad_handle : Type;
  Vad_new : Z -> res vad_handle;
  Vad_is_speech : vad_handle -> bytes -> Z -> vad_handle * res bool
}.

Module VAD.

(** The attributes of a [VADDetector] instance.  The attribute [vad] holds a
    reference to the webrtcvad object; the state of that object is passed
    explicitly (the handle [h] below). *)
Record VADDetector : Type := {
  sample_rate : Z;
  frame_duration_ms : Z;
  frame_size : Z;
  padding_duration_ms : Z;
  speech_start_frames : Z;
  speech_end_frames : Z
}.

Definition valid_rates : list Z := [8000; 16000; 32000; 48000].

Section Detector.
Context {W : WebRtcVad}.

(** [VADDetector.__init__].  The frame size is
    [int(sample_rate * 30 / 1000) * 2]; the quotient is exact for each of the
    four accepted rates, the only ones that reach this line. *)
Definition init (aggressiveness rate : Z) : res (vad_handle * VADDetector) :=
  bind (Vad_new aggressiveness) (fun h =>
  if negb (existsb (Z.eqb rate) valid_rates) then Raise ValueError
  else
    let duration := 30 in
    Ret (h, {| sample_rate := rate;
               frame_duration_ms := duration;
               frame_size := (rate * duration / 1000) * 2;
               padding_duration_ms := 300;
               speech_start_frames := 10;
               speech_end_frames := 20 |})).

(** The value of the local [audio_chunk] when line 67 is reached: the
    argument padded with zero bytes or truncated.  Only the local name is
    rebound; the caller's byte string is untouched. *)
Definition fitted_chunk (self : VADDetector) (audio_chunk : bytes) : bytes :=
  if negb (len audio_chunk =? frame_size self) then
    if len audio_chunk <? frame_size self then
      audio_chunk ++ zeros (frame_size self - len audio_chunk)
    else slice_to (frame_size self) audio_chunk
  else audio_chunk.

(** [VADDetector.is_speech] *)
Definition is_speech (self : VADDetector) (h : vad_handle) (audio_chunk : bytes)
  : vad_handle * res bool :=
  let audio_chunk := fitted_chunk self audio_chunk in
  let '(h', r) := Vad_is_speech h audio_chunk (sample_rate self) in
  (h', try_except r (fun _ => Ret false)).

(** The local variables of [detect_speech_segments]. *)
Record locals : Type := {
  ring_buffer : list (bytes * bool);
  triggered : bool;
  voiced_frames : list bytes;
  speech_count : Z;
  silence_count : Z
}.

(** What one iteration of the frame loop does next. *)
Inductive flow : Type :=
| Next (st : locals)
| Return (r : option bytes).

(** The body of the frame loop once the frame is classified (lines 106-148). *)
Definition on_frame (self : VADDetector) (st : locals) (frame : bytes)
  (speech : bool) : flow :=
  if negb (triggered st) then
    let rb := deque_append (speech_end_frames self) (ring_buffer st) (frame, speech) in
    let sc := if speech then speech_count st + 1 else 0 in
    let sl := if speech then 0 else silence_count st + 1 in
    if speech_start_frames self <=? sc then
      Next {| ring_buffer := [];
              triggered := true;
              voiced_frames := voiced_frames st ++ map fst rb;
              speech_count := 0;
              silence_count := 0 |}
    else
      Next {| ring_buffer := rb;
              triggered := false;
              voiced_frames := voiced_frames st;
              speech_count := sc;
              silence_count := sl |}
  else
    let vf := voiced_frames st ++ [frame] in
    let rb := deque_append (speech_end_frames self) (ring_buffer st) (frame, speech) in
    let sl := if speech then 0 else silence_count st + 1 in
    let sc := if speech then speech_count st + 1 else 0 in
    if speech_end_frames self <=? sl then
      let voiced_audio := join (slice_to (- speech_end_frames self) vf) in
      Return (if truthy voiced_audio then Some voiced_audio else None)
    else
      Next {| ring_buffer := rb;
              triggered := true;
              voiced_frames := vf;
              speech_count := sc;
              silence_count := sl |}.

(** The loop [for i in range(num_frames)] over one chunk (lines 98-148). *)
Fixpoint frame_loop (self : VADDetector) (audio_chunk : bytes) (idx : list Z)
  (h : vad_handle) (st : locals) : vad_handle * res flow :=
  match idx with
  | [] => (h, Ret (Next st))
  | i :: idx' =>
      let frame := slice (i * frame_size self) ((i + 1) * frame_size self) audio_chunk in
      if len frame <? frame_size self then frame_loop self audio_chunk idx' h st
      else
        let '(h', r) := is_speech self h frame in
        match r with
        | Raise e => (h', Raise e)
        | Ret speech =>
            match on_frame self st frame speech with
            | Return v => (h', Ret (Return v))
            | Next st' => frame_loop self audio_chunk idx' h' st'
            end
        end
  end.

(** The loop [for audio_chunk in audio_stream] (lines 94-148).  The floor
    division by a zero frame size raises [ZeroDivisionError]. *)
Fixpoint chunk_loop (self : VADDetector) (audio_stream : list bytes)
  (h : vad_handle) (st : locals) : vad_handle * res flow :=
  match audio_stream with
  | [] => (h, Ret (Next st))
  | audio_chunk :: rest =>
      if frame_size self =? 0 then (h, Raise ZeroDivisionError)
      else
        let num_frames := len audio_chunk / frame_size self in
        let '(h', r) := frame_loop self audio_chunk (range num_frames) h st in
        match r with
        | Ret (Next st') => chunk_loop self rest h' st'
        | other => (h', other)
        end
  end.

Definition initial_locals : locals :=
  {| ring_buffer := []; triggered := false; voiced_frames := [];
     speech_count := 0; silence_count := 0 |}.

(** [VADDetector.detect_speech_segments]; the stream is the finite sequence
    of chunks the iterator yields before it is exhausted.  A negative
    [maxlen] makes [collections.deque] raise [ValueError]. *)
Definition detect_speech_segments (self : VADDetector) (h : vad_handle)
  (audio_stream : list bytes) : vad_handle * res (option bytes) :=
  if speech_end_frames self <? 0 then (h, Raise ValueError)
  else
    let '(h', r) := chunk_loop self audio_stream h initial_locals in
    match r with
    | Raise e => (h', Raise e)
    | Ret (Return v) => (h', Ret v)
    | Ret (Next st) =>
        if triggered st && truthy (voiced_frames st)
        then (h', Ret (Some (join (voiced_frames st))))
        else (h', Ret None)
    end.

(** The loop of [filter_silence] (lines 170-186) over the start indices
    [idx]: the segments closed so far and the segment being collected when
    the loop is left.  A frame shorter than the frame size ends the loop. *)
Fixpoint filter_loop (self : VADDetector) (audio_data : bytes) (idx : list Z)
  (h : vad_handle) (segments current_segment : list bytes) (is_speaking : bool)
  : vad_handle * res (list bytes * list bytes) :=
  match idx with
  | [] => (h, Ret (segments, current_segment))
  | i :: idx' =>
      let frame := slice i (i + frame_size self) audio_data in
      if len frame <? frame_size self then (h, Ret (segments, current_segment))
      else
        let '(h', r) := is_speech self h frame in
        match r with
        | Raise e => (h', Raise e)
        | Ret true =>
            filter_loop self audio_data idx' h' segments (current_segment ++ [frame]) true
        | Ret false =>
            if is_speaking && truthy current_segment then
              filter_loop self audio_data idx' h' (segments ++ [join current_segment]) [] false
            else filter_loop self audio_data idx' h' segments current_segment is_speaking
        end
  end.

(** The last lines of [filter_silence] (188-192): the segment still open is
    added. *)
Definition close_segment (collected : list bytes * list bytes) : list bytes :=
  let '(segments, current_segment) := collected in
  if truthy current_segment then segments ++ [join current_segment] else segments.

(** [VADDetector.filter_silence]; [range] raises [ValueError] for a zero
    step. *)
Definition filter_silence (self : VADDetector) (h : vad_handle) (audio_data : bytes)
  : vad_handle * res (list bytes) :=
  if frame_size self =? 0 then (h, Raise ValueError)
  else
    let '(h', r) :=
      filter_loop self audio_data (range_step 0 (len audio_data) (frame_size self))
        h [] [] false in
    match r with
    | Raise e => (h', Raise e)
    | Ret collected => (h', Ret (close_segment collected))
    end.

(** *** The frame sequence of a stream, for stating properties *)

(** The frames that the two loops hand to the classifier, in order: for each
    chunk, the slices of lines 98-99 that pass the length guard of line 101. *)
Definition frames_of_chunk (self : VADDetector) (audio_chunk : bytes) : list bytes :=
  filter (fun frame => negb (len frame <? frame_size self))
    (map (fun i => slice (i * frame_size self) ((i + 1) * frame_size self) audio_chunk)
         (range (len audio_chunk / frame_size self))).

Definition frames_of_stream (self : VADDetector) (audio_stream : list bytes) : list bytes :=
  flat_map (frames_of_chunk self) audio_stream.

(** The boolean a caller of [is_speech] receives ([False] if it raised). *)
Definition verdict (r : res bool) : bool :=
  match r with Ret b => b | Raise _ => false end.

(** Each frame with the classification [is_speech] gives it when the frames
    are submitted in order, starting from handle state [h]. *)
Fixpoint classified (self : VADDetector) (h : vad_handle) (frames : list bytes)
  : list (bytes * bool) :=
  match frames with
  | [] => []
  | frame :: rest =>
      let '(h', r) := is_speech self h frame in
      (frame, verdict r) :: classified self h' rest
  end.

(** The handle state after classifying [frames]. *)
Fixpoint handle_after (self : VADDetector) (h : vad_handle) (frames : list bytes)
  : vad_handle :=
  match frames with
  | [] => h
  | frame :: rest => handle_after self (fst (is_speech self h frame)) rest
  end.

(** The frame loop over already classified frames. *)
Fixpoint run (self : VADDetector) (st : locals) (lab : list (bytes * bool)) : flow :=
  match lab with
  | [] => Next st
  | (frame, speech) :: rest =>
      match on_frame self st frame speech with
      | Next st' => run self st' rest
      | Return v => Return v
      end
  end.

(** The loop of [filter_silence] over already classified frames. *)
Fixpoint collect (lab : list (bytes * bool)) (segments current_segment : list bytes)
  (is_speaking : bool) : list bytes * list bytes :=
  match lab with
  | [] => (segments, current_segment)
  | (frame, true) :: rest => collect rest segments (current_segment ++ [frame]) true
  | (frame, false) :: rest =>
      if is_speaking && truthy current_segment then
        collect rest (segments ++ [join current_segment]) [] false
      else collect rest segments current_segment is_speaking
  end.

(** Lines 150-154: the value returned when the stream is exhausted. *)
Definition at_stream_end (fl : flow) : option bytes :=
  match fl with
  | Return v => v
  | Next st =>
      if triggered st && truthy (voiced_frames st)
      then Some (join (voiced_frames st)) else None
  end.

End Detector.

(** The last [n] elements of a list. *)
Definition lastn {A : Type} (n : nat) (l : list A) : list A :=
  skipn (length l - n) l.

Definition all_speech (lab : list (bytes * bool)) : Prop :=
  Forall (fun p => snd p = true) lab.

Definition all_silence (lab : list (bytes * bool)) : Prop :=
  Forall (fun p => snd p = false) lab.

(** [lab] ends with at least [n] consecutive frames classified as speech. *)
Definition ends_with_speech (n : Z) (lab : list (bytes * bool)) : Prop :=
  exists before run_, lab = before ++ run_ /\ n <= len run_ /\ all_speech run_.

(** The number of frames classified as speech at the start of [lab]. *)
Fixpoint speech_prefix (lab : list (bytes * bool)) : Z :=
  match lab with
  | (_, true) :: rest => 1 + speech_prefix rest
  | _ => 0
  end.

(** The length of the longest run of consecutive speech frames in [lab]. *)
Fixpoint longest_speech_run (lab : list (bytes * bool)) : Z :=
  match lab with
  | [] => 0
  | _ :: rest => Z.max (speech_prefix lab) (longest_speech_run rest)
  end.

(** A turn delimited inside the classified frame sequence [lab]:
    [preroll] is the content of the ring buffer when onset is confirmed (the
    most recent [speech_end_frames] frames, the last of which complete a run
    of [speech_start_frames] speech frames), [body] the frames recorded after
    onset and kept, [trail] the frames recorded after onset and cut off. *)
Record turn (self : VADDetector) (lab : list (bytes * bool)) : Type := {
  before : list (bytes * bool);
  preroll : list (bytes * bool);
  body : list (bytes * bool);
  trail : list (bytes * bool);
  after : list (bytes * bool);
  turn_split : lab = before ++ preroll ++ body ++ trail ++ after;
  turn_preroll : preroll = lastn (Z.to_nat (speech_end_frames self)) (before ++ preroll);
  turn_onset : ends_with_speech (speech_start_frames self) (before ++ preroll)
}.
Arguments before {self lab} t.
Arguments preroll {self lab} t.
Arguments body {self lab} t.
Arguments trail {self lab} t.
Arguments after {self lab} t.

(** The audio of a turn: pre-roll and body, joined. *)
Definition turn_audio {self : VADDetector} {lab : list (bytes * bool)}
  (t : turn self lab) : bytes :=
  join (map fst (preroll t ++ body t)).

(** The turn ended by silence: exactly [speech_end_frames] trailing frames,
    all classified as silence, were recorded and then cut off. *)
Definition ended_by_silence {self : VADDetector} {lab : list (bytes * bool)}
  (t : turn self lab) : Prop :=
  len (trail t) = speech_end_frames self /\ all_silence (trail t).

(** The turn ended because the stream was exhausted: nothing is cut off. *)
Definition ended_by_exhaustion {self : VADDetector} {lab : list (bytes * bool)}
  (t : turn self lab) : Prop :=
  trail t = [] /\ after t = [].

End VAD.

(** ** voice/aec.py *)

(** The operating-system calls of [read_capture]: [time.time()],
    [time.sleep(d)] and [os.read(fd, n)] on the non-blocking FIFO.  Time is
    counted in microseconds.  The laws are the contracts of the calls:
    [os.read] returns at most [n] bytes, the clock does not run backwards,
    and a sleep lasts at least as long as asked. *)
Class Posix : Type := {
  os_state : Type;
  now : os_state -> Z;
  time_sleep : os_state -> Z -> os_state;
  os_read : os_state -> Z -> Z -> os_state * res bytes
}.

Class PosixLaws (P : Posix) : Prop := {
  os_read_at_most : forall s fd n s' data,
    os_read s fd n = (s', Ret data) -> len data <= n;
  os_read_clock : forall s fd n, now s <= now (fst (os_read s fd n));
  time_sleep_clock : forall s d, now s + d <= now (time_sleep s d)
}.

Module AEC.

Definition EAGAIN : Z := 11.
Definition EWOULDBLOCK : Z := 11.

(** The fields of [EcAecConfig] and [EcEchoCanceller] that [read_capture]
    reads. *)
Record EcEchoCanceller : Type := {
  config_enabled : bool;
  _capture_fd : option Z
}.

(** The [enabled] property. *)
Definition enabled (self : EcEchoCanceller) : bool := config_enabled self.

Section Bridge.
Context {P : Posix}.

(** The pause of 2 ms taken when the pipe has nothing to give. *)
Definition pause : Z := 2000.

(** The [while] loop of [read_capture] (lines 159-171), at most [fuel]
    iterations of it; [None] when the iterations are used up. *)
Fixpoint read_loop (fuel : nat) (fd min_bytes timeout_s t0 : Z)
  (chunks : list bytes) (total : Z) (s : os_state) : os_state * option (res bytes) :=
  match fuel with
  | O => (s, None)
  | S fuel' =>
      if (total <? min_bytes) && (now s - t0 <? timeout_s) then
        let '(s1, r) := os_read s fd (min_bytes - total) in
        match r with
        | Ret data =>
            if negb (truthy data) then
              read_loop fuel' fd min_bytes timeout_s t0 chunks total (time_sleep s1 pause)
            else
              read_loop fuel' fd min_bytes timeout_s t0 (chunks ++ [data])
                (total + len data) s1
        | Raise (OSError errno) =>
            if (errno =? EAGAIN) || (errno =? EWOULDBLOCK) then
              read_loop fuel' fd min_bytes timeout_s t0 chunks total (time_sleep s1 pause)
            else (s1, Some (Raise (OSError errno)))
        | Raise e => (s1, Some (Raise e))
        end
      else (s, Some (Ret (join chunks)))
  end.

(** A number of iterations that the loop cannot exceed: every iteration
    either collects at least one byte or sleeps for 2 ms. *)
Definition iterations (min_bytes timeout_s : Z) : nat :=
  S (Z.to_nat (Z.max 0 min_bytes + Z.max 0 ((timeout_s + pause - 1) / pause))).

(** [EcEchoCanceller.read_capture]; [timeout_s] in microseconds. *)
Definition read_capture (self : EcEchoCanceller) (s : os_state)
  (min_bytes timeout_s : Z) : os_state * option (res bytes) :=
  if negb (enabled self) then (s, Some (Ret []))
  else
    match _capture_fd self with
    | None => (s, Some (Raise RuntimeError))
    | Some fd =>
        let t0 := now s in
        read_loop (iterations min_bytes timeout_s) fd min_bytes timeout_s t0 [] 0 s
    end.

End Bridge.

(** The inner loop of [downmix_s16le_interleaved_to_mono] (lines 213-216):
    the sum of the samples of the frame that starts at [base]. *)
Definition frame_sum (samples : list Z) (base channels : Z) : Z :=
  fold_left (fun acc c => acc + nth (Z.to_nat (base + c)) samples 0) (range channels) 0.

(** [int(acc / channels)] *)
Definition average (acc channels : Z) : res Z :=
  bind (PyFloat.true_div acc channels) PyFloat.int_of_float.

(** [downmix_s16le_interleaved_to_mono] *)
Definition downmix_s16le_interleaved_to_mono (pcm : bytes) (channels : Z) : res bytes :=
  if channels <=? 1 then Ret pcm
  else
    let pcm := if negb (len pcm mod 2 =? 0) then slice_to (len pcm - 1) pcm else pcm in
    bind (array_h_frombytes pcm) (fun samples =>
    let frame_count := len samples / channels in
    let out := repeat 0 (Z.to_nat frame_count) in
    bind
      (fold_left
         (fun out i =>
            bind out (fun out =>
            bind (average (frame_sum samples (i * channels) channels) channels) (fun v =>
            bind (array_h_item v) (fun item =>
            Ret (list_set (Z.to_nat i) item out)))))
         (range frame_count) (Ret out))
      array_h_tobytes).

(** Whether [int(acc / channels)] is the quotient rounded toward zero for
    every sum [acc] of [channels] 16-bit samples. *)
Definition average_exact (channels : Z) : bool :=
  all_from (Z.to_nat (channels * 65536)) (- channels * 32768)
    (fun acc =>
       match average acc channels with
       | Ret v => v =? Z.quot acc channels
       | Raise _ => false
       end).

(** The fields of [EcAecConfig] that [read_capture_mono] reads. *)
Record EcAecConfig : Type := {
  capture_channels : Z;
  output_downmix_to_mono : bool
}.

Section Mono.
Context {P : Posix}.

(** [EcEchoCanceller.read_capture_mono] *)
Definition read_capture_mono (self : EcEchoCanceller) (config : EcAecConfig)
  (s : os_state) (frames timeout_s : Z) : os_state * option (res bytes) :=
  let channels := capture_channels config in
  let bytes_per_frame := channels * 2 in
  let '(s', r) := read_capture self s (frames * bytes_per_frame) timeout_s in
  match r with
  | None => (s', None)
  | Some (Raise e) => (s', Some (Raise e))
  | Some (Ret raw) =>
      if negb (truthy raw) then (s', Some (Ret []))
      else if negb (output_downmix_to_mono config) || (channels =? 1) then (s', Some (Ret raw))
      else (s', Some (downmix_s16le_interleaved_to_mono raw channels))
  end.

End Mono.
End AEC.

(** ** voice/asr.py *)

Module ASR.

(** [ASRResult] *)
Record ASRResult : Type := {
  result_text : pyval;
  is_final : bool;
  is_end : bool
}.

Definition FULL_CLIENT_REQUEST : Z := 1.
Definition AUDIO_ONLY_REQUEST : Z := 2.
Definition FULL_SERVER_RESPONSE : Z := 9.
Definition SERVER_ACK : Z := 11.
Definition NO_SERIALIZATION : Z := 0.
Definition JSON_SERIALIZATION : Z := 1.
Definition NO_COMPRESSION : Z := 0.
Definition GZIP_COMPRESSION : Z := 1.

(** The attributes of a [VolcengineASR] instance that the modelled methods
    read. *)
Record VolcengineASR : Type := {
  format : pyval;
  sample_rate : pyval;
  bits : pyval;
  channels : pyval;
  hotwords : list pyval;
  corrections : list (str * str)
}.

(** The message of the dictionary [{"error": "响应数据太短"}]. *)
Definition too_short : str := [21709; 24212; 25968; 25454; 22826; 30701].

(** [text.replace(wrong, correct)]: only a [str] has this method with
    string arguments. *)
Definition replace_method (wrong correct : str) (text_ : pyval) : res pyval :=
  match text_ with
  | PStr s => Ret (PStr (str_replace wrong correct s))
  | PBytes _ => Raise TypeError
  | _ => Raise AttributeError
  end.

(** [_post_correct] *)
Definition _post_correct (self : VolcengineASR) (text_ : pyval) : res pyval :=
  if negb (truth text_) then Ret text_
  else
    fold_left (fun acc wc => bind acc (replace_method (fst wc) (snd wc)))
      (corrections self) (Ret text_).

(** [_build_header] *)
Definition _build_header (msg_type msg_flags : Z) (serialization compression : option Z)
  : res bytes :=
  let serialization :=
    match serialization with
    | Some x => x
    | None => if msg_type =? FULL_CLIENT_REQUEST then JSON_SERIALIZATION else NO_SERIALIZATION
    end in
  let compression :=
    match compression with Some x => x | None => GZIP_COMPRESSION end in
  bytes_of_ints [17;
                 Z.lor (Z.shiftl msg_type 4) msg_flags;
                 Z.lor (Z.shiftl serialization 4) compression;
                 0].

(** The dictionary [payload] of [_build_full_request], given the hot-word
    context string. *)
Definition full_request_payload (self : VolcengineASR) (request_id : str)
  (end_window_size : Z) (context_str : str) : pyval :=
  PDict
    [(text "user", PDict [(text "uid", PStr request_id)]);
     (text "audio",
      PDict [(text "format", format self);
             (text "rate", sample_rate self);
             (text "bits", bits self);
             (text "channel", channels self);
             (text "codec", PStr (text "raw"))]);
     (text "request",
      PDict [(text "model_name", PStr (text "bigmodel"));
             (text "enable_punc", PBool true);
             (text "enable_itn", PBool true);
             (text "enable_ddc", PBool true);
             (text "result_type", PStr (text "single"));
             (text "end_window_size", PInt end_window_size);
             (text "show_utterances", PBool true);
             (text "context", PStr context_str)])].

Section Recognizer.
Context {J : Json} {G : Gzip}.

(** The hot-word context string of [_build_full_request]. *)
Definition hotword_context (self : VolcengineASR) : res str :=
  let hotwords_list := map (fun w => PDict [(text "word", w)]) (hotwords self) in
  json_dumps true (PDict [(text "hotwords", PList hotwords_list)]).

(** [_build_full_request] *)
Definition _build_full_request (self : VolcengineASR) (request_id : str)
  (end_window_size : Z) : res bytes :=
  bind (hotword_context self) (fun context_str =>
  let payload := full_request_payload self request_id end_window_size context_str in
  bind (json_dumps true payload) (fun dumped =>
  bind (utf8_encode dumped) (fun payload_bytes =>
  let compressed := gzip_compress payload_bytes in
  bind (_build_header FULL_CLIENT_REQUEST 0 (Some JSON_SERIALIZATION)
          (Some GZIP_COMPRESSION)) (fun header =>
  bind (to_bytes4 (len compressed)) (fun payload_size =>
  Ret (header ++ payload_size ++ compressed)))))).

(** [_build_audio_request] *)
Definition _build_audio_request (audio_data : bytes) (is_last : bool) : res bytes :=
  let compressed_audio := gzip_compress audio_data in
  let msg_flags := if is_last then 2 else 0 in
  bind (_build_header AUDIO_ONLY_REQUEST msg_flags (Some NO_SERIALIZATION)
          (Some GZIP_COMPRESSION)) (fun header =>
  bind (to_bytes4 (len compressed_audio)) (fun payload_size =>
  Ret (header ++ payload_size ++ compressed_audio))).

(** The brace-matching loop of [_parse_response] (lines 203-212): the value
    of [json_end] when the loop is left. *)
Fixpoint match_braces (chars : str) (i brace_count json_end : Z) : Z :=
  match chars with
  | [] => json_end
  | char :: rest =>
      if char =? 123 then match_braces rest (i + 1) (brace_count + 1) json_end
      else if char =? 125 then
        if brace_count - 1 =? 0 then i + 1
        else match_braces rest (i + 1) (brace_count - 1) json_end
      else match_braces rest (i + 1) brace_count json_end
  end.

(** First strategy of [_parse_response] (lines 199-215): the JSON text found
    by brace matching.  [None] when the [try] block does not return. *)
Definition by_braces (data : bytes) : option pyval :=
  let json_start := find [x7b] data in
  if negb (json_start =? -1) then
    match
      bind (utf8_decode true (slice_from json_start data)) (fun json_data =>
      let json_end := match_braces json_data 0 0 json_start in
      json_loads (slice_to json_end json_data))
    with
    | Ret v => Some v
    | Raise _ => None
    end
  else None.

Definition gzip_magic : bytes := [x1f; x8b; x08].

(** Second strategy (lines 218-225): decompression from the gzip magic on. *)
Definition by_gzip_magic (data : bytes) : option pyval :=
  let gzip_pos := find gzip_magic data in
  if negb (gzip_pos =? -1) then
    match
      bind (gzip_decompress (slice_from gzip_pos data)) (fun decompressed =>
      bind (utf8_decode false decompressed) json_loads)
    with
    | Ret v => Some v
    | Raise _ => None
    end
  else None.

(** Third strategy (lines 228-239): the payload found through the header. *)
Definition by_header (data : bytes) (header_size : Z) : option pyval :=
  if header_size + 4 <? len data then
    let payload_size := int_from_bytes (slice header_size (header_size + 4) data) in
    if (payload_size <? len data) && (0 <? payload_size) then
      let payload := slice (header_size + 4) (header_size + 4 + payload_size) data in
      match
        bind (gzip_decompress payload) (fun decompressed =>
        bind (utf8_decode false decompressed) json_loads)
      with
      | Ret v => Some v
      | Raise _ =>
          match bind (utf8_decode false payload) json_loads with
          | Ret v => Some v
          | Raise _ => None
          end
      end
    else None
  else None.

(** [_parse_response] *)
Definition _parse_response (data : bytes) : pyval :=
  if len data <? 4 then PDict [(text "error", PStr too_short)]
  else
    let msg_type := Z.land (byte_at 1 data) 15 in
    let header_size := Z.land (Z.shiftr (byte_at 1 data) 4) 15 * 4 in
    match by_braces data with
    | Some v => v
    | None =>
        match by_gzip_magic data with
        | Some v => v
        | None =>
            match by_header data header_size with
            | Some v => v
            | None =>
                PDict [(text "msg_type", PInt msg_type);
                       (text "raw", PBytes (slice_from header_size data))]
            end
        end
    end.

End Recognizer.

(** [d.get(key, default)] on a dictionary. *)
Definition get (key : str) (default : pyval) (d : list (str * pyval)) : pyval :=
  match lookup key d with Some v => v | None => default end.

(** The loops over utterances and over result items (lines 260-264 and
    267-271): [text] and [is_final] after the loop. *)
Fixpoint scan_items (items : list pyval) (text_ : pyval) (final : bool) : pyval * bool :=
  match items with
  | [] => (text_, final)
  | PDict utt :: rest =>
      match lookup (text "text") utt with
      | Some t =>
          scan_items rest t
            (if truth (get (text "definite") (PBool false) utt) then true else final)
      | None => scan_items rest text_ final
      end
  | _ :: rest => scan_items rest text_ final
  end.

(** The texts of the items that are dictionaries with a ["text"] key, in
    order. *)
Definition item_texts (items : list pyval) : list pyval :=
  flat_map (fun item =>
              match item with
              | PDict utt => match lookup (text "text") utt with Some t => [t] | None => [] end
              | _ => []
              end) items.

(** Whether an item is a dictionary with a ["text"] key and a true
    ["definite"] entry. *)
Definition definite_text (item : pyval) : bool :=
  match item with
  | PDict utt =>
      match lookup (text "text") utt with
      | Some _ => truth (get (text "definite") (PBool false) utt)
      | None => false
      end
  | _ => false
  end.

(** [_extract_result] *)
Definition _extract_result (self : VolcengineASR) (resp_data : pyval)
  : res (option ASRResult) :=
  match resp_data with
  | PDict d =>
      bind
        match lookup (text "result") d with
        | Some (PDict result) =>
            let text_ := get (text "text") (PStr []) result in
            bind (iterate (get (text "utterances") (PList []) result)) (fun utterances =>
            Ret (scan_items utterances text_ false))
        | Some (PList result) => Ret (scan_items result (PStr []) false)
        | _ => Ret (PStr [], false)
        end
        (fun '(text_, final) =>
           if truth text_ then
             bind (_post_correct self text_) (fun corrected =>
             Ret (Some {| result_text := corrected;
                          is_final := final;
                          is_end := final |}))
           else Ret None)
  | _ => Ret None
  end.

(** What a call of [recognize_realtime] leaves behind: the value returned,
    whether [stop_event] was set, and the results passed to [on_result]. *)
Record outcome : Type := {
  returned : option pyval;
  stop_event : bool;
  delivered : list ASRResult
}.

Section Realtime.
Context {J : Json} {G : Gzip}.

(** The task [receive_results] (lines 355-379) on the events [sock], with
    [final_text] and the results delivered so far.  Each receive waits 15 s. *)
Fixpoint receive_results (self : VolcengineASR) (on_result : ASRResult -> res unit)
  (sock : list arrival) (final_text : pyval) (seen : list ASRResult) : outcome :=
  let leave (stop : bool) (final_text : pyval) (seen : list ASRResult) :=
    {| returned := Some final_text; stop_event := stop; delivered := seen |} in
  match sock with
  | [] => leave true final_text seen
  | a :: rest =>
      match wait_for_recv 15 a with
      | Raise TimeoutError => leave true final_text seen
      | Raise _ => leave false final_text seen
      | Ret response =>
          match _extract_result self (_parse_response response) with
          | Raise _ => leave false final_text seen
          | Ret None => receive_results self on_result rest final_text seen
          | Ret (Some result) =>
              let final_text := result_text result in
              let seen := seen ++ [result] in
              match on_result result with
              | Raise _ => leave false final_text seen
              | Ret _ =>
                  if is_final result then leave true final_text seen
                  else receive_results self on_result rest final_text seen
              end
          end
      end
  end.

(** [recognize_realtime]: [connected] tells whether the connection opens
    and the first packet is sent; [sock] is what the server then sends.  The
    task [send_audio] only writes to the connection and swallows its own
    errors, so the value returned is decided by what is received.  Every
    exception is caught by the handler of line 395, which returns [None];
    closing the connection in the [finally] block is taken not to raise. *)
Definition recognize_realtime (self : VolcengineASR) (connected : bool)
  (sock : list arrival) (on_result : ASRResult -> res unit) (request_id : str)
  (end_window_size : Z) : outcome :=
  let failed := {| returned := None; stop_event := false; delivered := [] |} in
  if negb connected then failed
  else
    match _build_full_request self request_id end_window_size with
    | Raise _ => failed
    | Ret full_request =>
        match recv 10 sock with
        | (Raise _, _) => failed
        | (Ret response, sock') =>
            let resp_data := _parse_response response in
            match contains (text "error") resp_data with
            | Raise _ => failed
            | Ret true => failed
            | Ret false => receive_results self on_result sock' (PStr []) []
            end
        end
    end.

End Realtime.

(** The chunks that [recognize] sends (lines 447-451), each with its
    [is_last] flag. *)
Definition chunk_size : Z := 3200.

Definition audio_chunks (audio_data : bytes) : list (bytes * bool) :=
  map (fun i => (slice i (i + chunk_size) audio_data, len audio_data <=? i + chunk_size))
      (range_step 0 (len audio_data) chunk_size).

(** [result_text.strip()]: only [str] and [bytes] have the method. *)
Definition strip_method (v : pyval) : res pyval :=
  match v with
  | PStr s => Ret (PStr (str_strip s))
  | PBytes b => Ret (PBytes (bytes_strip b))
  | _ => Raise AttributeError
  end.

Section Batch.
Context {J : Json} {G : Gzip}.

(** The requests built for the chunks; building one may raise. *)
Fixpoint audio_requests (chunks : list (bytes * bool)) : res (list bytes) :=
  match chunks with
  | [] => Ret []
  | (chunk, is_last) :: rest =>
      bind (_build_audio_request chunk is_last) (fun audio_request =>
      bind (audio_requests rest) (fun later => Ret (audio_request :: later)))
  end.

(** The receive loop of [recognize] (lines 454-468) on the events [sock]:
    [result_text] when the loop is left, or the exception that leaves the
    [try] block.  Each receive waits 30 s. *)
Fixpoint receive_batch (self : VolcengineASR) (sock : list arrival) (text_ : pyval)
  : res pyval :=
  match sock with
  | [] => Ret text_
  | a :: rest =>
      match wait_for_recv 30 a with
      | Raise TimeoutError => Ret text_
      | Raise ConnectionClosed => Ret text_
      | Raise e => Raise e
      | Ret response =>
          match _extract_result self (_parse_response response) with
          | Raise e => Raise e
          | Ret None => receive_batch self rest text_
          | Ret (Some result) =>
              if is_final result then Ret (result_text result)
              else receive_batch self rest (result_text result)
          end
      end
  end.

(** [recognize]: [connected] tells whether the connection opens and every
    send succeeds; [sock] is what the server sends.  An exception inside the
    [try] block gives the empty string; [strip] is called outside of it. *)
Definition recognize (self : VolcengineASR) (connected : bool) (sock : list arrival)
  (request_id : str) (audio_data : bytes) : res pyval :=
  let empty := Ret (PStr []) in
  if negb connected then empty
  else
    match _build_full_request self request_id 500 with
    | Raise _ => empty
    | Ret full_request =>
        match recv 10 sock with
        | (Raise _, _) => empty
        | (Ret response, sock') =>
            match contains (text "error") (_parse_response response) with
            | Raise _ => empty
            | Ret true => empty
            | Ret false =>
                match audio_requests (audio_chunks audio_data) with
                | Raise _ => empty
                | Ret _ =>
                    match receive_batch self sock' (PStr []) with
                    | Raise _ => empty
                    | Ret result_text => strip_method result_text
                    end
                end
            end
        end
    end.

End Batch.

(** *** Conditions on the libraries, for stating properties *)

Section Codecs.
Context {J : Json} {G : Gzip}.

(** [json] and UTF-8 invert each other on [payload]: [payload_bytes] is
    [json.dumps(payload).encode('utf-8')], and decoding and parsing it gives
    [payload] back. *)
Definition json_round_trip (payload : pyval) (payload_bytes : bytes) : Prop :=
  exists dumped,
    json_dumps true payload = Ret dumped /\
    utf8_encode dumped = Ret payload_bytes /\
    utf8_decode false payload_bytes = Ret dumped /\
    json_loads dumped = Ret payload.

(** [gzip.compress(data)] is a gzip member (magic bytes, method, flags) of
    less than [0x1f8b08] bytes that [gzip.decompress] turns back into [data]. *)
Definition gzip_round_trip (data : bytes) : Prop :=
  gzip_decompress (gzip_compress data) = Ret data /\
  (exists flags rest, gzip_compress data = x1f :: x8b :: x08 :: flags :: rest) /\
  len (gzip_compress data) < 2067208.

(** [data] is not the UTF-8 encoding of a JSON text. *)
Definition not_json (data : bytes) : Prop :=
  exists e, bind (utf8_decode false data) json_loads = Raise e.

End Codecs.

(** [parsed] gives the byte string [audio] back: it is that byte string, or a
    dictionary with that byte string as a value. *)
Definition recovers_audio (parsed : pyval) (audio : bytes) : Prop :=
  parsed = PBytes audio \/
  exists items key, parsed = PDict items /\ lookup key items = Some (PBytes audio).

End ASR.

(** ** voice/tts.py *)

Module TTS.

Definition MSG_FULL_CLIENT_REQUEST : Z := 1.
Definition MSG_AUDIO_RESPONSE : Z := 11.
Definition MSG_ERROR_RESPONSE : Z := 15.

(** What the body of the receive loop decides for one response: go on with
    the loop, after yielding a chunk or not, or leave it. *)
Inductive step : Type :=
| Continue (chunk : option bytes)
| Break.

(** [(response[1] >> 4) & 0x0F] *)
Definition msg_type_of (response : bytes) : Z :=
  Z.land (Z.shiftr (byte_at 1 response) 4) 15.

(** [response[1] & 0x0F] *)
Definition msg_flags_of (response : bytes) : Z :=
  Z.land (byte_at 1 response) 15.

(** [int.from_bytes(response[4:8], 'big')], the event number of a frame. *)
Definition event_of (response : bytes) : Z :=
  int_from_bytes (slice 4 8 response).

(** The session envelope after the header and the event (lines 238-254 and
    295-311): the length of the session id, the session id, the length of
    the payload, and the payload, which is returned.  [None] stands for the
    two [continue] statements taken when a length field is missing. *)
Definition payload_of (response : bytes) : option bytes :=
  let offset := 4 + 4 in
  if len response <? offset + 4 then None
  else
    let session_id_len := int_from_bytes (slice offset (offset + 4) response) in
    let offset := offset + 4 + session_id_len in
    if len response <? offset + 4 then None
    else
      let payload_size := int_from_bytes (slice offset (offset + 4) response) in
      let offset := offset + 4 in
      Some (slice offset (offset + payload_size) response).

Section Synthesizer.
Context {J : Json}.

(** Lines 287-329, the branch for a full-JSON response: whether the [try]
    block reaches the [break] of event 152.  The payload must decode and
    parse before the event is looked at; any exception is caught and the
    loop goes on.  For event 350 the text is only printed. *)
Definition on_json_response (response : bytes) : step :=
  let event := event_of response in
  match payload_of response with
  | None => Continue None
  | Some json_data =>
      match bind (utf8_decode false json_data) json_loads with
      | Raise _ => Continue None
      | Ret resp_json =>
          if event =? 350 then Continue None
          else if event =? 152 then Break
          else Continue None
      end
  end.

(** The body of the receive loop for one response (lines 222-329). *)
Definition on_response (response : bytes) : step :=
  if len response <? 4 then Continue None
  else
    let msg_type := msg_type_of response in
    if msg_type =? MSG_AUDIO_RESPONSE then
      match payload_of response with
      | None => Continue None
      | Some audio_data =>
          if truthy audio_data then Continue (Some audio_data) else Continue None
      end
    else if msg_type =? MSG_ERROR_RESPONSE then Break
    else if msg_type =? 9 then on_json_response response
    else Continue None.

(** The receive loop (lines 218-335) on the events [sock]: the chunks it
    yields, in order, and the events it leaves unread.  A timeout of 30 s,
    a closed connection or an error ends the loop. *)
Fixpoint receive_loop (sock : list arrival) : list bytes * list arrival :=
  match sock with
  | [] => ([], [])
  | a :: rest =>
      match wait_for_recv 30 a with
      | Raise _ => ([], rest)
      | Ret response =>
          match on_response response with
          | Break => ([], rest)
          | Continue None => receive_loop rest
          | Continue (Some chunk) =>
              let '(chunks, unread) := receive_loop rest in (chunk :: chunks, unread)
          end
      end
  end.

(** [synthesize_stream]: the chunks the generator yields when it is run to
    its end.  The two acknowledgements are awaited for 10 s each and not
    inspected.  A connection that cannot be opened, or that fails while a
    request is sent, ends the generator without a chunk ([connected] is
    false). *)
Definition synthesize_stream (connected : bool) (sock : list arrival) : list bytes :=
  if negb connected then []
  else
    match recv 10 sock with
    | (Raise _, _) => []
    | (Ret _, sock1) =>
        match recv 10 sock1 with
        | (Raise _, _) => []
        | (Ret _, sock2) => fst (receive_loop sock2)
        end
    end.

End Synthesizer.

(** The attributes of a [VolcengineTTS] instance that the request builders
    read; the three ratios are numbers, taken as floats. *)
Record VolcengineTTS : Type := {
  speaker : pyval;
  speed_ratio : PrimFloat.float;
  volume_ratio : PrimFloat.float;
  pitch_ratio : PrimFloat.float
}.

(** [_build_header] *)
Definition _build_header (msg_type msg_flags serialization compression : Z) : res bytes :=
  bytes_of_ints [17;
                 Z.lor (Z.shiftl msg_type 4) msg_flags;
                 Z.lor (Z.shiftl serialization 4) compression;
                 0].

(** [int((ratio - 1.0) * 100)] *)
Definition rate (ratio : PrimFloat.float) : res Z :=
  PyFloat.int_of_float (PrimFloat.mul (PrimFloat.sub ratio PyFloat.one) PyFloat.hundred).

(** The dictionary [payload] of [_build_start_session_request]. *)
Definition start_session_payload (self : VolcengineTTS) : res pyval :=
  bind (rate (speed_ratio self)) (fun speech_rate =>
  bind (rate (volume_ratio self)) (fun loudness_rate =>
  bind (rate (pitch_ratio self)) (fun pitch_rate =>
  Ret (PDict
    [(text "user", PDict [(text "uid", PStr (text "robot_user"))]);
     (text "event", PInt 100);
     (text "req_params",
      PDict [(text "speaker", speaker self);
             (text "audio_params",
              PDict [(text "format", PStr (text "pcm"));
                     (text "sample_rate", PInt 16000);
                     (text "speech_rate", PInt speech_rate);
                     (text "loudness_rate", PInt loudness_rate);
                     (text "pitch_rate", PInt pitch_rate)])])])))).

Section Requests.
Context {J : Json}.

(** [_build_start_connection_request] *)
Definition _build_start_connection_request : res bytes :=
  bind (json_dumps false (PDict [])) (fun dumped =>
  bind (utf8_encode dumped) (fun payload_bytes =>
  bind (_build_header 1 4 1 0) (fun header =>
  bind (to_bytes4 1) (fun event_num =>
  bind (to_bytes4 (len payload_bytes)) (fun payload_size =>
  Ret (header ++ event_num ++ payload_size ++ payload_bytes)))))).

(** The lines that the three session requests have in common (113-124,
    135-145, 153-162): the payload is serialized, and the frame is the
    header, the event number, the session id and the payload, each of the
    last two with its length. *)
Definition session_request (event : Z) (request_id : str) (payload : pyval) : res bytes :=
  bind (json_dumps false payload) (fun dumped =>
  bind (utf8_encode dumped) (fun payload_bytes =>
  bind (_build_header 1 4 1 0) (fun header =>
  bind (to_bytes4 event) (fun event_num =>
  bind (utf8_encode request_id) (fun session_id_bytes =>
  bind (to_bytes4 (len session_id_bytes)) (fun session_id_len =>
  bind (to_bytes4 (len payload_bytes)) (fun payload_size =>
  Ret (header ++ event_num ++ session_id_len ++ session_id_bytes
       ++ payload_size ++ payload_bytes)))))))).

(** [_build_start_session_request] *)
Definition _build_start_session_request (self : VolcengineTTS) (request_id : str)
  : res bytes :=
  bind (start_session_payload self) (session_request 100 request_id).

(** The dictionary [payload] of [_build_text_request]. *)
Definition text_payload (text_ : str) : pyval :=
  PDict [(text "req_params", PDict [(text "text", PStr text_)])].

(** [_build_text_request] *)
Definition _build_text_request (text_ request_id : str) : res bytes :=
  session_request 200 request_id (text_payload text_).

(** [_build_finish_request] *)
Definition _build_finish_request (request_id : str) : res bytes :=
  session_request 102 request_id (PDict []).

(** [synthesize] *)
Definition synthesize (connected : bool) (sock : list arrival) : option bytes :=
  let audio_chunks := synthesize_stream connected sock in
  if truthy audio_chunks then Some (join audio_chunks) else None.

End Requests.
End TTS.

(** *** Frames and audio, for stating properties *)

(** What the receive loop reads in [frame] (lines 222-254): the message type
    and flags, the event, and the payload after the session id, for a
    request that carries the dictionary [payload] in session [request_id]. *)
Definition reads_as {J : Json} (frame : bytes) (event : Z) (request_id : str)
  (payload : pyval) : Prop :=
  TTS.msg_type_of frame = TTS.MSG_FULL_CLIENT_REQUEST /\
  TTS.msg_flags_of frame = 4 /\
  TTS.event_of frame = event /\
  exists dumped payload_bytes session_id_bytes,
    json_dumps false payload = Ret dumped /\
    utf8_encode dumped = Ret payload_bytes /\
    utf8_encode request_id = Ret session_id_bytes /\
    TTS.payload_of frame = Some payload_bytes /\
    len frame = 16 + len session_id_bytes + len payload_bytes.

(** [chunk] is audio that [sock] delivers: the payload, not empty, of an
    audio response that arrives within 30 s of the one before. *)
Definition audio_of (sock : list arrival) (chunk : bytes) : Prop :=
  truthy chunk = true /\
  exists delay response,
    In (delay, Message response) sock /\ delay < 30000 /\
    TTS.msg_type_of response = TTS.MSG_AUDIO_RESPONSE /\ TTS.payload_of response = Some chunk.


(** ** voice/dialog_manager.py *)

(** The objects the dialog engine is built with: the audio stream and the
    audio device, the synthesizer (a call gives the chunks that
    [synthesize_stream] yields when run to its end), the conversation
    collaborator and the speaker identification.  [world] is the state of
    all of them. *)
Class Collaborators : Type := {
  world : Type;
  embedding : Type;
  stream_read : world -> world * res bytes;
  play_audio : world -> bytes -> world * res unit;
  tts_synthesize_stream : world -> str -> world * list bytes;
  brain_chat : world -> str -> option str -> world * res str;
  speaker_identify : world -> bytes -> world * res (option str * option embedding);
  get_speaker_name : world -> str -> world * res (option str);
  update_embedding : world -> str -> embedding -> world * res unit;
  set_pending_registration : world -> embedding -> world * res unit
}.

Module Dialog.

(** What the engine does to its collaborators, in order. *)
Inductive event : Type :=
| Spoke (text_ : str) (interruptible : bool)
| Chat (user_input : str) (speaker : option str)
| Played (buffer : bytes)
| Read
| Classified (frame : bytes) (speech : bool).

(** The results of the [read] calls are not recorded; their number is. *)
Definition count_reads (tr : list event) : Z :=
  len (filter (fun e => match e with Read => true | _ => false end) tr).

(** The verdicts of the classifier, in order. *)
Definition verdicts (tr : list event) : list bool :=
  flat_map (fun e => match e with Classified _ b => [b] | _ => [] end) tr.

(** The calls of the conversation collaborator, in order. *)
Definition chats (tr : list event) : list (str * option str) :=
  flat_map (fun e => match e with Chat t s => [(t, s)] | _ => [] end) tr.

(** The texts spoken, each with its [interruptible] flag. *)
Definition spoken (tr : list event) : list (str * bool) :=
  flat_map (fun e => match e with Spoke t i => [(t, i)] | _ => [] end) tr.

(** The buffers written to the audio device, in order. *)
Definition played (tr : list event) : list bytes :=
  flat_map (fun e => match e with Played b => [b] | _ => [] end) tr.

(** The number of [true] in a list of verdicts. *)
Definition count_speech (vs : list bool) : Z := len (filter (fun b => b) vs).

(** The attributes of a [VoiceDialogManager] that the modelled methods use.
    [wait_after_speak] is in milliseconds; [audio_stream] and [speaker_id]
    tell whether the attribute is set (not [None]). *)
Record VoiceDialogManager : Type := {
  vad : VAD.VADDetector;
  is_speaking : bool;
  running : bool;
  wait_after_speak : Z;
  _aec_enabled : bool;
  current_speaker_name : option str;
  awaiting_name : bool;
  audio_stream : bool;
  speaker_id : bool;
  exit_keywords : list str
}.

(** The exit keywords of [__init__]: 退出, 再见, 拜拜, 结束. *)
Definition default_exit_keywords : list str :=
  [[36864; 20986]; [20877; 35265]; [25308; 25308]; [32467; 26463]].

(** The literal 再见 that [_handle_speech] sends to the collaborator. *)
Definition farewell_prompt : str := [20877; 35265].

(** The question of [_ask_for_name]. *)
Definition ask_text : str :=
  [20320; 22909; 21568; 126; 25105; 22909; 20687; 36824; 19981; 35748; 35782;
   20320; 21602; 65292; 20320; 21483; 20160; 20040; 21517; 23383; 21568; 65311].

Section Engine.
Context {W : WebRtcVad} {C : Collaborators}.

(** The engine with what surrounds it. *)
Record state : Type := {
  self : VoiceDialogManager;
  env : world;
  vad_state : vad_handle;
  trace : list event
}.

Definition note (e : event) (st : state) : state :=
  {| self := self st; env := env st; vad_state := vad_state st;
     trace := trace st ++ [e] |}.

Definition with_self (f : VoiceDialogManager -> VoiceDialogManager) (st : state) : state :=
  {| self := f (self st); env := env st; vad_state := vad_state st; trace := trace st |}.

Definition with_env (w : world) (st : state) : state :=
  {| self := self st; env := w; vad_state := vad_state st; trace := trace st |}.

Definition set_is_speaking (b : bool) (m : VoiceDialogManager) : VoiceDialogManager :=
  {| vad := vad m; is_speaking := b; running := running m;
     wait_after_speak := wait_after_speak m; _aec_enabled := _aec_enabled m;
     current_speaker_name := current_speaker_name m; awaiting_name := awaiting_name m;
     audio_stream := audio_stream m; speaker_id := speaker_id m;
     exit_keywords := exit_keywords m |}.

Definition set_running (b : bool) (m : VoiceDialogManager) : VoiceDialogManager :=
  {| vad := vad m; is_speaking := is_speaking m; running := b;
     wait_after_speak := wait_after_speak m; _aec_enabled := _aec_enabled m;
     current_speaker_name := current_speaker_name m; awaiting_name := awaiting_name m;
     audio_stream := audio_stream m; speaker_id := speaker_id m;
     exit_keywords := exit_keywords m |}.

Definition set_wait_after_speak (ms : Z) (m : VoiceDialogManager) : VoiceDialogManager :=
  {| vad := vad m; is_speaking := is_speaking m; running := running m;
     wait_after_speak := ms; _aec_enabled := _aec_enabled m;
     current_speaker_name := current_speaker_name m; awaiting_name := awaiting_name m;
     audio_stream := audio_stream m; speaker_id := speaker_id m;
     exit_keywords := exit_keywords m |}.

Definition set_current_speaker_name (n : option str) (m : VoiceDialogManager)
  : VoiceDialogManager :=
  {| vad := vad m; is_speaking := is_speaking m; running := running m;
     wait_after_speak := wait_after_speak m; _aec_enabled := _aec_enabled m;
     current_speaker_name := n; awaiting_name := awaiting_name m;
     audio_stream := audio_stream m; speaker_id := speaker_id m;
     exit_keywords := exit_keywords m |}.

Definition set_awaiting_name (b : bool) (m : VoiceDialogManager) : VoiceDialogManager :=
  {| vad := vad m; is_speaking := is_speaking m; running := running m;
     wait_after_speak := wait_after_speak m; _aec_enabled := _aec_enabled m;
     current_speaker_name := current_speaker_name m; awaiting_name := b;
     audio_stream := audio_stream m; speaker_id := speaker_id m;
     exit_keywords := exit_keywords m |}.

(** [self.audio_stream.read()] *)
Definition read (st : state) : state * res bytes :=
  let '(w, r) := stream_read (env st) in
  (note Read (with_env w st), r).

(** [self.vad.is_speech(frame)] *)
Definition classify (frame : bytes) (st : state) : state * bool :=
  let '(h, r) := VAD.is_speech (vad (self st)) (vad_state st) frame in
  ({| self := self st; env := env st; vad_state := h;
      trace := trace st ++ [Classified frame (VAD.verdict r)] |},
   VAD.verdict r).

(** The loop over the frames of a chunk, in [_barge_in_check] (lines
    597-603) and in [read_and_check] (lines 174-182): frames shorter than
    [frame_size] are skipped, the others are counted and classified. *)
Fixpoint vote (frame_size : Z) (chunk : bytes) (starts : list Z)
  (votes total : Z) (st : state) : state * (Z * Z) :=
  match starts with
  | [] => (st, (votes, total))
  | i :: starts' =>
      let frame := slice i (i + frame_size) chunk in
      if len frame <? frame_size then vote frame_size chunk starts' votes total st
      else
        let '(st', speech) := classify frame st in
        vote frame_size chunk starts' (if speech then votes + 1 else votes) (total + 1) st'
  end.

(** One turn of the loop [for _ in range(2)] of [_barge_in_check]. *)
Definition sample_once (votes total : Z) (st : state) : state * (Z * Z) :=
  let '(st1, r) := read st in
  let chunk := match r with Ret c => c | Raise _ => [] end in
  if negb (truthy chunk) then (st1, (votes, total))
  else
    let frame_size := VAD.frame_size (vad (self st1)) in
    if frame_size =? 0 then
      let '(st2, speech) := classify chunk st1 in
      (st2, (if speech then votes + 1 else votes, total + 1))
    else vote frame_size chunk (range_step 0 (len chunk) frame_size) votes total st1.

(** The two reads of [_barge_in_check]: the votes for speech and the number
    of frames sampled. *)
Definition sample (st : state) : state * (Z * Z) :=
  let '(st1, (votes, total)) := sample_once 0 0 st in
  sample_once votes total st1.

(** [_barge_in_check] *)
Definition _barge_in_check (st : state) : state * bool :=
  if negb (audio_stream (self st)) then (st, false)
  else
    let '(st', (votes, total)) := sample st in
    if total =? 0 then (st', false)
    else (st', PyFloat.ratio_at_least votes total PyFloat.six_tenths).

(** How the loop of [_speak] ends. *)
Inductive speak_end : Type :=
| Completed (buffer : bytes)
| Interrupted (unread : list bytes)
| Failed (e : exn).

Definition buffer_threshold : Z := 3200.

(** The loop [async for chunk in self.tts.synthesize_stream(text)] of
    [_speak] (lines 533-544) over the chunks still to come. *)
Fixpoint speak_loop (interruptible : bool) (chunks : list bytes) (buffer : bytes)
  (st : state) : state * speak_end :=
  match chunks with
  | [] => (st, Completed buffer)
  | chunk :: rest =>
      let buffer := buffer ++ chunk in
      if buffer_threshold <=? len buffer then
        let '(w, r) := play_audio (env st) buffer in
        let st1 := note (Played buffer) (with_env w st) in
        match r with
        | Raise e => (st1, Failed e)
        | Ret _ =>
            if interruptible && _aec_enabled (self st1) && audio_stream (self st1) then
              let '(st2, barge_in) := _barge_in_check st1 in
              if barge_in then (st2, Interrupted rest)
              else speak_loop interruptible rest [] st2
            else speak_loop interruptible rest [] st1
        end
      else speak_loop interruptible rest buffer st
  end.

(** [_speak] *)
Definition _speak (text_ : str) (interruptible : bool) (st : state) : state :=
  let st := note (Spoke text_ interruptible) (with_self (set_is_speaking true) st) in
  let '(w, chunks) := tts_synthesize_stream (env st) text_ in
  let '(st1, ending) := speak_loop interruptible chunks [] (with_env w st) in
  let st2 :=
    match ending with
    | Completed buffer =>
        if truthy buffer then
          let '(w', _) := play_audio (env st1) buffer in
          note (Played buffer) (with_env w' st1)
        else st1
    | Interrupted _ => st1
    | Failed _ => st1
    end in
  with_self (fun m =>
    set_wait_after_speak (if _aec_enabled m then 0 else 500) (set_is_speaking false m)) st2.

(** [_ask_for_name] *)
Definition _ask_for_name (st : state) : state :=
  _speak ask_text false (with_self (set_awaiting_name true) st).

(** [_identify_speaker] *)
Definition _identify_speaker (audio_data : bytes) (st : state)
  : state * res (option str) :=
  if negb (speaker_id (self st)) || negb (truthy audio_data) then
    (st, Ret (current_speaker_name (self st)))
  else
    let '(w, r) := speaker_identify (env st) audio_data in
    let st := with_env w st in
    match r with
    | Raise e => (st, Raise e)
    | Ret (speaker_id_result, emb) =>
        match speaker_id_result with
        | Some id =>
            if truthy id then
              let '(w1, rn) := get_speaker_name (env st) id in
              let st := with_env w1 st in
              match rn with
              | Raise e => (st, Raise e)
              | Ret name =>
                  let st := with_self (set_current_speaker_name name) st in
                  match emb with
                  | Some e =>
                      let '(w2, ru) := update_embedding (env st) id e in
                      match ru with
                      | Raise x => (with_env w2 st, Raise x)
                      | Ret _ => (with_env w2 st, Ret name)
                      end
                  | None => (st, Ret name)
                  end
              end
            else
              match emb with
              | Some e =>
                  let '(w1, rp) := set_pending_registration (env st) e in
                  match rp with
                  | Raise x => (with_env w1 st, Raise x)
                  | Ret _ => (_ask_for_name (with_env w1 st), Ret None)
                  end
              | None => (st, Ret (current_speaker_name (self st)))
              end
        | None =>
            match emb with
            | Some e =>
                let '(w1, rp) := set_pending_registration (env st) e in
                match rp with
                | Raise x => (with_env w1 st, Raise x)
                | Ret _ => (_ask_for_name (with_env w1 st), Ret None)
                end
            | None => (st, Ret (current_speaker_name (self st)))
            end
        end
    end.

(** [self.brain.chat(user_input, speaker=speaker, debug=False)] *)
Definition chat (user_input : str) (speaker : option str) (st : state) : state * res str :=
  let '(w, r) := brain_chat (env st) user_input speaker in
  (note (Chat user_input speaker) (with_env w st), r).

(** [_handle_name_response], the handler of the answer to [_ask_for_name],
    is not modelled: it is a parameter of what follows. *)
Variable _handle_name_response : str -> bytes -> state -> state * res unit.

(** [_handle_speech] *)
Definition _handle_speech (user_text : str) (audio_data : bytes) (st : state)
  : state * res unit :=
  if awaiting_name (self st) then _handle_name_response user_text audio_data st
  else
    let '(st1, r) := _identify_speaker audio_data st in
    match r with
    | Raise e => (st1, Raise e)
    | Ret speaker_name =>
        if awaiting_name (self st1) then (st1, Ret tt)
        else if existsb (fun kw => str_contains kw user_text) (exit_keywords (self st1)) then
          let '(st2, rf) := chat farewell_prompt speaker_name st1 in
          match rf with
          | Raise e => (st2, Raise e)
          | Ret farewell =>
              let st3 := _speak farewell false st2 in
              (with_self (set_running false) st3, Ret tt)
          end
        else
          let '(st2, rr) := chat user_text speaker_name st1 in
          match rr with
          | Raise e => (st2, Raise e)
          | Ret reply => (_speak reply true st2, Ret tt)
          end
    end.

(** [_main_loop], as a consumer of recognized turns: each element of
    [turns] is the pair [(final_text, audio_data)] that one iteration gets
    from [_wait_for_speech_start] and [_realtime_recognize] (line 139).  An
    exception of the iteration is caught and the loop goes on. *)
Fixpoint _main_loop (turns : list (str * bytes)) (st : state) : state :=
  match turns with
  | [] => st
  | (final_text, audio_data) :: rest =>
      if running (self st) then
        if negb (truthy final_text) then _main_loop rest st
        else _main_loop rest (fst (_handle_speech final_text audio_data st))
      else st
  end.

(** [read_and_check] of [_wait_for_speech_start] (lines 164-187). *)
Definition read_and_check (st : state) : state * (option bytes * bool) :=
  if negb (audio_stream (self st)) then (st, (None, false))
  else
    let '(st1, r) := read st in
    match r with
    | Raise _ => (st1, (None, false))
    | Ret chunk =>
        let frame_size := VAD.frame_size (vad (self st1)) in
        if (frame_size =? 0) || (frame_size <=? 0) then
          let '(st2, speech) := classify chunk st1 in (st2, (Some chunk, speech))
        else
          let '(st2, (speech_votes, total_votes)) :=
            vote frame_size chunk (range_step 0 (len chunk) frame_size) 0 0 st1 in
          (st2, (Some chunk,
                 (0 <? total_votes)
                 && PyFloat.ratio_at_least speech_votes total_votes PyFloat.one_half))
    end.

Definition pre_buffer_max : Z := 15.
Definition speech_threshold : Z := 3.

(** How [_wait_for_speech_start] stands after some iterations. *)
Inductive waited : Type :=
| Started (pre_buffer : list bytes)
| NotStarted
| Listening (pre_buffer : list bytes) (consecutive_speech : Z).

(** The loop of [_wait_for_speech_start] (lines 194-215), at most [fuel]
    iterations of it. *)
Fixpoint wait_loop (fuel : nat) (pre_buffer : list bytes) (consecutive_speech : Z)
  (st : state) : state * waited :=
  match fuel with
  | O => (st, Listening pre_buffer consecutive_speech)
  | S fuel' =>
      if running (self st) && negb (is_speaking (self st)) then
        let '(st1, (chunk, speech)) := read_and_check st in
        let pre_buffer :=
          match chunk with
          | Some c =>
              if truthy c then
                let appended := pre_buffer ++ [c] in
                if pre_buffer_max <? len appended then tl appended else appended
              else pre_buffer
          | None => pre_buffer
          end in
        if speech then
          let consecutive_speech := consecutive_speech + 1 in
          if speech_threshold <=? consecutive_speech then (st1, Started pre_buffer)
          else wait_loop fuel' pre_buffer consecutive_speech st1
        else wait_loop fuel' pre_buffer 0 st1
      else (st, NotStarted)
  end.

(** [_wait_for_speech_start] *)
Definition _wait_for_speech_start (fuel : nat) (st : state) : state * waited :=
  wait_loop fuel [] 0 st.

(** The start of [_realtime_recognize] (lines 232-239): the audio buffer and
    the queue of the recognizer after the pre-buffer is put in. *)
Definition preload (pre_buffer : list bytes) : list bytes * list bytes :=
  fold_left (fun '(audio_buffer, audio_queue) chunk =>
               (audio_buffer ++ [chunk], audio_queue ++ [chunk]))
    pre_buffer ([], []).

End Engine.
End Dialog.

(** ** voice/aec.py: [write_playback] *)

(** The operating-system calls of [write_playback]: [os.write(fd, data)]
    on the playback FIFO, which returns the number of bytes it took, and
    [time.sleep(d)], with [d] in microseconds. *)
Class PosixOut : Type := {
  out_state : Type;
  os_write : out_state -> Z -> bytes -> out_state * res Z;
  out_sleep : out_state -> Z -> out_state
}.

Module AECOut.

Section Writer.
Context {P : PosixOut}.

(** The operating system with the calls of [os.write] made so far, each
    with its argument and its outcome. *)
Record state : Type := {
  os : out_state;
  writes : list (bytes * res Z)
}.

(** The pause of 1 ms taken when the pipe is full. *)
Definition pause : Z := 1000.

(** The [while] loop of [write_playback] (lines 138-148), at most [fuel]
    iterations of it; [None] when the iterations are used up. *)
Fixpoint write_loop (fuel : nat) (fd : Z) (view : bytes) (offset : Z) (st : state)
  : state * option (res unit) :=
  match fuel with
  | O => (st, None)
  | S fuel' =>
      if offset <? len view then
        let data := slice_from offset view in
        let '(s1, r) := os_write (os st) fd data in
        let st1 := {| os := s1; writes := writes st ++ [(data, r)] |} in
        match r with
        | Ret written =>
            if written <=? 0 then (st1, Some (Ret tt))
            else write_loop fuel' fd view (offset + written) st1
        | Raise (OSError errno) =>
            if (errno =? AEC.EAGAIN) || (errno =? AEC.EWOULDBLOCK) then
              write_loop fuel' fd view offset
                {| os := out_sleep s1 pause; writes := writes st1 |}
            else (st1, Some (Raise (OSError errno)))
        | Raise e => (st1, Some (Raise e))
        end
      else (st, Some (Ret tt))
  end.

(** [EcEchoCanceller.write_playback]; [_playback_fd] is the attribute of
    that name. *)
Definition write_playback (fuel : nat) (self : AEC.EcEchoCanceller)
  (_playback_fd : option Z) (pcm_mono_s16le : bytes) (st : state)
  : state * option (res unit) :=
  if negb (AEC.enabled self) then (st, Some (Ret tt))
  else
    match _playback_fd with
    | None => (st, Some (Raise RuntimeError))
    | Some fd => write_loop fuel fd pcm_mono_s16le 0 st
    end.

(** The bytes that the pipe took in the calls [ws]: of each call that
    returned a count, that many bytes from the front of its argument. *)
Definition accepted (ws : list (bytes * res Z)) : bytes :=
  flat_map (fun w => match snd w with
                     | Ret written => firstn (Z.to_nat written) (fst w)
                     | Raise _ => []
                     end) ws.

End Writer.
End AECOut.

(** ** voice/audio_device.py *)

(** The calls that [play_audio] makes: on an output stream of PyAudio
    ([pyaudio.open(..., output=True)], [write], [stop_stream], [close]) and
    on the echo-cancellation bridge ([write_playback]).  Each call may
    raise; [device] is the state of the sound card and of the bridge. *)
Class PyAudio : Type := {
  device : Type;
  stream_open : device -> device * res unit;
  stream_write : device -> bytes -> device * res unit;
  stream_stop : device -> device * res unit;
  stream_close : device -> device * res unit;
  aec_write_playback : device -> bytes -> device * res unit
}.

Module Audio.

(** What [play_audio] does to the device, in order. *)
Inductive call : Type :=
| Opened
| Wrote (chunk : bytes)
| Stopped
| StreamClosed
| Handed (pcm : bytes).

Definition chunk_size : Z := 1024.

Section Device.
Context {D : PyAudio}.

(** The device with the calls made so far. *)
Record state : Type := {
  dev : device;
  calls : list call
}.

Definition after (c : call) (d : device) (st : state) : state :=
  {| dev := d; calls := calls st ++ [c] |}.

(** The loop of [play_audio] (lines 159-161) over the indices still to
    come; a write that raises ends it. *)
Fixpoint write_chunks (audio_data : bytes) (starts : list Z) (st : state)
  : state * res unit :=
  match starts with
  | [] => (st, Ret tt)
  | i :: rest =>
      let chunk := slice i (i + chunk_size) audio_data in
      let '(d, r) := stream_write (dev st) chunk in
      match r with
      | Raise e => (after (Wrote chunk) d st, Raise e)
      | Ret _ => write_chunks audio_data rest (after (Wrote chunk) d st)
      end
  end.

(** [AudioDevice.play_audio]; [aec] is the attribute [self.aec]. *)
Definition play_audio (aec : option AEC.EcEchoCanceller) (audio_data : bytes) (st : state)
  : state * res unit :=
  if match aec with Some bridge => AEC.enabled bridge | None => false end then
    let '(d, r) := aec_write_playback (dev st) audio_data in
    (after (Handed audio_data) d st, r)
  else
    let '(d, r) := stream_open (dev st) in
    let st := after Opened d st in
    match r with
    | Raise e => (st, Raise e)
    | Ret _ =>
        let '(st, r) :=
          write_chunks audio_data (range_step 0 (len audio_data) chunk_size) st in
        match r with
        | Raise e => (st, Raise e)
        | Ret _ =>
            let '(d, r) := stream_stop (dev st) in
            let st := after Stopped d st in
            match r with
            | Raise e => (st, Raise e)
            | Ret _ =>
                let '(d, r) := stream_close (dev st) in
                (after StreamClosed d st, r)
            end
        end
    end.

(** The bytes given to the device by the calls [cs], in order. *)
Definition written (cs : list call) : bytes :=
  flat_map (fun c => match c with Wrote chunk => chunk | Handed pcm => pcm | _ => [] end) cs.

End Device.
End Audio.

(** ** voice/tts.py: [speak] and [speak_stream]

    The two methods play what [synthesize] and [synthesize_stream] give on
    the attribute [audio_device], an [AudioDevice] or [None]; an
    [AudioDevice] is given by its attribute [aec]. *)

Module TTSPlayer.

Definition buffer_threshold : Z := 3200.

Section Player.
Context {J : Json} {D : PyAudio}.

(** The loop of [speak_stream] (lines 408-413) over the chunks still to
    come: the buffer that is left, or the exception of [play_audio]. *)
Fixpoint stream_loop (aec : option AEC.EcEchoCanceller) (chunks : list bytes)
  (buffer : bytes) (st : Audio.state) : Audio.state * res bytes :=
  match chunks with
  | [] => (st, Ret buffer)
  | chunk :: rest =>
      let buffer := buffer ++ chunk in
      if buffer_threshold <=? len buffer then
        let '(st1, r) := Audio.play_audio aec buffer st in
        match r with
        | Raise e => (st1, Raise e)
        | Ret _ => stream_loop aec rest [] st1
        end
      else stream_loop aec rest buffer st
  end.

(** [speak_stream] *)
Definition speak_stream (audio_device : option (option AEC.EcEchoCanceller))
  (connected : bool) (sock : list arrival) (st : Audio.state) : Audio.state * res unit :=
  match audio_device with
  | None => (st, Ret tt)
  | Some aec =>
      let '(st1, r) := stream_loop aec (TTS.synthesize_stream connected sock) [] st in
      match r with
      | Raise e => (st1, Raise e)
      | Ret buffer =>
          if truthy buffer then Audio.play_audio aec buffer st1 else (st1, Ret tt)
      end
  end.

(** [speak] *)
Definition speak (audio_device : option (option AEC.EcEchoCanceller))
  (connected : bool) (sock : list arrival) (st : Audio.state) : Audio.state * res unit :=
  match audio_device with
  | None => (st, Ret tt)
  | Some aec =>
      match TTS.synthesize connected sock with
      | Some audio_data =>
          if truthy audio_data then Audio.play_audio aec audio_data st else (st, Ret tt)
      | None => (st, Ret tt)
      end
  end.

End Player.
End TTSPlayer.

(** ** voice/speaker_id.py *)

(** What the registry of voices takes from outside the repository: the
    vectors of numpy with the cosine similarity
    [np.dot(a, b) / (np.linalg.norm(a) * np.linalg.norm(b))], which raises
    when the shapes do not fit; the voice encoder behind
    [extract_embedding], which gives [None] whenever it fails; and
    [str.lower()], which follows the Unicode tables. *)
Class VoiceEncoder : Type := {
  ndarray : Type;
  cosine : ndarray -> ndarray -> res PrimFloat.float;
  extract_embedding : bytes -> Z -> option ndarray;
  lower : str -> str
}.

Module Speaker.

Section Identifier.
Context {E : VoiceEncoder}.

(** The attributes of a [SpeakerIdentifier] that the modelled methods use. *)
Record SpeakerIdentifier : Type := {
  speakers : list (str * pyval);
  embeddings : list (str * ndarray);
  similarity_threshold : PrimFloat.float;
  current_speaker : option str;
  pending_registration : option ndarray
}.

Definition set_current_speaker (id : option str) (self : SpeakerIdentifier)
  : SpeakerIdentifier :=
  {| speakers := speakers self; embeddings := embeddings self;
     similarity_threshold := similarity_threshold self;
     current_speaker := id; pending_registration := pending_registration self |}.

(** The loop over the registered embeddings in [identify] (lines 172-180). *)
Fixpoint best_match_loop (embedding : ndarray) (items : list (str * ndarray))
  (best_match : option str) (best_similarity : PrimFloat.float)
  : res (option str * PrimFloat.float) :=
  match items with
  | [] => Ret (best_match, best_similarity)
  | (speaker_id, registered_emb) :: rest =>
      bind (cosine embedding registered_emb) (fun similarity =>
      if PrimFloat.ltb best_similarity similarity then
        best_match_loop embedding rest (Some speaker_id) similarity
      else best_match_loop embedding rest best_match best_similarity)
  end.

(** [identify] *)
Definition identify (self : SpeakerIdentifier) (audio_data : bytes) (sample_rate : Z)
  : SpeakerIdentifier * res (option str * PrimFloat.float * option ndarray) :=
  match extract_embedding audio_data sample_rate with
  | None => (self, Ret (None, PyFloat.zero, None))
  | Some embedding =>
      if negb (truthy (embeddings self)) then (self, Ret (None, PyFloat.zero, Some embedding))
      else
        match best_match_loop embedding (embeddings self) None PyFloat.zero with
        | Raise e => (self, Raise e)
        | Ret (best_match, best_similarity) =>
            if PrimFloat.leb (similarity_threshold self) best_similarity then
              (set_current_speaker best_match self,
               Ret (best_match, best_similarity, Some embedding))
            else (self, Ret (None, best_similarity, Some embedding))
        end
  end.

(** The loop that looks for an unused id in [register] (lines 205-207), at
    most [fuel] tests of it; [None] when they are used up. *)
Fixpoint unused_id (fuel : nat) (speakers_ : list (str * pyval)) (base_id speaker_id : str)
  (counter : Z) : option str :=
  match fuel with
  | O => None
  | S fuel' =>
      if has_key speaker_id speakers_ then
        unused_id fuel' speakers_ base_id (base_id ++ [95] ++ str_of_int counter) (counter + 1)
      else Some speaker_id
  end.

(** The dictionary [speaker_info] of [register]; the two time stamps are
    read from the clock one after the other. *)
Definition speaker_info (name registered_at updated_at : str)
  (extra_info : option (list (str * pyval))) : list (str * pyval) :=
  let info := [(text "name", PStr name);
               (text "registered_at", PStr registered_at);
               (text "updated_at", PStr updated_at);
               (text "interaction_count", PInt 1)] in
  match extra_info with
  | Some extra => if truthy extra then update info extra else info
  | None => info
  end.

(** [register].  [saved] is the outcome of [_save_embedding], which writes
    a file; [_save_speakers] catches what it raises. *)
Definition register (fuel : nat) (self : SpeakerIdentifier) (name : str)
  (embedding : ndarray) (extra_info : option (list (str * pyval)))
  (registered_at updated_at : str) (saved : res unit)
  : option (SpeakerIdentifier * res str) :=
  let base_id := str_replace [32] [95] (lower name) in
  match unused_id fuel (speakers self) base_id base_id 1 with
  | None => None
  | Some speaker_id =>
      let info := speaker_info name registered_at updated_at extra_info in
      let speakers_ := setitem speaker_id (PDict info) (speakers self) in
      let embeddings_ := setitem speaker_id embedding (embeddings self) in
      match saved with
      | Raise e =>
          Some ({| speakers := speakers_; embeddings := embeddings_;
                   similarity_threshold := similarity_threshold self;
                   current_speaker := current_speaker self;
                   pending_registration := pending_registration self |}, Raise e)
      | Ret _ =>
          Some ({| speakers := speakers_; embeddings := embeddings_;
                   similarity_threshold := similarity_threshold self;
                   current_speaker := Some speaker_id;
                   pending_registration := None |}, Ret speaker_id)
      end
  end.

(** [get_speaker_name]: [self.speakers[speaker_id].get("name")]; only a
    dictionary has the method. *)
Definition get_speaker_name (self : SpeakerIdentifier) (speaker_id : str) : res pyval :=
  match getitem speaker_id (speakers self) with
  | Some (PDict info) =>
      Ret (match getitem (text "name") info with Some v => v | None => PNone end)
  | Some _ => Raise AttributeError
  | None => Ret PNone
  end.

(** [get_speaker_info] *)
Definition get_speaker_info (self : SpeakerIdentifier) (speaker_id : str) : option pyval :=
  getitem speaker_id (speakers self).

(** [delete_speaker].  [removed] is the outcome of looking for the file of
    the embedding and removing it. *)
Definition delete_speaker (self : SpeakerIdentifier) (speaker_id : str)
  (removed : res unit) : SpeakerIdentifier * res bool :=
  if negb (has_key speaker_id (speakers self)) then (self, Ret false)
  else
    let speakers_ := delitem speaker_id (speakers self) in
    let embeddings_ :=
      if has_key speaker_id (embeddings self) then delitem speaker_id (embeddings self)
      else embeddings self in
    let self' := {| speakers := speakers_; embeddings := embeddings_;
                    similarity_threshold := similarity_threshold self;
                    current_speaker := current_speaker self;
                    pending_registration := pending_registration self |} in
    match removed with
    | Raise e => (self', Raise e)
    | Ret _ => (self', Ret true)
    end.

(** [set_pending_registration] *)
Definition set_pending_registration (self : SpeakerIdentifier) (embedding : ndarray)
  : SpeakerIdentifier :=
  {| speakers := speakers self; embeddings := embeddings self;
     similarity_threshold := similarity_threshold self;
     current_speaker := current_speaker self;
     pending_registration := Some embedding |}.

(** [has_pending_registration] *)
Definition has_pending_registration (self : SpeakerIdentifier) : bool :=
  match pending_registration self with Some _ => true | None => false end.

(** [cancel_registration] *)
Definition cancel_registration (self : SpeakerIdentifier) : SpeakerIdentifier :=
  {| speakers := speakers self; embeddings := embeddings self;
     similarity_threshold := similarity_threshold self;
     current_speaker := current_speaker self;
     pending_registration := None |}.

(** [complete_registration] *)
Definition complete_registration (fuel : nat) (self : SpeakerIdentifier) (name : str)
  (extra_info : option (list (str * pyval))) (registered_at updated_at : str)
  (saved : res unit) : option (SpeakerIdentifier * res (option str)) :=
  match pending_registration self with
  | None => Some (self, Ret None)
  | Some embedding =>
      match register fuel self name embedding extra_info registered_at updated_at saved with
      | None => None
      | Some (self', Raise e) => Some (self', Raise e)
      | Some (self', Ret speaker_id) => Some (self', Ret (Some speaker_id))
      end
  end.

(** The ids that the loop of [register] tries, in order: the base id, then
    the base id followed by [_1], [_2] and so on. *)
Definition candidate (base_id : str) (k : nat) : str :=
  match k with
  | O => base_id
  | S _ => base_id ++ [95] ++ str_of_int (Z.of_nat k)
  end.

End Identifier.
End Speaker.

(** ** Reference implementations of the interfaces

    Small executable implementations, used to run the model on concrete
    inputs. *)

Module Ref.

(** A classifier with the calling convention of webrtcvad: the mode must be
    in 0..3, a frame must last 10, 20 or 30 ms at the given rate (16-bit
    mono), otherwise the call raises; a frame counts as speech when its first
    sample is not zero.  The handle counts the calls. *)
Definition level_is_speech (h : Z) (buf : bytes) (rate : Z) : Z * res bool :=
  (h + 1,
   if existsb (fun ms => len buf =? rate * ms / 1000 * 2) [10; 20; 30] then
     match buf with
     | lo :: hi :: _ => Ret (negb (Byte.eqb lo x00 && Byte.eqb hi x00))
     | _ => Raise ExternalError
     end
   else Raise ExternalError).

#[export] Instance level_vad : WebRtcVad := {|
  vad_handle := Z;
  Vad_new := fun mode => if (0 <=? mode) && (mode <=? 3) then Ret 0 else Raise ValueError;
  Vad_is_speech := level_is_speech
|}.

(** The detector that [VADDetector(3, 16000)] builds. *)
Definition detector16k : VAD.VADDetector :=
  {| VAD.sample_rate := 16000;
     VAD.frame_duration_ms := 30;
     VAD.frame_size := 960;
     VAD.padding_duration_ms := 300;
     VAD.speech_start_frames := 10;
     VAD.speech_end_frames := 20 |}.

(** One 30 ms frame at 16 kHz: 480 samples of amplitude [a]. *)
Definition tone (a : byte) : bytes := concat (repeat [a; x00] 480).
Definition speech_frame : bytes := tone x40.
Definition silent_frame : bytes := tone x00.

(** A FIFO and a clock.  [arrivals] lists what each coming [os.read] finds:
    bytes written by the other end since the last call (added to the bytes
    still [pending] in the pipe) or an error number.  A read on an empty pipe
    fails with [EAGAIN]; every call takes [tick] microseconds. *)
Record fifo : Type := {
  clock : Z;
  pending : bytes;
  arrivals : list (bytes + Z)
}.

Definition tick : Z := 10.
Definition EINVAL : Z := 22.

Definition fifo_read (s : fifo) (fd n : Z) : fifo * res bytes :=
  let '(arrived, later) :=
    match arrivals s with
    | [] => (inl [], [])
    | a :: later => (a, later)
    end in
  match arrived with
  | inr errno =>
      ({| clock := clock s + tick; pending := pending s; arrivals := later |},
       Raise (OSError errno))
  | inl new =>
      if n <? 0 then
        ({| clock := clock s + tick; pending := pending s ++ new; arrivals := later |},
         Raise (OSError EINVAL))
      else
      let buffered := pending s ++ new in
      if truthy buffered then
        ({| clock := clock s + tick;
            pending := skipn (Z.to_nat n) buffered;
            arrivals := later |},
         Ret (firstn (Z.to_nat n) buffered))
      else
        ({| clock := clock s + tick; pending := []; arrivals := later |},
         Raise (OSError AEC.EAGAIN))
  end.

Definition fifo_sleep (s : fifo) (d : Z) : fifo :=
  {| clock := clock s + Z.max 0 d + tick; pending := pending s; arrivals := arrivals s |}.

#[export] Instance fifo_posix : Posix := {|
  os_state := fifo;
  now := clock;
  time_sleep := fifo_sleep;
  os_read := fifo_read
|}.

(** *** JSON *)

(** A JSON printer and parser with the conventions of the [json] module
    (separators [", "] and [": "], escapes, [ensure_ascii]). *)

Definition hex_digit (d : Z) : Z := if d <? 10 then 48 + d else 87 + d.

(** [\uXXXX] *)
Definition u_escape (c : Z) : str :=
  [92; 117; hex_digit (c / 4096); hex_digit ((c / 256) mod 16);
   hex_digit ((c / 16) mod 16); hex_digit (c mod 16)].

Definition escape_char (ensure_ascii : bool) (c : Z) : str :=
  if c =? 34 then [92; 34]
  else if c =? 92 then [92; 92]
  else if c =? 10 then [92; 110]
  else if c =? 13 then [92; 114]
  else if c =? 9 then [92; 116]
  else if c =? 8 then [92; 98]
  else if c =? 12 then [92; 102]
  else if c <? 32 then u_escape c
  else if negb ensure_ascii then [c]
  else if c <? 127 then [c]
  else if c <? 65536 then u_escape c
  else u_escape (55296 + (c - 65536) / 1024) ++ u_escape (56320 + (c - 65536) mod 1024).

Definition quote (ensure_ascii : bool) (s : str) : str :=
  [34] ++ flat_map (escape_char ensure_ascii) s ++ [34].

Fixpoint digits_of (fuel : nat) (n : Z) (acc : str) : str :=
  match fuel with
  | O => acc
  | S fuel' =>
      if n <? 10 then (48 + n) :: acc
      else digits_of fuel' (n / 10) ((48 + n mod 10) :: acc)
  end.

Definition decimal (z : Z) : str :=
  if z <? 0 then 45 :: digits_of (S (Z.to_nat (Z.log2 (- z)))) (- z) []
  else digits_of (S (Z.to_nat (Z.log2 z))) z [].

Fixpoint dumps (ensure_ascii : bool) (v : pyval) : res str :=
  match v with
  | PNone => Ret (text "null")
  | PBool true => Ret (text "true")
  | PBool false => Ret (text "false")
  | PInt z => Ret (decimal z)
  | PFloat _ literal => Ret literal
  | PStr s => Ret (quote ensure_ascii s)
  | PBytes _ => Raise TypeError
  | PList items =>
      let fix go (first : bool) (l : list pyval) : res str :=
        match l with
        | [] => Ret []
        | x :: rest =>
            bind (dumps ensure_ascii x) (fun sx =>
            bind (go false rest) (fun sr =>
            Ret ((if first then [] else [44; 32]) ++ sx ++ sr)))
        end in
      bind (go true items) (fun body => Ret ([91] ++ body ++ [93]))
  | PDict items =>
      let fix go (first : bool) (l : list (str * pyval)) : res str :=
        match l with
        | [] => Ret []
        | (k, x) :: rest =>
            bind (dumps ensure_ascii x) (fun sx =>
            bind (go false rest) (fun sr =>
            Ret ((if first then [] else [44; 32])
                 ++ quote ensure_ascii k ++ [58; 32] ++ sx ++ sr)))
        end in
      bind (go true items) (fun body => Ret ([123] ++ body ++ [125]))
  end.

Definition is_ws (c : Z) : bool :=
  (c =? 32) || (c =? 9) || (c =? 10) || (c =? 13).

Fixpoint skip_ws (s : str) : str :=
  match s with
  | c :: s' => if is_ws c then skip_ws s' else s
  | [] => []
  end.

Definition hex_value (c : Z) : option Z :=
  if (48 <=? c) && (c <=? 57) then Some (c - 48)
  else if (97 <=? c) && (c <=? 102) then Some (c - 87)
  else if (65 <=? c) && (c <=? 70) then Some (c - 55)
  else None.

Definition hex4 (a b c d : Z) : option Z :=
  match hex_value a, hex_value b, hex_value c, hex_value d with
  | Some x, Some y, Some z, Some w => Some (x * 4096 + y * 256 + z * 16 + w)
  | _, _, _, _ => None
  end.

(** The characters of a string literal, after the opening quote. *)
Fixpoint parse_chars (s : str) (acc : str) : option (str * str) :=
  match s with
  | [] => None
  | c :: s' =>
      if c =? 34 then Some (rev acc, s')
      else if c =? 92 then
        match s' with
        | e :: s'' =>
            if e =? 117 then
              match s'' with
              | a :: b :: c' :: d :: s3 =>
                  match hex4 a b c' d with
                  | Some u => parse_chars s3 (u :: acc)
                  | None => None
                  end
              | _ => None
              end
            else
              let plain (x : Z) := parse_chars s'' (x :: acc) in
              if e =? 34 then plain 34
              else if e =? 92 then plain 92
              else if e =? 47 then plain 47
              else if e =? 98 then plain 8
              else if e =? 102 then plain 12
              else if e =? 110 then plain 10
              else if e =? 114 then plain 13
              else if e =? 116 then plain 9
              else None
        | [] => None
        end
      else if c <? 32 then None
      else parse_chars s' (c :: acc)
  end.

(** A pair of surrogates read from two [\u] escapes is one character. *)
Fixpoint join_surrogates (s : str) : str :=
  match s with
  | hi :: s' =>
      match s' with
      | lo :: s'' =>
          if (55296 <=? hi) && (hi <=? 56319) && (56320 <=? lo) && (lo <=? 57343)
          then (65536 + (hi - 55296) * 1024 + (lo - 56320)) :: join_surrogates s''
          else hi :: join_surrogates s'
      | [] => [hi]
      end
  | [] => []
  end.

Definition is_digit (c : Z) : bool := (48 <=? c) && (c <=? 57).

Fixpoint take_digits (s : str) (acc : str) : str * str :=
  match s with
  | c :: s' => if is_digit c then take_digits s' (c :: acc) else (rev acc, s)
  | [] => (rev acc, [])
  end.

Definition number_value (ds : str) : Z :=
  fold_left (fun acc d => acc * 10 + (d - 48)) ds 0.

(** A number: an [int] when it has neither fraction nor exponent. *)
Definition parse_number (s : str) : option (pyval * str) :=
  let '(neg, s1) := match s with
                    | 45 :: s' => (true, s')
                    | _ => (false, s)
                    end in
  let '(int_part, s2) := match s1 with
                         | 48 :: s' => ([48], s')
                         | _ => take_digits s1 []
                         end in
  match int_part with
  | [] => None
  | _ =>
      let '(frac, s3) := match s2 with
                         | 46 :: s' =>
                             let '(ds, r) := take_digits s' [] in
                             match ds with [] => ([], s2) | _ => (46 :: ds, r) end
                         | _ => ([], s2)
                         end in
      let '(expo, s4) :=
        match s3 with
        | e :: s' =>
            if (e =? 101) || (e =? 69) then
              let '(sign, s'') := match s' with
                                  | 43 :: r => ([43], r)
                                  | 45 :: r => ([45], r)
                                  | _ => ([], s')
                                  end in
              let '(ds, r) := take_digits s'' [] in
              match ds with [] => ([], s3) | _ => (e :: sign ++ ds, r) end
            else ([], s3)
        | [] => ([], s3)
        end in
      match frac, expo with
      | [], [] =>
          let n := number_value int_part in
          Some (PInt (if neg then - n else n), s4)
      | _, _ =>
          let literal := (if neg then [45] else []) ++ int_part ++ frac ++ expo in
          let nonzero := existsb (fun d => (49 <=? d) && (d <=? 57)) (int_part ++ frac) in
          Some (PFloat nonzero literal, s4)
      end
  end.

(** A dictionary keeps one entry per key: a repeated key takes the place of
    the first one with the last value. *)
Fixpoint dict_set (key : str) (v : pyval) (items : list (str * pyval))
  : list (str * pyval) :=
  match items with
  | [] => [(key, v)]
  | (k, x) :: rest =>
      if str_eqb k key then (k, v) :: rest else (k, x) :: dict_set key v rest
  end.

Fixpoint parse_value (fuel : nat) (s : str) : option (pyval * str) :=
  match fuel with
  | O => None
  | S fuel' =>
      let fix elements (n : nat) (s : str) (acc : list pyval)
        : option (pyval * str) :=
        match n with
        | O => None
        | S n' =>
            match parse_value fuel' s with
            | None => None
            | Some (v, r) =>
                match skip_ws r with
                | 44 :: r' => elements n' r' (v :: acc)
                | 93 :: r' => Some (PList (rev (v :: acc)), r')
                | _ => None
                end
            end
        end in
      let fix members (n : nat) (s : str) (acc : list (str * pyval))
        : option (pyval * str) :=
        match n with
        | O => None
        | S n' =>
            match skip_ws s with
            | 34 :: r =>
                match parse_chars r [] with
                | None => None
                | Some (k, r1) =>
                    match skip_ws r1 with
                    | 58 :: r2 =>
                        match parse_value fuel' r2 with
                        | None => None
                        | Some (v, r3) =>
                            let acc' := dict_set (join_surrogates k) v acc in
                            match skip_ws r3 with
                            | 44 :: r4 => members n' r4 acc'
                            | 125 :: r4 => Some (PDict acc', r4)
                            | _ => None
                            end
                        end
                    | _ => None
                    end
                end
            | _ => None
            end
        end in
      match skip_ws s with
      | [] => None
      | c :: r =>
          if c =? 123 then
            match skip_ws r with
            | 125 :: r' => Some (PDict [], r')
            | _ => members (length s) r []
            end
          else if c =? 91 then
            match skip_ws r with
            | 93 :: r' => Some (PList [], r')
            | _ => elements (length s) r []
            end
          else if c =? 34 then
            match parse_chars r [] with
            | Some (x, r') => Some (PStr (join_surrogates x), r')
            | None => None
            end
          else if str_prefix (text "true") (c :: r) then Some (PBool true, skipn 3 r)
          else if str_prefix (text "false") (c :: r) then Some (PBool false, skipn 4 r)
          else if str_prefix (text "null") (c :: r) then Some (PNone, skipn 3 r)
          else if str_prefix (text "NaN") (c :: r) then
            Some (PFloat true (text "NaN"), skipn 2 r)
          else if str_prefix (text "Infinity") (c :: r) then
            Some (PFloat true (text "Infinity"), skipn 7 r)
          else if str_prefix (text "-Infinity") (c :: r) then
            Some (PFloat true (text "-Infinity"), skipn 8 r)
          else parse_number (c :: r)
      end
  end.

Definition loads (s : str) : res pyval :=
  match parse_value (S (length s)) s with
  | Some (v, r) => match skip_ws r with [] => Ret v | _ => Raise JSONDecodeError end
  | None => Raise JSONDecodeError
  end.

#[export] Instance json : Json := {|
  json_dumps := dumps;
  json_loads := loads
|}.

(** *** gzip *)

(** A gzip codec whose deflate stream is one block of literals in the fixed
    Huffman code (RFC 1951, 3.2.6), the form zlib gives to short inputs
    without repetitions.  The compressor writes a member that every gzip
    reader accepts; the decompressor reads members of this form and checks
    the CRC-32 and the length. *)

Definition byte_of (z : Z) : byte :=
  match Byte.of_N (Z.to_N (z mod 256)) with Some b => b | None => x00 end.

(** [n] on [k] bytes, least significant first. *)
Fixpoint le_bytes (k : nat) (n : Z) : bytes :=
  match k with
  | O => []
  | S k' => byte_of n :: le_bytes k' (n / 256)
  end.

Definition le_value (data : bytes) : Z :=
  fold_right (fun b acc => Z.of_N (Byte.to_N b) + 256 * acc) 0 data.

Fixpoint crc_bits (k : nat) (c : Z) : Z :=
  match k with
  | O => c
  | S k' =>
      crc_bits k' (if Z.odd c then Z.lxor (Z.shiftr c 1) 3988292384 else Z.shiftr c 1)
  end.

Definition crc32 (data : bytes) : Z :=
  Z.lxor
    (fold_left (fun c b => crc_bits 8 (Z.lxor c (Z.of_N (Byte.to_N b)))) data 4294967295)
    4294967295.

(** The [k] low bits of [code], most significant first. *)
Fixpoint code_bits (k : nat) (code : Z) : list bool :=
  match k with
  | O => []
  | S k' => Z.testbit code (Z.of_nat k') :: code_bits k' code
  end.

(** The fixed Huffman code of a literal byte. *)
Definition literal_bits (b : byte) : list bool :=
  let v := Z.of_N (Byte.to_N b) in
  if v <? 144 then code_bits 8 (48 + v) else code_bits 9 (400 + (v - 144)).

(** Bits to bytes, the first bit in the least significant position. *)
Fixpoint pack (fuel : nat) (bits : list bool) : bytes :=
  match fuel with
  | O => []
  | S fuel' =>
      match bits with
      | [] => []
      | _ =>
          let octet := firstn 8 bits in
          byte_of (fold_right (fun (b : bool) acc => (if b then 1 else 0) + 2 * acc) 0 octet)
          :: pack fuel' (skipn 8 bits)
      end
  end.

Definition deflate (data : bytes) : bytes :=
  let bits := [true; true; false] ++ flat_map literal_bits data ++ code_bits 7 0 in
  pack (length bits) bits.

Definition compress (data : bytes) : bytes :=
  [x1f; x8b; x08; x00; x00; x00; x00; x00; x02; xff]
  ++ deflate data
  ++ le_bytes 4 (crc32 data) ++ le_bytes 4 (len data mod 2 ^ 32).

Definition unpack (data : bytes) : list bool :=
  flat_map (fun b => rev (code_bits 8 (Z.of_N (Byte.to_N b)))) data.

Definition bits_value (bits : list bool) : Z :=
  fold_left (fun acc (b : bool) => 2 * acc + (if b then 1 else 0)) bits 0.

(** The literals of a fixed-Huffman block up to the end-of-block code, and
    the number of bits read. *)
Fixpoint inflate_literals (fuel : nat) (bits : list bool) (used : Z) (acc : bytes)
  : option (bytes * Z) :=
  match fuel with
  | O => None
  | S fuel' =>
      match bits with
      | b0 :: b1 :: b2 :: b3 :: b4 :: b5 :: b6 :: r7 =>
          let c7 := bits_value [b0; b1; b2; b3; b4; b5; b6] in
          if c7 =? 0 then Some (rev acc, used + 7)
          else if c7 <? 24 then None
          else
            match r7 with
            | b7 :: r8 =>
                let c8 := 2 * c7 + (if b7 then 1 else 0) in
                if c8 <? 192 then
                  inflate_literals fuel' r8 (used + 8) (byte_of (c8 - 48) :: acc)
                else if c8 <? 200 then None
                else
                  match r8 with
                  | b8 :: r9 =>
                      let c9 := 2 * c8 + (if b8 then 1 else 0) in
                      inflate_literals fuel' r9 (used + 9) (byte_of (c9 - 400 + 144) :: acc)
                  | [] => None
                  end
            | [] => None
            end
      | _ => None
      end
  end.

Definition decompress (s : bytes) : res bytes :=
  match s with
  | m0 :: m1 :: cm :: flg :: _ :: _ :: _ :: _ :: _ :: _ :: stream =>
      if Byte.eqb m0 x1f && Byte.eqb m1 x8b && Byte.eqb cm x08 && Byte.eqb flg x00 then
        match unpack stream with
        | true :: true :: false :: bits =>
            match inflate_literals (S (length bits)) bits 3 [] with
            | Some (data, used) =>
                match skipn (Z.to_nat ((used + 7) / 8)) stream with
                | [c0; c1; c2; c3; s0; s1; s2; s3] =>
                    if (le_value [c0; c1; c2; c3] =? crc32 data)
                       && (le_value [s0; s1; s2; s3] =? len data mod 2 ^ 32)
                    then Ret data else Raise BadGzipFile
                | _ => Raise BadGzipFile
                end
            | None => Raise BadGzipFile
            end
        | _ => Raise BadGzipFile
        end
      else Raise BadGzipFile
  | _ => Raise BadGzipFile
  end.

#[export] Instance gzip : Gzip := {|
  gzip_compress := compress;
  gzip_decompress := decompress
|}.

(** *** Collaborators *)

(** Scripted collaborators: the microphone delivers the chunks of [mic] and
    then fails, the synthesizer yields one chunk of 1600 bytes for each
    character of the text, the conversation collaborator answers 拜拜 to 再见
    and repeats any other text, and the speaker identification gives the
    same [voice] for every recording.  [sink] collects what is played. *)
Record studio : Type := {
  mic : list bytes;
  sink : list bytes;
  voice : option str * option Z
}.

Definition studio_read (w : studio) : studio * res bytes :=
  match mic w with
  | [] => (w, Raise ExternalError)
  | c :: later => ({| mic := later; sink := sink w; voice := voice w |}, Ret c)
  end.

Definition studio_play (w : studio) (buffer : bytes) : studio * res unit :=
  ({| mic := mic w; sink := sink w ++ [buffer]; voice := voice w |}, Ret tt).

Definition studio_chat (w : studio) (user_input : str) (speaker : option str)
  : studio * res str :=
  (w, Ret (if str_eqb user_input Dialog.farewell_prompt then [25308; 25308] else user_input)).

#[export] Instance studio_collaborators : Collaborators := {|
  world := studio;
  embedding := Z;
  stream_read := studio_read;
  play_audio := studio_play;
  tts_synthesize_stream := fun w text_ => (w, map (fun _ => repeat x10 1600) text_);
  brain_chat := studio_chat;
  speaker_identify := fun w _ => (w, Ret (voice w));
  get_speaker_name := fun w id => (w, Ret (Some id));
  update_embedding := fun w _ _ => (w, Ret tt);
  set_pending_registration := fun w _ => (w, Ret tt)
|}.

(** An engine in its initial state, as [__init__] leaves it, with the audio
    stream started. *)
Definition manager (aec speaker_id : bool) : Dialog.VoiceDialogManager :=
  {| Dialog.vad := detector16k;
     Dialog.is_speaking := false;
     Dialog.running := true;
     Dialog.wait_after_speak := 0;
     Dialog._aec_enabled := aec;
     Dialog.current_speaker_name := None;
     Dialog.awaiting_name := false;
     Dialog.audio_stream := true;
     Dialog.speaker_id := speaker_id;
     Dialog.exit_keywords := Dialog.default_exit_keywords |}.

Definition engine (aec speaker_id : bool) (w : studio) : Dialog.state :=
  {| Dialog.self := manager aec speaker_id;
     Dialog.env := w;
     Dialog.vad_state := 0;
     Dialog.trace := [] |}.

(** The handler of a name answer is outside the model; where one is needed
    to run the engine, this one does nothing. *)
Definition no_name_response (user_text : str) (audio_data : bytes) (st : Dialog.state)
  : Dialog.state * res unit := (st, Ret tt).

End Ref.

(** ** Scenarios

    Concrete inputs on which Part II runs the model. *)

(** Ten speech frames followed by the end of the stream. *)
Definition ten_speech_frames : list bytes := repeat Ref.speech_frame 10.

(** A bridge whose pipe delivers three bytes, nothing, then four bytes. *)
Definition bridge_on : AEC.EcEchoCanceller :=
  {| AEC.config_enabled := true; AEC._capture_fd := Some 5 |}.

Definition pipe_3_0_4 : Ref.fifo :=
  {| Ref.clock := 0; Ref.pending := [];
     Ref.arrivals := [inl [x01; x02; x03]; inl []; inl [x04; x05; x06; x07]] |}.

(** A SessionFinished frame: header, event 152, session id [ab], payload [{}]. *)
Definition session_finished_frame : bytes :=
  [x11; x94; x10; x00;  x00; x00; x00; x98;
   x00; x00; x00; x02;  x61; x62;
   x00; x00; x00; x02;  x7b; x7d].

(** An audio frame with an end-like flag: event 352, session id [ab], four
    bytes of audio. *)
Definition audio_frame : bytes :=
  [x11; xb2; x00; x00;  x00; x00; x01; x60;
   x00; x00; x00; x02;  x61; x62;
   x00; x00; x00; x04;  x01; x02; x03; x04].

(** The recognizer with the default audio format and one hot word. *)
Definition recognizer : ASR.VolcengineASR :=
  {| ASR.format := PStr (text "pcm");
     ASR.sample_rate := PInt 16000;
     ASR.bits := PInt 16;
     ASR.channels := PInt 1;
     ASR.hotwords := [PStr [28165; 20110]];
     ASR.corrections := [([38738; 40060], [28165; 20110])] |}.

Definition two_samples : bytes := [x01; x02].

(** The hot-word context and the payload bytes of the first packet of
    [recognizer], for the request id [rid] and a window of 800 ms. *)
Definition recognizer_context : str :=
  Eval vm_compute in
    match ASR.hotword_context (J := Ref.json) recognizer with
    | Ret s => s
    | Raise _ => []
    end.

Definition recognizer_payload_bytes : bytes :=
  Eval vm_compute in
    match
      bind (Ref.dumps true
              (ASR.full_request_payload recognizer (text "rid") 800 recognizer_context))
           utf8_encode
    with
    | Ret b => b
    | Raise _ => []
    end.

(** A server that acknowledges, sends the interim transcript 你好, and then
    lets 15 s pass before its next message. *)
Definition ack_frame : bytes :=
  [x11; x90; x10; x00; x00; x00; x00; x02; x7b; x7d].

Definition interim_frame : bytes :=
  [x11; x90; x10; x00; x00; x00; x00; x1e]
  ++ match utf8_encode ([123; 34] ++ text "result" ++ [34; 58; 32; 123; 34]
                        ++ text "text" ++ [34; 58; 32; 34; 20320; 22909; 34; 125; 125]) with
     | Ret b => b
     | Raise _ => []
     end.

Definition stalled_session : list arrival :=
  [(50, Message ack_frame); (300, Message interim_frame); (15000, Message interim_frame)].

(** A detector whose [frame_size] attribute was set to a size the
    classifier rejects. *)
Definition detector_odd_frame : VAD.VADDetector :=
  {| VAD.sample_rate := 16000;
     VAD.frame_duration_ms := 30;
     VAD.frame_size := 1000;
     VAD.padding_duration_ms := 300;
     VAD.speech_start_frames := 10;
     VAD.speech_end_frames := 20 |}.

(** Ten silent frames, ten speech frames, and the end of the stream. *)
Definition late_onset_stream : list bytes :=
  repeat Ref.silent_frame 10 ++ repeat Ref.speech_frame 10.

(** A room where somebody speaks: the capture gives two speech frames. *)
Definition two_speech_reads : Ref.studio :=
  {| Ref.mic := [Ref.speech_frame; Ref.speech_frame]; Ref.sink := [];
     Ref.voice := (None, None) |}.

(** A room where the capture gives nothing. *)
Definition quiet_studio : Ref.studio :=
  {| Ref.mic := []; Ref.sink := []; Ref.voice := (None, None) |}.

(** A room where the speaker identification does not know the voice and
    returns an embedding for it. *)
Definition unknown_voice_studio : Ref.studio :=
  {| Ref.mic := []; Ref.sink := []; Ref.voice := (None, Some 7) |}.

(** Half of what [_speak] buffers before it writes to the device. *)
Definition half_buffer : bytes := repeat x10 1600.

(** The transcript 我说再见. *)
Definition leaving_text : str := [25105; 35828; 20877; 35265].

(** The reply 拜拜 of the scripted conversation collaborator to 再见. *)
Definition bye_text : str := [25308; 25308].

(** Two speech frames, a silent frame, a speech frame and two stray bytes. *)
Definition mixed_audio : bytes :=
  Ref.speech_frame ++ Ref.speech_frame ++ Ref.silent_frame ++ Ref.speech_frame
  ++ [x01; x02].

(** Two silent frames, nine speech frames, two silent frames. *)
Definition short_burst_stream : list bytes :=
  repeat Ref.silent_frame 2 ++ repeat Ref.speech_frame 9 ++ repeat Ref.silent_frame 2.

(** A detector whose [frame_size] attribute was set to zero. *)
Definition detector_no_frame : VAD.VADDetector :=
  {| VAD.sample_rate := 16000;
     VAD.frame_duration_ms := 30;
     VAD.frame_size := 0;
     VAD.padding_duration_ms := 300;
     VAD.speech_start_frames := 10;
     VAD.speech_end_frames := 20 |}.

(** Two stereo frames, with the samples (100, 200) and (-3, -4), and a
    stray byte. *)
Definition stereo_pcm : bytes :=
  [x64; x00; xc8; x00;  xfd; xff; xfc; xff;  x7f].

(** The default capture format: two channels, mixed down. *)
Definition stereo_config : AEC.EcAecConfig :=
  {| AEC.capture_channels := 2; AEC.output_downmix_to_mono := true |}.

(** A pipe that holds [stereo_pcm]. *)
Definition pipe_stereo : Ref.fifo :=
  {| Ref.clock := 0; Ref.pending := []; Ref.arrivals := [inl stereo_pcm] |}.

(** The utterances [{"text": "a", "definite": true}, {"text": "b"}]. *)
Definition two_utterance_items : pyval :=
  PList [PDict [(text "text", PStr (text "a")); (text "definite", PBool true)];
         PDict [(text "text", PStr (text "b"))]].

(** A response whose result holds the text ["x"] and the two utterances. *)
Definition two_utterances : pyval :=
  PDict [(text "result",
          PDict [(text "text", PStr (text "x"));
                 (text "utterances", two_utterance_items)])].

(** A string between double quotes. *)
Definition quoted (s : str) : str := [34] ++ s ++ [34].

(** A response frame with the final transcript [" ok "], white space
    included. *)
Definition spaced_final_frame : bytes :=
  [x11; x90; x10; x00; x00; x00; x00; x00]
  ++ match utf8_encode
             ([123] ++ quoted (text "result") ++ text ": " ++ [123]
              ++ quoted (text "utterances") ++ text ": [" ++ [123]
              ++ quoted (text "text") ++ text ": " ++ quoted (text " ok ") ++ text ", "
              ++ quoted (text "definite") ++ text ": true" ++ [125] ++ text "]"
              ++ [125; 125]) with
     | Ret b => b
     | Raise _ => []
     end.

(** A server that acknowledges, sends an interim transcript, the final
    transcript, and one more message. *)
Definition finished_session : list arrival :=
  [(50, Message ack_frame); (300, Message interim_frame);
   (300, Message spaced_final_frame); (300, Message interim_frame)].

(** The text request for the text [hi] in session [rid]. *)
Definition text_request_frame : bytes :=
  Eval vm_compute in
    match TTS._build_text_request (J := Ref.json) (text "hi") (text "rid") with
    | Ret frame => frame
    | Raise _ => []
    end.

(** A synthesis session: two acknowledgements, audio, the end of the
    session, and audio that comes too late. *)
Definition synthesis_session : list arrival :=
  [(50, Message audio_frame); (50, Message ack_frame);
   (5, Message audio_frame); (5, Message session_finished_frame);
   (5, Message audio_frame)].

(** The transcript 你好. *)
Definition greeting_text : str := [20320; 22909].

(** A room where somebody speaks: the capture gives three speech frames. *)
Definition three_speech_reads : Ref.studio :=
  {| Ref.mic := repeat Ref.speech_frame 3; Ref.sink := []; Ref.voice := (None, None) |}.

(** A small encoder: the embedding of a recording is its first byte, two
    embeddings have similarity 1.0 when they are equal and 0.0 otherwise,
    and [lower] maps the capital letters of ASCII. *)
#[global] Instance byte_encoder : VoiceEncoder :=
  {| ndarray := Z;
     cosine := fun a b => Ret (if a =? b then PyFloat.one else PyFloat.zero);
     extract_embedding := fun audio_data _ =>
       match audio_data with
       | [] => None
       | b :: _ => Some (Z.of_N (Byte.to_N b))
       end;
     lower := map (fun c => if (65 <=? c) && (c <=? 90) then c + 32 else c) |}.

(** The entry of a speaker registered on New Year's Day. *)
Definition entry_of (name : str) : pyval :=
  PDict (Speaker.speaker_info name
           (text "2025-01-01 00:00:00") (text "2025-01-01 00:00:00") None).

(** A registry with two speakers called amy, and an embedding that waits
    for its name. *)
Definition family : Speaker.SpeakerIdentifier (E := byte_encoder) :=
  {| Speaker.speakers := [(text "amy", entry_of (text "amy"));
                          (text "amy_1", entry_of (text "Amy"))];
     Speaker.embeddings := ([(text "amy", 1); (text "amy_1", 2)] : list (str * Z));
     Speaker.similarity_threshold := PyFloat.nine_tenths;
     Speaker.current_speaker := None;
     Speaker.pending_registration := Some (9 : Z) |}.

(** The registry after a third amy is registered. *)
Definition family_of_three : Speaker.SpeakerIdentifier (E := byte_encoder) :=
  {| Speaker.speakers := [(text "amy", entry_of (text "amy"));
                          (text "amy_1", entry_of (text "Amy"));
                          (text "amy_2", entry_of (text "Amy"))];
     Speaker.embeddings :=
       ([(text "amy", 1); (text "amy_1", 2); (text "amy_2", 9)] : list (str * Z));
     Speaker.similarity_threshold := PyFloat.nine_tenths;
     Speaker.current_speaker := Some (text "amy_2");
     Speaker.pending_registration := None |}.

(** A sound card that counts the calls it gets and accepts every one of
    them, except the write of a chunk that starts with the byte [ff]. *)
#[global] Instance counting_card : PyAudio :=
  {| device := Z;
     stream_open := fun d => (d + 1, Ret tt);
     stream_write := fun d chunk =>
       (d + 1, match chunk with
               | xff :: _ => Raise (OSError 5)
               | _ => Ret tt
               end);
     stream_stop := fun d => (d + 1, Ret tt);
     stream_close := fun d => (d + 1, Ret tt);
     aec_write_playback := fun d _ => (d + 1, Ret tt) |}.

Definition fresh_card : Audio.state (D := counting_card) :=
  {| Audio.dev := 0; Audio.calls := [] |}.

(** A pipe that is full at every other call and takes two bytes at a time
    otherwise; its state counts the calls and the pauses. *)
#[global] Instance narrow_pipe : PosixOut :=
  {| out_state := Z;
     os_write := fun s fd data =>
       (s + 1, if s mod 2 =? 0 then Raise (OSError AEC.EAGAIN)
               else Ret (Z.min 2 (len data)));
     out_sleep := fun s d => s |}.

Definition narrow_pipe_start : AECOut.state (P := narrow_pipe) :=
  {| AECOut.os := 0; AECOut.writes := [] |}.

(** ** The vote threshold as a check *)

(** The binary64 comparison [v / t >= 0.6] against the exact one, for every
    [t] from 1 to [bound] and every [v] from 0 to [t]. *)
Definition threshold_agrees (bound : nat) : bool :=
  forallb (fun t =>
    forallb (fun v =>
      Bool.eqb (PyFloat.ratio_at_least (Z.of_nat v) (Z.of_nat t) PyFloat.six_tenths)
               (3 * Z.of_nat t <=? 5 * Z.of_nat v))
      (seq 0 (S t)))
    (seq 1 bound).

(* ================================================================== *)
(** * Part II. Properties                                              *)
(* ================================================================== *)

(** ** Lists and slices *)

Section ListFacts.
Context {A : Type}.

Lemma len_app (l1 l2 : list A) : len (l1 ++ l2) = len l1 + len l2.
Proof. unfold len. rewrite length_app. lia. Qed.

Lemma len_nonneg (l : list A) : 0 <= len l.
Proof. unfold len. lia. Qed.

Lemma lastn_length (n : nat) (l : list A) :
  length (VAD.lastn n l) = Nat.min n (length l).
Proof. unfold VAD.lastn. rewrite length_skipn. lia. Qed.

Lemma lastn_split (n : nat) (l : list A) :
  l = firstn (length l - n) l ++ VAD.lastn n l.
Proof. unfold VAD.lastn. now rewrite firstn_skipn. Qed.

Lemma lastn_all (n : nat) (l : list A) :
  (length l <= n)%nat -> VAD.lastn n l = l.
Proof.
  intros H. unfold VAD.lastn.
  replace (length l - n)%nat with 0%nat by lia. reflexivity.
Qed.

(** Appending to a bounded deque keeps the most recent [m] elements. *)
Lemma deque_append_lastn (m : Z) (l : list A) (x : A) :
  deque_append m (VAD.lastn (Z.to_nat m) l) x = VAD.lastn (Z.to_nat m) (l ++ [x]).
Proof.
  unfold deque_append, VAD.lastn.
  set (k := Z.to_nat m).
  rewrite !length_app, length_skipn. cbn [length].
  destruct (Nat.le_gt_cases (length l) k) as [Hle | Hgt].
  - replace (length l - k)%nat with 0%nat by lia. cbn [skipn].
    f_equal. lia.
  - rewrite skipn_app, length_skipn, skipn_skipn.
    rewrite (skipn_app (length l + 1 - k)).
    f_equal.
    + f_equal. lia.
    + f_equal. lia.
Qed.

Lemma deque_append_bound (m : Z) (d : list A) (x : A) :
  0 <= m -> len d <= m -> len (deque_append m d x) <= m.
Proof.
  unfold deque_append, len. intros Hm Hd.
  rewrite length_skipn, length_app. cbn [length]. lia.
Qed.

Lemma Forall_lastn (P : A -> Prop) (n : nat) (l : list A) :
  Forall P l -> Forall P (VAD.lastn n l).
Proof.
  intros H. rewrite (lastn_split n l) in H.
  now apply Forall_app in H.
Qed.

Lemma slice_to_neg (n : Z) (l : list A) :
  0 < n -> n <= len l ->
  slice_to (- n) l = firstn (length l - Z.to_nat n) l.
Proof.
  intros Hn Hl. unfold slice_to, clamp_index.
  destruct (Z.ltb_spec (- n) 0); [| lia].
  f_equal. unfold len in *. lia.
Qed.

End ListFacts.

(** ** voice/vad.py: the detector *)

Section VADFacts.
Context {W : WebRtcVad}.
Import VAD.

(** [is_speech] always returns normally, with the verdict of the classifier
    or [False]. *)
Lemma is_speech_returns (self : VADDetector) (h : vad_handle) (chunk : bytes) :
  snd (is_speech self h chunk) = Ret (verdict (snd (is_speech self h chunk))).
Proof.
  unfold is_speech.
  destruct (Vad_is_speech h (fitted_chunk self chunk) (sample_rate self)) as [h' [b | e]];
    reflexivity.
Qed.

Lemma classified_app (self : VADDetector) (l1 l2 : list bytes) (h : vad_handle) :
  classified self h (l1 ++ l2) =
  classified self h l1 ++ classified self (handle_after self h l1) l2.
Proof.
  revert h. induction l1 as [| f l1 IH]; intros h; cbn; [reflexivity |].
  destruct (is_speech self h f) as [h1 r] eqn:E. cbn. now rewrite IH.
Qed.

Lemma handle_after_app (self : VADDetector) (l1 l2 : list bytes) (h : vad_handle) :
  handle_after self h (l1 ++ l2) = handle_after self (handle_after self h l1) l2.
Proof.
  revert h. induction l1 as [| f l1 IH]; intros h; cbn; [reflexivity | apply IH].
Qed.

Lemma classified_frames (self : VADDetector) (l : list bytes) (h : vad_handle) :
  map fst (classified self h l) = l.
Proof.
  revert h. induction l as [| f l IH]; intros h; cbn; [reflexivity |].
  destruct (is_speech self h f) as [h1 r]. cbn. now rewrite IH.
Qed.

Lemma run_app (self : VADDetector) (l1 l2 : list (bytes * bool)) (st : locals) :
  run self st (l1 ++ l2) =
  match run self st l1 with
  | Next st' => run self st' l2
  | Return v => Return v
  end.
Proof.
  revert st. induction l1 as [| [f b] l1 IH]; intros st; cbn; [reflexivity |].
  destruct (on_frame self st f b); [apply IH | reflexivity].
Qed.

(** The frames selected from a chunk by the indices [idx]. *)
Definition selected (self : VADDetector) (chunk : bytes) (idx : list Z) : list bytes :=
  filter (fun frame => negb (len frame <? frame_size self))
    (map (fun i => slice (i * frame_size self) ((i + 1) * frame_size self) chunk) idx).

(** The frame loop never raises and computes [run] on the classified frames. *)
Lemma frame_loop_run (self : VADDetector) (chunk : bytes) (idx : list Z) :
  forall (h : vad_handle) (st : locals),
  exists h',
    frame_loop self chunk idx h st =
      (h', Ret (run self st (classified self h (selected self chunk idx)))) /\
    (forall st', run self st (classified self h (selected self chunk idx)) = Next st' ->
                 h' = handle_after self h (selected self chunk idx)).
Proof.
  induction idx as [| i idx IH]; intros h st.
  - exists h. split; [reflexivity | intros; reflexivity].
  - unfold selected in *. cbn [frame_loop map filter].
    set (frame := slice (i * frame_size self) ((i + 1) * frame_size self) chunk).
    destruct (len frame <? frame_size self); cbn [negb].
    + apply IH.
    + cbn [classified handle_after run].
      pose proof (is_speech_returns self h frame) as Hr.
      destruct (is_speech self h frame) as [h1 r]. cbn [snd fst] in *.
      destruct r as [b | e]; [clear Hr | discriminate Hr]. cbn [verdict run].
      destruct (on_frame self st frame b) as [st1 | v].
      * apply IH.
      * exists h1. split; [reflexivity | intros st' H; discriminate H].
Qed.

Lemma chunk_loop_run (self : VADDetector) (stream : list bytes) :
  forall (h h' : vad_handle) (st : locals) (fl : flow),
  chunk_loop self stream h st = (h', Ret fl) ->
  fl = run self st (classified self h (frames_of_stream self stream)).
Proof.
  induction stream as [| chunk stream IH]; intros h h' st fl H.
  - cbn in H. injection H as _ <-. reflexivity.
  - cbn [chunk_loop] in H.
    destruct (frame_size self =? 0); [discriminate H |].
    destruct (frame_loop_run self chunk (range (len chunk / frame_size self)) h st)
      as (h1 & E & Hh).
    rewrite E in H.
    cbn [frames_of_stream flat_map]. fold (frames_of_stream self stream).
    change (frames_of_chunk self chunk)
      with (selected self chunk (range (len chunk / frame_size self))).
    rewrite classified_app, run_app.
    destruct (run self st (classified self h
                (selected self chunk (range (len chunk / frame_size self)))))
      as [st1 | v].
    + rewrite <- (Hh st1 eq_refl). eapply IH. exact H.
    + injection H as _ <-. reflexivity.
Qed.

(** What [detect_speech_segments] returns, in terms of the classified frames. *)
Lemma detect_run (self : VADDetector) (h h' : vad_handle) (stream : list bytes)
  (v : option bytes) :
  detect_speech_segments self h stream = (h', Ret v) ->
  v = at_stream_end
        (run self initial_locals (classified self h (frames_of_stream self stream))).
Proof.
  unfold detect_speech_segments. intros H.
  destruct (speech_end_frames self <? 0); [discriminate H |].
  destruct (chunk_loop self stream h initial_locals) as [h1 r] eqn:E.
  destruct r as [fl | e]; [| discriminate H].
  apply chunk_loop_run in E. subst fl.
  destruct (run self initial_locals _) as [st | w]; cbn [at_stream_end].
  - destruct (triggered st && truthy (voiced_frames st)); now injection H as _ <-.
  - now injection H as _ <-.
Qed.

End VADFacts.

(** *** The invariant of the frame loop *)

Section VADInvariant.
Context {W : WebRtcVad}.
Import VAD.
Variable self : VADDetector.

Let M : nat := Z.to_nat (speech_end_frames self).

(** Before onset: nothing is recorded, the ring buffer holds the most recent
    frames, and [speech_count] counts a run of speech frames just seen. *)
Definition waiting_inv (seen : list (bytes * bool)) (st : locals) : Prop :=
  triggered st = false /\
  voiced_frames st = [] /\
  ring_buffer st = lastn M seen /\
  exists p s, seen = p ++ s /\ len s = speech_count st /\ all_speech s.

(** After onset: the recording is the pre-roll followed by every later
    frame, and [silence_count] counts a run of silent frames just recorded. *)
Definition recording_inv (seen : list (bytes * bool)) (st : locals) : Prop :=
  triggered st = true /\
  exists pre ring bdy,
    seen = pre ++ ring ++ bdy /\
    ring = lastn M (pre ++ ring) /\
    ends_with_speech (speech_start_frames self) (pre ++ ring) /\
    voiced_frames st = map fst (ring ++ bdy) /\
    exists b1 b2, bdy = b1 ++ b2 /\ len b2 = silence_count st /\ all_silence b2.

Definition loop_inv (seen : list (bytes * bool)) (st : locals) : Prop :=
  waiting_inv seen st \/ recording_inv seen st.

Lemma loop_inv_initial : loop_inv [] initial_locals.
Proof.
  left. repeat split; try reflexivity.
  exists [], []. repeat split. constructor.
Qed.

(** A turn that [on_frame] closes by returning. *)
Definition closes_turn (lab : list (bytes * bool)) (v : option bytes) : Prop :=
  exists t : turn self lab,
    ended_by_silence t /\
    v = (if truthy (turn_audio t) then Some (turn_audio t) else None).

Lemma on_frame_inv (seen : list (bytes * bool)) (st : locals)
  (frame : bytes) (speech : bool) :
  0 < speech_end_frames self ->
  loop_inv seen st ->
  match on_frame self st frame speech with
  | Next st' => loop_inv (seen ++ [(frame, speech)]) st'
  | Return v =>
      forall rest, closes_turn (seen ++ [(frame, speech)] ++ rest) v
  end.
Proof.
  intros HM [Hw | Hr].
  - (* waiting for onset *)
    destruct Hw as (Ht & Hv & Hring & p & s & Hseen & Hs & Hall).
    unfold on_frame. rewrite Ht. cbn [negb].
    rewrite Hring. fold M.
    replace (deque_append (speech_end_frames self) (lastn M seen) (frame, speech))
      with (lastn M (seen ++ [(frame, speech)])).
    2:{ subst M. symmetry. apply deque_append_lastn. }
    destruct (Z.leb_spec (speech_start_frames self)
                (if speech then speech_count st + 1 else 0)) as [Hge | Hlt].
    + right. split; [reflexivity |].
      exists (firstn (length (seen ++ [(frame, speech)]) - M) (seen ++ [(frame, speech)])),
             (lastn M (seen ++ [(frame, speech)])), [].
      rewrite app_nil_r, <- lastn_split.
      repeat split.
      * destruct speech.
        -- exists p, (s ++ [(frame, true)]). repeat split.
           ++ rewrite Hseen. now rewrite app_assoc.
           ++ rewrite len_app. cbn. lia.
           ++ apply Forall_app. split; [exact Hall | repeat constructor].
        -- exists (seen ++ [(frame, false)]), []. repeat split.
           ++ now rewrite app_nil_r.
           ++ cbn. lia.
           ++ constructor.
      * cbn [voiced_frames]. now rewrite Hv.
      * exists [], []. repeat split. constructor.
    + left. repeat split; try reflexivity; try assumption.
      cbn [speech_count]. destruct speech.
      * exists p, (s ++ [(frame, true)]). repeat split.
        -- rewrite Hseen. now rewrite app_assoc.
        -- rewrite len_app. cbn. lia.
        -- apply Forall_app. split; [exact Hall | repeat constructor].
      * exists (seen ++ [(frame, false)]), []. repeat split.
        -- now rewrite app_nil_r.
        -- constructor.
  - (* recording *)
    destruct Hr as (Ht & pre & ring & bdy & Hseen & Hring & Hon & Hv & b1 & b2 & Hb & Hb2 & Hsil).
    unfold on_frame. rewrite Ht. cbn [negb].
    destruct (Z.leb_spec (speech_end_frames self)
                (if speech then 0 else silence_count st + 1)) as [Hge | Hlt].
    + (* enough silence: the turn is closed *)
      destruct speech; [lia |].
      intros rest.
      set (tail := b2 ++ [(frame, false)]).
      assert (Htl : (M <= length tail)%nat).
      { subst tail M. rewrite length_app. cbn [length]. unfold len in Hb2. lia. }
      assert (Hts : all_silence tail).
      { apply Forall_app. split; [exact Hsil | repeat constructor]. }
      assert (Hsplit : seen ++ [(frame, false)] ++ rest =
                pre ++ ring ++ (b1 ++ firstn (length tail - M) tail) ++ lastn M tail ++ rest).
      { rewrite Hseen, Hb.
        repeat rewrite <- app_assoc. do 3 f_equal.
        rewrite (app_assoc (firstn _ _)), <- lastn_split.
        subst tail. now rewrite <- app_assoc. }
      exists (Build_turn self _ pre ring (b1 ++ firstn (length tail - M) tail)
                (lastn M tail) rest Hsplit Hring Hon).
      split.
      * split; cbn [trail].
        -- unfold len. rewrite lastn_length. subst M. lia.
        -- now apply Forall_lastn.
      * unfold turn_audio. cbn [preroll body].
        assert (Hcut : slice_to (- speech_end_frames self) (voiced_frames st ++ [frame]) =
                       map fst (ring ++ b1 ++ firstn (length tail - M) tail)).
        { rewrite slice_to_neg.
          2: exact HM.
          2:{ rewrite Hv, Hb. unfold len.
              rewrite length_app, length_map, !length_app. cbn [length].
              unfold len in Hb2. lia. }
          replace (voiced_frames st ++ [frame])
            with (map fst (ring ++ b1 ++ firstn (length tail - M) tail) ++
                  map fst (lastn M tail)).
          2:{ rewrite Hv, Hb, <- map_app.
              change [frame] with (map fst [(frame, false)]).
              rewrite <- map_app. f_equal.
              repeat rewrite <- app_assoc. do 2 f_equal.
              fold tail. symmetry. apply lastn_split. }
          rewrite length_app, !length_map, lastn_length.
          replace (length (ring ++ b1 ++ firstn (length tail - M) tail) +
                   Nat.min M (length tail) - Z.to_nat (speech_end_frames self))%nat
            with (length (map fst (ring ++ b1 ++ firstn (length tail - M) tail)) + 0)%nat.
          2:{ rewrite length_map. subst M. lia. }
          rewrite firstn_app_2. cbn [firstn]. now rewrite app_nil_r. }
        rewrite Hcut. reflexivity.
    + right. split; [reflexivity |].
      exists pre, ring, (bdy ++ [(frame, speech)]). repeat split.
      * rewrite Hseen. now repeat rewrite <- app_assoc.
      * exact Hring.
      * exact Hon.
      * cbn [voiced_frames]. rewrite Hv.
        change [frame] with (map fst [(frame, speech)]).
        rewrite <- map_app. now rewrite app_assoc.
      * cbn [silence_count]. destruct speech.
        -- exists (bdy ++ [(frame, true)]), []. repeat split.
           ++ now rewrite app_nil_r.
           ++ constructor.
        -- exists b1, (b2 ++ [(frame, false)]). repeat split.
           ++ rewrite Hb. now rewrite app_assoc.
           ++ rewrite len_app. cbn. lia.
           ++ apply Forall_app. split; [exact Hsil | repeat constructor].
Qed.

Lemma run_inv (lab : list (bytes * bool)) :
  0 < speech_end_frames self ->
  forall (seen : list (bytes * bool)) (st : locals),
  loop_inv seen st ->
  match run self st lab with
  | Next st' => loop_inv (seen ++ lab) st'
  | Return v => closes_turn (seen ++ lab) v
  end.
Proof.
  intros HM. induction lab as [| [frame speech] lab IH]; intros seen st Hinv.
  - cbn. now rewrite app_nil_r.
  - cbn [run].
    pose proof (on_frame_inv seen st frame speech HM Hinv) as Hstep.
    destruct (on_frame self st frame speech) as [st' | v].
    + specialize (IH _ _ Hstep).
      now rewrite <- app_assoc in IH.
    + apply (Hstep lab).
Qed.

End VADInvariant.

(** *** Properties of the detector *)

Section VADProperties.
Context {W : WebRtcVad}.
Import VAD.

(** A detector built by the constructor has one of the four frame sizes and
    the default thresholds. *)
Lemma init_defaults (aggressiveness rate : Z) (h : vad_handle) (self : VADDetector) :
  init aggressiveness rate = Ret (h, self) ->
  In (frame_size self) [480; 960; 1920; 2880] /\
  sample_rate self = rate /\
  speech_start_frames self = 10 /\
  speech_end_frames self = 20.
Proof.
  unfold init, bind. destruct (Vad_new aggressiveness) as [h0 | e]; [| discriminate].
  destruct (existsb (Z.eqb rate) valid_rates) eqn:E; cbn [negb]; [| discriminate].
  intros H. injection H as <- <-. cbn.
  apply existsb_exists in E. destruct E as (r & Hin & Hr).
  apply Z.eqb_eq in Hr. subst r.
  cbn in Hin. intuition (subst; cbn; auto).
Qed.

(** The buffer handed to the classifier has the configured size. *)
Lemma fitted_chunk_len (self : VADDetector) (chunk : bytes) :
  0 <= frame_size self -> len (fitted_chunk self chunk) = frame_size self.
Proof.
  intros Hfs. unfold fitted_chunk.
  destruct (Z.eqb_spec (len chunk) (frame_size self)) as [E | E]; cbn [negb]; [exact E |].
  destruct (Z.ltb_spec (len chunk) (frame_size self)) as [Hlt | Hge].
  - rewrite len_app. unfold zeros, len. rewrite repeat_length. unfold len in Hlt. lia.
  - unfold slice_to, clamp_index, len in *.
    destruct (Z.ltb_spec (frame_size self) 0); [lia |].
    rewrite length_firstn. lia.
Qed.

(** On a stream of frame-sized chunks the frames are the chunks. *)
Lemma frames_of_framed_stream (self : VADDetector) (stream : list bytes) :
  0 < frame_size self ->
  Forall (fun chunk => len chunk = frame_size self) stream ->
  frames_of_stream self stream = stream.
Proof.
  intros Hfs Hall. induction Hall as [| chunk stream Hc _ IH]; [reflexivity |].
  cbn [frames_of_stream flat_map]. fold (frames_of_stream self stream). rewrite IH.
  unfold frames_of_chunk. rewrite Hc, Z.div_same by lia.
  change (range 1) with [0]. cbn [map].
  replace (0 * frame_size self) with 0 by lia.
  replace ((0 + 1) * frame_size self) with (len chunk) by lia.
  assert (Hs : slice 0 (len chunk) chunk = chunk).
  { unfold slice, clamp_index. cbn [Z.ltb Z.compare].
    pose proof (len_nonneg chunk).
    destruct (Z.ltb_spec (len chunk) 0); [lia |].
    rewrite Z.min_id, Z.min_l by lia. cbn [Z.to_nat skipn].
    rewrite Z.sub_0_r. unfold len. rewrite Nat2Z.id. apply firstn_all. }
  rewrite Hs. cbn [filter].
  destruct (Z.ltb_spec (len chunk) (frame_size self)); [lia | reflexivity].
Qed.

(** The returned audio is a turn of the classified frame sequence. *)
Lemma detect_finds_turn (self : VADDetector) (h h' : vad_handle) (stream : list bytes)
  (audio : bytes) :
  0 < speech_end_frames self ->
  detect_speech_segments self h stream = (h', Ret (Some audio)) ->
  exists t : turn self (classified self h (frames_of_stream self stream)),
    turn_audio t = audio /\ (ended_by_silence t \/ ended_by_exhaustion t).
Proof.
  intros HM H. apply detect_run in H.
  pose proof (run_inv self (classified self h (frames_of_stream self stream)) HM
                [] initial_locals (loop_inv_initial self)) as Hinv.
  cbn [app] in Hinv.
  destruct (run self initial_locals _) as [st | v]; cbn [at_stream_end] in H.
  - destruct Hinv as [Hw | Hr].
    + destruct Hw as (Ht & _). rewrite Ht in H. discriminate H.
    + destruct Hr as (Ht & pre & ring & bdy & Hseen & Hring & Hon & Hv & _).
      rewrite Ht in H. cbn [andb] in H.
      destruct (truthy (voiced_frames st)); [| discriminate H].
      injection H as H.
      assert (Hsplit : classified self h (frames_of_stream self stream) =
                       pre ++ ring ++ bdy ++ [] ++ []).
      { rewrite Hseen. now rewrite !app_nil_r. }
      exists (Build_turn self _ pre ring bdy [] [] Hsplit Hring Hon).
      split.
      * unfold turn_audio. cbn [preroll body]. now rewrite <- Hv.
      * right. split; reflexivity.
  - destruct Hinv as (t & Hsil & Hv). rewrite Hv in H.
    exists t. split; [| left; exact Hsil].
    destruct (truthy (turn_audio t)); [now injection H | discriminate H].
Qed.

End VADProperties.

(** *** Claims about the detector *)

Section VADClaims.
Context {W : WebRtcVad}.
Import VAD.

(** C9. [VADDetector.is_speech] is total: for every byte string of any
    length (the empty one included) it returns a boolean and never raises;
    an exception of the underlying classifier is mapped to [False], and a
    verdict of the classifier is returned as it is. *)
Theorem is_speech_total (self : VADDetector) (h : vad_handle) (audio_chunk : bytes) :
  exists b : bool,
    snd (is_speech self h audio_chunk) = Ret b /\
    (forall e, snd (Vad_is_speech h (fitted_chunk self audio_chunk) (sample_rate self))
               = Raise e -> b = false) /\
    (forall b', snd (Vad_is_speech h (fitted_chunk self audio_chunk) (sample_rate self))
                = Ret b' -> b = b').
Proof.
  unfold is_speech.
  destruct (Vad_is_speech h (fitted_chunk self audio_chunk) (sample_rate self))
    as [h' [b | e]]; cbn.
  - exists b. repeat split; intros; congruence.
  - exists false. repeat split; intros; congruence.
Qed.

(** C7. [is_speech] hands the classifier a buffer of exactly the configured
    frame size: a shorter chunk is padded with zero bytes at the end, a
    longer one is truncated, a chunk of the right size is passed as it is.
    The fitting only rebinds the local name: the frames that
    [detect_speech_segments] records and returns are the bytes of the stream,
    a contiguous run of its frames. *)
Theorem is_speech_fits_frame (self : VADDetector) (h : vad_handle) (audio_chunk : bytes) :
  0 <= frame_size self ->
  let buf := fitted_chunk self audio_chunk in
  is_speech self h audio_chunk =
    (fst (Vad_is_speech h buf (sample_rate self)),
     Ret (verdict (snd (Vad_is_speech h buf (sample_rate self))))) /\
  len buf = frame_size self /\
  (len audio_chunk < frame_size self ->
     buf = audio_chunk ++ zeros (frame_size self - len audio_chunk)) /\
  (frame_size self < len audio_chunk ->
     buf = firstn (Z.to_nat (frame_size self)) audio_chunk) /\
  (len audio_chunk = frame_size self -> buf = audio_chunk) /\
  (forall (audio_stream : list bytes) (h' : vad_handle) (audio : bytes),
     0 < speech_end_frames self ->
     detect_speech_segments self h audio_stream = (h', Ret (Some audio)) ->
     exists pre kept post,
       frames_of_stream self audio_stream = pre ++ kept ++ post /\
       audio = join kept).
Proof.
  intros Hfs buf. subst buf. repeat split.
  - unfold is_speech.
    destruct (Vad_is_speech h (fitted_chunk self audio_chunk) (sample_rate self))
      as [h' [b | e]]; reflexivity.
  - now apply fitted_chunk_len.
  - intros Hlt. unfold fitted_chunk.
    destruct (Z.eqb_spec (len audio_chunk) (frame_size self)); [lia |]. cbn [negb].
    destruct (Z.ltb_spec (len audio_chunk) (frame_size self)); [reflexivity | lia].
  - intros Hgt. unfold fitted_chunk.
    destruct (Z.eqb_spec (len audio_chunk) (frame_size self)); [lia |]. cbn [negb].
    destruct (Z.ltb_spec (len audio_chunk) (frame_size self)); [lia |].
    unfold slice_to, clamp_index.
    destruct (Z.ltb_spec (frame_size self) 0); [lia |].
    f_equal. lia.
  - intros E. unfold fitted_chunk.
    destruct (Z.eqb_spec (len audio_chunk) (frame_size self)); [reflexivity | lia].
  - intros audio_stream h' audio HM H.
    destruct (detect_finds_turn self h h' audio_stream audio HM H) as (t & Ha & _).
    exists (map fst (before t)), (map fst (preroll t ++ body t)),
           (map fst (trail t ++ after t)).
    split; [| now rewrite <- Ha].
    rewrite <- !map_app.
    rewrite <- (classified_frames self (frames_of_stream self audio_stream) h) at 1.
    f_equal. rewrite (turn_split _ _ t) at 1.
    now repeat rewrite <- app_assoc.
Qed.

(** C1 (as the code has it). On a stream of frame-sized chunks the frames
    that are classified are the chunks.  Whenever [detect_speech_segments]
    returns audio, that audio is a turn of the classified frame sequence: it
    starts with the ring buffer as it stood when a run of at least
    [speech_start_frames] consecutive speech frames was completed, and either
    the turn was ended by exactly [speech_end_frames] consecutive silent
    frames, which are cut off the returned audio, or the stream was
    exhausted during the turn, and then the recording is returned whole. *)
Theorem detect_turn_boundaries (self : VADDetector) (h h' : vad_handle)
  (audio_stream : list bytes) (audio : bytes) :
  0 < speech_end_frames self ->
  detect_speech_segments self h audio_stream = (h', Ret (Some audio)) ->
  (0 < frame_size self ->
   Forall (fun chunk => len chunk = frame_size self) audio_stream ->
   frames_of_stream self audio_stream = audio_stream) /\
  exists t : turn self (classified self h (frames_of_stream self audio_stream)),
    turn_audio t = audio /\
    ends_with_speech (speech_start_frames self) (before t ++ preroll t) /\
    len (preroll t) <= speech_end_frames self /\
    (ended_by_silence t \/ ended_by_exhaustion t).
Proof.
  intros HM Hdet. split.
  - apply frames_of_framed_stream.
  - destruct (detect_finds_turn self h h' audio_stream audio HM Hdet) as (t & Ha & Hend).
    exists t. split; [exact Ha |]. split; [exact (turn_onset _ _ t) |].
    split; [| exact Hend].
    rewrite (turn_preroll _ _ t) at 1. unfold len. rewrite lastn_length. lia.
Qed.

End VADClaims.

(** C9, C7 and C1 need no more than the definitions to run; the following
    lemmas run them on the 16 kHz detector with the reference classifier. *)

Lemma detector16k_built :
  VAD.init (W := Ref.level_vad) 3 16000 = Ret (0, Ref.detector16k).
Proof. reflexivity. Qed.

(** Witness of C7: a 3-byte chunk is padded to 960 bytes. *)
Lemma is_speech_fits_frame_witness :
  0 <= VAD.frame_size Ref.detector16k /\
  len (VAD.fitted_chunk Ref.detector16k [x01; x02; x03]) = 960.
Proof.
  split; [cbn; lia |].
  exact (proj1 (proj2 (is_speech_fits_frame (W := Ref.level_vad)
           Ref.detector16k 0 [x01; x02; x03] ltac:(cbn; lia)))).
Defined.

Lemma ten_speech_frames_detected :
  VAD.detect_speech_segments (W := Ref.level_vad) Ref.detector16k 0 ten_speech_frames
  = (10, Ret (Some (join ten_speech_frames))).
Proof. vm_compute. reflexivity. Qed.

(** Witness of C1. *)
Lemma detect_turn_boundaries_witness :
  0 < VAD.speech_end_frames Ref.detector16k /\
  VAD.frames_of_stream Ref.detector16k ten_speech_frames = ten_speech_frames /\
  exists t : VAD.turn Ref.detector16k
               (VAD.classified (W := Ref.level_vad) Ref.detector16k 0
                  (VAD.frames_of_stream Ref.detector16k ten_speech_frames)),
    VAD.turn_audio t = join ten_speech_frames /\
    VAD.ends_with_speech (VAD.speech_start_frames Ref.detector16k)
      (VAD.before t ++ VAD.preroll t) /\
    len (VAD.preroll t) <= VAD.speech_end_frames Ref.detector16k /\
    (VAD.ended_by_silence t \/ VAD.ended_by_exhaustion t).
Proof.
  assert (HM : 0 < VAD.speech_end_frames Ref.detector16k) by (cbn; lia).
  destruct (detect_turn_boundaries (W := Ref.level_vad) Ref.detector16k 0 10
              ten_speech_frames (join ten_speech_frames) HM ten_speech_frames_detected)
    as [Hframes Hturn].
  split; [exact HM |]. split; [| exact Hturn].
  apply Hframes; [cbn; lia |].
  unfold ten_speech_frames. apply Forall_forall. intros c Hc.
  apply repeat_spec in Hc. subst c. vm_compute. reflexivity.
Defined.

(** A turn that silence ends: five silent frames, ten speech frames and
    twenty silent frames give the first fifteen frames. *)
Example turn_ended_by_silence :
  VAD.detect_speech_segments (W := Ref.level_vad) Ref.detector16k 0
    (repeat Ref.silent_frame 5 ++ repeat Ref.speech_frame 10 ++ repeat Ref.silent_frame 20)
  = (35, Ret (Some (join (repeat Ref.silent_frame 5 ++ repeat Ref.speech_frame 10)))).
Proof. vm_compute. reflexivity. Qed.

(** Counterexample to C1 as stated: on a stream of ten speech frames the
    detector returns the ten frames, although no silent frame was seen, so
    the returned audio is not a recording with [speech_end_frames] trailing
    silent frames removed. *)
Lemma detect_turn_without_silence :
  snd (VAD.detect_speech_segments (W := Ref.level_vad) Ref.detector16k 0 ten_speech_frames)
    = Ret (Some (join ten_speech_frames)) /\
  ~ (exists t : VAD.turn Ref.detector16k
                  (VAD.classified (W := Ref.level_vad) Ref.detector16k 0
                     (VAD.frames_of_stream Ref.detector16k ten_speech_frames)),
       VAD.turn_audio t = join ten_speech_frames /\ VAD.ended_by_silence t).
Proof.
  split; [now rewrite ten_speech_frames_detected |].
  intros ([b p bd tr af Hs Hp Ho] & _ & Hlen & _). cbn [VAD.trail] in Hlen.
  apply (f_equal (@length _)) in Hs. rename Hs into Hl.
  rewrite <- (length_map fst), classified_frames in Hl.
  rewrite frames_of_framed_stream in Hl.
  2: cbn; lia.
  2:{ unfold ten_speech_frames. apply Forall_forall. intros c Hc.
      apply repeat_spec in Hc. subst c. vm_compute. reflexivity. }
  rewrite !length_app in Hl. unfold len in Hlen.
  change (VAD.speech_end_frames Ref.detector16k) with 20 in Hlen.
  change (length ten_speech_frames) with 10%nat in Hl.
  lia.
Qed.

(** ** voice/aec.py: reading the cancelled capture *)

Section AECFacts.
Context {P : Posix} {L : PosixLaws P}.
Import AEC.
Variables fd min_bytes timeout_s t0 : Z.

(** What is left to do: bytes still wanted, and pauses that still fit
    before the deadline. *)
Definition remaining (s : os_state) (total : Z) : Z :=
  Z.max 0 (min_bytes - total) + Z.max 0 ((timeout_s - (now s - t0) + pause - 1) / pause).

Lemma remaining_after_pause (s s1 : os_state) (total : Z) :
  now s <= now s1 ->
  now s - t0 < timeout_s ->
  remaining (time_sleep s1 pause) total < remaining s total.
Proof.
  intros Hmono Hcond. unfold remaining.
  pose proof (time_sleep_clock s1 pause) as Hs.
  unfold pause in *.
  Z.div_mod_to_equations. lia.
Qed.

Lemma remaining_after_data (s s1 : os_state) (total n : Z) :
  now s <= now s1 ->
  total < min_bytes ->
  0 < n ->
  remaining s1 (total + n) < remaining s total.
Proof.
  intros Hmono Hcond Hn. unfold remaining, pause.
  Z.div_mod_to_equations. lia.
Qed.

(** The loop ends within [remaining + 1] iterations. *)
Lemma read_loop_ends (fuel : nat) :
  forall (chunks : list bytes) (total : Z) (s : os_state),
  remaining s total < Z.of_nat fuel ->
  exists r, snd (read_loop fuel fd min_bytes timeout_s t0 chunks total s) = Some r.
Proof.
  induction fuel as [| fuel IH]; intros chunks total s Hfuel.
  - unfold remaining in Hfuel. lia.
  - cbn [read_loop].
    destruct (Z.ltb_spec total min_bytes) as [Ht | Ht]; cbn [andb].
    2:{ eexists. reflexivity. }
    destruct (Z.ltb_spec (now s - t0) timeout_s) as [Hc | Hc].
    2:{ eexists. reflexivity. }
    pose proof (os_read_clock s fd (min_bytes - total)) as Hclk.
    destruct (os_read s fd (min_bytes - total)) as [s1 r]. cbn [fst] in Hclk.
    assert (Hpause : remaining (time_sleep s1 pause) total < Z.of_nat fuel).
    { pose proof (remaining_after_pause s s1 total Hclk Hc). lia. }
    destruct r as [data | e].
    + destruct data as [| b data]; cbn [truthy negb].
      * apply IH. exact Hpause.
      * apply IH.
        assert (0 < len (b :: data)) by (unfold len; cbn [length]; lia).
        pose proof (remaining_after_data s s1 total (len (b :: data)) Hclk Ht H). lia.
    + destruct e; try (eexists; reflexivity).
      destruct ((errno =? EAGAIN) || (errno =? EWOULDBLOCK)).
      * apply IH. exact Hpause.
      * eexists. reflexivity.
Qed.

(** The bytes collected never exceed the bytes asked for. *)
Lemma read_loop_at_most (fuel : nat) :
  forall (chunks : list bytes) (total : Z) (s s' : os_state) (data : bytes),
  len (join chunks) = total ->
  total <= Z.max 0 min_bytes ->
  read_loop fuel fd min_bytes timeout_s t0 chunks total s = (s', Some (Ret data)) ->
  len data <= Z.max 0 min_bytes.
Proof.
  induction fuel as [| fuel IH]; intros chunks total s s' data Hlen Hle H.
  - discriminate H.
  - cbn [read_loop] in H.
    destruct (Z.ltb_spec total min_bytes) as [Ht | Ht]; cbn [andb] in H.
    2:{ injection H as _ <-. lia. }
    destruct (now s - t0 <? timeout_s).
    2:{ injection H as _ <-. lia. }
    destruct (os_read s fd (min_bytes - total)) as [s1 r] eqn:Er.
    destruct r as [got | e].
    + destruct (truthy got); cbn [negb] in H.
      * apply os_read_at_most in Er.
        eapply (IH (chunks ++ [got]) (total + len got)); [| | exact H].
        -- unfold join in *. rewrite concat_app, len_app, Hlen. cbn [concat].
           now rewrite app_nil_r.
        -- lia.
      * eapply IH; eassumption.
    + destruct e; try discriminate H.
      destruct ((errno =? EAGAIN) || (errno =? EWOULDBLOCK)); [| discriminate H].
      eapply IH; eassumption.
Qed.

End AECFacts.

Section AECClaims.
Context {P : Posix} {L : PosixLaws P}.
Import AEC.

(** C10. For every [min_bytes >= 0] and every timeout, [read_capture]
    comes to an end, and when it returns a byte string, that string has at
    most [min_bytes] bytes (each read asks only for what is still missing).
    When the canceller is disabled it returns the empty byte string and the
    operating-system state, the pipe included, is the one it was called in. *)
Theorem read_capture_at_most (self : EcEchoCanceller) (s : os_state)
  (min_bytes timeout_s : Z) :
  0 <= min_bytes ->
  (exists r, snd (read_capture self s min_bytes timeout_s) = Some r /\
             forall data, r = Ret data -> len data <= min_bytes) /\
  (enabled self = false ->
   read_capture self s min_bytes timeout_s = (s, Some (Ret []))).
Proof.
  intros Hmin. split.
  - unfold read_capture.
    destruct (enabled self); cbn [negb].
    2:{ eexists. split; [reflexivity |]. intros data [= <-]. cbn. lia. }
    destruct (_capture_fd self) as [fd |].
    2:{ eexists. split; [reflexivity |]. intros data [=]. }
    destruct (read_loop_ends fd min_bytes timeout_s (now s)
                (iterations min_bytes timeout_s) [] 0 s) as (r & Hr).
    { unfold iterations, remaining, pause. rewrite Nat2Z.inj_succ, Z2Nat.id.
      - Z.div_mod_to_equations. lia.
      - Z.div_mod_to_equations. lia. }
    exists r. split; [exact Hr |].
    intros data ->.
    destruct (read_loop _ fd min_bytes timeout_s (now s) [] 0 s) as [s' o] eqn:E.
    cbn [snd] in Hr. subst o.
    apply read_loop_at_most in E; [lia | reflexivity | lia].
  - intros Hoff. unfold read_capture. now rewrite Hoff.
Qed.

End AECClaims.

(** The reference FIFO meets the contracts of the system calls. *)
Lemma fifo_laws : PosixLaws Ref.fifo_posix.
Proof.
  constructor.
  - intros s fd n s' data. cbn. unfold Ref.fifo_read.
    destruct (match Ref.arrivals s with
              | [] => (inl [], [])
              | a :: later => (a, later)
              end) as [[new | errno] later]; [| discriminate].
    destruct (Z.ltb_spec n 0) as [Hn | Hn]; [discriminate |].
    destruct (truthy (Ref.pending s ++ new)); [| discriminate].
    intros H. injection H as _ <-. unfold len. rewrite length_firstn. lia.
  - intros s fd n. cbn. unfold Ref.fifo_read, Ref.tick.
    destruct (match Ref.arrivals s with
              | [] => (inl [], [])
              | a :: later => (a, later)
              end) as [[new | errno] later]; [| cbn; lia].
    destruct (n <? 0); [cbn; lia |].
    destruct (truthy (Ref.pending s ++ new)); cbn; lia.
  - intros s d. cbn. unfold Ref.tick. lia.
Qed.

Example read_capture_5_of_7 :
  snd (AEC.read_capture (P := Ref.fifo_posix) bridge_on pipe_3_0_4 5 200000)
  = Some (Ret [x01; x02; x03; x04; x05]).
Proof. vm_compute. reflexivity. Qed.

(** Witness of C10. *)
Lemma read_capture_at_most_witness :
  0 <= 5 /\
  exists r, snd (AEC.read_capture (P := Ref.fifo_posix) bridge_on pipe_3_0_4 5 200000)
            = Some r /\
            forall data, r = Ret data -> len data <= 5.
Proof.
  split; [lia |].
  exact (proj1 (read_capture_at_most (L := fifo_laws) bridge_on pipe_3_0_4 5 200000
                  ltac:(lia))).
Defined.

(** ** voice/tts.py: the receive loop *)

Section TTSFacts.
Context {J : Json}.
Import TTS.

(** The chunks yielded for one response that does not end the loop. *)
Definition yielded (chunk : option bytes) : list bytes :=
  match chunk with Some c => [c] | None => [] end.

Lemma receive_loop_continue (delay : Z) (response : bytes) (chunk : option bytes)
  (rest : list arrival) :
  delay < 30000 ->
  on_response response = Continue chunk ->
  receive_loop ((delay, Message response) :: rest) =
    (yielded chunk ++ fst (receive_loop rest), snd (receive_loop rest)).
Proof.
  intros Hd Hc. cbn [receive_loop wait_for_recv].
  destruct (Z.ltb_spec delay (30 * 1000)); [| lia].
  rewrite Hc. destruct chunk as [c |]; cbn [yielded app].
  - now destruct (receive_loop rest).
  - now destruct (receive_loop rest).
Qed.

Lemma receive_loop_break (delay : Z) (response : bytes) (rest : list arrival) :
  delay < 30000 ->
  on_response response = Break ->
  receive_loop ((delay, Message response) :: rest) = ([], rest).
Proof.
  intros Hd Hb. cbn [receive_loop wait_for_recv].
  destruct (Z.ltb_spec delay (30 * 1000)); [| lia].
  now rewrite Hb.
Qed.

(** Events that follow a response which ends the loop yield nothing. *)
Lemma receive_loop_cut (delay : Z) (response : bytes) (before pending : list arrival) :
  delay < 30000 ->
  on_response response = Break ->
  fst (receive_loop (before ++ (delay, Message response) :: pending)) =
  fst (receive_loop (before ++ [(delay, Message response)])).
Proof.
  intros Hd Hb. induction before as [| a before IH]; cbn [app].
  - now rewrite !receive_loop_break.
  - cbn [receive_loop].
    destruct (wait_for_recv 30 a) as [r | e]; [| reflexivity].
    destruct (on_response r) as [[c |] |]; [| exact IH | reflexivity].
    destruct (receive_loop (before ++ (delay, Message response) :: pending)).
    destruct (receive_loop (before ++ [(delay, Message response)])).
    cbn [fst] in *. now rewrite IH.
Qed.

(** A response that ends the loop is an error frame or the JSON frame of
    event 152. *)
Lemma break_only_on_error_or_finished (response : bytes) :
  on_response response = Break ->
  msg_type_of response = MSG_ERROR_RESPONSE \/
  (msg_type_of response = 9 /\ event_of response = 152).
Proof.
  unfold on_response.
  destruct (len response <? 4); [discriminate |].
  destruct (Z.eqb_spec (msg_type_of response) MSG_AUDIO_RESPONSE) as [Ea | Ea].
  { destruct (payload_of response) as [a |]; [| discriminate].
    destruct (truthy a); discriminate. }
  destruct (Z.eqb_spec (msg_type_of response) MSG_ERROR_RESPONSE) as [Ee | Ee].
  { intros _. now left. }
  destruct (Z.eqb_spec (msg_type_of response) 9) as [Ej | Ej]; [| discriminate].
  unfold on_json_response.
  destruct (payload_of response) as [d |]; [| discriminate].
  destruct (bind (utf8_decode false d) json_loads); [| discriminate].
  destruct (event_of response =? 350); [discriminate |].
  destruct (Z.eqb_spec (event_of response) 152); [| discriminate].
  intros _. right. now split.
Qed.

End TTSFacts.

Section TTSClaims.
Context {J : Json}.
Import TTS.


End TTSClaims.

Example session_finished_before_audio :
  TTS.receive_loop (J := Ref.json)
    [(5, Message audio_frame); (5, Message session_finished_frame);
     (5, Message audio_frame)]
  = ([[x01; x02; x03; x04]], [(5, Message audio_frame)]).
Proof. vm_compute. reflexivity. Qed.


(** ** voice/asr.py: frames built and parsed *)

Section SliceFacts.
Context {A : Type}.

Lemma slice_from_app (i : Z) (pre l : list A) :
  len pre = i -> slice_from i (pre ++ l) = l.
Proof.
  intros <-. unfold slice_from, clamp_index.
  pose proof (len_nonneg pre). pose proof (len_nonneg l).
  destruct (Z.ltb_spec (len pre) 0); [lia |].
  rewrite len_app, Z.min_l by lia.
  unfold len. rewrite Nat2Z.id, skipn_app, skipn_all, Nat.sub_diag. reflexivity.
Qed.

Lemma slice_app (i j : Z) (pre mid post : list A) :
  len pre = i -> len mid = j - i ->
  slice i j (pre ++ mid ++ post) = mid.
Proof.
  intros Hi Hj. unfold slice, clamp_index.
  pose proof (len_nonneg pre). pose proof (len_nonneg mid). pose proof (len_nonneg post).
  rewrite !len_app.
  destruct (Z.ltb_spec i 0); [lia |].
  destruct (Z.ltb_spec j 0); [lia |].
  rewrite !Z.min_l by lia.
  replace (Z.to_nat i) with (length pre) by (unfold len in Hi; lia).
  replace (Z.to_nat (j - i)) with (length mid) by (unfold len in Hj; lia).
  rewrite skipn_app, skipn_all, Nat.sub_diag. cbn [skipn app].
  rewrite firstn_app, firstn_all, Nat.sub_diag. cbn [firstn].
  now rewrite app_nil_r.
Qed.

(** A slice that starts at a non-negative index is no longer than the
    distance between its bounds. *)
Lemma slice_len_le (i k : Z) (l : list A) :
  0 <= i -> 0 <= k -> len (slice i (i + k) l) <= k.
Proof.
  intros Hi Hk. unfold slice, clamp_index.
  pose proof (len_nonneg l).
  destruct (Z.ltb_spec i 0); [lia |].
  destruct (Z.ltb_spec (i + k) 0); [lia |].
  unfold len in *. rewrite length_firstn. lia.
Qed.

End SliceFacts.

(** The indices of [range(0, stop, step)] with a positive step. *)
Lemma range_step_nonneg (stop step : Z) :
  0 < step -> Forall (fun i => 0 <= i) (range_step 0 stop step).
Proof.
  intros Hs. unfold range_step.
  destruct (Z.ltb_spec 0 step); [| lia].
  apply Forall_forall. intros i Hi.
  apply in_map_iff in Hi. destruct Hi as (k & <- & _). nia.
Qed.

Section ByteFacts.

Definition value (b : byte) : Z := Z.of_N (Byte.to_N b).

Lemma byte_of_int_value (z : Z) (b : byte) :
  byte_of_int z = Ret b -> value b = z.
Proof.
  unfold byte_of_int, value.
  destruct (Z.leb_spec 0 z); cbn [andb]; [| discriminate].
  destruct (z <? 256); [| discriminate].
  destruct (Byte.of_N (Z.to_N z)) as [b' |] eqn:E; [| discriminate].
  intros [= <-]. apply Byte.to_of_N in E. rewrite E. lia.
Qed.

(** The four bytes of [n.to_bytes(4, 'big')]. *)
Lemma to_bytes4_digits (n : Z) (size : bytes) :
  to_bytes4 n = Ret size ->
  exists s0 s1 s2 s3,
    size = [s0; s1; s2; s3] /\
    0 <= n < 2 ^ 32 /\
    value s0 = n / 256 / 256 / 256 mod 256 /\
    value s1 = n / 256 / 256 mod 256 /\
    value s2 = n / 256 mod 256 /\
    value s3 = n mod 256.
Proof.
  unfold to_bytes4.
  destruct (Z.leb_spec 0 n); cbn [andb]; [| discriminate].
  destruct (Z.ltb_spec n (2 ^ 32)); [| discriminate].
  cbn [be_digits app bytes_of_ints]. unfold bind.
  destruct (byte_of_int (n / 256 / 256 / 256 mod 256)) as [s0 |] eqn:E0; [| discriminate].
  destruct (byte_of_int (n / 256 / 256 mod 256)) as [s1 |] eqn:E1; [| discriminate].
  destruct (byte_of_int (n / 256 mod 256)) as [s2 |] eqn:E2; [| discriminate].
  destruct (byte_of_int (n mod 256)) as [s3 |] eqn:E3; [| discriminate].
  intros [= <-]. exists s0, s1, s2, s3.
  apply byte_of_int_value in E0, E1, E2, E3.
  repeat split; try assumption; lia.
Qed.

Lemma eqb_value (a b : byte) : Byte.eqb a b = true -> value b = value a.
Proof. intros H. apply Byte.byte_dec_bl in H. now subst. Qed.

(** In a frame made of a header without the byte [1f], a size field below
    [1f8b08] and a gzip member, the first gzip magic is that of the member. *)
Lemma find_magic_in_frame (h0 h1 h2 h3 : byte) (n : Z) (size rest : bytes) :
  Byte.eqb x1f h0 = false -> Byte.eqb x1f h1 = false ->
  Byte.eqb x1f h2 = false -> Byte.eqb x1f h3 = false ->
  to_bytes4 n = Ret size ->
  n < 2067208 ->
  find ASR.gzip_magic ([h0; h1; h2; h3] ++ size ++ x1f :: x8b :: x08 :: rest) = 8.
Proof.
  intros H0 H1 H2 H3 Hsize Hn.
  destruct (to_bytes4_digits n size Hsize) as (s0 & s1 & s2 & s3 & -> & Hr & V0 & V1 & V2 & V3).
  unfold find, ASR.gzip_magic. cbn [app find_from starts_with].
  rewrite H0, H1, H2, H3. cbn [andb].
  assert (E0 : Byte.eqb x1f s0 = false).
  { destruct (Byte.eqb x1f s0) eqn:E; [| reflexivity].
    apply eqb_value in E. change (value x1f) with 31 in E.
    rewrite V0 in E. exfalso. Z.div_mod_to_equations. lia. }
  rewrite E0. cbn [andb].
  assert (E1 : Byte.eqb x1f s1 && (Byte.eqb x8b s2 && (Byte.eqb x08 s3 && true)) = false).
  { destruct (Byte.eqb x1f s1) eqn:Ea; [| reflexivity].
    destruct (Byte.eqb x8b s2) eqn:Eb; [| reflexivity].
    destruct (Byte.eqb x08 s3) eqn:Ec; [| reflexivity].
    apply eqb_value in Ea, Eb, Ec.
    change (value x1f) with 31 in Ea. change (value x8b) with 139 in Eb.
    change (value x08) with 8 in Ec.
    rewrite V1 in Ea. rewrite V2 in Eb. rewrite V3 in Ec.
    exfalso. Z.div_mod_to_equations. lia. }
  rewrite E1.
  change (Byte.eqb x08 x1f) with false. change (Byte.eqb x8b x1f) with false.
  rewrite !andb_false_r. cbn [andb].
  change (Byte.eqb x1f x1f) with true. change (Byte.eqb x8b x8b) with true.
  change (Byte.eqb x08 x08) with true. cbn [andb]. reflexivity.
Qed.

End ByteFacts.

Section ASRFrames.
Context {J : Json} {G : Gzip}.
Import ASR.

Lemma byte_of_int_mod (z : Z) : exists b, byte_of_int (z mod 256) = Ret b.
Proof.
  unfold byte_of_int.
  pose proof (Z.mod_pos_bound z 256 ltac:(lia)) as Hb.
  destruct (Z.leb_spec 0 (z mod 256)); [| lia].
  destruct (Z.ltb_spec (z mod 256) 256); [| lia]. cbn [andb].
  destruct (Byte.of_N (Z.to_N (z mod 256))) as [b |] eqn:E; [now exists b |].
  apply Byte.of_N_None_iff in E. lia.
Qed.

Lemma to_bytes4_fits (n : Z) : 0 <= n < 2 ^ 32 -> exists size, to_bytes4 n = Ret size.
Proof.
  intros [Hlo Hhi]. unfold to_bytes4.
  destruct (Z.leb_spec 0 n); [| lia].
  destruct (Z.ltb_spec n (2 ^ 32)); [| lia]. cbn [andb be_digits app bytes_of_ints].
  destruct (byte_of_int_mod (n / 256 / 256 / 256)) as (s0 & ->).
  destruct (byte_of_int_mod (n / 256 / 256)) as (s1 & ->).
  destruct (byte_of_int_mod (n / 256)) as (s2 & ->).
  destruct (byte_of_int_mod n) as (s3 & ->).
  cbn [bind]. eauto.
Qed.

(** A frame of [_build_full_request] or [_build_audio_request]: a header
    whose second byte is [kind], the size, the gzip member. *)
Lemma gzip_magic_strategy (h1 h2 : byte) (data size : bytes) :
  Byte.eqb x1f h1 = false -> Byte.eqb x1f h2 = false ->
  gzip_round_trip data ->
  to_bytes4 (len (gzip_compress data)) = Ret size ->
  by_gzip_magic ([x11; h1; h2; x00] ++ size ++ gzip_compress data) =
    match bind (utf8_decode false data) json_loads with
    | Ret v => Some v
    | Raise _ => None
    end.
Proof.
  intros H1 H2 (Hrt & (flags & rest & Hmagic) & Hsmall) Hsize.
  unfold by_gzip_magic.
  assert (Hfind : find gzip_magic ([x11; h1; h2; x00] ++ size ++ gzip_compress data) = 8).
  { rewrite Hmagic. eapply find_magic_in_frame; try eassumption; reflexivity. }
  rewrite Hfind. cbn [Z.eqb negb].
  destruct (to_bytes4_digits _ _ Hsize) as (s0 & s1 & s2 & s3 & -> & _).
  rewrite app_assoc, slice_from_app by reflexivity.
  rewrite Hrt. cbn [bind]. reflexivity.
Qed.

End ASRFrames.

Section ASRFrameClaims.
Context {J : Json} {G : Gzip}.
Import ASR.


End ASRFrameClaims.


Lemma recognizer_json_round_trip :
  ASR.json_round_trip (J := Ref.json)
    (ASR.full_request_payload recognizer (text "rid") 800 recognizer_context)
    recognizer_payload_bytes.
Proof. eexists. repeat split; vm_compute; reflexivity. Qed.

Lemma recognizer_gzip_round_trip :
  ASR.gzip_round_trip (G := Ref.gzip) recognizer_payload_bytes.
Proof.
  split; [vm_compute; reflexivity |]. split.
  - do 2 eexists. reflexivity.
  - vm_compute. reflexivity.
Qed.

Lemma two_samples_gzip_round_trip : ASR.gzip_round_trip (G := Ref.gzip) two_samples.
Proof.
  split; [vm_compute; reflexivity |]. split.
  - do 2 eexists. reflexivity.
  - vm_compute. reflexivity.
Qed.

Lemma two_samples_not_json : ASR.not_json (J := Ref.json) two_samples.
Proof. eexists. vm_compute. reflexivity. Qed.


(** ** voice/asr.py: the real-time session *)

Section ASRSession.
Context {J : Json} {G : Gzip}.
Import ASR.
Variable self : VolcengineASR.
Variable on_result : ASRResult -> res unit.

(** The text of the latest result in [seen], or [initial]. *)
Definition latest_text (initial : pyval) (seen : list ASRResult) : pyval :=
  last (map result_text seen) initial.

Lemma latest_text_snoc (initial : pyval) (seen : list ASRResult) (r : ASRResult) :
  latest_text initial (seen ++ [r]) = result_text r.
Proof. unfold latest_text. rewrite map_app. cbn [map]. apply last_last. Qed.

(** [receive_results] returns the text of the latest result it delivered. *)
Lemma receive_results_latest (sock : list arrival) :
  forall (initial final_text : pyval) (seen : list ASRResult),
  final_text = latest_text initial seen ->
  returned (receive_results self on_result sock final_text seen) =
  Some (latest_text initial (delivered (receive_results self on_result sock final_text seen))).
Proof.
  induction sock as [| a sock IH]; intros initial final_text seen Hft; cbn [receive_results].
  - cbn [returned delivered]. now rewrite Hft.
  - destruct (wait_for_recv 15 a) as [response | e].
    2:{ destruct e; cbn [returned delivered]; now rewrite Hft. }
    destruct (_extract_result self (_parse_response response)) as [[result |] | e].
    + destruct (on_result result) as [u | e].
      * destruct (is_final result).
        -- cbn [returned delivered]. now rewrite latest_text_snoc.
        -- apply IH. now rewrite latest_text_snoc.
      * cbn [returned delivered]. now rewrite latest_text_snoc.
    + now apply IH.
    + cbn [returned delivered]. now rewrite Hft.
Qed.

(** A receive that waits 15 s or more ends the task as if nothing else were
    to come. *)
Lemma receive_results_timeout (late : Z) (ev : incoming) (before rest : list arrival) :
  15000 <= late ->
  forall (final_text : pyval) (seen : list ASRResult),
  receive_results self on_result (before ++ (late, ev) :: rest) final_text seen =
  receive_results self on_result before final_text seen.
Proof.
  intros Hlate. induction before as [| a before IH]; intros final_text seen; cbn [app].
  - cbn [receive_results wait_for_recv].
    destruct (Z.ltb_spec late (15 * 1000)); [lia | reflexivity].
  - cbn [receive_results].
    destruct (wait_for_recv 15 a) as [response | e]; [| reflexivity].
    destruct (_extract_result self (_parse_response response)) as [[result |] | e];
      [| apply IH | reflexivity].
    destruct (on_result result); [| reflexivity].
    destruct (is_final result); [reflexivity | apply IH].
Qed.

End ASRSession.

Section ASRSessionClaims.
Context {J : Json} {G : Gzip}.
Import ASR.


End ASRSessionClaims.


(** ** voice/dialog_manager.py: the trace of the engine *)

Section TraceFacts.
Import Dialog.

Lemma count_reads_app (a b : list event) :
  count_reads (a ++ b) = count_reads a + count_reads b.
Proof. unfold count_reads. now rewrite filter_app, len_app. Qed.

Lemma verdicts_app (a b : list event) : verdicts (a ++ b) = verdicts a ++ verdicts b.
Proof. apply flat_map_app. Qed.

Lemma chats_app (a b : list event) : chats (a ++ b) = chats a ++ chats b.
Proof. apply flat_map_app. Qed.

Lemma spoken_app (a b : list event) : spoken (a ++ b) = spoken a ++ spoken b.
Proof. apply flat_map_app. Qed.

Lemma played_app (a b : list event) : played (a ++ b) = played a ++ played b.
Proof. apply flat_map_app. Qed.

Lemma count_speech_app (a b : list bool) :
  count_speech (a ++ b) = count_speech a + count_speech b.
Proof. unfold count_speech. now rewrite filter_app, len_app. Qed.

Lemma count_speech_bounds (vs : list bool) : 0 <= count_speech vs <= len vs.
Proof.
  unfold count_speech, len. pose proof (filter_length_le (fun b : bool => b) vs). lia.
Qed.

(** Events that are neither a conversation call nor a spoken text. *)
Definition quiet (evs : list event) : Prop := chats evs = [] /\ spoken evs = [].

(** Events without a capture read and without a classification. *)
Definition deaf (evs : list event) : Prop := count_reads evs = 0 /\ verdicts evs = [].

Lemma quiet_app (a b : list event) : quiet a -> quiet b -> quiet (a ++ b).
Proof.
  intros [Ha1 Ha2] [Hb1 Hb2]. split.
  - now rewrite chats_app, Ha1, Hb1.
  - now rewrite spoken_app, Ha2, Hb2.
Qed.

Lemma deaf_app (a b : list event) : deaf a -> deaf b -> deaf (a ++ b).
Proof.
  intros [Ha1 Ha2] [Hb1 Hb2]. split.
  - rewrite count_reads_app, Ha1, Hb1. reflexivity.
  - now rewrite verdicts_app, Ha2, Hb2.
Qed.

End TraceFacts.

(** *** The threshold of the barge-in vote *)

Lemma threshold_agrees_200 : threshold_agrees 200 = true.
Proof. vm_compute. reflexivity. Qed.

Lemma threshold_agrees_spec (bound : nat) (votes total : Z) :
  threshold_agrees bound = true ->
  0 < total <= Z.of_nat bound -> 0 <= votes <= total ->
  PyFloat.ratio_at_least votes total PyFloat.six_tenths = (3 * total <=? 5 * votes).
Proof.
  intros H Ht Hv. unfold threshold_agrees in H.
  rewrite forallb_forall in H.
  assert (Hin : In (Z.to_nat total) (seq 1 bound)) by (apply in_seq; lia).
  specialize (H (Z.to_nat total) Hin).
  rewrite forallb_forall in H.
  assert (Hiv : In (Z.to_nat votes) (seq 0 (S (Z.to_nat total)))) by (apply in_seq; lia).
  specialize (H (Z.to_nat votes) Hiv).
  rewrite !Z2Nat.id in H by lia.
  now apply Bool.eqb_prop.
Qed.

(** For up to 200 frames, [votes / total >= 0.6] in floating point is the
    exact comparison of [votes] with 60 % of [total]. *)
Lemma ratio_six_tenths (votes total : Z) :
  0 < total <= 200 -> 0 <= votes <= total ->
  PyFloat.ratio_at_least votes total PyFloat.six_tenths = (3 * total <=? 5 * votes).
Proof.
  intros Ht Hv. apply (threshold_agrees_spec 200); [exact threshold_agrees_200 | lia | lia].
Qed.

(** *** What each method adds to the trace *)

Section EngineFacts.
Context {W : WebRtcVad} {C : Collaborators}.
Import Dialog.

(** [st'] comes from [st] by the events [evs], the attributes of the engine
    being the same. *)
Definition extends (st st' : state) (evs : list event) : Prop :=
  self st' = self st /\ trace st' = trace st ++ evs.

Lemma extends_refl (st : state) : extends st st [].
Proof. split; [reflexivity | now rewrite app_nil_r]. Qed.

Lemma extends_trans (st st1 st2 : state) (a b : list event) :
  extends st st1 a -> extends st1 st2 b -> extends st st2 (a ++ b).
Proof.
  intros [Hs1 Ht1] [Hs2 Ht2]. split.
  - congruence.
  - rewrite Ht2, Ht1. now rewrite app_assoc.
Qed.

(** Events of sampling the capture: reads and classifications. *)
Definition sampling (evs : list event) : Prop :=
  Forall (fun e => match e with Read | Classified _ _ => True | _ => False end) evs.

(** Events of playback: writes to the device, reads and classifications. *)
Definition playback (evs : list event) : Prop :=
  Forall (fun e => match e with Read | Classified _ _ | Played _ => True | _ => False end) evs.

Lemma sampling_playback (evs : list event) : sampling evs -> playback evs.
Proof. apply Forall_impl. now intros []. Qed.

Lemma playback_quiet (evs : list event) : playback evs -> quiet evs.
Proof.
  intros H. induction H as [| e evs He _ [IH1 IH2]]; [now split |].
  destruct e; try contradiction; split; cbn; assumption.
Qed.

Lemma sampling_played (evs : list event) : sampling evs -> played evs = [].
Proof.
  intros H. induction H as [| e evs He _ IH]; [reflexivity |].
  destruct e; try contradiction; cbn; assumption.
Qed.

Lemma read_extends (st : state) : extends st (fst (read st)) [Read].
Proof. unfold read. destruct (stream_read (env st)). now split. Qed.

Lemma classify_extends (frame : bytes) (st : state) :
  extends st (fst (classify frame st)) [Classified frame (snd (classify frame st))].
Proof.
  unfold classify. destruct (VAD.is_speech _ _ frame). now split.
Qed.

(** Events whose classified frames all have [frame_size] bytes. *)
Definition framed (frame_size : Z) (evs : list event) : Prop :=
  Forall (fun e => match e with Classified f _ => len f = frame_size | _ => True end) evs.

(** The frame loop adds one classification per frame counted, and counts
    those that are speech; the frames have the frame size. *)
Lemma vote_extends (frame_size : Z) (chunk : bytes) (starts : list Z) :
  forall (votes total : Z) (st : state),
  exists evs,
    extends st (fst (vote frame_size chunk starts votes total st)) evs /\
    sampling evs /\ count_reads evs = 0 /\
    snd (vote frame_size chunk starts votes total st) =
      (votes + count_speech (verdicts evs), total + len (verdicts evs)) /\
    (0 < frame_size -> Forall (fun i => 0 <= i) starts -> framed frame_size evs).
Proof.
  induction starts as [| i starts IH]; intros votes total st; cbn [vote].
  - exists []. split; [apply extends_refl |]. split; [constructor |].
    split; [reflexivity |]. split; [cbn; f_equal; lia | intros _ _; constructor].
  - destruct (Z.ltb_spec (len (slice i (i + frame_size) chunk)) frame_size) as [Hlt | Hge].
    + destruct (IH votes total st) as (evs & Hext & Hs & Hr & Hv & Hf).
      exists evs. split; [exact Hext |]. split; [exact Hs |]. split; [exact Hr |].
      split; [exact Hv |]. intros Hfs Hst. apply Hf; [exact Hfs | now inversion Hst].
    + pose proof (classify_extends (slice i (i + frame_size) chunk) st) as Hc.
      destruct (classify (slice i (i + frame_size) chunk) st) as [st1 speech].
      cbn [fst snd] in Hc.
      destruct (IH (if speech then votes + 1 else votes) (total + 1) st1)
        as (evs & Hext & Hs & Hr & Hv & Hf).
      exists (Classified (slice i (i + frame_size) chunk) speech :: evs).
      split; [| split; [| split; [| split]]].
      * exact (extends_trans _ _ _ _ _ Hc Hext).
      * constructor; [exact I | exact Hs].
      * exact Hr.
      * rewrite Hv. cbn [verdicts flat_map app].
        change (flat_map _ evs) with (verdicts evs).
        unfold count_speech, len. cbn [filter length].
        destruct speech; cbn [length]; f_equal; lia.
      * intros Hfs Hst. inversion Hst as [| i' starts' Hi Hst']. subst.
        constructor; [| now apply Hf].
        pose proof (slice_len_le i frame_size chunk Hi ltac:(lia)). lia.
Qed.

Lemma sample_once_extends (votes total : Z) (st : state) :
  exists evs,
    extends st (fst (sample_once votes total st)) evs /\
    sampling evs /\ count_reads evs = 1 /\
    snd (sample_once votes total st) =
      (votes + count_speech (verdicts evs), total + len (verdicts evs)) /\
    (0 < VAD.frame_size (vad (self st)) -> framed (VAD.frame_size (vad (self st))) evs).
Proof.
  unfold sample_once.
  pose proof (read_extends st) as Hr.
  destruct (read st) as [st1 r]. cbn [fst] in Hr.
  assert (Hself : self st1 = self st) by apply Hr.
  match goal with |- context [truthy ?c] => set (chunk := c) in * end.
  destruct (truthy chunk); cbn [negb].
  2:{ exists [Read]. split; [exact Hr |]. split; [repeat constructor |].
      split; [reflexivity |]. split; [cbn; f_equal; lia | intros _; repeat constructor]. }
  rewrite Hself.
  destruct (Z.eqb_spec (VAD.frame_size (vad (self st))) 0) as [Hz | Hnz].
  - pose proof (classify_extends chunk st1) as Hc.
    destruct (classify chunk st1) as [st2 speech]. cbn [fst snd] in Hc.
    exists ([Read] ++ [Classified chunk speech]).
    split; [exact (extends_trans _ _ _ _ _ Hr Hc) |].
    split; [repeat constructor |]. split; [reflexivity |].
    split; [| intros Hfs; lia].
    cbn. unfold count_speech, len. destruct speech; cbn; f_equal; lia.
  - destruct (vote_extends (VAD.frame_size (vad (self st))) chunk
                (range_step 0 (len chunk) (VAD.frame_size (vad (self st))))
                votes total st1) as (evs & Hext & Hs & Hcr & Hv & Hf).
    exists ([Read] ++ evs).
    split; [exact (extends_trans _ _ _ _ _ Hr Hext) |].
    split; [constructor; [exact I | exact Hs] |].
    split; [rewrite count_reads_app, Hcr; reflexivity |].
    split; [rewrite Hv; reflexivity |].
    intros Hfs. constructor; [exact I |].
    apply Hf; [exact Hfs | now apply range_step_nonneg].
Qed.

(** The check reads the capture twice and classifies the frames read. *)
Lemma sample_extends (st : state) :
  exists evs,
    extends st (fst (sample st)) evs /\
    sampling evs /\ count_reads evs = 2 /\
    snd (sample st) = (count_speech (verdicts evs), len (verdicts evs)) /\
    (0 < VAD.frame_size (vad (self st)) -> framed (VAD.frame_size (vad (self st))) evs).
Proof.
  unfold sample.
  destruct (sample_once_extends 0 0 st) as (e1 & Hx1 & Hs1 & Hr1 & Hv1 & Hf1).
  destruct (sample_once 0 0 st) as [st1 [votes total]]. cbn [fst snd] in *.
  destruct (sample_once_extends votes total st1) as (e2 & Hx2 & Hs2 & Hr2 & Hv2 & Hf2).
  assert (Hself : self st1 = self st) by apply Hx1.
  rewrite Hself in Hf2.
  exists (e1 ++ e2).
  split; [exact (extends_trans _ _ _ _ _ Hx1 Hx2) |].
  split; [now apply Forall_app |].
  split; [rewrite count_reads_app, Hr1, Hr2; reflexivity |].
  split.
  - rewrite Hv2. injection Hv1 as -> ->.
    rewrite verdicts_app, count_speech_app, len_app. f_equal; lia.
  - intros Hfs. apply Forall_app. split; [now apply Hf1 | now apply Hf2].
Qed.

(** [_barge_in_check] with an audio stream: two reads, and the vote over
    the frames classified. *)
Lemma barge_in_check_extends (st : state) :
  audio_stream (self st) = true ->
  exists evs,
    extends st (fst (_barge_in_check st)) evs /\
    sampling evs /\ count_reads evs = 2 /\
    snd (_barge_in_check st) =
      (if len (verdicts evs) =? 0 then false
       else PyFloat.ratio_at_least (count_speech (verdicts evs)) (len (verdicts evs))
              PyFloat.six_tenths) /\
    (0 < VAD.frame_size (vad (self st)) -> framed (VAD.frame_size (vad (self st))) evs).
Proof.
  intros Has. unfold _barge_in_check. rewrite Has. cbn [negb].
  destruct (sample_extends st) as (evs & Hx & Hs & Hr & Hv & Hf).
  destruct (sample st) as [st' [votes total]]. cbn [fst snd] in *.
  injection Hv as -> ->.
  exists evs.
  split; [destruct (len (verdicts evs) =? 0); exact Hx |].
  split; [exact Hs |]. split; [exact Hr |].
  split; [destruct (len (verdicts evs) =? 0); reflexivity | exact Hf].
Qed.

End EngineFacts.

Section PlaybackFacts.
Context {W : WebRtcVad} {C : Collaborators}.
Import Dialog.

Lemma played_extends (buffer : bytes) (w : world) (st : state) :
  extends st (note (Played buffer) (with_env w st)) [Played buffer].
Proof. now split. Qed.

(** The loop of [_speak] only plays, reads and classifies. *)
Lemma speak_loop_extends (interruptible : bool) (chunks : list bytes) :
  forall (buffer : bytes) (st : state),
  exists evs,
    extends st (fst (speak_loop interruptible chunks buffer st)) evs /\ playback evs.
Proof.
  induction chunks as [| chunk rest IH]; intros buffer st; cbn [speak_loop].
  - exists []. split; [apply extends_refl | constructor].
  - destruct (buffer_threshold <=? len (buffer ++ chunk)); [| apply IH].
    destruct (play_audio (env st) (buffer ++ chunk)) as [w r].
    pose proof (played_extends (buffer ++ chunk) w st) as Hp.
    set (st1 := note (Played (buffer ++ chunk)) (with_env w st)) in *.
    destruct r as [u | e].
    2:{ exists [Played (buffer ++ chunk)]. split; [exact Hp | repeat constructor]. }
    destruct (interruptible && _aec_enabled (self st1) && audio_stream (self st1)) eqn:Hc.
    + apply andb_true_iff in Hc. destruct Hc as [_ Has].
      destruct (barge_in_check_extends st1 Has) as (e1 & Hx1 & Hs1 & _).
      destruct (_barge_in_check st1) as [st2 barge_in]. cbn [fst snd] in *.
      destruct barge_in.
      * exists ([Played (buffer ++ chunk)] ++ e1).
        split; [exact (extends_trans _ _ _ _ _ Hp Hx1) |].
        apply Forall_app. split; [repeat constructor | now apply sampling_playback].
      * destruct (IH [] st2) as (e2 & Hx2 & Hp2).
        exists (([Played (buffer ++ chunk)] ++ e1) ++ e2).
        split; [exact (extends_trans _ _ _ _ _ (extends_trans _ _ _ _ _ Hp Hx1) Hx2) |].
        apply Forall_app. split; [| exact Hp2].
        apply Forall_app. split; [repeat constructor | now apply sampling_playback].
    + destruct (IH [] st1) as (e2 & Hx2 & Hp2).
      exists ([Played (buffer ++ chunk)] ++ e2).
      split; [exact (extends_trans _ _ _ _ _ Hp Hx2) |].
      apply Forall_app. split; [repeat constructor | exact Hp2].
Qed.

(** Without the three conditions of line 541 the loop never reads the
    capture, is never interrupted, and plays every byte it is given. *)
Lemma speak_loop_uninterrupted (interruptible : bool) (chunks : list bytes) :
  forall (buffer : bytes) (st : state),
  interruptible && _aec_enabled (self st) && audio_stream (self st) = false ->
  exists evs,
    extends st (fst (speak_loop interruptible chunks buffer st)) evs /\
    playback evs /\ deaf evs /\
    (forall unread, snd (speak_loop interruptible chunks buffer st) <> Interrupted unread) /\
    (forall tail_, snd (speak_loop interruptible chunks buffer st) = Completed tail_ ->
                  join (played evs) ++ tail_ = buffer ++ join chunks).
Proof.
  induction chunks as [| chunk rest IH]; intros buffer st Hoff; cbn [speak_loop].
  - exists []. split; [apply extends_refl |]. split; [constructor |].
    split; [now split |]. split; [discriminate |].
    intros tail_ [= <-]. cbn. now rewrite app_nil_r.
  - destruct (buffer_threshold <=? len (buffer ++ chunk)).
    2:{ destruct (IH (buffer ++ chunk) st Hoff) as (evs & Hx & Hp & Hd & Hni & Hall).
        exists evs. split; [exact Hx |]. split; [exact Hp |]. split; [exact Hd |].
        split; [exact Hni |].
        intros tail_ Hl. rewrite (Hall tail_ Hl). cbn [join concat].
        now rewrite <- app_assoc. }
    destruct (play_audio (env st) (buffer ++ chunk)) as [w r].
    pose proof (played_extends (buffer ++ chunk) w st) as Hp.
    set (st1 := note (Played (buffer ++ chunk)) (with_env w st)) in *.
    destruct r as [u | e].
    2:{ exists [Played (buffer ++ chunk)]. split; [exact Hp |].
        split; [repeat constructor |]. split; [now split |].
        split; discriminate. }
    change (self st1) with (self st). rewrite Hoff.
    destruct (IH [] st1 Hoff) as (evs & Hx & Hpb & Hd & Hni & Hall).
    exists ([Played (buffer ++ chunk)] ++ evs).
    split; [exact (extends_trans _ _ _ _ _ Hp Hx) |].
    split; [apply Forall_app; split; [repeat constructor | exact Hpb] |].
    split; [apply deaf_app; [now split | exact Hd] |].
    split; [exact Hni |].
    intros tail_ Hl. specialize (Hall tail_ Hl).
    rewrite played_app. cbn [played flat_map app join concat] in *.
    unfold join in *. rewrite <- !app_assoc. now rewrite Hall.
Qed.

(** The attributes that [_speak] leaves as they were. *)
Definition same_engine (m m' : VoiceDialogManager) : Prop :=
  vad m' = vad m /\ running m' = running m /\ _aec_enabled m' = _aec_enabled m /\
  current_speaker_name m' = current_speaker_name m /\
  awaiting_name m' = awaiting_name m /\ audio_stream m' = audio_stream m /\
  speaker_id m' = speaker_id m /\ exit_keywords m' = exit_keywords m.

(** [_speak] notes the text, then plays; a text that is not interruptible
    is played without a read of the capture. *)
Lemma speak_trace (text_ : str) (interruptible : bool) (st : state) :
  exists evs,
    trace (_speak text_ interruptible st) = trace st ++ Spoke text_ interruptible :: evs /\
    playback evs /\
    (interruptible && _aec_enabled (self st) && audio_stream (self st) = false -> deaf evs) /\
    same_engine (self st) (self (_speak text_ interruptible st)) /\
    is_speaking (self (_speak text_ interruptible st)) = false.
Proof.
  unfold _speak.
  set (st0 := note (Spoke text_ interruptible) (with_self (set_is_speaking true) st)).
  destruct (tts_synthesize_stream (env st0) text_) as [w chunks].
  destruct (speak_loop_extends interruptible chunks [] (with_env w st0))
    as (evs & [Hs Ht] & Hp).
  pose proof (speak_loop_uninterrupted interruptible chunks [] (with_env w st0)) as Hun.
  destruct (speak_loop interruptible chunks [] (with_env w st0)) as [st1 ending].
  cbn [fst snd] in *.
  assert (Hdeaf : interruptible && _aec_enabled (self st) && audio_stream (self st) = false ->
                  deaf evs).
  { intros Hoff. destruct (Hun Hoff) as (evs' & [_ Ht'] & _ & Hd & _).
    rewrite Ht in Ht'. apply app_inv_head in Ht'. now subst evs'. }
  assert (Hst1 : self st1 = set_is_speaking true (self st)) by exact Hs.
  assert (Htr : trace st1 = trace st ++ Spoke text_ interruptible :: evs).
  { rewrite Ht. cbn. now rewrite <- app_assoc. }
  assert (Hplain : forall st2 : state,
            self st2 = self st1 ->
            same_engine (self st)
              (self (with_self (fun m => set_wait_after_speak
                                           (if _aec_enabled m then 0 else 500)
                                           (set_is_speaking false m)) st2)) /\
            is_speaking
              (self (with_self (fun m => set_wait_after_speak
                                           (if _aec_enabled m then 0 else 500)
                                           (set_is_speaking false m)) st2)) = false).
  { intros st2 Hs2. cbn. rewrite Hs2, Hst1. cbn. now repeat split. }
  destruct ending as [buffer | unread | e].
  - destruct (truthy buffer).
    + destruct (play_audio (env st1) buffer) as [w' r'].
      exists (evs ++ [Played buffer]).
      split; [cbn; rewrite Htr; now rewrite <- app_assoc |].
      split; [apply Forall_app; split; [exact Hp | repeat constructor] |].
      split; [intros Hoff; apply deaf_app; [now apply Hdeaf | now split] |].
      now apply Hplain.
    + exists evs. split; [exact Htr |]. split; [exact Hp |]. split; [exact Hdeaf |].
      now apply Hplain.
  - exists evs. split; [exact Htr |]. split; [exact Hp |]. split; [exact Hdeaf |].
    now apply Hplain.
  - exists evs. split; [exact Htr |]. split; [exact Hp |]. split; [exact Hdeaf |].
    now apply Hplain.
Qed.

End PlaybackFacts.

(** *** Speaker identification and the loop of turns *)

Section TurnFacts.
Context {W : WebRtcVad} {C : Collaborators}.
Import Dialog.

(** [_ask_for_name] speaks its question and leaves the engine awaiting a
    name; the other attributes are as before. *)
Lemma ask_for_name_engine (st : state) :
  awaiting_name (self (_ask_for_name st)) = true /\
  running (self (_ask_for_name st)) = running (self st) /\
  exit_keywords (self (_ask_for_name st)) = exit_keywords (self st) /\
  _aec_enabled (self (_ask_for_name st)) = _aec_enabled (self st).
Proof.
  unfold _ask_for_name.
  destruct (speak_trace ask_text false (with_self (set_awaiting_name true) st))
    as (evs & _ & _ & _ & Hsame & _).
  destruct Hsame as (_ & Hr & Hae & _ & Ha & _ & _ & Hk).
  rewrite Ha, Hr, Hk, Hae. now repeat split.
Qed.

(** The branch of [_identify_speaker] for a voice that is not recognized
    (lines 375-380). *)
Ltac unknown_voice emb Hask :=
  destruct emb as [e |]; [| cbn [fst]; now repeat split];
  destruct (set_pending_registration _ e) as [w1 [u | x]];
  [cbn [fst]; now apply Hask | cbn [fst]; now repeat split].

(** [_identify_speaker] changes neither [running] nor the exit keywords, and
    when the engine is not awaiting a name afterwards it has not used the
    audio device, the capture or the conversation collaborator. *)
Lemma identify_speaker_engine (audio_data : bytes) (st : state) :
  running (self (fst (_identify_speaker audio_data st))) = running (self st) /\
  exit_keywords (self (fst (_identify_speaker audio_data st))) = exit_keywords (self st) /\
  (awaiting_name (self st) = false ->
   awaiting_name (self (fst (_identify_speaker audio_data st))) = false ->
   trace (fst (_identify_speaker audio_data st)) = trace st).
Proof.
  assert (Hask : forall st0 : state,
            running (self st0) = running (self st) ->
            exit_keywords (self st0) = exit_keywords (self st) ->
            running (self (_ask_for_name st0)) = running (self st) /\
            exit_keywords (self (_ask_for_name st0)) = exit_keywords (self st) /\
            (awaiting_name (self st) = false ->
             awaiting_name (self (_ask_for_name st0)) = false ->
             trace (_ask_for_name st0) = trace st)).
  { intros st0 Hr Hk. destruct (ask_for_name_engine st0) as (Ha & Hr' & Hk' & _).
    split; [congruence |]. split; [congruence |].
    intros _ Hn. rewrite Ha in Hn. discriminate Hn. }
  unfold _identify_speaker.
  destruct (negb (speaker_id (self st)) || negb (truthy audio_data));
    [cbn [fst]; now repeat split |].
  destruct (speaker_identify (env st) audio_data) as [w [[sid emb] | e]];
    [| cbn [fst]; now repeat split].
  destruct sid as [id |]; [destruct (truthy id) |].
  - destruct (get_speaker_name (env (with_env w st)) id) as [w1 [name | e]];
      [| cbn [fst]; now repeat split].
    destruct emb as [e |]; [| cbn [fst]; now repeat split].
    destruct (update_embedding _ id e) as [w2 [u | x]]; cbn [fst]; now repeat split.
  - unknown_voice emb Hask.
  - unknown_voice emb Hask.
Qed.

(** A non-empty pattern does not occur in the empty string. *)
Lemma str_contains_empty (c : Z) (pat : str) : str_contains (c :: pat) [] = false.
Proof. reflexivity. Qed.

(** A text that contains one of the four default keywords is not empty. *)
Lemma keyword_text_truthy (kw user_text : str) :
  In kw default_exit_keywords -> str_contains kw user_text = true ->
  truthy user_text = true.
Proof.
  intros Hin Hc. destruct user_text as [| c rest]; [| reflexivity].
  cbn in Hin. destruct Hin as [<- | [<- | [<- | [<- | []]]]]; discriminate Hc.
Qed.

(** The pre-buffer of [_wait_for_speech_start] never exceeds
    [pre_buffer_max] chunks. *)
Lemma wait_loop_bound (fuel : nat) :
  forall (pre_buffer : list bytes) (consecutive_speech : Z) (st : state),
  len pre_buffer <= pre_buffer_max ->
  match snd (wait_loop fuel pre_buffer consecutive_speech st) with
  | Started pre => len pre <= pre_buffer_max
  | Listening pre _ => len pre <= pre_buffer_max
  | NotStarted => True
  end.
Proof.
  induction fuel as [| fuel IH]; intros pre n st Hpre; cbn [wait_loop].
  - exact Hpre.
  - destruct (running (self st) && negb (is_speaking (self st))); [| exact I].
    destruct (read_and_check st) as [st1 [chunk speech]].
    match goal with
    | |- context [if speech then (if _ then (st1, Started ?p) else _) else _] =>
        set (pre' := p)
    end.
    assert (Hpre' : len pre' <= pre_buffer_max).
    { subst pre'. destruct chunk as [c |]; [| exact Hpre].
      destruct (truthy c); [| exact Hpre].
      destruct (Z.ltb_spec pre_buffer_max (len (pre ++ [c]))) as [Hlt | Hge].
      - rewrite len_app in Hlt. cbn in Hlt.
        destruct pre as [| p0 pre]; cbn [app tl].
        + cbn. unfold pre_buffer_max. lia.
        + rewrite len_app. unfold len in *. cbn [length] in *. lia.
      - exact Hge. }
    destruct speech.
    + destruct (speech_threshold <=? n + 1); [exact Hpre' | now apply IH].
    + now apply IH.
Qed.

(** Every chunk of the pre-buffer goes to the audio buffer and to the queue
    of the recognizer, in order. *)
Lemma preload_all (pre_buffer : list bytes) : preload pre_buffer = (pre_buffer, pre_buffer).
Proof.
  unfold preload.
  assert (H : forall (l a b : list bytes),
            fold_left (fun '(audio_buffer, audio_queue) chunk =>
                         (audio_buffer ++ [chunk], audio_queue ++ [chunk])) l (a, b)
            = (a ++ l, b ++ l)).
  { induction l as [| c l IH]; intros a b; cbn [fold_left].
    - now rewrite !app_nil_r.
    - rewrite IH. now rewrite <- !app_assoc. }
  apply (H pre_buffer [] []).
Qed.

End TurnFacts.

(** *** Claims about the dialog engine *)

Section DialogClaims.
Context {W : WebRtcVad} {C : Collaborators}.
Import Dialog.



(** C6 (as the code has it). Two buffers hold the frames before onset.  The
    pre-buffer of [_wait_for_speech_start] holds at most 15 chunks at any
    time, and [_realtime_recognize] puts all of them, in order, in front of
    the turn's audio and of the recognizer's queue.  The ring buffer of
    [detect_speech_segments] is bounded by [speech_end_frames], not by 15: the
    frames put in front of a detected turn are at most [speech_end_frames],
    which the constructor sets to 20. *)
Theorem pre_roll_bounds (self_ : VAD.VADDetector) (h : vad_handle)
  (audio_stream_ : list bytes) :
  (forall (fuel : nat) (st : state),
     match snd (_wait_for_speech_start fuel st) with
     | Started pre_buffer => len pre_buffer <= 15 /\ preload pre_buffer = (pre_buffer, pre_buffer)
     | Listening pre_buffer _ => len pre_buffer <= 15
     | NotStarted => True
     end) /\
  (forall (h' : vad_handle) (audio : bytes),
     0 < VAD.speech_end_frames self_ ->
     VAD.detect_speech_segments self_ h audio_stream_ = (h', Ret (Some audio)) ->
     exists t : VAD.turn self_ (VAD.classified self_ h (VAD.frames_of_stream self_ audio_stream_)),
       VAD.turn_audio t = audio /\ len (VAD.preroll t) <= VAD.speech_end_frames self_) /\
  (forall (aggressiveness rate : Z) (h0 : vad_handle),
     VAD.init aggressiveness rate = Ret (h0, self_) -> VAD.speech_end_frames self_ = 20).
Proof.
  split; [| split].
  - intros fuel st. unfold _wait_for_speech_start.
    pose proof (wait_loop_bound fuel [] 0 st ltac:(cbn; unfold pre_buffer_max; lia)) as Hb.
    destruct (snd (wait_loop fuel [] 0 st)) as [pre | | pre n].
    + split; [exact Hb | apply preload_all].
    + exact I.
    + exact Hb.
  - intros h' audio HM Hdet.
    destruct (detect_finds_turn self_ h h' audio_stream_ audio HM Hdet) as (t & Ha & _).
    exists t. split; [exact Ha |].
    rewrite (VAD.turn_preroll _ _ t) at 1. unfold len. rewrite lastn_length. lia.
  - intros aggressiveness rate h0 Hinit.
    now destruct (init_defaults aggressiveness rate h0 self_ Hinit) as (_ & _ & _ & He).
Qed.

End DialogClaims.

(** ** Runs of the dialog engine and of the recognizer session *)

(** Witness of C9: the classifier rejects a frame of 1000 bytes and
    [is_speech] answers [False]; it accepts a frame of 960 bytes and
    [is_speech] gives its verdict. *)
Lemma is_speech_total_witness :
  snd (VAD.is_speech (W := Ref.level_vad) detector_odd_frame 0 []) = Ret false /\
  snd (VAD.is_speech (W := Ref.level_vad) Ref.detector16k 0 Ref.speech_frame) = Ret true.
Proof.
  split.
  - destruct (is_speech_total (W := Ref.level_vad) detector_odd_frame 0 [])
      as (b & Hb & Hraise & _).
    rewrite Hb. f_equal. apply (Hraise ExternalError). vm_compute. reflexivity.
  - destruct (is_speech_total (W := Ref.level_vad) Ref.detector16k 0 Ref.speech_frame)
      as (b & Hb & _ & Hret).
    rewrite Hb. f_equal. apply Hret. vm_compute. reflexivity.
Defined.





(** When the transcript is the keyword 再见 itself, the text that the
    conversation collaborator receives is the transcript. *)
Example farewell_request_is_transcript :
  Dialog.chats
    (Dialog.trace (fst (Dialog._handle_speech (W := Ref.level_vad)
                          (C := Ref.studio_collaborators) Ref.no_name_response
                          Dialog.farewell_prompt [x01] (Ref.engine true false quiet_studio))))
  = [(Dialog.farewell_prompt, None)].
Proof. vm_compute. reflexivity. Qed.

Lemma late_onset_detected :
  VAD.detect_speech_segments (W := Ref.level_vad) Ref.detector16k 0 late_onset_stream
  = (20, Ret (Some (join late_onset_stream))).
Proof. vm_compute. reflexivity. Qed.

(** Witness of C6. *)
Lemma pre_roll_bounds_witness :
  0 < VAD.speech_end_frames Ref.detector16k /\
  (exists t : VAD.turn Ref.detector16k
                (VAD.classified (W := Ref.level_vad) Ref.detector16k 0
                   (VAD.frames_of_stream Ref.detector16k late_onset_stream)),
     VAD.turn_audio t = join late_onset_stream /\
     len (VAD.preroll t) <= VAD.speech_end_frames Ref.detector16k) /\
  VAD.speech_end_frames Ref.detector16k = 20.
Proof.
  assert (HM : 0 < VAD.speech_end_frames Ref.detector16k) by (cbn; lia).
  destruct (pre_roll_bounds (W := Ref.level_vad) (C := Ref.studio_collaborators)
              Ref.detector16k 0 late_onset_stream) as (_ & Ht & Hd).
  split; [exact HM |].
  split; [exact (Ht 20 (join late_onset_stream) HM late_onset_detected) |].
  exact (Hd 3 16000 0 detector16k_built).
Defined.

(** Counterexample to C6 as stated: with the detector as the constructor
    builds it, after ten silent and nine speech frames the ring buffer of
    [detect_speech_segments] holds 19 frames; the next speech frame confirms
    the onset, and the 20 frames of the ring buffer are the start of the
    audio that is returned. *)
Lemma ring_buffer_of_twenty :
  VAD.init (W := Ref.level_vad) 3 16000 = Ret (0, Ref.detector16k) /\
  (exists st, VAD.run Ref.detector16k VAD.initial_locals
                (VAD.classified (W := Ref.level_vad) Ref.detector16k 0
                   (repeat Ref.silent_frame 10 ++ repeat Ref.speech_frame 9)) = VAD.Next st /\
              VAD.triggered st = false /\ len (VAD.ring_buffer st) = 19) /\
  (exists st, VAD.run Ref.detector16k VAD.initial_locals
                (VAD.classified (W := Ref.level_vad) Ref.detector16k 0 late_onset_stream)
              = VAD.Next st /\
              VAD.triggered st = true /\ VAD.voiced_frames st = late_onset_stream) /\
  snd (VAD.detect_speech_segments (W := Ref.level_vad) Ref.detector16k 0 late_onset_stream)
    = Ret (Some (join late_onset_stream)) /\
  len late_onset_stream = 20.
Proof.
  split; [reflexivity |].
  split; [eexists; split; [vm_compute; reflexivity | split; vm_compute; reflexivity] |].
  split; [eexists; split; [vm_compute; reflexivity | split; vm_compute; reflexivity] |].
  split; [now rewrite late_onset_detected | reflexivity].
Qed.

(** ** voice/vad.py: frames, silence filtering and what the detector returns *)

Section VADFrames.
Context {W : WebRtcVad}.
Import VAD.

(** The length of a concatenation of frames of one size. *)
Lemma len_join_frames (size : Z) (frames : list bytes) :
  Forall (fun frame => len frame = size) frames ->
  len (join frames) = len frames * size.
Proof.
  intros H. induction H as [| f frames Hf _ IH]; [reflexivity |].
  cbn [join concat]. rewrite len_app. fold (join frames). rewrite IH, Hf.
  unfold len. cbn [length]. lia.
Qed.

(** With a positive frame size every frame cut from a chunk is whole. *)
Lemma frames_of_chunk_whole (self : VADDetector) (chunk : bytes) :
  0 < frame_size self ->
  Forall (fun frame => len frame = frame_size self) (frames_of_chunk self chunk).
Proof.
  intros Hfs. unfold frames_of_chunk. apply Forall_forall. intros f Hf.
  apply filter_In in Hf. destruct Hf as [Hin Hlen].
  apply in_map_iff in Hin. destruct Hin as (i & <- & Hi).
  unfold range in Hi. apply in_map_iff in Hi. destruct Hi as (k & <- & _).
  apply negb_true_iff in Hlen. apply Z.ltb_ge in Hlen.
  pose proof (slice_len_le (Z.of_nat k * frame_size self) (frame_size self) chunk
                ltac:(nia) ltac:(lia)) as Hle.
  replace ((Z.of_nat k + 1) * frame_size self)
    with (Z.of_nat k * frame_size self + frame_size self) in * by lia.
  lia.
Qed.

Lemma frames_of_stream_whole (self : VADDetector) (stream : list bytes) :
  0 < frame_size self ->
  Forall (fun frame => len frame = frame_size self) (frames_of_stream self stream).
Proof.
  intros Hfs. unfold frames_of_stream. induction stream as [| c stream IH]; cbn [flat_map].
  - constructor.
  - apply Forall_app. split; [now apply frames_of_chunk_whole | exact IH].
Qed.

(** The slice of [k] elements that starts at [i], when it lies inside. *)
Lemma slice_inside (chunk : bytes) (i k : Z) :
  0 <= i -> 0 <= k -> i + k <= len chunk -> len (slice i (i + k) chunk) = k.
Proof.
  intros Hi Hk Hin. unfold slice, clamp_index.
  destruct (Z.ltb_spec i 0); [lia |].
  destruct (Z.ltb_spec (i + k) 0); [lia |].
  unfold len in *. rewrite length_firstn, length_skipn. lia.
Qed.

(** The slice that starts at [i] and runs over the end. *)
Lemma slice_over_end (chunk : bytes) (i k : Z) :
  0 <= i -> 0 < k -> len chunk < i + k -> len (slice i (i + k) chunk) < k.
Proof.
  intros Hi Hk Hin. unfold slice, clamp_index.
  destruct (Z.ltb_spec i 0); [lia |].
  destruct (Z.ltb_spec (i + k) 0); [lia |].
  unfold len in *. rewrite length_firstn, length_skipn. lia.
Qed.

(** The frames of a chunk, by their start offsets. *)
Lemma frames_of_chunk_offsets (self : VADDetector) (chunk : bytes) :
  0 < frame_size self ->
  frames_of_chunk self chunk =
  map (fun k => slice (Z.of_nat k * frame_size self)
                      (Z.of_nat k * frame_size self + frame_size self) chunk)
      (seq 0 (Z.to_nat (len chunk / frame_size self))).
Proof.
  intros Hfs. unfold frames_of_chunk, range. rewrite map_map.
  pose proof (len_nonneg chunk) as Hl.
  assert (Hq : Z.of_nat (Z.to_nat (len chunk / frame_size self)) * frame_size self
               <= len chunk).
  { rewrite Z2Nat.id by (apply Z.div_pos; lia).
    pose proof (Z.mul_div_le (len chunk) (frame_size self) Hfs). lia. }
  revert Hq. generalize (Z.to_nat (len chunk / frame_size self)) as n.
  intros n Hq.
  assert (Hall : forall k, In k (seq 0 n) ->
            negb (len (slice (Z.of_nat k * frame_size self)
                         ((Z.of_nat k + 1) * frame_size self) chunk) <? frame_size self)
            = true).
  { intros k Hk. apply in_seq in Hk. apply negb_true_iff, Z.ltb_ge.
    replace ((Z.of_nat k + 1) * frame_size self)
      with (Z.of_nat k * frame_size self + frame_size self) by lia.
    rewrite slice_inside; nia. }
  induction (seq 0 n) as [| k l IH]; [reflexivity |].
  cbn [map filter]. rewrite (Hall k (or_introl eq_refl)).
  f_equal.
  - f_equal. lia.
  - apply IH. intros k' Hk'. apply Hall. now right.
Qed.

(** [filter_loop] on offsets whose frames are whole, followed by nothing or
    by an offset whose frame is short: it never raises and computes
    [collect] on the classified frames. *)
Lemma filter_loop_collect (self : VADDetector) (audio_data : bytes) (idx rest : list Z) :
  Forall (fun i => frame_size self <= len (slice i (i + frame_size self) audio_data)) idx ->
  match rest with
  | [] => True
  | i :: _ => len (slice i (i + frame_size self) audio_data) < frame_size self
  end ->
  forall (h : vad_handle) (segments current_segment : list bytes) (is_speaking : bool),
  filter_loop self audio_data (idx ++ rest) h segments current_segment is_speaking =
  (handle_after self h (map (fun i => slice i (i + frame_size self) audio_data) idx),
   Ret (collect (classified self h
                   (map (fun i => slice i (i + frame_size self) audio_data) idx))
          segments current_segment is_speaking)).
Proof.
  intros Hidx Hrest. induction Hidx as [| i idx Hi _ IH];
    intros h segments current_segment is_speaking.
  - cbn [app map classified collect handle_after].
    destruct rest as [| i rest]; [reflexivity |].
    cbn [filter_loop]. destruct (Z.ltb_spec (len (slice i (i + frame_size self) audio_data))
                                   (frame_size self)); [reflexivity | lia].
  - cbn [app map filter_loop classified handle_after].
    destruct (Z.ltb_spec (len (slice i (i + frame_size self) audio_data))
                (frame_size self)); [lia |].
    pose proof (is_speech_returns self h (slice i (i + frame_size self) audio_data)) as Hr.
    destruct (is_speech self h (slice i (i + frame_size self) audio_data)) as [h1 r].
    cbn [fst snd] in *. destruct r as [b | e]; [clear Hr | discriminate Hr].
    cbn [verdict collect]. destruct b.
    + apply IH.
    + destruct (is_speaking && truthy current_segment); apply IH.
Qed.

(** What [collect] gathers: the speech frames, in order, in segments that
    are not empty. *)
Lemma collect_speech (size : Z) (lab : list (bytes * bool)) :
  Forall (fun p => len (fst p) = size) lab ->
  forall (segments current_segment : list bytes) (is_speaking : bool),
  Forall (fun frame => len frame = size) current_segment ->
  Forall (fun seg => exists k, 0 < k /\ len seg = k * size) segments ->
  join (close_segment (collect lab segments current_segment is_speaking)) =
    join segments ++ join current_segment ++ join (map fst (filter snd lab)) /\
  Forall (fun seg => exists k, 0 < k /\ len seg = k * size)
    (close_segment (collect lab segments current_segment is_speaking)).
Proof.
  intros Hlab. induction Hlab as [| [f b] lab Hf _ IH];
    intros segments current_segment is_speaking Hcur Hsegs.
  - cbn [collect close_segment filter map]. unfold join at 4. cbn [concat].
    rewrite app_nil_r.
    destruct current_segment as [| c cur]; cbn [truthy].
    + unfold join. cbn [concat]. rewrite app_nil_r. now split.
    + split.
      * unfold join. rewrite concat_app. cbn [concat]. now rewrite app_nil_r.
      * apply Forall_app. split; [exact Hsegs |]. constructor; [| constructor].
        exists (len (c :: cur)). split; [unfold len; cbn [length]; lia |].
        now apply len_join_frames.
  - cbn [fst] in Hf. cbn [collect filter]. destruct b; cbn [fst snd map].
    + assert (Hcur' : Forall (fun frame => len frame = size) (current_segment ++ [f])).
      { apply Forall_app. split; [exact Hcur | now constructor]. }
      destruct (IH segments (current_segment ++ [f]) true Hcur' Hsegs) as [Hj Hall].
      split; [| exact Hall]. etransitivity; [exact Hj |]. unfold join. rewrite concat_app.
      cbn [concat]. rewrite app_nil_r. now rewrite <- !app_assoc.
    + destruct (is_speaking && truthy current_segment) eqn:E.
      * apply andb_true_iff in E. destruct E as [_ Ht].
        assert (Hsegs' : Forall (fun seg => exists k, 0 < k /\ len seg = k * size)
                           (segments ++ [join current_segment])).
        { apply Forall_app. split; [exact Hsegs |]. constructor; [| constructor].
          exists (len current_segment). split.
          - destruct current_segment; [discriminate Ht | unfold len; cbn [length]; lia].
          - now apply len_join_frames. }
        destruct (IH (segments ++ [join current_segment]) [] false
                    ltac:(constructor) Hsegs') as [Hj Hall].
        split; [| exact Hall]. etransitivity; [exact Hj |]. unfold join. rewrite concat_app.
        cbn [concat]. rewrite app_nil_r. now rewrite <- !app_assoc.
      * apply (IH segments current_segment is_speaking Hcur Hsegs).
Qed.

Lemma chunk_loop_returns (self : VADDetector) (stream : list bytes) :
  frame_size self <> 0 ->
  forall (h : vad_handle) (st : locals),
  exists h',
    chunk_loop self stream h st =
      (h', Ret (run self st (classified self h (frames_of_stream self stream)))).
Proof.
  intros Hfs. induction stream as [| chunk stream IH]; intros h st.
  - exists h. reflexivity.
  - cbn [chunk_loop].
    destruct (Z.eqb_spec (frame_size self) 0) as [E | _]; [contradiction |].
    destruct (frame_loop_run self chunk (range (len chunk / frame_size self)) h st)
      as (h1 & E & Hh).
    rewrite E.
    cbn [frames_of_stream flat_map]. fold (frames_of_stream self stream).
    change (frames_of_chunk self chunk)
      with (selected self chunk (range (len chunk / frame_size self))).
    rewrite classified_app, run_app.
    destruct (run self st (classified self h
                (selected self chunk (range (len chunk / frame_size self)))))
      as [st1 | v].
    + rewrite <- (Hh st1 eq_refl). apply IH.
    + exists h1. reflexivity.
Qed.

(** Audio that the frame loop returns is not empty. *)
Lemma run_returns_truthy (self : VADDetector) (lab : list (bytes * bool)) :
  forall (st : locals) (audio : bytes),
  run self st lab = Return (Some audio) -> truthy audio = true.
Proof.
  induction lab as [| [frame speech] lab IH]; intros st audio H; [discriminate H |].
  cbn [run] in H.
  destruct (on_frame self st frame speech) as [st' | v] eqn:E; [now apply (IH st') |].
  injection H as ->. unfold on_frame in E.
  destruct (negb (triggered st)).
  - destruct (speech_start_frames self <=? _); discriminate E.
  - destruct (speech_end_frames self <=? _); [| discriminate E].
    injection E as E.
    destruct (truthy (join (slice_to (- speech_end_frames self)
                              (voiced_frames st ++ [frame])))) eqn:Ht;
      [now injection E as <- | discriminate E].
Qed.

(** A run of speech frames is no longer than the longest one. *)
Lemma speech_run_bounded (before run_ after : list (bytes * bool)) :
  all_speech run_ -> len run_ <= longest_speech_run (before ++ run_ ++ after).
Proof.
  intros Hrun. induction before as [| x before IH].
  - cbn [app].
    assert (Hp : len run_ <= speech_prefix (run_ ++ after)).
    { induction Hrun as [| [f b] run_ Hb _ IHr].
      - cbn [app]. unfold len. cbn [length].
        destruct after as [| [f [|]] after]; cbn [speech_prefix]; [lia | | lia].
        clear. induction after as [| [f' [|]] after IHa]; cbn [speech_prefix]; lia.
      - cbn [snd] in Hb. subst b. cbn [app speech_prefix].
        unfold len in *. cbn [length]. lia. }
    destruct (run_ ++ after) as [| y l] eqn:E.
    + destruct run_; [unfold len; cbn; lia | discriminate E].
    + cbn [longest_speech_run]. lia.
  - cbn [app longest_speech_run]. lia.
Qed.

End VADFrames.

Section VADMoreClaims.
Context {W : WebRtcVad}.
Import VAD.

(** X1. [filter_silence] classifies the whole frames of the audio, in order,
    and returns the frames classified as speech, in order, cut into
    segments; every segment is a positive number of whole frames. *)
Theorem filter_silence_keeps_speech (self : VADDetector) (h : vad_handle)
  (audio_data : bytes) :
  0 < frame_size self ->
  exists segments : list bytes,
    filter_silence self h audio_data =
      (handle_after self h (frames_of_chunk self audio_data), Ret segments) /\
    join segments =
      join (map fst (filter snd (classified self h (frames_of_chunk self audio_data)))) /\
    Forall (fun seg => exists k, 0 < k /\ len seg = k * frame_size self) segments.
Proof.
  intros Hfs. unfold filter_silence.
  destruct (Z.eqb_spec (frame_size self) 0) as [E | _]; [lia |].
  pose proof (len_nonneg audio_data) as Hl.
  set (fs := frame_size self) in *.
  set (q := Z.to_nat (len audio_data / fs)).
  set (n := Z.to_nat ((len audio_data - 0 + fs - 1) / fs)).
  assert (Hq : Z.of_nat q = len audio_data / fs).
  { subst q. apply Z2Nat.id. apply Z.div_pos; lia. }
  assert (Hqn : (q <= n)%nat).
  { subst q n. apply Z2Nat.inj_le; try (apply Z.div_pos; lia).
    apply Z.div_le_mono; lia. }
  assert (Hn : Z.of_nat n * fs < len audio_data + fs).
  { subst n. rewrite Z2Nat.id by (apply Z.div_pos; lia).
    pose proof (Z.mul_div_le (len audio_data - 0 + fs - 1) fs Hfs). lia. }
  assert (Hqlo : Z.of_nat q * fs <= len audio_data).
  { rewrite Hq. pose proof (Z.mul_div_le (len audio_data) fs Hfs). lia. }
  assert (Hqhi : len audio_data < (Z.of_nat q + 1) * fs).
  { rewrite Hq. pose proof (Z.mul_succ_div_gt (len audio_data) fs Hfs). lia. }
  assert (Hsplit : range_step 0 (len audio_data) fs =
                   map (fun k => 0 + Z.of_nat k * fs) (seq 0 q)
                   ++ map (fun k => 0 + Z.of_nat k * fs) (seq q (n - q))).
  { unfold range_step. destruct (Z.ltb_spec 0 fs); [| lia].
    fold n. rewrite <- map_app, <- seq_app. f_equal. f_equal. lia. }
  rewrite Hsplit.
  rewrite (filter_loop_collect self audio_data).
  - assert (Hframes : map (fun i => slice i (i + frame_size self) audio_data)
                        (map (fun k => 0 + Z.of_nat k * fs) (seq 0 q))
                      = frames_of_chunk self audio_data).
    { rewrite (frames_of_chunk_offsets self audio_data Hfs), map_map. reflexivity. }
    rewrite Hframes.
    pose proof (frames_of_chunk_whole self audio_data Hfs) as Hwhole.
    destruct (collect_speech fs (classified self h (frames_of_chunk self audio_data)))
      with (segments := @nil bytes) (current_segment := @nil bytes) (is_speaking := false)
      as [Hj Hall].
    + apply Forall_forall. intros [f b] Hin. cbn [fst].
      assert (Hf : In f (map fst (classified self h (frames_of_chunk self audio_data)))).
      { apply in_map_iff. now exists (f, b). }
      rewrite classified_frames in Hf.
      exact (proj1 (Forall_forall _ _) Hwhole f Hf).
    + constructor.
    + constructor.
    + eexists. split; [reflexivity |]. split; [exact Hj | exact Hall].
  - apply Forall_forall. intros i Hi. apply in_map_iff in Hi.
    destruct Hi as (k & <- & Hk). apply in_seq in Hk.
    fold fs. rewrite slice_inside; nia.
  - destruct (n - q)%nat as [| m] eqn:Em; [exact I |].
    cbn [seq map]. fold fs. apply slice_over_end; nia.
Qed.

(** X2. Audio returned by [detect_speech_segments] is never empty and is made
    of whole frames: its length is a positive multiple of the frame size. *)
Theorem detected_audio_whole_frames (self : VADDetector) (h h' : vad_handle)
  (audio_stream : list bytes) (audio : bytes) :
  0 < frame_size self ->
  0 < speech_end_frames self ->
  detect_speech_segments self h audio_stream = (h', Ret (Some audio)) ->
  exists k, 0 < k /\ len audio = k * frame_size self.
Proof.
  intros Hfs HM Hdet.
  destruct (detect_finds_turn self h h' audio_stream audio HM Hdet) as (t & Ha & _).
  assert (Hwhole : Forall (fun frame => len frame = frame_size self)
                     (map fst (preroll t ++ body t))).
  { pose proof (frames_of_stream_whole self audio_stream Hfs) as Hw.
    rewrite <- (classified_frames self _ h) in Hw.
    rewrite (turn_split _ _ t) in Hw. rewrite !map_app in Hw.
    rewrite map_app. apply Forall_app in Hw. destruct Hw as [_ Hw].
    apply Forall_app in Hw. destruct Hw as [Hp Hw].
    apply Forall_app in Hw. destruct Hw as [Hb _].
    apply Forall_app. now split. }
  assert (Hnonempty : truthy audio = true).
  { pose proof (detect_run self h h' audio_stream (Some audio) Hdet) as Hrun.
    pose proof (run_inv self (classified self h (frames_of_stream self audio_stream)) HM
                  [] initial_locals (loop_inv_initial self)) as Hinv.
    cbn [app] in Hinv.
    destruct (run self initial_locals
                (classified self h (frames_of_stream self audio_stream)))
      as [st | v] eqn:E; cbn [at_stream_end] in Hrun.
    - destruct (triggered st && truthy (voiced_frames st)) eqn:Et; [| discriminate Hrun].
      apply andb_true_iff in Et. destruct Et as [Etr Et]. injection Hrun as ->.
      destruct Hinv as [(Hw & _) | (_ & pre & ring & bdy & Hseen & _ & _ & Hv & _)];
        [congruence |].
      pose proof (frames_of_stream_whole self audio_stream Hfs) as Hw.
      rewrite <- (classified_frames self _ h), Hseen, map_app in Hw.
      apply Forall_app in Hw. destruct Hw as [_ Hw]. rewrite <- Hv in Hw.
      destruct (voiced_frames st) as [| f l]; [discriminate Et |].
      inversion Hw as [| f' l' Hf _]. subst. cbn [join concat].
      destruct f; [unfold len in Hf; cbn in Hf; lia | reflexivity].
    - subst v. exact (run_returns_truthy self _ initial_locals audio E). }
  exists (len (map fst (preroll t ++ body t))). split.
  - rewrite <- Ha in Hnonempty. unfold turn_audio in Hnonempty.
    destruct (map fst (preroll t ++ body t)); [discriminate Hnonempty |].
    unfold len. cbn [length]. lia.
  - rewrite <- Ha. unfold turn_audio. now apply len_join_frames.
Qed.


(** X4. [detect_speech_segments] raises in two cases only: [ValueError]
    for a negative [speech_end_frames] (the ring buffer cannot be built), and
    [ZeroDivisionError] for a frame size of zero on a stream that is not
    empty.  In every other case it returns. *)
Theorem detect_raises_only (self : VADDetector) (h : vad_handle)
  (audio_stream : list bytes) :
  (speech_end_frames self < 0 ->
   snd (detect_speech_segments self h audio_stream) = Raise ValueError) /\
  (0 <= speech_end_frames self -> frame_size self = 0 -> audio_stream <> [] ->
   snd (detect_speech_segments self h audio_stream) = Raise ZeroDivisionError) /\
  (0 <= speech_end_frames self -> frame_size self <> 0 \/ audio_stream = [] ->
   exists v, snd (detect_speech_segments self h audio_stream) = Ret v).
Proof.
  unfold detect_speech_segments. split; [| split].
  - intros Hneg. destruct (Z.ltb_spec (speech_end_frames self) 0); [reflexivity | lia].
  - intros Hpos Hz Hne. destruct (Z.ltb_spec (speech_end_frames self) 0); [lia |].
    destruct audio_stream as [| chunk rest]; [contradiction |].
    cbn [chunk_loop]. rewrite Hz. reflexivity.
  - intros Hpos Hcase. destruct (Z.ltb_spec (speech_end_frames self) 0); [lia |].
    assert (Hloop : exists h' fl, chunk_loop self audio_stream h initial_locals
                                  = (h', Ret fl)).
    { destruct Hcase as [Hfs | ->].
      - destruct (chunk_loop_returns self audio_stream Hfs h initial_locals) as (h1 & E).
        eauto.
      - cbn. eauto. }
    destruct Hloop as (h1 & fl & ->).
    destruct fl as [st | v].
    + destruct (triggered st && truthy (voiced_frames st)); eexists; reflexivity.
    + eexists; reflexivity.
Qed.

End VADMoreClaims.

(** *** Runs of the detector *)

(** Witness of X1. *)
Lemma filter_silence_keeps_speech_witness :
  0 < VAD.frame_size Ref.detector16k /\
  exists segments : list bytes,
    VAD.filter_silence (W := Ref.level_vad) Ref.detector16k 0 mixed_audio =
      (VAD.handle_after (W := Ref.level_vad) Ref.detector16k 0
         (VAD.frames_of_chunk Ref.detector16k mixed_audio),
       Ret segments) /\
    join segments =
      join (map fst (filter snd (VAD.classified (W := Ref.level_vad) Ref.detector16k 0
                                   (VAD.frames_of_chunk Ref.detector16k mixed_audio)))) /\
    Forall (fun seg => exists k, 0 < k /\ len seg = k * VAD.frame_size Ref.detector16k)
      segments.
Proof.
  split; [cbn; lia |].
  apply (filter_silence_keeps_speech (W := Ref.level_vad) Ref.detector16k 0 mixed_audio).
  cbn. lia.
Defined.

(** Two speech frames, a silent frame, a speech frame and two stray bytes
    give two segments. *)
Example filter_silence_two_segments :
  VAD.filter_silence (W := Ref.level_vad) Ref.detector16k 0 mixed_audio
  = (4, Ret [Ref.speech_frame ++ Ref.speech_frame; Ref.speech_frame]).
Proof. vm_compute. reflexivity. Qed.

(** Witness of X2. *)
Lemma detected_audio_whole_frames_witness :
  0 < VAD.frame_size Ref.detector16k /\
  0 < VAD.speech_end_frames Ref.detector16k /\
  exists k, 0 < k /\ len (join ten_speech_frames) = k * VAD.frame_size Ref.detector16k.
Proof.
  assert (Hfs : 0 < VAD.frame_size Ref.detector16k) by (cbn; lia).
  assert (HM : 0 < VAD.speech_end_frames Ref.detector16k) by (cbn; lia).
  split; [exact Hfs |]. split; [exact HM |].
  exact (detected_audio_whole_frames (W := Ref.level_vad) Ref.detector16k 0 10
           ten_speech_frames (join ten_speech_frames) Hfs HM ten_speech_frames_detected).
Defined.


(** Witness of X4: a detector whose frame size was set to zero. *)
Lemma detect_raises_only_witness :
  snd (VAD.detect_speech_segments (W := Ref.level_vad) detector_no_frame 0
         [Ref.speech_frame]) = Raise ZeroDivisionError /\
  exists v, snd (VAD.detect_speech_segments (W := Ref.level_vad) detector_no_frame 0 [])
            = Ret v.
Proof.
  destruct (detect_raises_only (W := Ref.level_vad) detector_no_frame 0 [Ref.speech_frame])
    as (_ & Hzero & _).
  destruct (detect_raises_only (W := Ref.level_vad) detector_no_frame 0 [])
    as (_ & _ & Hret).
  split.
  - apply Hzero; [cbn; lia | reflexivity | discriminate].
  - apply Hret; [cbn; lia | now right].
Defined.

(** ** voice/aec.py: down-mixing and the mono capture *)

Section SampleFacts.

Lemma value_range (b : byte) : 0 <= value b < 256.
Proof. unfold value. pose proof (Byte.to_N_bounded b). lia. Qed.

Lemma int16_of_le_range (lo hi : byte) : -32768 <= int16_of_le lo hi <= 32767.
Proof.
  unfold int16_of_le. fold (value lo). fold (value hi).
  pose proof (value_range lo). pose proof (value_range hi).
  destruct (Z.ltb_spec (value lo + 256 * value hi) 32768); lia.
Qed.

(** Bytes of even length decode to half as many samples, each a signed
    16-bit integer. *)
Lemma array_h_frombytes_even (n : nat) :
  forall data : bytes,
  length data = (2 * n)%nat ->
  exists samples,
    array_h_frombytes data = Ret samples /\
    length samples = n /\
    Forall (fun v => -32768 <= v <= 32767) samples.
Proof.
  induction n as [| n IH]; intros data Hlen.
  - destruct data; [| discriminate Hlen]. exists []. now repeat split.
  - destruct data as [| lo [| hi rest]]; try (cbn in Hlen; lia).
    destruct (IH rest) as (samples & E & Hl & Hall); [cbn in Hlen; lia |].
    exists (int16_of_le lo hi :: samples). cbn [array_h_frombytes]. rewrite E.
    split; [reflexivity |]. split; [cbn; lia |].
    constructor; [apply int16_of_le_range | exact Hall].
Qed.

(** Samples in range are written as two bytes each, and read back. *)
Lemma array_h_round_trip (items : list Z) :
  Forall (fun v => -32768 <= v <= 32767) items ->
  exists out,
    array_h_tobytes items = Ret out /\
    len out = 2 * len items /\
    array_h_frombytes out = Ret items.
Proof.
  intros H. induction H as [| v items Hv _ (out & E & Hl & Hback)].
  - exists []. now repeat split.
  - cbn [array_h_tobytes bytes_of_ints]. unfold bind at 1 2 3.
    destruct (byte_of_int_mod (v mod 65536)) as (lo & Elo).
    assert (Ehi : exists hi, byte_of_int (v mod 65536 / 256) = Ret hi).
    { pose proof (Z.mod_pos_bound v 65536 ltac:(lia)).
      replace (v mod 65536 / 256) with ((v mod 65536 / 256) mod 256).
      - apply byte_of_int_mod.
      - apply Z.mod_small. Z.div_mod_to_equations. lia. }
    destruct Ehi as (hi & Ehi).
    rewrite Elo, Ehi. cbn [bind]. rewrite E. cbn [bind app].
    exists (lo :: hi :: out). split; [reflexivity |].
    split; [unfold len in *; cbn [length]; lia |].
    cbn [array_h_frombytes]. rewrite Hback. cbn [bind]. do 2 f_equal.
    apply byte_of_int_value in Elo, Ehi. unfold int16_of_le.
    fold (value lo). fold (value hi). rewrite Elo, Ehi.
    destruct (Z.ltb_spec (v mod 65536 mod 256 + 256 * (v mod 65536 / 256)) 32768);
      Z.div_mod_to_equations; lia.
Qed.

Lemma all_from_spec (p : Z -> bool) (n : nat) :
  forall z k, all_from n z p = true -> z <= k < z + Z.of_nat n -> p k = true.
Proof.
  induction n as [| n IH]; intros z k H Hk; [lia |].
  cbn [all_from] in H. apply andb_true_iff in H. destruct H as [Hz Hrest].
  destruct (Z.eq_dec k z) as [-> | Hne]; [exact Hz |].
  apply (IH (z + 1)); [exact Hrest | lia].
Qed.

(** Storing values one index after the other fills the list. *)
Lemma list_set_middle {A : Type} (before after : list A) (x v : A) :
  list_set (length before) v (before ++ x :: after) = before ++ v :: after.
Proof. induction before as [| b before IH]; cbn; [reflexivity | now rewrite IH]. Qed.

End SampleFacts.

Section DownmixFacts.
Import AEC.

(** The sum of a frame of samples in range. *)
Lemma frame_sum_range (samples : list Z) (base channels : Z) :
  Forall (fun v => -32768 <= v <= 32767) samples ->
  0 <= channels ->
  - channels * 32768 <= frame_sum samples base channels <= channels * 32767.
Proof.
  intros Hall Hc. unfold frame_sum, range.
  assert (Hnth : forall k, -32768 <= nth k samples 0 <= 32767).
  { intros k. destruct (nth_in_or_default k samples 0) as [Hin | ->]; [| lia].
    exact (proj1 (Forall_forall _ _) Hall _ Hin). }
  assert (Hgen : forall (l : list nat) (acc : Z),
            acc - 32768 * len l
            <= fold_left (fun acc c => acc + nth (Z.to_nat (base + c)) samples 0)
                 (map Z.of_nat l) acc
            <= acc + 32767 * len l).
  { induction l as [| c l IH]; intros acc.
    - unfold len. cbn. lia.
    - cbn [map fold_left]. specialize (IH (acc + nth (Z.to_nat (base + Z.of_nat c)) samples 0)).
      specialize (Hnth (Z.to_nat (base + Z.of_nat c))).
      unfold len in *. cbn [length]. lia. }
  specialize (Hgen (seq 0 (Z.to_nat channels)) 0).
  unfold len in Hgen. rewrite length_seq, Z2Nat.id in Hgen by lia. lia.
Qed.

(** The loop over the frames (lines 212-217) when every average is
    computed and fits. *)
Lemma downmix_loop (f : Z -> Z) (avg : Z -> res Z) (n : nat) :
  (forall i, 0 <= i < Z.of_nat n -> avg i = Ret (f i) /\ array_h_item (f i) = Ret (f i)) ->
  fold_left
    (fun out i =>
       bind out (fun out =>
       bind (avg i) (fun v =>
       bind (array_h_item v) (fun item => Ret (list_set (Z.to_nat i) item out)))))
    (range (Z.of_nat n)) (Ret (repeat 0 n))
  = Ret (map f (range (Z.of_nat n))).
Proof.
  intros Hstep. unfold range. rewrite Nat2Z.id.
  assert (Hgen : forall k, (k <= n)%nat ->
            fold_left
              (fun out i =>
                 bind out (fun out =>
                 bind (avg i) (fun v =>
                 bind (array_h_item v) (fun item => Ret (list_set (Z.to_nat i) item out)))))
              (map Z.of_nat (seq 0 k)) (Ret (repeat 0 n))
            = Ret (map f (map Z.of_nat (seq 0 k)) ++ repeat 0 (n - k))).
  { induction k as [| k IH]; intros Hk.
    - cbn. now rewrite Nat.sub_0_r.
    - rewrite seq_S, !map_app, fold_left_app, IH by lia. cbn [plus map fold_left bind].
      destruct (Hstep (Z.of_nat k) ltac:(lia)) as [-> Hitem]. cbn [bind].
      rewrite Hitem. cbn [bind]. rewrite Nat2Z.id. f_equal.
      replace (n - k)%nat with (S (n - S k)) by lia. cbn [repeat].
      replace k with (length (map f (map Z.of_nat (seq 0 k)))) at 1
        by (now rewrite !length_map, length_seq).
      rewrite list_set_middle. now rewrite <- app_assoc. }
  rewrite (Hgen n (Nat.le_refl n)), Nat.sub_diag. cbn [repeat]. now rewrite app_nil_r.
Qed.

(** The quotient rounded toward zero of a frame sum is a 16-bit sample. *)
Lemma quot_range (acc channels : Z) :
  2 <= channels ->
  - channels * 32768 <= acc <= channels * 32767 ->
  -32768 <= Z.quot acc channels <= 32767.
Proof.
  intros Hc Hacc.
  destruct (Z.le_gt_cases 0 acc) as [Hpos | Hneg].
  - pose proof (Z.quot_pos acc channels Hpos ltac:(lia)).
    pose proof (Z.quot_le_upper_bound acc channels 32767 ltac:(lia) ltac:(lia)). lia.
  - replace acc with (- (- acc)) by lia. rewrite Z.quot_opp_l by lia.
    pose proof (Z.quot_pos (- acc) channels ltac:(lia) ltac:(lia)).
    pose proof (Z.quot_le_upper_bound (- acc) channels 32768 ltac:(lia) ltac:(lia)). lia.
Qed.

End DownmixFacts.

Section DownmixFrames.
Import AEC.

(** Down-mixing two channels or more, where [int(acc / channels)] is exact. *)
Lemma downmix_frames (pcm : bytes) (channels : Z) :
  2 <= channels -> average_exact channels = true ->
  exists (samples : list Z) (out : bytes),
    array_h_frombytes (firstn (Z.to_nat (2 * (len pcm / 2))) pcm) = Ret samples /\
    downmix_s16le_interleaved_to_mono pcm channels = Ret out /\
    array_h_frombytes out =
      Ret (map (fun i => Z.quot (frame_sum samples (i * channels) channels) channels)
             (range (len samples / channels))) /\
    len out = 2 * (len pcm / 2 / channels).
Proof.
  unfold downmix_s16le_interleaved_to_mono.
  intros Hc Hexact. destruct (Z.leb_spec channels 1); [lia |].
  pose proof (len_nonneg pcm) as Hl.
  assert (Htrim : (if negb (len pcm mod 2 =? 0) then slice_to (len pcm - 1) pcm else pcm)
                  = firstn (Z.to_nat (2 * (len pcm / 2))) pcm).
  { destruct (Z.eqb_spec (len pcm mod 2) 0) as [E | E]; cbn [negb].
    - replace (2 * (len pcm / 2)) with (len pcm) by (Z.div_mod_to_equations; lia).
      unfold len. rewrite Nat2Z.id. now rewrite firstn_all.
    - unfold slice_to, clamp_index.
      destruct (Z.ltb_spec (len pcm - 1) 0); [Z.div_mod_to_equations; lia |].
      f_equal. Z.div_mod_to_equations. lia. }
  rewrite Htrim.
  destruct (array_h_frombytes_even (Z.to_nat (len pcm / 2))
              (firstn (Z.to_nat (2 * (len pcm / 2))) pcm))
    as (samples & Esamples & Hlen & Hrange).
  { rewrite length_firstn. unfold len in *. Z.div_mod_to_equations. lia. }
  rewrite Esamples. cbn [bind].
  assert (Hsl : len samples = len pcm / 2).
  { unfold len in *. rewrite Hlen. rewrite Z2Nat.id; [reflexivity |].
    apply Z.div_pos; lia. }
  set (n := Z.to_nat (len samples / channels)).
  assert (Hn : Z.of_nat n = len samples / channels).
  { subst n. apply Z2Nat.id. apply Z.div_pos; [rewrite Hsl; apply Z.div_pos |]; lia. }
  set (f := fun i => Z.quot (frame_sum samples (i * channels) channels) channels).
  assert (Hloop := downmix_loop f
            (fun i => average (frame_sum samples (i * channels) channels) channels) n).
  cbv beta in Hloop. rewrite Hn in Hloop. rewrite Hloop.
  - cbn [bind].
    destruct (array_h_round_trip (map f (range (len samples / channels))))
      as (out & Eout & Hlout & Hback).
    { apply Forall_forall. intros v Hv. apply in_map_iff in Hv.
      destruct Hv as (i & <- & _). subst f. cbv beta.
      apply quot_range; [lia |]. apply frame_sum_range; [exact Hrange | lia]. }
    exists samples, out. split; [reflexivity |]. split; [exact Eout |].
    split; [exact Hback |].
    rewrite Hlout. unfold len at 1. rewrite length_map. unfold range.
    rewrite length_map, length_seq. fold n. rewrite Hn, Hsl. reflexivity.
  - intros i Hi. subst f. cbv beta.
    pose proof (frame_sum_range samples (i * channels) channels Hrange ltac:(lia)) as Hsum.
    pose proof (all_from_spec _ _ _ (frame_sum samples (i * channels) channels) Hexact)
      as Hcheck.
    cbv beta in Hcheck. rewrite Z2Nat.id in Hcheck by lia.
    specialize (Hcheck ltac:(lia)).
    destruct (average (frame_sum samples (i * channels) channels) channels)
      as [v | e]; [| discriminate Hcheck].
    apply Z.eqb_eq in Hcheck. subst v. split; [reflexivity |].
    pose proof (quot_range _ channels Hc Hsum) as Hq.
    unfold array_h_item.
    destruct (Z.leb_spec (-32768)
                (Z.quot (frame_sum samples (i * channels) channels) channels)); [| lia].
    destruct (Z.leb_spec (Z.quot (frame_sum samples (i * channels) channels) channels)
                32767); [reflexivity | lia].
Qed.

End DownmixFrames.

Section CaptureFacts.
Context {P : Posix} {L : PosixLaws P}.
Import AEC.

(** [read_capture] comes to an end with at most the bytes asked for. *)
Lemma read_capture_bound (self : EcEchoCanceller) (s : os_state) (min_bytes timeout_s : Z) :
  exists r, snd (read_capture self s min_bytes timeout_s) = Some r /\
            forall data, r = Ret data -> len data <= Z.max 0 min_bytes.
Proof.
  unfold read_capture.
  destruct (enabled self); cbn [negb].
  2:{ eexists. split; [reflexivity |]. intros data [= <-]. cbn. lia. }
  destruct (_capture_fd self) as [fd |].
  2:{ eexists. split; [reflexivity |]. intros data [=]. }
  destruct (read_loop_ends fd min_bytes timeout_s (now s)
              (iterations min_bytes timeout_s) [] 0 s) as (r & Hr).
  { unfold iterations, remaining, pause. rewrite Nat2Z.inj_succ, Z2Nat.id.
    - Z.div_mod_to_equations. lia.
    - Z.div_mod_to_equations. lia. }
  exists r. split; [exact Hr |].
  intros data ->.
  destruct (read_loop _ fd min_bytes timeout_s (now s) [] 0 s) as [s' o] eqn:E.
  cbn [snd] in Hr. subst o.
  apply read_loop_at_most in E; [lia | reflexivity | lia].
Qed.

End CaptureFacts.

Section AECMoreClaims.
Context {P : Posix} {L : PosixLaws P}.
Import AEC.

(** X5. [downmix_s16le_interleaved_to_mono] returns its input for one
    channel or fewer.  For two channels or more, where [int(acc / channels)]
    is the quotient rounded toward zero (checked by [average_exact]), it
    never raises: a trailing odd byte is dropped, and the output holds one
    16-bit sample for each whole frame, the sum of the frame's samples
    divided by the number of channels and rounded toward zero. *)
Theorem downmix_averages (pcm : bytes) (channels : Z) :
  (channels <= 1 -> downmix_s16le_interleaved_to_mono pcm channels = Ret pcm) /\
  (2 <= channels -> average_exact channels = true ->
   exists (samples : list Z) (out : bytes),
     array_h_frombytes (firstn (Z.to_nat (2 * (len pcm / 2))) pcm) = Ret samples /\
     downmix_s16le_interleaved_to_mono pcm channels = Ret out /\
     array_h_frombytes out =
       Ret (map (fun i => Z.quot (frame_sum samples (i * channels) channels) channels)
              (range (len samples / channels))) /\
     len out = 2 * (len pcm / 2 / channels)).
Proof.
  split.
  - intros Hc. unfold downmix_s16le_interleaved_to_mono.
    destruct (Z.leb_spec channels 1); [reflexivity | lia].
  - apply downmix_frames.
Qed.


End AECMoreClaims.

(** For two channels [int(acc / 2)] is the quotient rounded toward zero. *)
Lemma average_exact_stereo : AEC.average_exact 2 = true.
Proof. vm_compute. reflexivity. Qed.

(** Witness of X5: the frames (100, 200) and (-3, -4) and a stray byte. *)
Lemma downmix_averages_witness :
  2 <= 2 /\
  exists (samples : list Z) (out : bytes),
    array_h_frombytes (firstn (Z.to_nat (2 * (len stereo_pcm / 2))) stereo_pcm)
      = Ret samples /\
    AEC.downmix_s16le_interleaved_to_mono stereo_pcm 2 = Ret out /\
    array_h_frombytes out =
      Ret (map (fun i => Z.quot (AEC.frame_sum samples (i * 2) 2) 2)
             (range (len samples / 2))) /\
    len out = 2 * (len stereo_pcm / 2 / 2).
Proof.
  split; [lia |].
  apply (proj2 (downmix_averages stereo_pcm 2));
    [lia | exact average_exact_stereo].
Defined.

(** The two frames give the samples 150 and -3. *)
Example downmix_stereo_samples :
  AEC.downmix_s16le_interleaved_to_mono stereo_pcm 2 = Ret [x96; x00; xfd; xff].
Proof. vm_compute. reflexivity. Qed.


(** ** voice/asr.py: corrections, results and the batch recognizer *)

Section TextFacts.

(** Replacing a word that does not occur changes nothing. *)
Lemma replace_from_absent (old new : str) (fuel : nat) :
  forall s : str, str_contains old s = false -> replace_from fuel old new s = s.
Proof.
  induction fuel as [| fuel IH]; intros s H; [reflexivity |].
  destruct s as [| c s]; [reflexivity |].
  cbn [replace_from]. cbn [str_contains] in H.
  apply orb_false_iff in H. destruct H as [Hp Hc].
  rewrite Hp. f_equal. now apply IH.
Qed.

Lemma str_replace_absent (old new s : str) :
  str_contains old s = false -> str_replace old new s = s.
Proof.
  intros H. unfold str_replace. destruct old as [| o old].
  - destruct s; discriminate H.
  - now apply replace_from_absent.
Qed.

End TextFacts.

Section ASRMoreFacts.
Import ASR.

(** The last element of a list that is not empty. *)
Lemma last_default {A : Type} (l : list A) (x d d' : A) : last (x :: l) d = last (x :: l) d'.
Proof.
  revert x. induction l as [| y l IH]; intros x; [reflexivity |].
  cbn [last] in *. apply IH.
Qed.

(** What the loop over the items leaves in [text] and [is_final]. *)
Lemma scan_items_spec (items : list pyval) :
  forall (text_ : pyval) (final : bool),
  scan_items items text_ final =
    (last (item_texts items) text_, final || existsb definite_text items).
Proof.
  induction items as [| item items IH]; intros text_ final.
  - cbn. now rewrite orb_false_r.
  - cbn [scan_items item_texts flat_map existsb].
    fold (item_texts items).
    destruct item as [| | | | | | | utt];
      try (rewrite IH; cbn [app orb definite_text]; reflexivity).
    unfold definite_text at 1.
    destruct (lookup (text "text") utt) as [t |].
    + rewrite IH. cbn [app]. f_equal.
      * destruct (item_texts items) as [| p l]; [reflexivity |].
        change (last (t :: p :: l) text_) with (last (p :: l) text_).
        apply last_default.
      * destruct (truth (get (text "definite") (PBool false) utt)), final; reflexivity.
    + rewrite IH. cbn [app orb]. reflexivity.
Qed.

End ASRMoreFacts.

Section ASRSessionFacts.
Context {J : Json} {G : Gzip}.
Import ASR.

Lemma Forall_removelast {A : Type} (P : A -> Prop) (l : list A) :
  Forall P l -> Forall P (removelast l).
Proof.
  intros H. induction H as [| x l Hx Hl IH]; [constructor |].
  cbn [removelast]. destruct l; [constructor | now constructor].
Qed.

(** In [receive_results] nothing is delivered after a final result, and a
    final result whose callback returns sets [stop_event]. *)
Lemma receive_results_final (self : VolcengineASR) (on_result : ASRResult -> res unit)
  (sock : list arrival) :
  forall (final_text : pyval) (seen : list ASRResult),
  Forall (fun r => is_final r = false) seen ->
  Forall (fun r => is_final r = false)
    (removelast (delivered (receive_results self on_result sock final_text seen))) /\
  (forall r u,
     In r (delivered (receive_results self on_result sock final_text seen)) ->
     is_final r = true -> on_result r = Ret u ->
     stop_event (receive_results self on_result sock final_text seen) = true).
Proof.
  induction sock as [| a rest IH]; intros final_text seen Hseen.
  - cbn. split; [now apply Forall_removelast |].
    intros r u Hin Hf _. rewrite Forall_forall in Hseen.
    specialize (Hseen r Hin). congruence.
  - assert (Hleave : forall (stop : bool) (ft : pyval),
              Forall (fun r => is_final r = false)
                (removelast (delivered {| returned := Some ft; stop_event := stop;
                                          delivered := seen |})) /\
              (forall r (u : unit),
                 In r (delivered {| returned := Some ft; stop_event := stop;
                                    delivered := seen |}) ->
                 is_final r = true -> on_result r = Ret u ->
                 stop_event {| returned := Some ft; stop_event := stop;
                               delivered := seen |} = true)).
    { intros stop ft. cbn. split; [now apply Forall_removelast |].
      intros r u Hin Hf _. rewrite Forall_forall in Hseen.
      specialize (Hseen r Hin). congruence. }
    cbn [receive_results].
    destruct (wait_for_recv 15 a) as [response | e].
    2:{ destruct e; apply Hleave. }
    destruct (_extract_result self (_parse_response response)) as [[result |] | e].
    + destruct (on_result result) as [u |] eqn:Eon.
      * destruct (is_final result) eqn:Ef.
        -- cbn. split.
           ++ now rewrite removelast_last.
           ++ reflexivity.
        -- apply IH. apply Forall_app. split; [exact Hseen | now constructor].
      * cbn. split; [now rewrite removelast_last |].
        intros r u Hin Hf Hon. apply in_app_or in Hin. destruct Hin as [Hin | [<- | []]].
        -- rewrite Forall_forall in Hseen. specialize (Hseen r Hin). congruence.
        -- congruence.
    + now apply IH.
    + apply Hleave.
Qed.

End ASRSessionFacts.

Section ASRMoreClaims.
Context {J : Json} {G : Gzip}.
Import ASR.

(** X7. [_post_correct] returns a text without truth value ([None], the
    empty string) as it is; on a string it never raises and returns the
    string with the corrections applied in the order of the table; a string
    in which none of the listed words occurs is returned unchanged. *)
Theorem post_correct_keeps_clean_text (self : VolcengineASR) :
  (forall text_ : pyval, truth text_ = false -> _post_correct self text_ = Ret text_) /\
  (forall s : str,
     _post_correct self (PStr s) =
       Ret (PStr (if truthy s
                  then fold_left (fun acc wc => str_replace (fst wc) (snd wc) acc)
                         (corrections self) s
                  else s))) /\
  (forall s : str,
     Forall (fun wc => str_contains (fst wc) s = false) (corrections self) ->
     _post_correct self (PStr s) = Ret (PStr s)).
Proof.
  assert (Hfold : forall (cs : list (str * str)) (s : str),
            fold_left (fun acc wc => bind acc (replace_method (fst wc) (snd wc)))
              cs (Ret (PStr s))
            = Ret (PStr (fold_left (fun acc wc => str_replace (fst wc) (snd wc) acc) cs s))).
  { induction cs as [| wc cs IH]; intros s; [reflexivity |].
    cbn [fold_left bind replace_method]. apply IH. }
  assert (Hstr : forall s : str,
            _post_correct self (PStr s) =
              Ret (PStr (if truthy s
                         then fold_left (fun acc wc => str_replace (fst wc) (snd wc) acc)
                                (corrections self) s
                         else s))).
  { intros s. unfold _post_correct. cbn [truth].
    destruct (truthy s); cbn [negb]; [apply Hfold | reflexivity]. }
  split; [| split].
  - intros text_ Hf. unfold _post_correct. now rewrite Hf.
  - exact Hstr.
  - intros s Hclean. rewrite Hstr. destruct (truthy s); [| reflexivity].
    do 2 f_equal. revert Hclean. generalize (corrections self) as cs.
    induction cs as [| wc cs IH]; intros Hclean; [reflexivity |].
    inversion Hclean as [| wc' cs' Hwc Hcs]. subst.
    cbn [fold_left]. rewrite (str_replace_absent _ _ _ Hwc). now apply IH.
Qed.

(** X8. [_extract_result] returns [None] for a response that is not a
    dictionary or has no ["result"] key.  For a result dictionary with a list
    of utterances, the text is that of the last utterance that has a
    ["text"] key (the result's own text if there is none), and the result is
    final when any utterance with a text is definite, also one that is not
    the last; [is_end] always equals [is_final]. *)
Theorem extract_result_last_text (self : VolcengineASR) :
  (forall v : pyval, (forall d, v <> PDict d) -> _extract_result self v = Ret None) /\
  (forall d, lookup (text "result") d = None -> _extract_result self (PDict d) = Ret None) /\
  (forall d result utterances,
     lookup (text "result") d = Some (PDict result) ->
     get (text "utterances") (PList []) result = PList utterances ->
     _extract_result self (PDict d) =
       if truth (last (item_texts utterances) (get (text "text") (PStr []) result))
       then
         bind (_post_correct self
                 (last (item_texts utterances) (get (text "text") (PStr []) result)))
              (fun corrected =>
                 Ret (Some {| result_text := corrected;
                              is_final := existsb definite_text utterances;
                              is_end := existsb definite_text utterances |}))
       else Ret None) /\
  (forall v r, _extract_result self v = Ret (Some r) -> is_end r = is_final r).
Proof.
  split; [| split; [| split]].
  - intros v Hv. destruct v; try reflexivity. exfalso. now apply (Hv items).
  - intros d Hd. cbn [_extract_result]. rewrite Hd. reflexivity.
  - intros d result utterances Hd Hu. cbn [_extract_result]. rewrite Hd, Hu.
    cbn [iterate bind]. rewrite scan_items_spec. cbn [orb]. reflexivity.
  - intros v r H. destruct v; try discriminate H. cbn [_extract_result] in H.
    unfold bind in H.
    destruct (match lookup (text "result") items with
              | Some (PDict result) =>
                  match iterate (get (text "utterances") (PList []) result) with
                  | Ret a => Ret (scan_items a (get (text "text") (PStr []) result) false)
                  | Raise e => Raise e
                  end
              | Some (PList result) => Ret (scan_items result (PStr []) false)
              | _ => Ret (PStr [], false)
              end) as [[t f] | e]; [| discriminate H].
    destruct (truth t); [| discriminate H].
    destruct (_post_correct self t); [| discriminate H].
    now injection H as <-.
Qed.

(** X9. [recognize_realtime] delivers nothing after a final result: every
    result passed to [on_result], except possibly the last one, is not
    final; and when a final result is delivered and its callback returns,
    [stop_event] is set. *)
Theorem no_result_after_final (self : VolcengineASR) (connected : bool)
  (sock : list arrival) (on_result : ASRResult -> res unit) (request_id : str)
  (end_window_size : Z) :
  Forall (fun r => is_final r = false)
    (removelast (delivered (recognize_realtime self connected sock on_result
                              request_id end_window_size))) /\
  (forall r u,
     In r (delivered (recognize_realtime self connected sock on_result
                        request_id end_window_size)) ->
     is_final r = true -> on_result r = Ret u ->
     stop_event (recognize_realtime self connected sock on_result
                   request_id end_window_size) = true).
Proof.
  unfold recognize_realtime.
  assert (Hfailed : Forall (fun r => is_final r = false)
                      (removelast (delivered {| returned := None; stop_event := false;
                                                delivered := [] |})) /\
                    (forall r (u : unit),
                       In r (delivered {| returned := None; stop_event := false;
                                          delivered := [] |}) ->
                       is_final r = true -> on_result r = Ret u ->
                       stop_event {| returned := None; stop_event := false;
                                     delivered := [] |} = true)).
  { cbn. split; [constructor | intros r u []]. }
  destruct connected; cbn [negb]; [| exact Hfailed].
  destruct (_build_full_request self request_id end_window_size); [| exact Hfailed].
  destruct (recv 10 sock) as [[response | e] sock']; [| exact Hfailed].
  destruct (contains (text "error") (_parse_response response)) as [[|] | e];
    try exact Hfailed.
  apply receive_results_final. constructor.
Qed.

End ASRMoreClaims.

(** ** Cutting a byte string into chunks *)

Section ChunkFacts.
Context {A : Type}.

Lemma slice_skipn (data : list A) (i m : Z) (k : nat) :
  0 <= i -> 0 <= m -> (k <= length data)%nat ->
  slice (i + Z.of_nat k) (i + Z.of_nat k + m) data = slice i (i + m) (skipn k data).
Proof.
  intros Hi Hm Hk. unfold slice, clamp_index, len.
  rewrite length_skipn.
  destruct (Z.ltb_spec (i + Z.of_nat k) 0); [lia |].
  destruct (Z.ltb_spec (i + Z.of_nat k + m) 0); [lia |].
  destruct (Z.ltb_spec i 0); [lia |].
  destruct (Z.ltb_spec (i + m) 0); [lia |].
  rewrite skipn_skipn. f_equal; [| f_equal]; lia.
Qed.

Lemma slice_first (data : list A) (k : Z) :
  0 <= k -> slice 0 (0 + k) data = firstn (Z.to_nat k) data.
Proof.
  intros Hk. unfold slice, clamp_index, len.
  destruct (Z.ltb_spec 0 0); [lia |].
  destruct (Z.ltb_spec (0 + k) 0); [lia |].
  replace (Z.min 0 (Z.of_nat (length data))) with 0 by lia.
  cbn [Z.to_nat skipn]. rewrite Z.sub_0_r.
  destruct (Z.le_gt_cases k (Z.of_nat (length data))).
  - now rewrite Z.min_l by lia.
  - rewrite Z.min_r by lia. rewrite Nat2Z.id.
    rewrite firstn_all. symmetry. apply firstn_all2. lia.
Qed.

(** The number of chunks of [k] elements that cover [n] elements. *)
Definition chunk_count (n k : Z) : nat := Z.to_nat ((n - 0 + k - 1) / k).

Lemma chunk_count_zero (k : Z) : 0 < k -> chunk_count 0 k = 0%nat.
Proof.
  intros Hk. unfold chunk_count. replace (0 - 0 + k - 1) with (k - 1) by lia.
  rewrite Z.div_small by lia. reflexivity.
Qed.

Lemma chunk_count_succ (n k : Z) :
  0 < k -> 0 < n -> chunk_count n k = S (chunk_count (Z.max 0 (n - k)) k).
Proof.
  intros Hk Hn. unfold chunk_count.
  destruct (Z.le_gt_cases k n) as [Hge | Hlt].
  - rewrite Z.max_r by lia.
    replace (n - 0 + k - 1) with ((n - k - 0 + k - 1) + 1 * k) by lia.
    rewrite Z.div_add by lia. rewrite Z2Nat.inj_add; [lia | | lia].
    apply Z.div_pos; lia.
  - rewrite Z.max_l by lia.
    replace (n - 0 + k - 1) with ((n - 1) + 1 * k) by lia.
    rewrite Z.div_add by lia. rewrite (Z.div_small (n - 1)) by lia.
    replace (0 - 0 + k - 1) with (k - 1) by lia.
    rewrite Z.div_small by lia. reflexivity.
Qed.

Lemma chunk_count_bounds (n k : Z) :
  0 < k -> 0 <= n ->
  n <= Z.of_nat (chunk_count n k) * k /\ Z.of_nat (chunk_count n k) * k < n + k.
Proof.
  intros Hk Hn. unfold chunk_count. rewrite Z2Nat.id by (apply Z.div_pos; lia).
  pose proof (Z.mul_div_le (n - 0 + k - 1) k Hk).
  pose proof (Z.mul_succ_div_gt (n - 0 + k - 1) k Hk). lia.
Qed.

Lemma range_step_chunks (n k : Z) :
  0 < k -> range_step 0 n k = map (fun j => 0 + Z.of_nat j * k) (seq 0 (chunk_count n k)).
Proof. intros Hk. unfold range_step. destruct (Z.ltb_spec 0 k); [reflexivity | lia]. Qed.

(** The chunks [data[i:i+k]] for [i] in [range(0, len(data), k)] make up
    [data]. *)
Lemma chunks_cover (k : Z) :
  0 < k ->
  forall data : list A,
  concat (map (fun i => slice i (i + k) data) (range_step 0 (len data) k)) = data.
Proof.
  intros Hk data. rewrite range_step_chunks by exact Hk. rewrite map_map.
  remember (chunk_count (len data) k) as n eqn:En.
  revert data En. induction n as [| n IH]; intros data En.
  - destruct data as [| x data]; [reflexivity |].
    rewrite chunk_count_succ in En; [discriminate En | exact Hk |].
    unfold len. cbn [length]. lia.
  - destruct (Z.eq_dec (len data) 0) as [Hz | Hnz].
    { rewrite Hz, chunk_count_zero in En by exact Hk. discriminate En. }
    pose proof (len_nonneg data) as Hl.
    rewrite chunk_count_succ in En by lia. injection En as En.
    cbn [seq map concat]. rewrite <- seq_shift, map_map.
    replace (0 + Z.of_nat 0 * k) with 0 by lia.
    rewrite (slice_first data k) by lia.
    etransitivity; [| apply (firstn_skipn (Z.to_nat k) data)]. f_equal.
    destruct n as [| n'].
    + cbn [seq map concat]. symmetry. apply skipn_all2.
      destruct (Z.le_gt_cases (len data) k) as [Hle | Hgt]; [unfold len in Hle; lia |].
      rewrite Z.max_r in En by lia.
      rewrite chunk_count_succ in En by lia. discriminate En.
    + assert (Hge : k <= len data).
      { destruct (Z.le_gt_cases k (len data)) as [Hge | Hlt]; [exact Hge |].
        rewrite Z.max_l, chunk_count_zero in En by lia. discriminate En. }
      rewrite Z.max_r in En by lia.
      assert (Hlen' : len (skipn (Z.to_nat k) data) = len data - k).
      { unfold len in *. rewrite length_skipn. lia. }
      etransitivity; [| apply (IH (skipn (Z.to_nat k) data)); now rewrite Hlen'].
      f_equal. apply map_ext. intros j.
      replace (0 + Z.of_nat (S j) * k) with ((0 + Z.of_nat j * k) + Z.of_nat (Z.to_nat k))
        by lia.
      apply slice_skipn; [lia | lia | unfold len in Hge; lia].
Qed.

End ChunkFacts.

Section ChunkSizes.
Context {A : Type}.

Lemma slice_len (data : list A) (i m : Z) :
  0 <= i -> 0 <= m ->
  len (slice i (i + m) data) = Z.min (i + m) (len data) - Z.min i (len data).
Proof.
  intros Hi Hm. unfold slice, clamp_index, len.
  destruct (Z.ltb_spec i 0); [lia |].
  destruct (Z.ltb_spec (i + m) 0); [lia |].
  rewrite length_firstn, length_skipn. lia.
Qed.

End ChunkSizes.

Section StripFacts.

Lemma str_lstrip_head (s : str) (c : Z) (rest : str) :
  str_lstrip s = c :: rest -> is_space c = false.
Proof.
  induction s as [| x s IH]; [discriminate |].
  cbn [str_lstrip]. destruct (is_space x) eqn:E; [exact IH |].
  now intros [= <- _].
Qed.

Lemma str_lstrip_suffix (s : str) : exists spaces, s = spaces ++ str_lstrip s.
Proof.
  induction s as [| x s (spaces & IH)]; [now exists [] |].
  cbn [str_lstrip]. destruct (is_space x).
  - exists (x :: spaces). cbn [app]. now f_equal.
  - now exists [].
Qed.

(** A stripped string neither starts nor ends with white space. *)
Lemma str_strip_ends (s : str) :
  (forall c rest, str_strip s = c :: rest -> is_space c = false) /\
  (forall c front, str_strip s = front ++ [c] -> is_space c = false).
Proof.
  unfold str_strip.
  set (u := str_lstrip s).
  set (v := str_lstrip (rev u)).
  split.
  - intros c rest H.
    destruct (str_lstrip_suffix (rev u)) as (spaces & Hsp). fold v in Hsp.
    assert (Hu : u = rev v ++ rev spaces).
    { rewrite <- (rev_involutive u), Hsp. now rewrite rev_app_distr. }
    rewrite H in Hu. cbn [app] in Hu.
    apply (str_lstrip_head s c (rest ++ rev spaces)). exact Hu.
  - intros c front H.
    assert (Hv : v = c :: rev front).
    { rewrite <- (rev_involutive v), H. rewrite rev_app_distr. reflexivity. }
    apply (str_lstrip_head (rev u) c (rev front)). exact Hv.
Qed.

End StripFacts.

Section BatchClaims.
Context {J : Json} {G : Gzip}.
Import ASR.

(** X10. The chunks that [recognize] sends make up the audio, in order;
    every chunk holds between 1 and 3200 bytes; the last chunk, and only
    the last, is flagged as such.  For empty audio nothing is sent, so no
    request carries the flag. *)
Theorem audio_chunks_cover (audio_data : bytes) :
  join (map fst (audio_chunks audio_data)) = audio_data /\
  Forall (fun p => 0 < len (fst p) <= chunk_size) (audio_chunks audio_data) /\
  map snd (audio_chunks audio_data) =
    repeat false (length (audio_chunks audio_data) - 1)
    ++ (if truthy audio_data then [true] else []) /\
  len (audio_chunks audio_data) = (len audio_data + chunk_size - 1) / chunk_size.
Proof.
  assert (Hk : 0 < chunk_size) by (unfold chunk_size; lia).
  pose proof (len_nonneg audio_data) as Hl.
  pose proof (chunk_count_bounds (len audio_data) chunk_size Hk Hl) as [Hlo Hhi].
  unfold audio_chunks. split; [| split; [| split]].
  - rewrite map_map. cbn [fst]. apply (chunks_cover chunk_size Hk).
  - rewrite range_step_chunks by exact Hk. apply Forall_forall. intros p Hp.
    apply in_map_iff in Hp. destruct Hp as (i & <- & Hi).
    apply in_map_iff in Hi. destruct Hi as (j & <- & Hj). apply in_seq in Hj.
    cbn [fst]. rewrite slice_len by lia. nia.
  - rewrite map_map. cbn [snd]. rewrite range_step_chunks by exact Hk.
    rewrite !length_map, length_seq, map_map.
    destruct (chunk_count (len audio_data) chunk_size) as [| m] eqn:En.
    + destruct audio_data as [| b data]; [reflexivity |].
      exfalso. unfold len in Hlo. cbn [length] in Hlo. lia.
    + destruct audio_data as [| b data].
      { rewrite chunk_count_zero in En by exact Hk. discriminate En. }
      cbn [truthy]. rewrite seq_S, map_app. cbn [plus map]. f_equal.
      * replace (S m - 1)%nat with m by lia.
        transitivity (map (fun _ : nat => false) (seq 0 m));
          [| now rewrite map_const, length_seq].
        apply map_ext_in. intros j Hj. apply in_seq in Hj.
        apply Z.leb_gt. nia.
      * f_equal. apply Z.leb_le. nia.
  - unfold len at 1. rewrite length_map, range_step_chunks by exact Hk.
    rewrite length_map, length_seq. unfold chunk_count.
    rewrite Z2Nat.id by (apply Z.div_pos; lia). f_equal. lia.
Qed.


End BatchClaims.

(** *** Runs of the recognizer *)

(** Witness of X7: none of the listed words occurs in 你好. *)
Lemma post_correct_keeps_clean_text_witness :
  ASR._post_correct recognizer (PStr [20320; 22909]) = Ret (PStr [20320; 22909]) /\
  ASR._post_correct recognizer PNone = Ret PNone.
Proof.
  destruct (post_correct_keeps_clean_text recognizer) as (Hfalsy & _ & Hclean).
  split.
  - apply Hclean. repeat constructor.
  - apply Hfalsy. reflexivity.
Defined.

(** The correction table is applied to a text that holds a listed word. *)
Example post_correct_replaces :
  ASR._post_correct recognizer (PStr [25105; 26159; 38738; 40060])
  = Ret (PStr [25105; 26159; 28165; 20110]).
Proof. vm_compute. reflexivity. Qed.

(** Witness of X8: a definite utterance followed by one that is not. *)
Lemma extract_result_last_text_witness :
  ASR._extract_result recognizer two_utterances =
    Ret (Some {| ASR.result_text := PStr (text "b");
                 ASR.is_final := true;
                 ASR.is_end := true |}).
Proof.
  destruct (extract_result_last_text recognizer) as (_ & _ & Hutt & _).
  unfold two_utterances.
  rewrite (Hutt _ [(text "text", PStr (text "x")); (text "utterances", two_utterance_items)]
             (match two_utterance_items with PList l => l | _ => [] end));
    reflexivity.
Defined.

(** Witness of X9: an interim result, a final one, and one more message. *)
Lemma no_result_after_final_witness :
  len (ASR.delivered (ASR.recognize_realtime (J := Ref.json) (G := Ref.gzip) recognizer
                        true finished_session (fun _ => Ret tt) (text "rid") 800)) = 2 /\
  ASR.stop_event (ASR.recognize_realtime (J := Ref.json) (G := Ref.gzip) recognizer
                    true finished_session (fun _ => Ret tt) (text "rid") 800) = true.
Proof.
  split; [vm_compute; reflexivity |].
  destruct (no_result_after_final (J := Ref.json) (G := Ref.gzip) recognizer true
              finished_session (fun _ => Ret tt) (text "rid") 800) as [_ Hstop].
  apply (Hstop {| ASR.result_text := PStr (text " ok ");
                  ASR.is_final := true; ASR.is_end := true |} tt).
  - vm_compute. right. left. reflexivity.
  - reflexivity.
  - reflexivity.
Defined.

(** 7000 bytes are sent as chunks of 3200, 3200 and 600 bytes. *)
Example audio_chunks_of_7000 :
  map (fun p => (len (fst p), snd p)) (ASR.audio_chunks (repeat x01 (Z.to_nat 7000)))
  = [(3200, false); (3200, false); (600, true)].
Proof. vm_compute. reflexivity. Qed.


(** ** voice/tts.py: requests, headers and the audio returned *)

Section WireFacts.

(** [int.from_bytes] reads back what [to_bytes] wrote. *)
Lemma int_from_bytes_to_bytes4 (n : Z) (size : bytes) :
  to_bytes4 n = Ret size -> int_from_bytes size = n /\ len size = 4.
Proof.
  intros H.
  destruct (to_bytes4_digits n size H) as (s0 & s1 & s2 & s3 & -> & Hr & V0 & V1 & V2 & V3).
  split; [| reflexivity].
  unfold int_from_bytes. cbn [fold_left].
  change (Z.of_N (Byte.to_N s0)) with (value s0).
  change (Z.of_N (Byte.to_N s1)) with (value s1).
  change (Z.of_N (Byte.to_N s2)) with (value s2).
  change (Z.of_N (Byte.to_N s3)) with (value s3).
  rewrite V0, V1, V2, V3.
  assert (Hsmall : n / 256 / 256 / 256 < 256).
  { rewrite !Z.div_div by lia. apply Z.div_lt_upper_bound; lia. }
  rewrite (Z.mod_small (n / 256 / 256 / 256)) by (split; [| exact Hsmall]; repeat apply Z.div_pos; lia).
  pose proof (Z.div_mod n 256 ltac:(lia)).
  pose proof (Z.div_mod (n / 256) 256 ltac:(lia)).
  pose proof (Z.div_mod (n / 256 / 256) 256 ltac:(lia)).
  lia.
Qed.

(** The two halves of a byte made of two nibbles. *)
Lemma lor_nibbles (hi lo : Z) :
  0 <= lo < 16 -> Z.lor (Z.shiftl hi 4) lo = hi * 16 + lo.
Proof.
  intros Hlo.
  assert (Hdisjoint : Z.land (Z.shiftl hi 4) lo = 0).
  { apply Z.bits_inj'. intros n Hn.
    rewrite Z.land_spec, Z.bits_0.
    destruct (Z.ltb_spec n 4).
    - rewrite Z.shiftl_spec_low by lia. reflexivity.
    - replace (Z.testbit lo n) with false; [apply andb_false_r |].
      symmetry. destruct (Z.eqb_spec lo 0) as [-> | Hne]; [apply Z.bits_0 |].
      apply Z.bits_above_log2; [lia |].
      apply Z.log2_lt_pow2; [lia |].
      apply Z.lt_le_trans with (2 ^ 4); [lia |].
      apply Z.pow_le_mono_r; lia. }
  rewrite <- Z.lxor_lor by exact Hdisjoint.
  rewrite <- Z.add_nocarry_lxor by exact Hdisjoint.
  rewrite Z.shiftl_mul_pow2 by lia. reflexivity.
Qed.

Lemma nibbles_back (hi lo : Z) :
  0 <= hi < 16 -> 0 <= lo < 16 ->
  Z.land (Z.shiftr (hi * 16 + lo) 4) 15 = hi /\ Z.land (hi * 16 + lo) 15 = lo.
Proof.
  intros Hhi Hlo.
  change 15 with (Z.ones 4). rewrite !Z.land_ones by lia.
  rewrite Z.shiftr_div_pow2 by lia. change (2 ^ 4) with 16.
  split.
  - replace ((hi * 16 + lo) / 16) with hi; [apply Z.mod_small; lia |].
    apply Z.div_unique with lo; lia.
  - symmetry. apply Z.mod_unique with hi; lia.
Qed.

Lemma byte_of_int_fits (z : Z) :
  0 <= z < 256 -> exists b, byte_of_int z = Ret b /\ value b = z.
Proof.
  intros Hz. unfold byte_of_int.
  destruct (Z.leb_spec 0 z); [| lia].
  destruct (Z.ltb_spec z 256); [| lia]. cbn [andb].
  destruct (Byte.of_N (Z.to_N z)) as [b |] eqn:E.
  - exists b. split; [reflexivity |].
    unfold value. apply Byte.to_of_N in E. rewrite E. lia.
  - apply Byte.of_N_None_iff in E. lia.
Qed.

Lemma byte_of_int_outside (z : Z) :
  z < 0 \/ 256 <= z -> byte_of_int z = Raise ValueError.
Proof.
  intros Hz. unfold byte_of_int.
  destruct (Z.leb_spec 0 z); cbn [andb]; [| reflexivity].
  destruct (Z.ltb_spec z 256); [lia | reflexivity].
Qed.

End WireFacts.

Section TTSMoreFacts.
Context {J : Json}.
Import TTS.

Lemma client_header : _build_header 1 4 1 0 = Ret [x11; x14; x10; x00].
Proof. reflexivity. Qed.

(** The frame of a session request, read with the offsets of the receive
    loop. *)
Lemma session_frame_read (event : Z) (event_num session_id_len session_id_bytes
                                       payload_size payload_bytes : bytes) :
  to_bytes4 event = Ret event_num ->
  to_bytes4 (len session_id_bytes) = Ret session_id_len ->
  to_bytes4 (len payload_bytes) = Ret payload_size ->
  let frame := [x11; x14; x10; x00] ++ event_num ++ session_id_len ++ session_id_bytes
               ++ payload_size ++ payload_bytes in
  len frame = 16 + len session_id_bytes + len payload_bytes /\
  msg_type_of frame = 1 /\ msg_flags_of frame = 4 /\
  event_of frame = event /\ payload_of frame = Some payload_bytes.
Proof.
  intros He Hs Hp frame.
  destruct (int_from_bytes_to_bytes4 _ _ He) as [Ve Le].
  destruct (int_from_bytes_to_bytes4 _ _ Hs) as [Vs Ls].
  destruct (int_from_bytes_to_bytes4 _ _ Hp) as [Vp Lp].
  pose proof (len_nonneg session_id_bytes) as Hsid.
  pose proof (len_nonneg payload_bytes) as Hpay.
  assert (Hlen : len frame = 16 + len session_id_bytes + len payload_bytes).
  { unfold frame. rewrite !len_app, Le, Ls, Lp. change (len [x11; x14; x10; x00]) with 4. lia. }
  split; [exact Hlen |].
  split; [reflexivity |]. split; [reflexivity |].
  assert (Hevent : slice 4 8 frame = event_num).
  { unfold frame. apply slice_app; [reflexivity | lia]. }
  assert (Hsidlen : slice 8 12 frame = session_id_len).
  { unfold frame. rewrite (app_assoc [x11; x14; x10; x00]).
    apply slice_app; [rewrite len_app, Le; reflexivity | lia]. }
  split; [unfold event_of; now rewrite Hevent |].
  unfold payload_of. cbv zeta. change (4 + 4 + 4) with 12. change (4 + 4) with 8.
  destruct (Z.ltb_spec (len frame) 12); [lia |].
  rewrite Hsidlen, Vs.
  destruct (Z.ltb_spec (len frame) (12 + len session_id_bytes + 4)); [lia |].
  assert (Hsize : slice (12 + len session_id_bytes) (12 + len session_id_bytes + 4) frame
                  = payload_size).
  { unfold frame.
    rewrite (app_assoc session_id_len), (app_assoc event_num),
            (app_assoc [x11; x14; x10; x00]).
    apply slice_app; [rewrite !len_app, Le, Ls; change (len [x11; x14; x10; x00]) with 4; lia
                     | lia]. }
  rewrite Hsize, Vp. f_equal.
  assert (Hframe : frame = ([x11; x14; x10; x00] ++ event_num ++ session_id_len
                             ++ session_id_bytes ++ payload_size) ++ payload_bytes ++ []).
  { unfold frame. rewrite app_nil_r, <- !app_assoc. reflexivity. }
  rewrite Hframe.
  apply slice_app; [rewrite !len_app, Le, Ls, Lp; change (len [x11; x14; x10; x00]) with 4; lia
                   | lia].
Qed.

(** What a session request is made of. *)
Lemma session_request_parts (event : Z) (request_id : str) (payload : pyval) (frame : bytes) :
  session_request event request_id payload = Ret frame ->
  exists dumped payload_bytes event_num session_id_bytes session_id_len payload_size,
    json_dumps false payload = Ret dumped /\
    utf8_encode dumped = Ret payload_bytes /\
    to_bytes4 event = Ret event_num /\
    utf8_encode request_id = Ret session_id_bytes /\
    to_bytes4 (len session_id_bytes) = Ret session_id_len /\
    to_bytes4 (len payload_bytes) = Ret payload_size /\
    frame = [x11; x14; x10; x00] ++ event_num ++ session_id_len ++ session_id_bytes
            ++ payload_size ++ payload_bytes.
Proof.
  unfold session_request. rewrite client_header.
  destruct (json_dumps false payload) as [dumped |] eqn:Ed; [| discriminate]. cbn [bind].
  destruct (utf8_encode dumped) as [payload_bytes |] eqn:Ep; [| discriminate]. cbn [bind].
  destruct (to_bytes4 event) as [event_num |] eqn:Ee; [| discriminate]. cbn [bind].
  destruct (utf8_encode request_id) as [session_id_bytes |] eqn:Es; [| discriminate].
  cbn [bind].
  destruct (to_bytes4 (len session_id_bytes)) as [session_id_len |] eqn:El;
    [| discriminate].
  cbn [bind].
  destruct (to_bytes4 (len payload_bytes)) as [payload_size |] eqn:Ez; [| discriminate].
  cbn [bind]. intros [= <-].
  exists dumped, payload_bytes, event_num, session_id_bytes, session_id_len, payload_size.
  repeat split; assumption || reflexivity.
Qed.

End TTSMoreFacts.

Section TTSMoreClaims.
Context {J : Json}.
Import TTS.

(** X12. The frames of [_build_start_session_request], [_build_text_request]
    and [_build_finish_request] have the layout that the receive loop of
    [synthesize_stream] reads: message type 1 with flags 4, the event number
    (100, 200, 102) at bytes 4 to 8, and, after the session id, the payload,
    which is the UTF-8 encoding of the JSON text of the request's dictionary.
    The frame is 16 bytes longer than session id and payload together. *)
Theorem session_requests_parse_back (self : VolcengineTTS) (text_ request_id : str) :
  (forall frame, _build_start_session_request self request_id = Ret frame ->
     exists payload, start_session_payload self = Ret payload /\
                     reads_as frame 100 request_id payload) /\
  (forall frame, _build_text_request text_ request_id = Ret frame ->
     reads_as frame 200 request_id (text_payload text_)) /\
  (forall frame, _build_finish_request request_id = Ret frame ->
     reads_as frame 102 request_id (PDict [])).
Proof.
  assert (Hany : forall event payload frame,
            session_request event request_id payload = Ret frame ->
            reads_as frame event request_id payload).
  { intros event payload frame H.
    destruct (session_request_parts _ _ _ _ H)
      as (dumped & payload_bytes & event_num & sid & sid_len & payload_size
          & Hd & Hp & He & Hs & Hl & Hz & ->).
    destruct (session_frame_read event event_num sid_len sid payload_size payload_bytes
                He Hl Hz) as (Hlen & Hty & Hfl & Hev & Hpay).
    unfold reads_as. split; [exact Hty |]. split; [exact Hfl |]. split; [exact Hev |].
    exists dumped, payload_bytes, sid. repeat split; assumption. }
  split; [| split].
  - intros frame H. unfold _build_start_session_request in H.
    destruct (start_session_payload self) as [payload |]; [| discriminate H].
    exists payload. split; [reflexivity |]. now apply Hany.
  - intros frame H. now apply Hany.
  - intros frame H. now apply Hany.
Qed.

End TTSMoreClaims.

Section TTSHeaderClaims.
Import TTS.

(** X13. With flags and compression below 16, [_build_header] returns four
    bytes exactly when message type and serialization are below 16 and not
    negative, and raises [ValueError] otherwise.  The receive loop reads the
    message type and the flags back from a frame that starts with the
    header. *)
Theorem header_nibbles_back (msg_type msg_flags serialization compression : Z) :
  0 <= msg_flags < 16 -> 0 <= compression < 16 ->
  (0 <= msg_type < 16 -> 0 <= serialization < 16 ->
   exists header,
     _build_header msg_type msg_flags serialization compression = Ret header /\
     len header = 4 /\
     forall rest,
       msg_type_of (header ++ rest) = msg_type /\
       msg_flags_of (header ++ rest) = msg_flags) /\
  (msg_type < 0 \/ 16 <= msg_type \/ serialization < 0 \/ 16 <= serialization ->
   _build_header msg_type msg_flags serialization compression = Raise ValueError).
Proof.
  intros Hf Hc. unfold _build_header.
  rewrite !lor_nibbles by assumption. cbn [bytes_of_ints].
  change (byte_of_int 17) with (Ret x11). change (byte_of_int 0) with (Ret x00).
  cbn [bind]. split.
  - intros Ht Hs.
    destruct (byte_of_int_fits (msg_type * 16 + msg_flags)) as (b1 & E1 & V1); [lia |].
    destruct (byte_of_int_fits (serialization * 16 + compression)) as (b2 & E2 & V2); [lia |].
    rewrite E1, E2. cbn [bind].
    exists [x11; b1; b2; x00]. split; [reflexivity |]. split; [reflexivity |].
    intros rest. unfold msg_type_of, msg_flags_of, byte_at. cbn [app nth].
    fold (value b1). rewrite V1. now apply nibbles_back.
  - intros Hout.
    destruct (Z_lt_ge_dec msg_type 0) as [Hneg | Hpos];
      [rewrite (byte_of_int_outside (msg_type * 16 + msg_flags)) by lia; reflexivity |].
    destruct (Z_lt_ge_dec msg_type 16) as [Hlow | Hhigh];
      [| rewrite (byte_of_int_outside (msg_type * 16 + msg_flags)) by lia; reflexivity].
    destruct (byte_of_int_fits (msg_type * 16 + msg_flags)) as (b1 & E1 & _); [lia |].
    rewrite E1. cbn [bind].
    rewrite (byte_of_int_outside (serialization * 16 + compression)) by lia.
    reflexivity.
Qed.

End TTSHeaderClaims.

Section TTSStreamFacts.
Context {J : Json}.
Import TTS.

(** The chunk that one response yields is the payload of an audio response,
    and it is not empty. *)
Lemma on_response_chunk (response chunk : bytes) :
  on_response response = Continue (Some chunk) ->
  truthy chunk = true /\
  msg_type_of response = MSG_AUDIO_RESPONSE /\ payload_of response = Some chunk.
Proof.
  unfold on_response.
  destruct (len response <? 4); [discriminate |].
  destruct (Z.eqb_spec (msg_type_of response) MSG_AUDIO_RESPONSE) as [Ea | Ea].
  - destruct (payload_of response) as [a |]; [| discriminate].
    destruct (truthy a) eqn:Et; [| discriminate].
    intros [= <-]. now repeat split.
  - destruct (msg_type_of response =? MSG_ERROR_RESPONSE); [discriminate |].
    destruct (msg_type_of response =? 9); [| discriminate].
    unfold on_json_response.
    destruct (payload_of response); [| discriminate].
    destruct (bind _ json_loads); [| discriminate].
    destruct (event_of response =? 350); [discriminate |].
    destruct (event_of response =? 152); discriminate.
Qed.

Lemma wait_for_recv_message (timeout_s : Z) (a : arrival) (response : bytes) :
  wait_for_recv timeout_s a = Ret response ->
  exists delay, a = (delay, Message response) /\ delay < timeout_s * 1000.
Proof.
  destruct a as [delay ev]. unfold wait_for_recv.
  destruct (Z.ltb_spec delay (timeout_s * 1000)); [| discriminate].
  destruct ev; try discriminate. intros [= <-]. now exists delay.
Qed.

Lemma receive_loop_chunks (sock : list arrival) :
  Forall (audio_of sock) (fst (receive_loop sock)).
Proof.
  induction sock as [| a rest IH]; [constructor |].
  assert (Hrest : Forall (audio_of (a :: rest)) (fst (receive_loop rest))).
  { eapply Forall_impl; [| exact IH].
    intros c (Ht & delay & response & Hin & Hrest). split; [exact Ht |].
    exists delay, response. split; [now right | exact Hrest]. }
  cbn [receive_loop].
  destruct (wait_for_recv 30 a) as [response |] eqn:Ea; [| constructor].
  destruct (on_response response) as [[chunk |] |] eqn:Er; [| exact Hrest | constructor].
  destruct (receive_loop rest) as [chunks unread]. cbn [fst] in *.
  constructor; [| exact Hrest].
  destruct (on_response_chunk _ _ Er) as (Ht & Hty & Hpay).
  destruct (wait_for_recv_message _ _ _ Ea) as (delay & -> & Hd).
  split; [exact Ht |]. exists delay, response.
  split; [now left |]. split; [lia |]. now split.
Qed.

Lemma truthy_join (chunks : list bytes) :
  chunks <> [] -> Forall (fun c => truthy c = true) chunks -> truthy (join chunks) = true.
Proof.
  intros Hne Hall. destruct chunks as [| c rest]; [contradiction |].
  inversion Hall as [| c' rest' Hc Hrest]. subst.
  destruct c as [| b c]; [discriminate Hc |]. reflexivity.
Qed.

End TTSStreamFacts.

Section TTSStreamClaims.
Context {J : Json}.
Import TTS.

(** X14. Every chunk that [synthesize_stream] yields is the payload, not
    empty, of an audio response received after the two acknowledgements;
    JSON and error responses and the acknowledgements themselves give no
    audio.  [synthesize] returns [None] when nothing was yielded, as when
    the connection fails, and otherwise the chunks joined, which is then not
    empty. *)
Theorem synthesize_audio_or_none (connected : bool) (sock : list arrival) :
  Forall (audio_of (skipn 2 sock)) (synthesize_stream connected sock) /\
  (connected = false -> synthesize connected sock = None) /\
  (synthesize_stream connected sock = [] <-> synthesize connected sock = None) /\
  (forall audio, synthesize connected sock = Some audio ->
     audio = join (synthesize_stream connected sock) /\ truthy audio = true).
Proof.
  assert (Hchunks : Forall (audio_of (skipn 2 sock)) (synthesize_stream connected sock)).
  { unfold synthesize_stream.
    destruct connected; cbn [negb]; [| constructor].
    destruct sock as [| a1 sock1]; [constructor |]. cbn [recv].
    destruct (wait_for_recv 10 a1); [| constructor].
    destruct sock1 as [| a2 sock2]; [constructor |]. cbn [recv].
    destruct (wait_for_recv 10 a2); [| constructor].
    cbn [skipn]. apply receive_loop_chunks. }
  split; [exact Hchunks |]. split; [| split].
  - intros ->. reflexivity.
  - unfold synthesize. destruct (synthesize_stream connected sock); cbn [truthy].
    + now split.
    + split; discriminate.
  - intros audio. unfold synthesize.
    destruct (synthesize_stream connected sock) as [| c rest] eqn:E; cbn [truthy];
      [discriminate |].
    intros [= <-]. split; [reflexivity |].
    apply (truthy_join (c :: rest)); [discriminate |].
    eapply Forall_impl; [| exact Hchunks]. now intros chunk [Ht _].
Qed.

End TTSStreamClaims.

(** *** Runs of the synthesizer *)

(** Witness of X12: the text request for [hi]. *)
Lemma session_requests_parse_back_witness :
  TTS._build_text_request (J := Ref.json) (text "hi") (text "rid") = Ret text_request_frame /\
  len text_request_frame = 49 /\
  reads_as (J := Ref.json) text_request_frame 200 (text "rid") (TTS.text_payload (text "hi")).
Proof.
  assert (Hbuilt : TTS._build_text_request (J := Ref.json) (text "hi") (text "rid")
                   = Ret text_request_frame) by (vm_compute; reflexivity).
  split; [exact Hbuilt |]. split; [reflexivity |].
  destruct (session_requests_parse_back (J := Ref.json)
              {| TTS.speaker := PStr (text "BV002_streaming");
                 TTS.speed_ratio := PyFloat.one;
                 TTS.volume_ratio := PyFloat.one;
                 TTS.pitch_ratio := PyFloat.one |}
              (text "hi") (text "rid")) as (_ & Htext & _).
  exact (Htext text_request_frame Hbuilt).
Defined.

(** Witness of X13: the header of an audio response with flags 4. *)
Lemma header_nibbles_back_witness :
  exists header,
    TTS._build_header 11 4 1 0 = Ret header /\
    len header = 4 /\
    forall rest,
      TTS.msg_type_of (header ++ rest) = 11 /\ TTS.msg_flags_of (header ++ rest) = 4.
Proof.
  apply (header_nibbles_back 11 4 1 0); lia.
Defined.

(** A message type that does not fit four bits. *)
Example header_of_type_16 : TTS._build_header 16 0 1 0 = Raise ValueError.
Proof. reflexivity. Qed.

(** Witness of X14: audio in the place of an acknowledgement, and audio
    after the end of the session, is not returned. *)
Lemma synthesize_audio_or_none_witness :
  TTS.synthesize (J := Ref.json) true synthesis_session = Some [x01; x02; x03; x04] /\
  truthy [x01; x02; x03; x04] = true.
Proof.
  assert (Hrun : TTS.synthesize (J := Ref.json) true synthesis_session
                 = Some [x01; x02; x03; x04]) by (vm_compute; reflexivity).
  split; [exact Hrun |].
  destruct (synthesize_audio_or_none (J := Ref.json) true synthesis_session)
    as (_ & _ & _ & Hsome).
  exact (proj2 (Hsome _ Hrun)).
Defined.

(** ** voice/dialog_manager.py: playback, turns and the wait for speech *)

Section SpeakBuffers.
Context {W : WebRtcVad} {C : Collaborators}.
Import Dialog.

Lemma join_app (a b : list bytes) : join (a ++ b) = join a ++ join b.
Proof. unfold join. apply concat_app. Qed.

(** What the loop of [_speak] passes to the audio device: buffers of at
    least [buffer_threshold] bytes which, with what the loop leaves, make up
    the buffer and the chunks it was given; it fails only when the device
    raises. *)
Lemma speak_loop_buffers (interruptible : bool) (chunks : list bytes) :
  forall (buffer : bytes) (st : state),
  exists evs,
    extends st (fst (speak_loop interruptible chunks buffer st)) evs /\
    Forall (fun b => buffer_threshold <= len b) (played evs) /\
    match snd (speak_loop interruptible chunks buffer st) with
    | Completed tail_ =>
        join (played evs) ++ tail_ = buffer ++ join chunks /\
        (len buffer < buffer_threshold -> len tail_ < buffer_threshold)
    | Interrupted unread => join (played evs) ++ join unread = buffer ++ join chunks
    | Failed e =>
        (exists rest, join (played evs) ++ rest = buffer ++ join chunks) /\
        (exists w b w', play_audio w b = (w', Raise e))
    end.
Proof.
  induction chunks as [| chunk rest IH]; intros buffer st; cbn [speak_loop].
  - exists []. split; [apply extends_refl |]. split; [constructor |].
    cbn [snd played flat_map join concat app]. rewrite app_nil_r. now split.
  - destruct (Z.leb_spec buffer_threshold (len (buffer ++ chunk))) as [Hfull | Hshort].
    2:{ destruct (IH (buffer ++ chunk) st) as (evs & Hx & Hp & Hend).
        exists evs. split; [exact Hx |]. split; [exact Hp |].
        cbn [join concat]. fold (join rest).
        destruct (snd (speak_loop interruptible rest (buffer ++ chunk) st)) as [t | u | e].
        - destruct Hend as [Hj Hl]. split; [now rewrite Hj, <- app_assoc |].
          intros _. now apply Hl.
        - now rewrite Hend, <- app_assoc.
        - destruct Hend as [(r & Hr) Hraise]. split; [| exact Hraise].
          exists r. now rewrite Hr, <- app_assoc. }
    destruct (play_audio (env st) (buffer ++ chunk)) as [w r] eqn:Eplay.
    pose proof (played_extends (buffer ++ chunk) w st) as Hp.
    set (st1 := note (Played (buffer ++ chunk)) (with_env w st)) in *.
    destruct r as [u | e].
    2:{ exists [Played (buffer ++ chunk)]. split; [exact Hp |].
        split; [repeat constructor; exact Hfull |]. cbn [snd]. split.
        - exists (join rest). cbn [played flat_map join concat app].
          rewrite app_nil_r. now rewrite <- app_assoc.
        - now exists (env st), (buffer ++ chunk), w. }
    assert (Hgo : forall st2 e1,
              extends st1 st2 e1 -> played e1 = [] ->
              exists evs,
                extends st (fst (speak_loop interruptible rest [] st2)) evs /\
                Forall (fun b => buffer_threshold <= len b) (played evs) /\
                match snd (speak_loop interruptible rest [] st2) with
                | Completed tail_ =>
                    join (played evs) ++ tail_ = buffer ++ join (chunk :: rest) /\
                    (len buffer < buffer_threshold -> len tail_ < buffer_threshold)
                | Interrupted unread =>
                    join (played evs) ++ join unread = buffer ++ join (chunk :: rest)
                | Failed e =>
                    (exists rest0, join (played evs) ++ rest0 = buffer ++ join (chunk :: rest)) /\
                    (exists w b w', play_audio w b = (w', Raise e))
                end).
    { intros st2 e1 Hx1 Hq.
      destruct (IH [] st2) as (e2 & Hx2 & Hp2 & Hend).
      exists (([Played (buffer ++ chunk)] ++ e1) ++ e2).
      split; [exact (extends_trans _ _ _ _ _ (extends_trans _ _ _ _ _ Hp Hx1) Hx2) |].
      assert (Hpl : played (([Played (buffer ++ chunk)] ++ e1) ++ e2)
                    = (buffer ++ chunk) :: played e2).
      { rewrite !played_app, Hq. reflexivity. }
      rewrite Hpl. split; [constructor; [exact Hfull | exact Hp2] |].
      cbn [join concat]. fold (join (played e2)). fold (join rest).
      cbn [app] in Hend.
      destruct (snd (speak_loop interruptible rest [] st2)) as [t | un | e].
      - destruct Hend as [Hj Hl]. split; [rewrite <- !app_assoc; now rewrite Hj |].
        intros _. apply Hl. unfold buffer_threshold. reflexivity.
      - rewrite <- !app_assoc. now rewrite Hend.
      - destruct Hend as [(r & Hr) Hraise]. split; [| exact Hraise].
        exists r. rewrite <- !app_assoc. now rewrite Hr. }
    destruct (interruptible && _aec_enabled (self st1) && audio_stream (self st1)) eqn:Hc.
    + apply andb_true_iff in Hc. destruct Hc as [_ Has].
      destruct (barge_in_check_extends st1 Has) as (e1 & Hx1 & Hs1 & _).
      destruct (_barge_in_check st1) as [st2 barge_in]. cbn [fst snd] in *.
      destruct barge_in; [| exact (Hgo st2 e1 Hx1 (sampling_played _ Hs1))].
      exists ([Played (buffer ++ chunk)] ++ e1).
      split; [exact (extends_trans _ _ _ _ _ Hp Hx1) |].
      rewrite played_app, (sampling_played _ Hs1).
      cbn [played flat_map app]. split; [repeat constructor; exact Hfull |].
      cbn [snd join concat app]. fold (join rest). rewrite app_nil_r.
      now rewrite <- app_assoc.
    + destruct (Hgo st1 [] (extends_refl st1) eq_refl) as (evs & Hx & Hrest).
      exists evs. split; [exact Hx | exact Hrest].
Qed.

End SpeakBuffers.

Section SpeakClaims.
Context {W : WebRtcVad} {C : Collaborators}.
Import Dialog.

(** X16. [_speak] passes to the audio device a prefix of the synthesized
    audio, in order and without repetition: no buffer is empty, every buffer
    but the last holds at least 3200 bytes, and when playback cannot be
    interrupted and the device never raises, the whole of the audio.
    Afterwards [is_speaking] is false and [wait_after_speak] is 0 with the
    bridge and half a second without it, however playback ended. *)
Theorem speak_plays_prefix (text_ : str) (interruptible : bool) (st : state) :
  exists (evs : list event) (rest : bytes),
    trace (_speak text_ interruptible st) = trace st ++ Spoke text_ interruptible :: evs /\
    join (played evs) ++ rest = join (snd (tts_synthesize_stream (env st) text_)) /\
    Forall (fun b => truthy b = true) (played evs) /\
    Forall (fun b => buffer_threshold <= len b) (removelast (played evs)) /\
    (interruptible && _aec_enabled (self st) && audio_stream (self st) = false ->
     (forall w b, exists w' u, play_audio w b = (w', Ret u)) ->
     rest = []) /\
    is_speaking (self (_speak text_ interruptible st)) = false /\
    wait_after_speak (self (_speak text_ interruptible st))
      = (if _aec_enabled (self st) then 0 else 500).
Proof.
  unfold _speak.
  set (st0 := note (Spoke text_ interruptible) (with_self (set_is_speaking true) st)).
  change (env st0) with (env st).
  destruct (tts_synthesize_stream (env st) text_) as [w chunks]. cbn [snd].
  destruct (speak_loop_buffers interruptible chunks [] (with_env w st0))
    as (evs & [Hs Ht] & Hbig & Hend).
  pose proof (speak_loop_uninterrupted interruptible chunks [] (with_env w st0)) as Hun.
  destruct (speak_loop interruptible chunks [] (with_env w st0)) as [st1 ending].
  cbn [fst snd app] in *.
  assert (Hst1 : self st1 = set_is_speaking true (self st)) by exact Hs.
  assert (Htr : trace st1 = trace st ++ Spoke text_ interruptible :: evs).
  { rewrite Ht. cbn. now rewrite <- app_assoc. }
  assert (Hnonempty : forall l, Forall (fun b : bytes => buffer_threshold <= len b) l ->
                                Forall (fun b : bytes => truthy b = true) l).
  { intros l. apply Forall_impl. intros b Hb.
    destruct b; [exfalso; unfold buffer_threshold in Hb;
                 change (len (@nil byte)) with 0 in Hb; lia | reflexivity]. }
  assert (Hplain : forall st2 : state,
            self st2 = self st1 ->
            is_speaking
              (self (with_self (fun m => set_wait_after_speak
                                           (if _aec_enabled m then 0 else 500)
                                           (set_is_speaking false m)) st2)) = false /\
            wait_after_speak
              (self (with_self (fun m => set_wait_after_speak
                                           (if _aec_enabled m then 0 else 500)
                                           (set_is_speaking false m)) st2))
              = (if _aec_enabled (self st) then 0 else 500)).
  { intros st2 Hs2. cbn. rewrite Hs2, Hst1. cbn. now split. }
  assert (Hnever : interruptible && _aec_enabled (self st) && audio_stream (self st) = false ->
                   forall unread, ending <> Interrupted unread).
  { intros Hoff. destruct (Hun Hoff) as (_ & _ & _ & _ & Hni & _). exact Hni. }
  destruct ending as [buffer | unread | e].
  - destruct Hend as [Hj _].
    destruct (truthy buffer) eqn:Etail.
    + destruct (play_audio (env st1) buffer) as [w' r'].
      exists (evs ++ [Played buffer]), [].
      split; [cbn; rewrite Htr; now rewrite <- app_assoc |].
      rewrite played_app. cbn [played flat_map app].
      split; [rewrite app_nil_r, join_app; cbn [join concat]; now rewrite app_nil_r |].
      split; [apply Forall_app; split; [now apply Hnonempty | now repeat constructor] |].
      split; [now rewrite removelast_last |].
      split; [reflexivity |]. now apply Hplain.
    + exists evs, []. split; [exact Htr |].
      destruct buffer; [| discriminate Etail].
      split; [exact Hj |]. split; [now apply Hnonempty |].
      split; [now apply Forall_removelast |].
      split; [reflexivity |]. now apply Hplain.
  - exists evs, (join unread). split; [exact Htr |]. split; [exact Hend |].
    split; [now apply Hnonempty |]. split; [now apply Forall_removelast |].
    split; [| now apply Hplain].
    intros Hoff _. now destruct (Hnever Hoff unread).
  - destruct Hend as [(r & Hr) (w0 & b0 & w1 & Hraise)].
    exists evs, r. split; [exact Htr |]. split; [exact Hr |].
    split; [now apply Hnonempty |]. split; [now apply Forall_removelast |].
    split; [| now apply Hplain].
    intros _ Hok. destruct (Hok w0 b0) as (w2 & u & Hret).
    rewrite Hret in Hraise. discriminate Hraise.
Qed.

End SpeakClaims.

Section TurnMoreClaims.
Context {W : WebRtcVad} {C : Collaborators}.
Import Dialog.

(** X15. A transcript without an exit keyword, handled while the engine is
    not awaiting a name, is sent to the conversation collaborator once, with
    the speaker identified for the turn; the answer is spoken with
    [interruptible=True], [running] stays true, and the loop goes on with
    the next turn.  When the collaborator raises, nothing is spoken, and the
    loop goes on with the next turn all the same. *)
Theorem normal_turn_chats_once
  (_handle_name_response : str -> bytes -> state -> state * res unit)
  (user_text : str) (audio_data : bytes) (st st1 : state)
  (speaker_name : option str) (later : list (str * bytes)) :
  running (self st) = true ->
  truthy user_text = true ->
  awaiting_name (self st) = false ->
  existsb (fun kw => str_contains kw user_text) (exit_keywords (self st)) = false ->
  _identify_speaker audio_data st = (st1, Ret speaker_name) ->
  awaiting_name (self st1) = false ->
  (forall (w : world) (reply : str),
     brain_chat (env st1) user_text speaker_name = (w, Ret reply) ->
     exists (st' : state) (evs : list event),
       _handle_speech _handle_name_response user_text audio_data st = (st', Ret tt) /\
       running (self st') = true /\
       trace st' = trace st ++ Chat user_text speaker_name :: Spoke reply true :: evs /\
       playback evs /\
       chats (trace st') = chats (trace st) ++ [(user_text, speaker_name)] /\
       spoken (trace st') = spoken (trace st) ++ [(reply, true)] /\
       _main_loop _handle_name_response ((user_text, audio_data) :: later) st
       = _main_loop _handle_name_response later st') /\
  (forall (w : world) (e : exn),
     brain_chat (env st1) user_text speaker_name = (w, Raise e) ->
     exists st' : state,
       _handle_speech _handle_name_response user_text audio_data st = (st', Raise e) /\
       running (self st') = true /\
       trace st' = trace st ++ [Chat user_text speaker_name] /\
       _main_loop _handle_name_response ((user_text, audio_data) :: later) st
       = _main_loop _handle_name_response later st').
Proof.
  intros Hrun Htext Haw Hkw Hid Haw1.
  destruct (identify_speaker_engine audio_data st) as (Hr1 & Hk1 & Htr1).
  rewrite Hid in Hr1, Hk1, Htr1. cbn [fst] in Hr1, Hk1, Htr1.
  specialize (Htr1 Haw Haw1).
  assert (Hex : existsb (fun kw => str_contains kw user_text) (exit_keywords (self st1))
                = false) by now rewrite Hk1.
  split.
  - intros w reply Hchat.
    set (st2 := note (Chat user_text speaker_name) (with_env w st1)).
    destruct (speak_trace reply true st2) as (evs & Ht & Hp & _ & Hsame & _).
    assert (Hhs : _handle_speech _handle_name_response user_text audio_data st
                  = (_speak reply true st2, Ret tt)).
    { unfold _handle_speech. rewrite Haw, Hid, Haw1, Hex. unfold chat. now rewrite Hchat. }
    assert (Htrace : trace (_speak reply true st2)
                     = trace st ++ Chat user_text speaker_name :: Spoke reply true :: evs).
    { rewrite Ht. cbn [st2 note trace with_env]. rewrite Htr1. now rewrite <- app_assoc. }
    destruct (playback_quiet evs Hp) as [Hqc Hqs].
    exists (_speak reply true st2), evs.
    split; [exact Hhs |].
    split; [destruct Hsame as (_ & Hrs & _); rewrite Hrs; cbn [st2 note with_env self];
            now rewrite Hr1 |].
    split; [exact Htrace |]. split; [exact Hp |].
    rewrite Htrace. split; [| split].
    + rewrite chats_app. cbn [chats flat_map app].
      change (flat_map _ evs) with (chats evs). now rewrite Hqc.
    + rewrite spoken_app. cbn [spoken flat_map app].
      change (flat_map _ evs) with (spoken evs). now rewrite Hqs.
    + cbn [_main_loop]. rewrite Hrun, Htext. cbn [negb]. now rewrite Hhs.
  - intros w e Hchat.
    set (st2 := note (Chat user_text speaker_name) (with_env w st1)).
    assert (Hhs : _handle_speech _handle_name_response user_text audio_data st
                  = (st2, Raise e)).
    { unfold _handle_speech. rewrite Haw, Hid, Haw1, Hex. unfold chat. now rewrite Hchat. }
    exists st2. split; [exact Hhs |].
    split; [cbn [st2 note with_env self]; now rewrite Hr1 |].
    split; [cbn [st2 note trace with_env]; now rewrite Htr1 |].
    cbn [_main_loop]. rewrite Hrun, Htext. cbn [negb]. now rewrite Hhs.
Qed.

End TurnMoreClaims.

Section OnsetFacts.
Context {W : WebRtcVad} {C : Collaborators}.
Import Dialog.

Lemma range_step_empty (step : Z) : 0 < step -> range_step 0 0 step = [].
Proof.
  intros Hs. unfold range_step. destruct (Z.ltb_spec 0 step); [| lia].
  replace ((0 - 0 + step - 1) / step) with 0; [reflexivity |].
  symmetry. apply Z.div_small. lia.
Qed.

(** [read_and_check] reads the capture at most once; when it reports speech
    it has read it, and with a positive frame size the chunk it read is not
    empty. *)
Lemma read_and_check_reads (st : state) :
  exists evs,
    extends st (fst (read_and_check st)) evs /\
    (snd (snd (read_and_check st)) = true ->
     count_reads evs = 1 /\
     (0 < VAD.frame_size (vad (self st)) ->
      exists c, fst (snd (read_and_check st)) = Some c /\ truthy c = true)).
Proof.
  unfold read_and_check.
  destruct (audio_stream (self st)); cbn [negb].
  2:{ exists []. split; [apply extends_refl |]. discriminate. }
  pose proof (read_extends st) as Hread.
  destruct (read st) as [st1 r]. cbn [fst] in Hread.
  destruct r as [chunk | e].
  2:{ exists [Read]. split; [exact Hread |]. discriminate. }
  assert (Hself : self st1 = self st) by apply Hread.
  rewrite Hself.
  destruct ((VAD.frame_size (vad (self st)) =? 0) || (VAD.frame_size (vad (self st)) <=? 0))
    eqn:Efs.
  - pose proof (classify_extends chunk st1) as Hcl.
    destruct (classify chunk st1) as [st2 speech]. cbn [fst snd] in *.
    exists ([Read] ++ [Classified chunk speech]).
    split; [exact (extends_trans _ _ _ _ _ Hread Hcl) |].
    intros _. split; [reflexivity |]. intros Hpos.
    apply orb_true_iff in Efs. destruct Efs as [E | E]; [apply Z.eqb_eq in E | apply Z.leb_le in E]; lia.
  - apply orb_false_iff in Efs. destruct Efs as [_ Hpos]. apply Z.leb_gt in Hpos.
    destruct (vote_extends (VAD.frame_size (vad (self st))) chunk
                (range_step 0 (len chunk) (VAD.frame_size (vad (self st)))) 0 0 st1)
      as (evs & Hx & Hs & Hreads & Hres & _).
    pose proof (range_step_empty _ Hpos) as Hempty.
    destruct (vote (VAD.frame_size (vad (self st))) chunk
                (range_step 0 (len chunk) (VAD.frame_size (vad (self st)))) 0 0 st1)
      as [st2 [speech_votes total_votes]] eqn:Ev.
    cbn [fst snd] in *.
    exists ([Read] ++ evs).
    split; [exact (extends_trans _ _ _ _ _ Hread Hx) |].
    rewrite count_reads_app, Hreads.
    intros Hsp. split; [reflexivity |]. intros _.
    exists chunk. split; [reflexivity |].
    destruct chunk as [| b chunk]; [| reflexivity].
    change (len (@nil byte)) with 0 in Ev. rewrite Hempty in Ev.
    cbn [vote] in Ev. injection Ev as _ _ <-. discriminate Hsp.
Qed.

(** The loop of [_wait_for_speech_start], with a positive frame size: the
    chunks of the pre-buffer are not empty, there are at least as many of
    them as consecutive speech chunks, and a start is reported after the
    third speech chunk in a row. *)
Lemma wait_loop_started (fuel : nat) :
  forall (pre_buffer : list bytes) (consecutive_speech : Z) (st : state),
  0 < VAD.frame_size (vad (self st)) ->
  0 <= consecutive_speech <= len pre_buffer ->
  len pre_buffer <= pre_buffer_max ->
  Forall (fun c => truthy c = true) pre_buffer ->
  forall pre,
    snd (wait_loop fuel pre_buffer consecutive_speech st) = Started pre ->
    speech_threshold <= len pre <= pre_buffer_max /\
    Forall (fun c => truthy c = true) pre /\
    count_reads (trace st) + (speech_threshold - consecutive_speech)
    <= count_reads (trace (fst (wait_loop fuel pre_buffer consecutive_speech st))).
Proof.
  induction fuel as [| fuel IH]; intros pre_buffer n st Hfs Hn Hmax Hall pre;
    cbn [wait_loop]; [discriminate |].
  destruct (running (self st) && negb (is_speaking (self st))); [| discriminate].
  destruct (read_and_check_reads st) as (evs & [Hself Htrace] & Hspeech).
  assert (Hnn : 0 <= count_reads evs) by apply len_nonneg.
  destruct (read_and_check st) as [st1 [chunk speech]]. cbn [fst snd] in *.
  match goal with
  | |- context [if speech then (if _ then (st1, Started ?p) else _) else _] =>
      set (pre' := p)
  end.
  assert (Hfs1 : 0 < VAD.frame_size (vad (self st1))) by now rewrite Hself.
  assert (Hreads : count_reads (trace st1) = count_reads (trace st) + count_reads evs).
  { now rewrite Htrace, count_reads_app. }
  assert (Hpre' : len pre' <= pre_buffer_max /\ Forall (fun c => truthy c = true) pre' /\
                  len pre_buffer <= len pre' /\
                  (forall c, chunk = Some c -> truthy c = true ->
                             Z.min (len pre_buffer + 1) pre_buffer_max <= len pre')).
  { subst pre'. destruct chunk as [c |]; [| repeat split; try assumption; try lia; discriminate].
    destruct (truthy c) eqn:Ec; [| repeat split; try assumption; try lia; intros c' [= <-]; congruence].
    assert (Happ : Forall (fun c => truthy c = true) (pre_buffer ++ [c])).
    { apply Forall_app. split; [exact Hall | now repeat constructor]. }
    assert (Hlen : len (pre_buffer ++ [c]) = len pre_buffer + 1).
    { rewrite len_app. reflexivity. }
    destruct (Z.ltb_spec pre_buffer_max (len (pre_buffer ++ [c]))) as [Hlt | Hge].
    - assert (Htl : len (tl (pre_buffer ++ [c])) = len pre_buffer).
      { destruct pre_buffer as [| p0 pre_buffer]; cbn [app tl].
        - cbn in Hlt. unfold pre_buffer_max in Hlt. lia.
        - rewrite len_app. unfold len. cbn [length]. lia. }
      rewrite Htl. split; [exact Hmax |].
      split; [destruct (pre_buffer ++ [c]); [constructor | now inversion Happ] |].
      split; [lia |]. intros _ _ _. lia.
    - rewrite Hlen in *. split; [exact Hge |]. split; [exact Happ |].
      split; [lia |]. intros _ _ _. lia. }
  destruct Hpre' as (Hmax' & Hall' & Hgrow & Hadd).
  destruct speech.
  - destruct (Hspeech eq_refl) as [Hone Hchunk].
    destruct (Hchunk Hfs) as (c & -> & Hc).
    specialize (Hadd c eq_refl Hc).
    destruct (Z.leb_spec speech_threshold (n + 1)) as [Hth | Hth].
    + intros [= <-]. cbn [fst]. unfold speech_threshold, pre_buffer_max in *.
      split; [lia |]. split; [exact Hall' |]. lia.
    + intros Hstart.
      destruct (IH pre' (n + 1) st1 Hfs1) with (pre := pre) as (H1 & H2 & H3);
        try assumption.
      { unfold speech_threshold, pre_buffer_max in *. lia. }
      split; [exact H1 |]. split; [exact H2 |]. lia.
  - intros Hstart.
    destruct (IH pre' 0 st1 Hfs1) with (pre := pre) as (H1 & H2 & H3); try assumption.
    { pose proof (len_nonneg pre'). lia. }
    split; [exact H1 |]. split; [exact H2 |]. unfold speech_threshold in *. lia.
Qed.

End OnsetFacts.

Section OnsetClaims.
Context {W : WebRtcVad} {C : Collaborators}.
Import Dialog.

(** X17. With a positive frame size, [_wait_for_speech_start] reports a
    start only after it has read the capture at least three times, and the
    pre-buffer it returns then holds between 3 and 15 chunks, none of them
    empty.  An engine that is not running, or that is speaking, reports no
    start and does not read the capture. *)
Theorem speech_start_needs_three_chunks (fuel : nat) (st : state) :
  (0 < VAD.frame_size (vad (self st)) ->
   forall pre_buffer,
     snd (_wait_for_speech_start fuel st) = Started pre_buffer ->
     3 <= len pre_buffer <= 15 /\
     Forall (fun c => truthy c = true) pre_buffer /\
     count_reads (trace st) + 3 <= count_reads (trace (fst (_wait_for_speech_start fuel st)))) /\
  (running (self st) = false \/ is_speaking (self st) = true ->
   _wait_for_speech_start (S fuel) st = (st, NotStarted)).
Proof.
  split.
  - intros Hfs pre Hstart.
    apply (wait_loop_started fuel [] 0 st Hfs); [cbn; lia | cbn; unfold pre_buffer_max; lia
                                                | constructor | exact Hstart].
  - intros Hoff. unfold _wait_for_speech_start. cbn [wait_loop].
    destruct Hoff as [-> | ->]; [reflexivity | now rewrite andb_false_r].
Qed.

End OnsetClaims.

(** *** Runs of a turn, of playback and of the wait for speech *)

(** Witness of X15: the transcript 你好 in a quiet room. *)
Lemma normal_turn_chats_once_witness :
  exists (st' : Dialog.state (W := Ref.level_vad) (C := Ref.studio_collaborators))
         (evs : list Dialog.event),
    Dialog._handle_speech Ref.no_name_response greeting_text [x01]
      (Ref.engine true false quiet_studio) = (st', Ret tt) /\
    Dialog.running (Dialog.self st') = true /\
    Dialog.trace st' = [] ++ Dialog.Chat greeting_text None
                            :: Dialog.Spoke greeting_text true :: evs /\
    playback evs /\
    Dialog.chats (Dialog.trace st') = [] ++ [(greeting_text, None)] /\
    Dialog.spoken (Dialog.trace st') = [] ++ [(greeting_text, true)] /\
    Dialog._main_loop Ref.no_name_response [(greeting_text, [x01]); (leaving_text, [x01])]
      (Ref.engine true false quiet_studio)
    = Dialog._main_loop Ref.no_name_response [(leaving_text, [x01])] st'.
Proof.
  apply (proj1 (normal_turn_chats_once (W := Ref.level_vad) (C := Ref.studio_collaborators)
                  Ref.no_name_response greeting_text [x01]
                  (Ref.engine true false quiet_studio) (Ref.engine true false quiet_studio)
                  None [(leaving_text, [x01])]
                  eq_refl eq_refl eq_refl eq_refl eq_refl eq_refl)
               quiet_studio greeting_text).
  reflexivity.
Defined.

(** Witness of X16: a text of three characters, synthesized as three chunks
    of 1600 bytes. *)
Lemma speak_plays_prefix_witness :
  Dialog.played
    (Dialog.trace (Dialog._speak (W := Ref.level_vad) (C := Ref.studio_collaborators)
                     (text "abc") false (Ref.engine false false quiet_studio)))
  = [half_buffer ++ half_buffer; half_buffer] /\
  exists (evs : list Dialog.event) (rest : bytes),
    Dialog.trace (Dialog._speak (W := Ref.level_vad) (C := Ref.studio_collaborators)
                    (text "abc") false (Ref.engine false false quiet_studio))
    = [] ++ Dialog.Spoke (text "abc") false :: evs /\
    join (Dialog.played evs) ++ rest = join [half_buffer; half_buffer; half_buffer] /\
    rest = [].
Proof.
  split; [vm_compute; reflexivity |].
  destruct (speak_plays_prefix (W := Ref.level_vad) (C := Ref.studio_collaborators)
              (text "abc") false (Ref.engine false false quiet_studio))
    as (evs & rest & Ht & Hj & _ & _ & Hall & _).
  exists evs, rest. split; [exact Ht |]. split; [exact Hj |].
  apply Hall; [reflexivity |].
  intros w b. eexists. exists tt. reflexivity.
Defined.

(** Witness of X17: three speech frames in a row. *)
Lemma speech_start_needs_three_chunks_witness :
  snd (Dialog._wait_for_speech_start (W := Ref.level_vad) (C := Ref.studio_collaborators)
         5 (Ref.engine true false three_speech_reads))
  = Dialog.Started (repeat Ref.speech_frame 3) /\
  3 <= len (repeat Ref.speech_frame 3) <= 15 /\
  Forall (fun c => truthy c = true) (repeat Ref.speech_frame 3) /\
  0 + 3 <= Dialog.count_reads
             (Dialog.trace
                (fst (Dialog._wait_for_speech_start (W := Ref.level_vad)
                        (C := Ref.studio_collaborators)
                        5 (Ref.engine true false three_speech_reads)))).
Proof.
  assert (Hrun : snd (Dialog._wait_for_speech_start (W := Ref.level_vad)
                        (C := Ref.studio_collaborators)
                        5 (Ref.engine true false three_speech_reads))
                 = Dialog.Started (repeat Ref.speech_frame 3)) by (vm_compute; reflexivity).
  split; [exact Hrun |].
  apply (proj1 (speech_start_needs_three_chunks (W := Ref.level_vad)
                  (C := Ref.studio_collaborators)
                  5 (Ref.engine true false three_speech_reads))).
  - reflexivity.
  - exact Hrun.
Defined.

(** ** voice/speaker_id.py: the registry of voices *)

Section DictFacts.

Lemma str_eqb_eq (a b : str) : str_eqb a b = true <-> a = b.
Proof.
  unfold str_eqb. revert b.
  induction a as [| x a IH]; intros [| y b]; cbn [length combine forallb Nat.eqb andb fst snd].
  - now split.
  - split; discriminate.
  - split; discriminate.
  - specialize (IH b). split.
    + intros H. apply andb_true_iff in H. destruct H as [Hl H].
      apply andb_true_iff in H. destruct H as [Hxy Hf].
      apply Z.eqb_eq in Hxy. subst y. f_equal. apply IH. now rewrite Hl, Hf.
    + intros [= -> ->]. destruct IH as [_ IH]. specialize (IH eq_refl).
      apply andb_true_iff in IH. destruct IH as [Hl Hf].
      rewrite Hl, Z.eqb_refl, Hf. reflexivity.
Qed.

Lemma str_eqb_refl (a : str) : str_eqb a a = true.
Proof. now apply str_eqb_eq. Qed.

Lemma str_eqb_neq (a b : str) : a <> b -> str_eqb a b = false.
Proof.
  intros H. destruct (str_eqb a b) eqn:E; [| reflexivity].
  apply str_eqb_eq in E. contradiction.
Qed.

Context {V : Type}.

Lemma getitem_setitem_same (key : str) (v : V) (d : list (str * V)) :
  getitem key (setitem key v d) = Some v.
Proof.
  induction d as [| [k x] d IH]; cbn [setitem getitem].
  - now rewrite str_eqb_refl.
  - destruct (str_eqb k key) eqn:E; cbn [getitem]; rewrite E; [reflexivity | exact IH].
Qed.

Lemma getitem_setitem_other (key other : str) (v : V) (d : list (str * V)) :
  other <> key -> getitem other (setitem key v d) = getitem other d.
Proof.
  intros Hne. induction d as [| [k x] d IH]; cbn [setitem getitem].
  - rewrite str_eqb_neq by congruence. reflexivity.
  - destruct (str_eqb k key) eqn:E; cbn [getitem].
    + apply str_eqb_eq in E. subst k. rewrite str_eqb_neq by congruence. reflexivity.
    + now rewrite IH.
Qed.

Lemma getitem_delitem_same (key : str) (d : list (str * V)) :
  getitem key (delitem key d) = None.
Proof.
  unfold delitem. induction d as [| [k x] d IH]; cbn [filter getitem fst]; [reflexivity |].
  destruct (str_eqb k key) eqn:E; cbn [negb]; [exact IH |].
  cbn [getitem]. now rewrite E.
Qed.

Lemma getitem_delitem_other (key other : str) (d : list (str * V)) :
  other <> key -> getitem other (delitem key d) = getitem other d.
Proof.
  intros Hne. unfold delitem.
  induction d as [| [k x] d IH]; cbn [filter getitem fst]; [reflexivity |].
  destruct (str_eqb k key) eqn:E; cbn [negb].
  - apply str_eqb_eq in E. subst k. rewrite str_eqb_neq by congruence. exact IH.
  - cbn [getitem]. now rewrite IH.
Qed.

(** A new key goes to the end of the dictionary. *)
Lemma setitem_new (key : str) (v : V) (d : list (str * V)) :
  has_key key d = false -> setitem key v d = d ++ [(key, v)].
Proof.
  unfold has_key. induction d as [| [k x] d IH]; cbn [setitem getitem app]; [reflexivity |].
  destruct (str_eqb k key); [discriminate |].
  intros H. now rewrite IH.
Qed.

(** Deleting a key that was put at the end gives the dictionary back. *)
Lemma delitem_new (key : str) (v : V) (d : list (str * V)) :
  has_key key d = false -> delitem key (d ++ [(key, v)]) = d.
Proof.
  unfold has_key, delitem. induction d as [| [k x] d IH]; cbn [getitem app filter fst].
  - intros _. now rewrite str_eqb_refl.
  - destruct (str_eqb k key); [discriminate |]. cbn [negb].
    intros H. now rewrite IH.
Qed.

Lemma has_key_in (key : str) (d : list (str * V)) :
  has_key key d = true -> In key (map fst d).
Proof.
  unfold has_key. induction d as [| [k x] d IH]; cbn [getitem map fst]; [discriminate |].
  destruct (str_eqb k key) eqn:E.
  - intros _. left. now apply str_eqb_eq.
  - intros H. right. now apply IH.
Qed.

End DictFacts.

Section DecimalFacts.

Lemma text_inj (a b : String.string) : text a = text b -> a = b.
Proof.
  unfold text. intros H.
  rewrite <- (String.string_of_list_ascii_of_string a),
          <- (String.string_of_list_ascii_of_string b).
  f_equal.
  revert H. generalize (String.list_ascii_of_string a) as la.
  generalize (String.list_ascii_of_string b) as lb.
  intros lb la. revert lb.
  induction la as [| x la IH]; intros [| y lb]; cbn [map]; try discriminate; [reflexivity |].
  intros [= Hxy Hrest]. apply Nat2Z.inj in Hxy.
  f_equal; [| now apply IH].
  rewrite <- (Ascii.ascii_nat_embedding x), <- (Ascii.ascii_nat_embedding y).
  now rewrite Hxy.
Qed.

Lemma to_int_proper (n : Z) :
  Z.to_int n <> Decimal.Pos Decimal.Nil /\ Z.to_int n <> Decimal.Neg Decimal.Nil.
Proof.
  destruct n as [| p | p]; cbn; split; try discriminate;
    intros [= H]; now apply DecimalPos.Unsigned.to_uint_nonnil in H.
Qed.

(** [str] gives different texts for different integers. *)
Lemma str_of_int_inj (m n : Z) : str_of_int m = str_of_int n -> m = n.
Proof.
  unfold str_of_int. intros H. apply text_inj in H.
  apply DecimalZ.to_int_inj.
  destruct (to_int_proper m) as [Hm1 Hm2]. destruct (to_int_proper n) as [Hn1 Hn2].
  pose proof (DecimalString.NilZero.isi _ Hm1 Hm2) as Em.
  pose proof (DecimalString.NilZero.isi _ Hn1 Hn2) as En.
  rewrite H in Em. rewrite Em in En. now injection En.
Qed.

End DecimalFacts.

Section CandidateFacts.
Context {E : VoiceEncoder}.
Import Speaker.

Lemma NoDup_map_inj {A B : Type} (f : A -> B) (l : list A) :
  (forall x y, f x = f y -> x = y) -> NoDup l -> NoDup (map f l).
Proof.
  intros Hinj Hl. induction Hl as [| x l Hx Hl IH]; cbn [map]; constructor; [| exact IH].
  intros Hin. apply in_map_iff in Hin. destruct Hin as (y & Hy & Hyl).
  apply Hinj in Hy. now subst y.
Qed.

(** The ids that [register] tries are pairwise different. *)
Lemma candidate_inj (base_id : str) (j k : nat) :
  candidate base_id j = candidate base_id k -> j = k.
Proof.
  destruct j as [| j], k as [| k]; cbn [candidate]; intros H.
  - reflexivity.
  - exfalso. apply (f_equal (@length Z)) in H. rewrite length_app in H.
    cbn [length app] in H. lia.
  - exfalso. apply (f_equal (@length Z)) in H. rewrite length_app in H.
    cbn [length app] in H. lia.
  - apply app_inv_head in H. cbn [app] in H. injection H as H.
    apply str_of_int_inj in H. lia.
Qed.

Lemma candidate_next (base_id : str) (k : nat) :
  base_id ++ [95] ++ str_of_int (Z.of_nat k + 1) = candidate base_id (S k).
Proof. cbn [candidate]. do 3 f_equal. lia. Qed.

(** The loop returns the first id of the sequence that is not a key. *)
Lemma unused_id_first (speakers_ : list (str * pyval)) (base_id : str) :
  forall (fuel k : nat) (id : str),
  unused_id fuel speakers_ base_id (candidate base_id k) (Z.of_nat k + 1) = Some id ->
  exists j, (k <= j)%nat /\ id = candidate base_id j /\
            has_key id speakers_ = false /\
            forall i, (k <= i < j)%nat -> has_key (candidate base_id i) speakers_ = true.
Proof.
  induction fuel as [| fuel IH]; intros k id; cbn [unused_id]; [discriminate |].
  destruct (has_key (candidate base_id k) speakers_) eqn:Ek.
  - rewrite candidate_next.
    replace (Z.of_nat k + 1 + 1) with (Z.of_nat (S k) + 1) by lia.
    intros H. destruct (IH (S k) id H) as (j & Hj & -> & Hfree & Hused).
    exists j. split; [lia |]. split; [reflexivity |]. split; [exact Hfree |].
    intros i Hi. destruct (Nat.eq_dec i k) as [-> | Hne]; [exact Ek | apply Hused; lia].
  - intros [= <-]. exists k. split; [lia |]. split; [reflexivity |].
    split; [exact Ek |]. intros i Hi. lia.
Qed.

(** When the tests are used up, every id tried was a key. *)
Lemma unused_id_exhausted (speakers_ : list (str * pyval)) (base_id : str) :
  forall (fuel k : nat),
  unused_id fuel speakers_ base_id (candidate base_id k) (Z.of_nat k + 1) = None ->
  forall i, (k <= i < k + fuel)%nat -> has_key (candidate base_id i) speakers_ = true.
Proof.
  induction fuel as [| fuel IH]; intros k; cbn [unused_id]; [intros _ i Hi; lia |].
  destruct (has_key (candidate base_id k) speakers_) eqn:Ek; [| discriminate].
  rewrite candidate_next.
  replace (Z.of_nat k + 1 + 1) with (Z.of_nat (S k) + 1) by lia.
  intros H i Hi. destruct (Nat.eq_dec i k) as [-> | Hne]; [exact Ek |].
  apply (IH (S k) H). lia.
Qed.

(** Ids of the sequence that are all keys are no more than the keys. *)
Lemma used_candidates_bound (speakers_ : list (str * pyval)) (base_id : str) (n : nat) :
  (forall i, (i < n)%nat -> has_key (candidate base_id i) speakers_ = true) ->
  (n <= length speakers_)%nat.
Proof.
  intros Hused.
  assert (H : (length (map (candidate base_id) (seq 0 n)) <= length (map fst speakers_))%nat).
  { apply NoDup_incl_length.
    - apply NoDup_map_inj; [apply candidate_inj | apply seq_NoDup].
    - intros id Hin. apply in_map_iff in Hin. destruct Hin as (i & <- & Hi).
      apply in_seq in Hi. apply has_key_in. apply Hused. lia. }
  now rewrite !length_map, length_seq in H.
Qed.

(** With more tests than keys the loop finds an id. *)
Lemma unused_id_found (speakers_ : list (str * pyval)) (base_id : str) (fuel : nat) :
  (length speakers_ < fuel)%nat ->
  exists k,
    unused_id fuel speakers_ base_id base_id 1 = Some (candidate base_id k) /\
    (k <= length speakers_)%nat /\
    has_key (candidate base_id k) speakers_ = false /\
    forall i, (i < k)%nat -> has_key (candidate base_id i) speakers_ = true.
Proof.
  intros Hfuel.
  change base_id with (candidate base_id 0) at 2.
  change 1 with (Z.of_nat 0 + 1).
  destruct (unused_id fuel speakers_ base_id (candidate base_id 0) (Z.of_nat 0 + 1))
    as [id |] eqn:Eid.
  - destruct (unused_id_first _ _ _ _ _ Eid) as (j & _ & -> & Hfree & Hused).
    exists j. split; [reflexivity |].
    assert (Hall : forall i, (i < j)%nat -> has_key (candidate base_id i) speakers_ = true)
      by (intros i Hi; apply Hused; lia).
    split; [now apply (used_candidates_bound speakers_ base_id) |].
    split; [exact Hfree | exact Hall].
  - exfalso.
    pose proof (unused_id_exhausted _ _ _ _ Eid) as Hall.
    assert (Hb : (fuel <= length speakers_)%nat).
    { apply (used_candidates_bound speakers_ base_id). intros i Hi. apply Hall. lia. }
    lia.
Qed.

Lemma getitem_update_other (key : str) (other : list (str * pyval)) :
  has_key key other = false ->
  forall d : list (str * pyval), getitem key (update d other) = getitem key d.
Proof.
  unfold update, has_key.
  induction other as [| [k v] other IH]; intros Hk d; cbn [fold_left fst snd]; [reflexivity |].
  cbn [getitem] in Hk. destruct (str_eqb k key) eqn:Ek; [discriminate Hk |].
  rewrite (IH Hk). apply getitem_setitem_other.
  intros ->. now rewrite str_eqb_refl in Ek.
Qed.

End CandidateFacts.

Section RegistryClaims.
Context {E : VoiceEncoder}.
Import Speaker.

(** X18. [register] comes to an end after at most one test more than there
    are registered speakers.  The id it gives is the first of
    [base], [base_1], [base_2], ... that is not yet a key of [speakers],
    where [base] is the name in lower case with spaces replaced by
    underscores.  The new speaker is put behind the old ones, which are
    left as they were, and the embedding is stored under the id.  When the
    embedding is saved, the id is returned, it becomes the current speaker
    and the pending registration is cleared; when saving raises, the
    exception leaves [register] with the speaker already in both
    dictionaries, and current speaker and pending registration as before. *)
Theorem register_gives_unused_id (fuel : nat) (self : SpeakerIdentifier) (name : str)
  (embedding : ndarray) (extra_info : option (list (str * pyval)))
  (registered_at updated_at : str) (saved : res unit) :
  (length (speakers self) < fuel)%nat ->
  exists (self' : SpeakerIdentifier) (k : nat),
    let base_id := str_replace [32] [95] (lower name) in
    let speaker_id := candidate base_id k in
    register fuel self name embedding extra_info registered_at updated_at saved
    = Some (self', match saved with Ret _ => Ret speaker_id | Raise e => Raise e end) /\
    (k <= length (speakers self))%nat /\
    has_key speaker_id (speakers self) = false /\
    (forall i, (i < k)%nat -> has_key (candidate base_id i) (speakers self) = true) /\
    speakers self'
    = speakers self
      ++ [(speaker_id, PDict (speaker_info name registered_at updated_at extra_info))] /\
    embeddings self' = setitem speaker_id embedding (embeddings self) /\
    match saved with
    | Ret _ => current_speaker self' = Some speaker_id /\ pending_registration self' = None
    | Raise _ => current_speaker self' = current_speaker self /\
                 pending_registration self' = pending_registration self
    end.
Proof.
  intros Hfuel.
  destruct (unused_id_found (speakers self) (str_replace [32] [95] (lower name)) fuel Hfuel)
    as (k & Hid & Hk & Hfree & Hused).
  unfold register. rewrite Hid.
  destruct saved as [u | e].
  - eexists. exists k. cbv zeta. split; [reflexivity |]. cbn [speakers embeddings
      current_speaker pending_registration].
    split; [exact Hk |]. split; [exact Hfree |]. split; [exact Hused |].
    split; [now apply setitem_new |]. now repeat split.
  - eexists. exists k. cbv zeta. split; [reflexivity |]. cbn [speakers embeddings
      current_speaker pending_registration].
    split; [exact Hk |]. split; [exact Hfree |]. split; [exact Hused |].
    split; [now apply setitem_new |]. now repeat split.
Qed.

(** X19. After [register] has returned an id, [get_speaker_name] of that id
    gives the name that was registered, unless [extra_info] has a key
    ["name"] of its own; the id was not known before; the names of all
    other ids are as before; the embedding is found under the id.  Deleting
    the speaker again gives back the dictionary of speakers as it was
    before the registration. *)
Theorem registered_name_found (fuel : nat) (self self' : SpeakerIdentifier)
  (name speaker_id : str) (embedding : ndarray)
  (extra_info : option (list (str * pyval))) (registered_at updated_at : str)
  (saved : res unit) :
  register fuel self name embedding extra_info registered_at updated_at saved
  = Some (self', Ret speaker_id) ->
  get_speaker_name self speaker_id = Ret PNone /\
  (match extra_info with
   | Some extra => has_key (text "name") extra = false
   | None => True
   end -> get_speaker_name self' speaker_id = Ret (PStr name)) /\
  (forall other, other <> speaker_id ->
     get_speaker_name self' other = get_speaker_name self other) /\
  getitem speaker_id (embeddings self') = Some embedding /\
  (forall removed : res unit,
     speakers (fst (delete_speaker self' speaker_id removed)) = speakers self /\
     has_key speaker_id (embeddings (fst (delete_speaker self' speaker_id removed))) = false /\
     snd (delete_speaker self' speaker_id removed)
     = match removed with Ret _ => Ret true | Raise e => Raise e end).
Proof.
  unfold register.
  destruct (unused_id fuel (speakers self) (str_replace [32] [95] (lower name))
              (str_replace [32] [95] (lower name)) 1) as [id |] eqn:Eid; [| discriminate].
  assert (Hfree : has_key id (speakers self) = false).
  { change (str_replace [32] [95] (lower name))
      with (candidate (str_replace [32] [95] (lower name)) 0) in Eid at 2.
    change 1 with (Z.of_nat 0 + 1) in Eid.
    now destruct (unused_id_first _ _ _ _ _ Eid) as (j & _ & _ & Hf & _). }
  destruct saved as [u | e]; [| discriminate].
  intros [= <- <-].
  unfold get_speaker_name. cbn [speakers embeddings].
  assert (Hnone : getitem id (speakers self) = None).
  { unfold has_key in Hfree. now destruct (getitem id (speakers self)). }
  split; [now rewrite Hnone |].
  split.
  { intros Hname. rewrite getitem_setitem_same.
    unfold speaker_info.
    assert (Hbase : getitem (text "name")
                      [(text "name", PStr name); (text "registered_at", PStr registered_at);
                       (text "updated_at", PStr updated_at);
                       (text "interaction_count", PInt 1)] = Some (PStr name))
      by reflexivity.
    destruct extra_info as [extra |]; [| now rewrite Hbase].
    destruct (truthy extra); [| now rewrite Hbase].
    now rewrite (getitem_update_other _ _ Hname), Hbase. }
  split.
  { intros other Hne. now rewrite getitem_setitem_other by exact Hne. }
  split; [apply getitem_setitem_same |].
  intros removed. unfold delete_speaker. cbn [speakers embeddings].
  assert (Hkey : has_key id (setitem id
                   (PDict (speaker_info name registered_at updated_at extra_info))
                   (speakers self)) = true).
  { unfold has_key. now rewrite getitem_setitem_same. }
  rewrite Hkey. cbn [negb].
  assert (Hemb : has_key id (setitem id embedding (embeddings self)) = true).
  { unfold has_key. now rewrite getitem_setitem_same. }
  rewrite Hemb.
  assert (Hback : delitem id (setitem id
                    (PDict (speaker_info name registered_at updated_at extra_info))
                    (speakers self)) = speakers self).
  { rewrite setitem_new by exact Hfree. now apply delitem_new. }
  destruct removed as [u' | e']; cbn [fst snd speakers embeddings];
    (split; [exact Hback |]); (split; [| reflexivity]);
    unfold has_key; now rewrite getitem_delitem_same.
Qed.

(** X20. [delete_speaker] of an id that is not registered returns [False]
    and changes nothing.  For a registered id it returns [True], or raises
    what the removal of the file raises; either way the id is then in
    neither dictionary, [get_speaker_name] gives [None] for it, every other
    id keeps its entry and its embedding, and [current_speaker] is left as
    it was, also when it is the id deleted. *)
Theorem delete_speaker_forgets (self : SpeakerIdentifier) (speaker_id : str)
  (removed : res unit) :
  (has_key speaker_id (speakers self) = false ->
   delete_speaker self speaker_id removed = (self, Ret false)) /\
  (has_key speaker_id (speakers self) = true ->
   let self' := fst (delete_speaker self speaker_id removed) in
   snd (delete_speaker self speaker_id removed)
   = match removed with Ret _ => Ret true | Raise e => Raise e end /\
   has_key speaker_id (speakers self') = false /\
   has_key speaker_id (embeddings self') = false /\
   get_speaker_name self' speaker_id = Ret PNone /\
   (forall other, other <> speaker_id ->
      get_speaker_info self' other = get_speaker_info self other /\
      getitem other (embeddings self') = getitem other (embeddings self)) /\
   current_speaker self' = current_speaker self /\
   pending_registration self' = pending_registration self).
Proof.
  unfold delete_speaker. split; intros Hkey; rewrite Hkey; cbn [negb]; [reflexivity |].
  cbv zeta.
  assert (Hemb : has_key speaker_id
                   (if has_key speaker_id (embeddings self)
                    then delitem speaker_id (embeddings self)
                    else embeddings self) = false).
  { destruct (has_key speaker_id (embeddings self)) eqn:Ee; [| exact Ee].
    unfold has_key. now rewrite getitem_delitem_same. }
  assert (Hothers : forall other, other <> speaker_id ->
            getitem other (if has_key speaker_id (embeddings self)
                           then delitem speaker_id (embeddings self)
                           else embeddings self) = getitem other (embeddings self)).
  { intros other Hne. destruct (has_key speaker_id (embeddings self)); [| reflexivity].
    now apply getitem_delitem_other. }
  destruct removed as [u | e]; cbn [fst snd speakers embeddings current_speaker
                                     pending_registration];
    (split; [reflexivity |]);
    (split; [unfold has_key; now rewrite getitem_delitem_same |]);
    (split; [exact Hemb |]);
    (split; [unfold get_speaker_name; cbn [speakers]; now rewrite getitem_delitem_same |]);
    (split; [| now split]);
    intros other Hne; (split; [| now apply Hothers]);
    unfold get_speaker_info; cbn [speakers]; now apply getitem_delitem_other.
Qed.

End RegistryClaims.

Section IdentifyFacts.
Context {E : VoiceEncoder}.
Import Speaker.

(** A threshold above zero is not reached by the score zero. *)
Lemma zero_below_threshold (threshold : PrimFloat.float) :
  PrimFloat.ltb PyFloat.zero threshold = true ->
  PrimFloat.leb threshold PyFloat.zero = false.
Proof.
  rewrite FloatAxioms.ltb_spec, FloatAxioms.leb_spec.
  unfold SpecFloat.SFltb, SpecFloat.SFleb.
  change (FloatOps.Prim2SF PyFloat.zero) with (SpecFloat.S754_zero false).
  destruct (FloatOps.Prim2SF threshold) as [s | s | | s m e]; cbn [SpecFloat.SFcompare];
    try discriminate; destruct s; try discriminate; reflexivity.
Qed.

(** The loop of [identify] leaves the best match as it was, or makes it a
    registered id, with the similarity of that id's embedding. *)
Lemma best_match_loop_registered (embedding : ndarray) (items : list (str * ndarray)) :
  forall (best_match : option str) (best_similarity : PrimFloat.float)
         (found : option str) (score : PrimFloat.float),
  best_match_loop embedding items best_match best_similarity = Ret (found, score) ->
  (found = best_match /\ score = best_similarity) \/
  (exists id registered_emb,
     found = Some id /\ In (id, registered_emb) items /\
     cosine embedding registered_emb = Ret score).
Proof.
  induction items as [| [id registered_emb] items IH];
    intros best_match best_similarity found score; cbn [best_match_loop].
  - intros [= <- <-]. now left.
  - destruct (cosine embedding registered_emb) as [similarity |] eqn:Ec; [| discriminate].
    cbn [bind].
    destruct (PrimFloat.ltb best_similarity similarity); intros H;
      destruct (IH _ _ _ _ H) as [[-> ->] | (id' & reg' & -> & Hin & Hcos)].
    + right. exists id, registered_emb. split; [reflexivity |]. split; [now left | exact Ec].
    + right. exists id', reg'. split; [reflexivity |]. split; [now right | exact Hcos].
    + now left.
    + right. exists id', reg'. split; [reflexivity |]. split; [now right | exact Hcos].
Qed.

End IdentifyFacts.

Section IdentifyClaims.
Context {E : VoiceEncoder}.
Import Speaker.

(** X21. [identify] names registered speakers only: an id it returns is a
    key of [embeddings], the score returned is the cosine similarity of the
    extracted embedding with the embedding registered under that id, and
    the score reaches [similarity_threshold]; the id then becomes the
    current speaker and the dictionaries are untouched.  When no embedding
    can be extracted the answer is [(None, 0.0, None)], with no embedding
    registered it is [(None, 0.0, embedding)], and with a threshold above
    zero an answer without an id changes nothing. *)
Theorem identify_names_registered (self : SpeakerIdentifier) (audio_data : bytes)
  (sample_rate : Z) :
  (extract_embedding audio_data sample_rate = None ->
   identify self audio_data sample_rate = (self, Ret (None, PyFloat.zero, None))) /\
  (forall embedding,
     extract_embedding audio_data sample_rate = Some embedding ->
     embeddings self = [] ->
     identify self audio_data sample_rate
     = (self, Ret (None, PyFloat.zero, Some embedding))) /\
  (forall self' id score embedding,
     identify self audio_data sample_rate = (self', Ret (Some id, score, embedding)) ->
     exists extracted registered_emb,
       extract_embedding audio_data sample_rate = Some extracted /\
       embedding = Some extracted /\
       In (id, registered_emb) (embeddings self) /\
       cosine extracted registered_emb = Ret score /\
       PrimFloat.leb (similarity_threshold self) score = true /\
       current_speaker self' = Some id /\
       speakers self' = speakers self /\ embeddings self' = embeddings self /\
       pending_registration self' = pending_registration self) /\
  (forall self' score embedding,
     PrimFloat.ltb PyFloat.zero (similarity_threshold self) = true ->
     identify self audio_data sample_rate = (self', Ret (None, score, embedding)) ->
     self' = self).
Proof.
  unfold identify. split; [intros ->; reflexivity |].
  split; [intros embedding -> ->; reflexivity |].
  split.
  - intros self' id score embedding.
    destruct (extract_embedding audio_data sample_rate) as [extracted |]; [| discriminate].
    destruct (truthy (embeddings self)); cbn [negb]; [| discriminate].
    destruct (best_match_loop extracted (embeddings self) None PyFloat.zero)
      as [[found best] |] eqn:Eloop; [| discriminate].
    destruct (PrimFloat.leb (similarity_threshold self) best) eqn:Eth; [| discriminate].
    intros [= <- -> <- <-].
    destruct (best_match_loop_registered _ _ _ _ _ _ Eloop)
      as [[Hf _] | (id' & reg & [= ->] & Hin & Hcos)]; [discriminate Hf |].
    exists extracted, reg. now repeat split.
  - intros self' score embedding Hpos.
    destruct (extract_embedding audio_data sample_rate) as [extracted |];
      [| now intros [= <-]].
    destruct (truthy (embeddings self)); cbn [negb]; [| now intros [= <-]].
    destruct (best_match_loop extracted (embeddings self) None PyFloat.zero)
      as [[found best] |] eqn:Eloop; [| discriminate].
    destruct (PrimFloat.leb (similarity_threshold self) best) eqn:Eth;
      [| now intros [= <-]].
    intros [= <- -> <- <-].
    destruct (best_match_loop_registered _ _ _ _ _ _ Eloop)
      as [[_ ->] | (id' & reg & Hf & _)]; [| discriminate Hf].
    rewrite (zero_below_threshold _ Hpos) in Eth. discriminate Eth.
Qed.

(** X22. [complete_registration] without a pending embedding returns
    [None] and changes nothing.  With a pending embedding it registers that
    embedding under the name, and once it has returned the id nothing is
    pending any more: a second call returns [None] and leaves the registry
    as the first call made it. *)
Theorem pending_registered_once (fuel : nat) (self : SpeakerIdentifier) (name : str)
  (extra_info : option (list (str * pyval))) (registered_at updated_at : str)
  (saved : res unit) :
  (pending_registration self = None ->
   complete_registration fuel self name extra_info registered_at updated_at saved
   = Some (self, Ret None)) /\
  (forall embedding self' speaker_id,
     pending_registration self = Some embedding ->
     complete_registration fuel self name extra_info registered_at updated_at saved
     = Some (self', Ret (Some speaker_id)) ->
     register fuel self name embedding extra_info registered_at updated_at saved
     = Some (self', Ret speaker_id) /\
     getitem speaker_id (embeddings self') = Some embedding /\
     has_pending_registration self' = false /\
     forall fuel' name' extra_info' registered_at' updated_at' saved',
       complete_registration fuel' self' name' extra_info' registered_at' updated_at' saved'
       = Some (self', Ret None)).
Proof.
  unfold complete_registration. split; [intros ->; reflexivity |].
  intros embedding self' speaker_id ->.
  destruct (register fuel self name embedding extra_info registered_at updated_at saved)
    as [[self1 [id | e]] |] eqn:Ereg; try discriminate.
  intros [= <- <-]. split; [reflexivity |].
  unfold register in Ereg.
  destruct (unused_id fuel (speakers self) (str_replace [32] [95] (lower name))
              (str_replace [32] [95] (lower name)) 1) as [id' |]; [| discriminate Ereg].
  destruct saved as [u | e]; [| discriminate Ereg].
  injection Ereg as <- <-. cbn [embeddings pending_registration].
  split; [apply getitem_setitem_same |]. split; [reflexivity |].
  reflexivity.
Qed.

End IdentifyClaims.

(** *** Runs of the registry *)

(** A third Amy gets the id [amy_2]. *)
Example register_third_amy :
  Speaker.register (E := byte_encoder) 3 family (text "Amy") 9 None
    (text "2025-01-01 00:00:00") (text "2025-01-01 00:00:00") (Ret tt)
  = Some (family_of_three, Ret (text "amy_2")).
Proof. vm_compute. reflexivity. Qed.

(** Witness of X18. *)
Lemma register_gives_unused_id_witness :
  exists (self' : Speaker.SpeakerIdentifier (E := byte_encoder)) (k : nat),
    let base_id := str_replace [32] [95] (lower (text "Amy")) in
    let speaker_id := Speaker.candidate base_id k in
    Speaker.register 3 family (text "Amy") 9 None
      (text "2025-01-01 00:00:00") (text "2025-01-01 00:00:00") (Ret tt)
    = Some (self', Ret speaker_id) /\
    (k <= length (Speaker.speakers family))%nat /\
    has_key speaker_id (Speaker.speakers family) = false /\
    (forall i, (i < k)%nat ->
       has_key (Speaker.candidate base_id i) (Speaker.speakers family) = true) /\
    Speaker.speakers self'
    = Speaker.speakers family
      ++ [(speaker_id, PDict (Speaker.speaker_info (text "Amy")
                                (text "2025-01-01 00:00:00")
                                (text "2025-01-01 00:00:00") None))] /\
    Speaker.embeddings self' = setitem speaker_id 9 (Speaker.embeddings family) /\
    (Speaker.current_speaker self' = Some speaker_id /\
     Speaker.pending_registration self' = None).
Proof.
  apply (register_gives_unused_id (E := byte_encoder) 3 family (text "Amy") 9 None
           (text "2025-01-01 00:00:00") (text "2025-01-01 00:00:00") (Ret tt)).
  cbn. lia.
Defined.

(** Witness of X19. *)
Lemma registered_name_found_witness :
  Speaker.get_speaker_name family_of_three (text "amy_2") = Ret (PStr (text "Amy")) /\
  forall removed : res unit,
    Speaker.speakers (fst (Speaker.delete_speaker family_of_three (text "amy_2") removed))
    = Speaker.speakers family.
Proof.
  destruct (registered_name_found (E := byte_encoder) 3 family family_of_three
              (text "Amy") (text "amy_2") 9 None
              (text "2025-01-01 00:00:00") (text "2025-01-01 00:00:00") (Ret tt))
    as (_ & Hname & _ & _ & Hdel).
  - vm_compute. reflexivity.
  - split; [exact (Hname I) |].
    intros removed. exact (proj1 (Hdel removed)).
Defined.

(** Witness of X20: the first amy is deleted. *)
Lemma delete_speaker_forgets_witness :
  Speaker.get_speaker_name
    (fst (Speaker.delete_speaker family (text "amy") (Ret tt))) (text "amy") = Ret PNone /\
  Speaker.get_speaker_info
    (fst (Speaker.delete_speaker family (text "amy") (Ret tt))) (text "amy_1")
  = Some (entry_of (text "Amy")).
Proof.
  destruct (proj2 (delete_speaker_forgets (E := byte_encoder) family (text "amy") (Ret tt))
              eq_refl) as (_ & _ & _ & Hname & Hothers & _).
  split; [exact Hname |].
  destruct (Hothers (text "amy_1")) as [Hinfo _]; [discriminate |].
  rewrite Hinfo. reflexivity.
Defined.

(** Witness of X21: a recording whose embedding is that of [amy_1]. *)
Lemma identify_names_registered_witness :
  Speaker.identify family [x02; x00] 16000
  = (Speaker.set_current_speaker (Some (text "amy_1")) family,
     Ret (Some (text "amy_1"), PyFloat.one, Some 2)) /\
  In (text "amy_1", 2) (Speaker.embeddings family) /\
  PrimFloat.leb (Speaker.similarity_threshold family) PyFloat.one = true.
Proof.
  assert (Hrun : Speaker.identify (E := byte_encoder) family [x02; x00] 16000
                 = (Speaker.set_current_speaker (Some (text "amy_1")) family,
                    Ret (Some (text "amy_1"), PyFloat.one, Some 2)))
    by (vm_compute; reflexivity).
  split; [exact Hrun |].
  destruct (identify_names_registered (E := byte_encoder) family [x02; x00] 16000)
    as (_ & _ & Hsome & _).
  destruct (Hsome _ _ _ _ Hrun) as (extracted & reg & Hex & _ & Hin & _ & Hth & _).
  split; [| exact Hth].
  right. left. reflexivity.
Defined.

(** A recording of an unknown voice gets no id. *)
Example identify_unknown_voice :
  Speaker.identify (E := byte_encoder) family [x07] 16000
  = (family, Ret (None, PyFloat.zero, Some 7)).
Proof. vm_compute. reflexivity. Qed.

(** Witness of X22: the pending embedding of [family] is registered. *)
Lemma pending_registered_once_witness :
  Speaker.complete_registration (E := byte_encoder) 3 family (text "Amy") None
    (text "2025-01-01 00:00:00") (text "2025-01-01 00:00:00") (Ret tt)
  = Some (family_of_three, Ret (Some (text "amy_2"))) /\
  Speaker.complete_registration (E := byte_encoder) 3 family_of_three (text "Bob") None
    (text "2025-01-02 00:00:00") (text "2025-01-02 00:00:00") (Ret tt)
  = Some (family_of_three, Ret None).
Proof.
  assert (Hrun : Speaker.complete_registration (E := byte_encoder) 3 family (text "Amy") None
                   (text "2025-01-01 00:00:00") (text "2025-01-01 00:00:00") (Ret tt)
                 = Some (family_of_three, Ret (Some (text "amy_2"))))
    by (vm_compute; reflexivity).
  split; [exact Hrun |].
  destruct (proj2 (pending_registered_once (E := byte_encoder) 3 family (text "Amy") None
                     (text "2025-01-01 00:00:00") (text "2025-01-01 00:00:00") (Ret tt))
              9 family_of_three (text "amy_2") eq_refl Hrun) as (_ & _ & _ & Hagain).
  apply Hagain.
Defined.

(** ** voice/audio_device.py: playback *)

Section PlayFacts.
Context {D : PyAudio}.
Import Audio.

(** Every chunk [data[i:i+k]], for [i] in [range(0, len(data), k)], holds
    between one and [k] elements. *)
Lemma chunk_lengths {A : Type} (k : Z) (data : list A) :
  0 < k ->
  Forall (fun i => 0 < len (slice i (i + k) data) <= k) (range_step 0 (len data) k).
Proof.
  intros Hk. pose proof (len_nonneg data) as Hl.
  pose proof (chunk_count_bounds (len data) k Hk Hl) as [Hlo Hhi].
  rewrite range_step_chunks by exact Hk. apply Forall_forall. intros i Hi.
  apply in_map_iff in Hi. destruct Hi as (j & <- & Hj). apply in_seq in Hj.
  rewrite slice_len by lia. nia.
Qed.

(** The loop writes the chunks of the indices it is given, in order, up to
    the first write that raises. *)
Lemma write_chunks_calls (audio_data : bytes) (starts : list Z) :
  forall st : state,
  exists done pending,
    starts = done ++ pending /\
    calls (fst (write_chunks audio_data starts st))
    = calls st ++ map (fun i => Wrote (slice i (i + chunk_size) audio_data)) done /\
    (forall u, snd (write_chunks audio_data starts st) = Ret u -> pending = []) /\
    (forall e, snd (write_chunks audio_data starts st) = Raise e -> done <> []).
Proof.
  induction starts as [| i rest IH]; intros st; cbn [write_chunks].
  - exists [], []. cbn [map fst snd].
    split; [reflexivity |]. split; [now rewrite app_nil_r |].
    split; [reflexivity |]. intros e He. discriminate He.
  - destruct (stream_write (dev st) (slice i (i + chunk_size) audio_data)) as [d [u | e]].
    + destruct (IH (after (Wrote (slice i (i + chunk_size) audio_data)) d st))
        as (done & pending & -> & Hcalls & Hret & Hraise).
      exists (i :: done), pending. split; [reflexivity |].
      split; [rewrite Hcalls; cbn [after calls map]; now rewrite <- app_assoc |].
      split; [exact Hret |]. intros e _. discriminate.
    + exists [i], rest. split; [reflexivity |]. cbn [fst snd after calls map].
      split; [reflexivity |]. split; [discriminate |]. intros e' _. discriminate.
Qed.

End PlayFacts.

Section PlayClaims.
Context {D : PyAudio}.
Import Audio.


End PlayClaims.

(** *** Runs of the audio device *)

(** 2500 bytes are written as chunks of 1024, 1024 and 452 bytes. *)
Example play_2500_bytes :
  map (fun c => match c with Audio.Wrote chunk => len chunk | _ => -1 end)
      (Audio.calls (fst (Audio.play_audio None (repeat x01 (Z.to_nat 2500)) fresh_card)))
  = [-1; 1024; 1024; 452; -1; -1] /\
  Audio.dev (fst (Audio.play_audio None (repeat x01 (Z.to_nat 2500)) fresh_card)) = 6.
Proof. vm_compute. split; reflexivity. Qed.

(** A stream whose second chunk is refused is left open. *)
Example refused_chunk_leaves_stream_open :
  Audio.play_audio None (repeat x01 (Z.to_nat 1024) ++ [xff; x01]) fresh_card
  = ({| Audio.dev := 3;
        Audio.calls := [Audio.Opened; Audio.Wrote (repeat x01 (Z.to_nat 1024));
                        Audio.Wrote [xff; x01]] |},
     Raise (OSError 5)).
Proof. vm_compute. reflexivity. Qed.


(** ** voice/aec.py: writing the playback signal *)

Section WriterFacts.
Context {P : PosixOut}.
Import AECOut.

Lemma accepted_app (a b : list (bytes * res Z)) : accepted (a ++ b) = accepted a ++ accepted b.
Proof. unfold accepted. apply flat_map_app. Qed.

Lemma slice_from_skipn {A : Type} (offset : Z) (view : list A) :
  0 <= offset <= len view -> slice_from offset view = skipn (Z.to_nat offset) view.
Proof.
  intros Ho. unfold slice_from, clamp_index.
  destruct (Z.ltb_spec offset 0); [lia |]. now rewrite Z.min_l by lia.
Qed.

(** The loop, from [offset] on: every call of [os.write] gets the bytes
    from the current offset to the end, the bytes taken are consecutive
    bytes of the view, and a normal end means that the end of the view was
    reached or that the last call took nothing. *)
Lemma write_loop_in_order (fd : Z) (view : bytes) :
  (forall s data s' n, os_write s fd data = (s', Ret n) -> n <= len data) ->
  forall (fuel : nat) (offset : Z) (st : state),
  0 <= offset <= len view ->
  exists ws,
    writes (fst (write_loop fuel fd view offset st)) = writes st ++ ws /\
    (forall before data r later,
       ws = before ++ (data, r) :: later ->
       data = slice_from (offset + len (accepted before)) view /\ data <> []) /\
    offset + len (accepted ws) <= len view /\
    accepted ws = firstn (length (accepted ws)) (skipn (Z.to_nat offset) view) /\
    (snd (write_loop fuel fd view offset st) = Some (Ret tt) ->
     offset + len (accepted ws) = len view \/
     exists before data n, ws = before ++ [(data, Ret n)] /\ n <= 0).
Proof.
  intros Hlaw.
  assert (Hnone : forall offset st,
            exists ws : list (bytes * res Z),
              writes st = writes st ++ ws /\
              (forall before data r later,
                 ws = before ++ (data, r) :: later ->
                 data = slice_from (offset + len (accepted before)) view /\ data <> []) /\
              offset + len (accepted ws) = offset /\
              accepted ws = firstn (length (accepted ws)) (skipn (Z.to_nat offset) view)).
  { intros offset st. exists []. split; [now rewrite app_nil_r |].
    split; [intros before data r later H; now destruct before |].
    split; [cbn; lia | reflexivity]. }
  induction fuel as [| fuel IH]; intros offset st Ho; cbn [write_loop].
  { destruct (Hnone offset st) as (ws & H1 & H2 & H3 & H4).
    exists ws. cbn [fst snd]. split; [exact H1 |]. split; [exact H2 |].
    split; [lia |]. split; [exact H4 |]. discriminate. }
  destruct (Z.ltb_spec offset (len view)) as [Hlt | Hge].
  2:{ destruct (Hnone offset st) as (ws & H1 & H2 & H3 & H4).
      exists ws. cbn [fst snd]. split; [exact H1 |]. split; [exact H2 |].
      split; [lia |]. split; [exact H4 |]. intros _. left. lia. }
  set (data := slice_from offset view).
  assert (Hdata : data = skipn (Z.to_nat offset) view) by (apply slice_from_skipn; lia).
  assert (Hdlen : len data = len view - offset).
  { rewrite Hdata. unfold len in *. rewrite length_skipn. lia. }
  assert (Hne : data <> []).
  { intros E. rewrite E in Hdlen. cbn in Hdlen. lia. }
  destruct (os_write (os st) fd data) as [s1 r] eqn:Ew.
  (* what one recorded call contributes *)
  assert (Hstep : forall (taken : bytes) (offset' : Z) (ws' : list (bytes * res Z)),
            accepted [(data, r)] = taken ->
            taken = firstn (length taken) (skipn (Z.to_nat offset) view) ->
            offset' = offset + len taken ->
            (forall before d r' later,
               ws' = before ++ (d, r') :: later ->
               d = slice_from (offset' + len (accepted before)) view /\ d <> []) ->
            offset' + len (accepted ws') <= len view ->
            accepted ws' = firstn (length (accepted ws')) (skipn (Z.to_nat offset') view) ->
            (forall before d r' later,
               (data, r) :: ws' = before ++ (d, r') :: later ->
               d = slice_from (offset + len (accepted before)) view /\ d <> []) /\
            offset + len (accepted ((data, r) :: ws')) <= len view /\
            accepted ((data, r) :: ws')
            = firstn (length (accepted ((data, r) :: ws'))) (skipn (Z.to_nat offset) view)).
  { intros taken offset' ws' Htaken Hfirst Hoff Hargs Hbound Hacc.
    assert (Hcons : accepted ((data, r) :: ws') = taken ++ accepted ws').
    { change ((data, r) :: ws') with ([(data, r)] ++ ws').
      now rewrite accepted_app, Htaken. }
    split; [| split].
    - intros before d r' later Heq. destruct before as [| w before]; cbn [app] in Heq.
      + injection Heq as <- <- <-. cbn [accepted flat_map]. change (len (@nil byte)) with 0.
        rewrite Z.add_0_r. now split.
      + injection Heq as <- Heq. destruct (Hargs _ _ _ _ Heq) as [Hd Hdne].
        split; [| exact Hdne]. rewrite Hd. f_equal.
        change ((data, r) :: before) with ([(data, r)] ++ before).
        rewrite accepted_app, Htaken, len_app. lia.
    - rewrite Hcons, len_app. lia.
    - rewrite Hcons.
      set (T := skipn (Z.to_nat offset) view) in *.
      assert (HS : skipn (Z.to_nat offset') view = skipn (length taken) T).
      { subst T. rewrite skipn_skipn. f_equal. rewrite Hoff. unfold len. lia. }
      rewrite HS in Hacc.
      assert (HT : T = taken ++ skipn (length taken) T).
      { transitivity (firstn (length taken) T ++ skipn (length taken) T);
          [symmetry; apply firstn_skipn | f_equal; symmetry; exact Hfirst]. }
      rewrite length_app.
      replace (firstn (length taken + length (accepted ws')) T)
        with (firstn (length taken + length (accepted ws'))
                (taken ++ skipn (length taken) T)) by (now rewrite <- HT).
      rewrite firstn_app_2. f_equal. exact Hacc. }
  destruct r as [written | e].
  - destruct (Z.leb_spec written 0) as [Hzero | Hpos].
    + exists [(data, Ret written)]. cbn [fst snd writes].
      split; [reflexivity |].
      assert (Ht : accepted [(data, Ret written)] = []).
      { cbn [accepted flat_map fst snd]. replace (Z.to_nat written) with 0%nat by lia.
        reflexivity. }
      destruct (Hstep [] offset [] Ht eq_refl ltac:(cbn; lia)) as (H2 & H3 & H4).
      { intros before d r' later H; now destruct before. }
      { cbn. lia. }
      { reflexivity. }
      split; [exact H2 |]. split; [exact H3 |]. split; [exact H4 |].
      intros _. right. exists [], data, written. now split.
    + pose proof (Hlaw _ _ _ _ Ew) as Hle.
      set (st1 := {| os := s1; writes := writes st ++ [(data, Ret written)] |}).
      destruct (IH (offset + written) st1 ltac:(lia)) as (ws' & Hw & Hargs & Hbound & Hacc & Hend).
      exists ((data, Ret written) :: ws').
      split; [rewrite Hw; cbn [st1 writes]; now rewrite <- app_assoc |].
      assert (Ht : accepted [(data, Ret written)] = firstn (Z.to_nat written) data).
      { cbn [accepted flat_map fst snd]. now rewrite app_nil_r. }
      assert (Htl : length (firstn (Z.to_nat written) data) = Z.to_nat written).
      { rewrite length_firstn. unfold len in Hle. lia. }
      destruct (Hstep (firstn (Z.to_nat written) data) (offset + written) ws' Ht)
        as (H2 & H3 & H4); try assumption.
      { rewrite Htl, Hdata. reflexivity. }
      { unfold len. rewrite Htl. lia. }
      split; [exact H2 |]. split; [exact H3 |]. split; [exact H4 |].
      intros Hret. destruct (Hend Hret) as [Hall | (before & d & n & -> & Hn)].
      * left. change ((data, Ret written) :: ws') with ([(data, Ret written)] ++ ws').
        rewrite accepted_app, Ht, len_app. unfold len at 1. rewrite Htl. lia.
      * right. exists ((data, Ret written) :: before), d, n. now split.
  - assert (Ht : accepted [(data, Raise e)] = []) by reflexivity.
    assert (Hplain : forall out : state * option (res unit),
              out = ({| os := s1; writes := writes st ++ [(data, Raise e)] |},
                     Some (Raise e)) ->
              exists ws,
                writes (fst out) = writes st ++ ws /\
                (forall before d r later,
                   ws = before ++ (d, r) :: later ->
                   d = slice_from (offset + len (accepted before)) view /\ d <> []) /\
                offset + len (accepted ws) <= len view /\
                accepted ws = firstn (length (accepted ws)) (skipn (Z.to_nat offset) view) /\
                (snd out = Some (Ret tt) ->
                 offset + len (accepted ws) = len view \/
                 exists before d n, ws = before ++ [(d, Ret n)] /\ n <= 0)).
    { intros out ->. exists [(data, Raise e)]. cbn [fst snd writes].
      split; [reflexivity |].
      destruct (Hstep [] offset [] Ht eq_refl ltac:(cbn; lia)) as (H2 & H3 & H4).
      { intros before d r' later H; now destruct before. }
      { cbn. lia. }
      { reflexivity. }
      split; [exact H2 |]. split; [exact H3 |]. split; [exact H4 |]. discriminate. }
    destruct e as [| | | | | | errno | | | | |]; try (now apply Hplain).
    destruct ((errno =? AEC.EAGAIN) || (errno =? AEC.EWOULDBLOCK)); [| now apply Hplain].
    set (st1 := {| os := out_sleep s1 pause;
                   writes := writes {| os := s1;
                                       writes := writes st ++ [(data, Raise (OSError errno))] |} |}).
    destruct (IH offset st1 Ho) as (ws' & Hw & Hargs & Hbound & Hacc & Hend).
    exists ((data, Raise (OSError errno)) :: ws').
    split; [rewrite Hw; cbn [st1 writes]; now rewrite <- app_assoc |].
    destruct (Hstep [] offset ws' Ht eq_refl ltac:(cbn; lia) Hargs Hbound Hacc)
      as (H2 & H3 & H4).
    split; [exact H2 |]. split; [exact H3 |]. split; [exact H4 |].
    intros Hret. destruct (Hend Hret) as [Hall | (before & d & n & -> & Hn)].
    + left. exact Hall.
    + right. exists ((data, Raise (OSError errno)) :: before), d, n. now split.
Qed.

End WriterFacts.

Section WriterProgress.
Context {P : PosixOut}.
Import AECOut.

(** A pipe that takes at least one byte at every call is given the whole
    view, within as many calls as the view has bytes. *)
Lemma write_loop_progress (fd : Z) (view : bytes) :
  (forall s data, data <> [] ->
     exists s' n, os_write s fd data = (s', Ret n) /\ 0 < n <= len data) ->
  forall (fuel : nat) (offset : Z) (st : state),
  0 <= offset <= len view ->
  len view - offset < Z.of_nat fuel ->
  exists ws,
    writes (fst (write_loop fuel fd view offset st)) = writes st ++ ws /\
    accepted ws = skipn (Z.to_nat offset) view /\
    snd (write_loop fuel fd view offset st) = Some (Ret tt).
Proof.
  intros Hprog.
  induction fuel as [| fuel IH]; intros offset st Ho Hfuel; [cbn in Hfuel; lia |].
  cbn [write_loop].
  destruct (Z.ltb_spec offset (len view)) as [Hlt | Hge].
  2:{ exists []. cbn [fst snd]. split; [now rewrite app_nil_r |]. split; [| reflexivity].
      rewrite skipn_all2; [reflexivity |]. unfold len in *. lia. }
  set (data := slice_from offset view).
  assert (Hdata : data = skipn (Z.to_nat offset) view) by (apply slice_from_skipn; lia).
  assert (Hne : data <> []).
  { intros E. apply (f_equal (@length byte)) in E. rewrite Hdata, length_skipn in E.
    unfold len in *. cbn [length] in E. lia. }
  destruct (Hprog (os st) data Hne) as (s1 & n & Ew & Hn).
  rewrite Ew. destruct (Z.leb_spec n 0) as [Hz | _]; [lia |].
  assert (Hdlen : len data = len view - offset).
  { rewrite Hdata. unfold len in *. rewrite length_skipn. lia. }
  destruct (IH (offset + n) {| os := s1; writes := writes st ++ [(data, Ret n)] |})
    as (ws & Hw & Hacc & Hret); [lia | lia |].
  exists ((data, Ret n) :: ws).
  split; [rewrite Hw; cbn [writes]; now rewrite <- app_assoc |].
  split; [| exact Hret].
  change ((data, Ret n) :: ws) with ([(data, Ret n)] ++ ws).
  rewrite accepted_app, Hacc. cbn [accepted flat_map fst snd]. rewrite app_nil_r.
  rewrite Hdata.
  replace (Z.to_nat (offset + n)) with (Z.to_nat n + Z.to_nat offset)%nat by lia.
  rewrite <- skipn_skipn. apply firstn_skipn.
Qed.

(** A pipe that is always full keeps the loop turning. *)
Lemma write_loop_blocked (fd : Z) (view : bytes) :
  (forall s data, exists s', os_write s fd data = (s', Raise (OSError AEC.EAGAIN))) ->
  forall (fuel : nat) (offset : Z) (st : state),
  offset < len view ->
  snd (write_loop fuel fd view offset st) = None.
Proof.
  intros Hfull. induction fuel as [| fuel IH]; intros offset st Hlt; [reflexivity |].
  cbn [write_loop]. destruct (Z.ltb_spec offset (len view)); [| lia].
  destruct (Hfull (os st) (slice_from offset view)) as (s1 & ->).
  rewrite Z.eqb_refl. cbn [orb]. now apply IH.
Qed.

End WriterProgress.

Section WriterClaims.
Context {P : PosixOut}.
Import AECOut.

(** X25. [write_playback] does nothing when the bridge is disabled and
    raises [RuntimeError] when the playback FIFO is not open.  Otherwise
    every call of [os.write] gets the bytes not yet taken, from the current
    offset to the end, and never an empty buffer; when [os.write] reports
    no more bytes than it was given, the bytes taken are a prefix of the
    audio, and when the method returns they are all of it unless the last
    call took nothing.  A pipe that takes at least one byte per call gets
    the whole audio, and the method returns after at most [len(pcm) + 1]
    tests of its loop; a pipe that stays full keeps the method in its loop,
    which has no time limit. *)
Theorem write_playback_in_order (fuel : nat) (self : AEC.EcEchoCanceller) (fd : Z)
  (pcm : bytes) (st : state) :
  (AEC.enabled self = false ->
   forall _playback_fd, write_playback fuel self _playback_fd pcm st = (st, Some (Ret tt))) /\
  (AEC.enabled self = true ->
   write_playback fuel self None pcm st = (st, Some (Raise RuntimeError))) /\
  (AEC.enabled self = true ->
   (forall s data s' n, os_write s fd data = (s', Ret n) -> n <= len data) ->
   exists (ws : list (bytes * res Z)) (rest : bytes),
     writes (fst (write_playback fuel self (Some fd) pcm st)) = writes st ++ ws /\
     (forall before data r later,
        ws = before ++ (data, r) :: later ->
        data = slice_from (len (accepted before)) pcm /\ data <> []) /\
     accepted ws ++ rest = pcm /\
     (snd (write_playback fuel self (Some fd) pcm st) = Some (Ret tt) ->
      rest = [] \/ exists before data n, ws = before ++ [(data, Ret n)] /\ n <= 0)) /\
  (AEC.enabled self = true ->
   (forall s data, data <> [] ->
      exists s' n, os_write s fd data = (s', Ret n) /\ 0 < n <= len data) ->
   len pcm < Z.of_nat fuel ->
   exists ws : list (bytes * res Z),
     writes (fst (write_playback fuel self (Some fd) pcm st)) = writes st ++ ws /\
     accepted ws = pcm /\
     snd (write_playback fuel self (Some fd) pcm st) = Some (Ret tt)) /\
  (AEC.enabled self = true ->
   (forall s data, exists s', os_write s fd data = (s', Raise (OSError AEC.EAGAIN))) ->
   pcm <> [] ->
   snd (write_playback fuel self (Some fd) pcm st) = None).
Proof.
  unfold write_playback.
  split; [intros -> pfd; reflexivity |].
  split; [intros ->; reflexivity |].
  pose proof (len_nonneg pcm) as Hlen.
  split; [| split].
  - intros -> Hlaw. cbn [negb].
    destruct (write_loop_in_order fd pcm Hlaw fuel 0 st ltac:(lia))
      as (ws & Hw & Hargs & Hbound & Hacc & Hend).
    exists ws, (skipn (length (accepted ws)) pcm).
    split; [exact Hw |]. split; [exact Hargs |].
    cbn [Z.to_nat skipn] in Hacc.
    split; [rewrite Hacc at 1; apply firstn_skipn |].
    intros Hret. destruct (Hend Hret) as [Hall | Hlast]; [left | now right].
    apply skipn_all2. unfold len in *. lia.
  - intros -> Hprog Hfuel. cbn [negb].
    destruct (write_loop_progress fd pcm Hprog fuel 0 st ltac:(lia) ltac:(lia))
      as (ws & Hw & Hacc & Hret).
    exists ws. split; [exact Hw |]. split; [exact Hacc | exact Hret].
  - intros -> Hfull Hne. cbn [negb].
    apply write_loop_blocked; [exact Hfull |].
    destruct pcm; [contradiction | unfold len; cbn [length]; lia].
Qed.

End WriterClaims.

(** *** Runs of [write_playback] *)

(** Three bytes through the narrow pipe: four calls, two of them refused. *)
Example write_three_bytes :
  AECOut.write_playback 10 bridge_on (Some 6) [x01; x02; x03] narrow_pipe_start
  = ({| AECOut.os := 4;
        AECOut.writes := [([x01; x02; x03], Raise (OSError AEC.EAGAIN));
                          ([x01; x02; x03], Ret 2);
                          ([x03], Raise (OSError AEC.EAGAIN));
                          ([x03], Ret 1)] |},
     Some (Ret tt)).
Proof. vm_compute. reflexivity. Qed.

(** Witness of X25. *)
Lemma write_playback_in_order_witness :
  exists (ws : list (bytes * res Z)) (rest : bytes),
    AECOut.writes (fst (AECOut.write_playback 10 bridge_on (Some 6) [x01; x02; x03]
                          narrow_pipe_start)) = [] ++ ws /\
    (forall before data r later,
       ws = before ++ (data, r) :: later ->
       data = slice_from (len (AECOut.accepted before)) [x01; x02; x03] /\ data <> []) /\
    AECOut.accepted ws ++ rest = [x01; x02; x03] /\
    (snd (AECOut.write_playback 10 bridge_on (Some 6) [x01; x02; x03] narrow_pipe_start)
     = Some (Ret tt) ->
     rest = [] \/ exists before data n, ws = before ++ [(data, Ret n)] /\ n <= 0).
Proof.
  destruct (write_playback_in_order (P := narrow_pipe) 10 bridge_on 6 [x01; x02; x03]
              narrow_pipe_start) as (_ & _ & Hgeneral & _).
  apply Hgeneral; [reflexivity |].
  intros s data s' n H. cbn [os_write narrow_pipe] in H.
  destruct (s mod 2 =? 0); [discriminate H |].
  injection H as _ <-. lia.
Defined.

(** ** voice/tts.py: playing what is synthesized *)

Section PlayerFacts.
Context {J : Json} {D : PyAudio}.
Import Audio.

Lemma written_app (a b : list call) : written (a ++ b) = written a ++ written b.
Proof. unfold written. apply flat_map_app. Qed.

Lemma written_chunks (chunks : list bytes) : written (map Wrote chunks) = join chunks.
Proof.
  induction chunks as [| c chunks IH]; [reflexivity |].
  cbn [map]. change (written (Wrote c :: map Wrote chunks))
    with (c ++ written (map Wrote chunks)).
  now rewrite IH.
Qed.

Lemma written_tail (tail_ : list call) :
  Forall (fun c => match c with Stopped | StreamClosed => True | _ => False end) tail_ ->
  written tail_ = [].
Proof.
  intros Ht. induction Ht as [| c tail_ Hc Ht IH]; [reflexivity |].
  unfold written in *. cbn [flat_map]. rewrite IH. now destruct c.
Qed.

(** What one call of [play_audio] gives to the device is a prefix of its
    buffer, and the whole buffer when the call returns. *)
Lemma play_audio_written (aec : option AEC.EcEchoCanceller) (audio_data : bytes)
  (st : state) :
  exists (cs : list call) (rest : bytes),
    calls (fst (play_audio aec audio_data st)) = calls st ++ cs /\
    written cs ++ rest = audio_data /\
    (forall u, snd (play_audio aec audio_data st) = Ret u -> rest = []).
Proof.
  unfold play_audio.
  destruct (match aec with Some bridge => AEC.enabled bridge | None => false end).
  { destruct (aec_write_playback (dev st) audio_data) as [d r].
    exists [Handed audio_data], []. cbn [fst snd after calls].
    split; [reflexivity |]. split; [| reflexivity].
    cbn [written flat_map]. now rewrite !app_nil_r. }
  destruct (stream_open (dev st)) as [d0 [u0 | e0]].
  2:{ exists [Opened], audio_data. cbn [fst snd after calls].
      split; [reflexivity |]. split; [reflexivity |]. discriminate. }
  destruct (write_chunks_calls audio_data (range_step 0 (len audio_data) chunk_size)
              (after Opened d0 st)) as (done & pending & Hsplit & Hcalls & Hret & _).
  pose proof (chunks_cover chunk_size ltac:(unfold chunk_size; lia) audio_data) as Hcover.
  rewrite Hsplit, map_app, concat_app in Hcover.
  set (chunk_at := fun i => slice i (i + chunk_size) audio_data) in *.
  assert (Hopened : forall st1 : state,
            calls st1 = calls (after Opened d0 st) ++ map (fun i => Wrote (chunk_at i)) done ->
            calls st1 = calls st ++ Opened :: map Wrote (map chunk_at done)).
  { intros st1 ->. cbn [after calls]. rewrite map_map. now rewrite <- app_assoc. }
  assert (Hw : forall tail_,
            Forall (fun c => match c with Stopped | StreamClosed => True | _ => False end)
              tail_ ->
            written (Opened :: map Wrote (map chunk_at done) ++ tail_)
            = concat (map chunk_at done)).
  { intros tail_ Ht.
    change (Opened :: map Wrote (map chunk_at done) ++ tail_)
      with ([Opened] ++ map Wrote (map chunk_at done) ++ tail_).
    rewrite !written_app, written_chunks, (written_tail tail_ Ht).
    change (written [Opened]) with (@nil byte). cbn [app]. now rewrite app_nil_r. }
  destruct (write_chunks audio_data (range_step 0 (len audio_data) chunk_size)
              (after Opened d0 st)) as [st1 [u1 | e1]]; cbn [fst snd] in *.
  2:{ exists (Opened :: map Wrote (map chunk_at done) ++ []), (concat (map chunk_at pending)).
      split; [rewrite app_nil_r; now apply Hopened |].
      split; [now rewrite (Hw [] ltac:(constructor)) |]. discriminate. }
  specialize (Hret u1 eq_refl). subst pending. cbn [map concat] in Hcover.
  rewrite app_nil_r in Hcover.
  destruct (stream_stop (dev st1)) as [d2 [u2 | e2]].
  2:{ exists (Opened :: map Wrote (map chunk_at done) ++ [Stopped]), [].
      cbn [fst snd after calls]. rewrite (Hopened st1 Hcalls).
      split; [now rewrite <- app_assoc |].
      split; [rewrite (Hw [Stopped] ltac:(repeat constructor)), app_nil_r; exact Hcover |].
      reflexivity. }
  destruct (stream_close (dev (after Stopped d2 st1))) as [d3 r3].
  exists (Opened :: map Wrote (map chunk_at done) ++ [Stopped; StreamClosed]), [].
  cbn [fst snd after calls]. rewrite (Hopened st1 Hcalls).
  split; [rewrite <- !app_assoc; reflexivity |].
  split; [rewrite (Hw [Stopped; StreamClosed] ltac:(repeat constructor)), app_nil_r;
          exact Hcover |].
  reflexivity.
Qed.

(** With the bridge, one call of [play_audio] is one call of
    [write_playback]. *)
Lemma play_audio_handed (bridge : AEC.EcEchoCanceller) (audio_data : bytes) (st : state) :
  AEC.enabled bridge = true ->
  calls (fst (play_audio (Some bridge) audio_data st)) = calls st ++ [Handed audio_data].
Proof.
  intros Hon. unfold play_audio. rewrite Hon.
  now destruct (aec_write_playback (dev st) audio_data).
Qed.

(** No chunk that [synthesize_stream] yields is empty. *)
Lemma synthesize_stream_truthy (connected : bool) (sock : list arrival) :
  Forall (fun chunk => truthy chunk = true) (TTS.synthesize_stream connected sock).
Proof.
  unfold TTS.synthesize_stream.
  destruct connected; cbn [negb]; [| constructor].
  destruct (recv 10 sock) as [[r1 | e1] sock1]; [| constructor].
  destruct (recv 10 sock1) as [[r2 | e2] sock2]; [| constructor].
  eapply Forall_impl; [| apply receive_loop_chunks]. now intros chunk [Ht _].
Qed.

Import TTSPlayer.

(** The loop of [speak_stream] gives the device a prefix of the buffer and
    the chunks, and all of them but the buffer it leaves when no call
    raises. *)
Lemma stream_loop_written (aec : option AEC.EcEchoCanceller) (chunks : list bytes) :
  forall (buffer : bytes) (st : state),
  exists (cs : list call) (rest : bytes),
    calls (fst (stream_loop aec chunks buffer st)) = calls st ++ cs /\
    written cs ++ rest = buffer ++ join chunks /\
    (forall tail_, snd (stream_loop aec chunks buffer st) = Ret tail_ -> rest = tail_).
Proof.
  induction chunks as [| chunk chunks IH]; intros buffer st; cbn [stream_loop].
  - exists [], buffer. cbn [fst snd written flat_map app join concat].
    rewrite !app_nil_r. split; [reflexivity |]. split; [reflexivity |].
    now intros tail_ [= <-].
  - cbn [join concat]. fold (join chunks).
    destruct (buffer_threshold <=? len (buffer ++ chunk)).
    2:{ destruct (IH (buffer ++ chunk) st) as (cs & rest & Hc & Hw & Hret).
        exists cs, rest. split; [exact Hc |]. split; [| exact Hret].
        now rewrite Hw, <- app_assoc. }
    destruct (play_audio_written aec (buffer ++ chunk) st) as (cs1 & rest1 & Hc1 & Hw1 & Hr1).
    destruct (play_audio aec (buffer ++ chunk) st) as [st1 [u | e]]; cbn [fst snd] in *.
    + specialize (Hr1 u eq_refl). subst rest1. rewrite app_nil_r in Hw1.
      destruct (IH [] st1) as (cs2 & rest2 & Hc2 & Hw2 & Hret).
      exists (cs1 ++ cs2), rest2.
      split; [rewrite Hc2, Hc1; now rewrite <- app_assoc |].
      split; [| exact Hret].
      rewrite written_app, <- app_assoc, Hw2, Hw1. cbn [app].
      now rewrite <- app_assoc.
    + exists cs1, (rest1 ++ join chunks).
      split; [exact Hc1 |]. split; [| discriminate].
      now rewrite app_assoc, Hw1, <- app_assoc.
Qed.

(** With the bridge, the loop hands over buffers of at least
    [buffer_threshold] bytes. *)
Lemma stream_loop_handed (bridge : AEC.EcEchoCanceller) (chunks : list bytes) :
  AEC.enabled bridge = true ->
  forall (buffer : bytes) (st : state),
  exists buffers : list bytes,
    calls (fst (stream_loop (Some bridge) chunks buffer st))
    = calls st ++ map Handed buffers /\
    Forall (fun b => buffer_threshold <= len b) buffers.
Proof.
  intros Hon. induction chunks as [| chunk chunks IH]; intros buffer st; cbn [stream_loop].
  - exists []. cbn [map fst]. rewrite app_nil_r. split; [reflexivity | constructor].
  - destruct (Z.leb_spec buffer_threshold (len (buffer ++ chunk))) as [Hfull | _];
      [| apply IH].
    pose proof (play_audio_handed bridge (buffer ++ chunk) st Hon) as Hc1.
    destruct (play_audio (Some bridge) (buffer ++ chunk) st) as [st1 [u | e]];
      cbn [fst snd] in *.
    + destruct (IH [] st1) as (buffers & Hc2 & Hall).
      exists ((buffer ++ chunk) :: buffers).
      split; [rewrite Hc2, Hc1; cbn [map]; now rewrite <- app_assoc |].
      constructor; [exact Hfull | exact Hall].
    + exists [buffer ++ chunk]. split; [exact Hc1 |]. repeat constructor. exact Hfull.
Qed.

End PlayerFacts.

Section PlayerClaims.
Context {J : Json} {D : PyAudio}.
Import Audio TTSPlayer.

(** X24. Without an audio device, [speak_stream] and [speak] return at
    once and call nothing.  With one, what [speak_stream] gives to the
    device is a prefix of the audio that [synthesize_stream] yields, in
    order, and when [speak_stream] returns it is all of that audio; with
    the bridge enabled each [play_audio] is one [write_playback], none of an
    empty buffer and all but the last of at least 3200 bytes.  [speak]
    calls [play_audio] once with the whole audio, and not at all when
    nothing was synthesized. *)
Theorem speak_stream_plays_all (connected : bool) (sock : list arrival) (st : state) :
  speak_stream None connected sock st = (st, Ret tt) /\
  speak None connected sock st = (st, Ret tt) /\
  (forall aec : option AEC.EcEchoCanceller,
     exists (cs : list call) (rest : bytes),
       calls (fst (speak_stream (Some aec) connected sock st)) = calls st ++ cs /\
       written cs ++ rest = join (TTS.synthesize_stream connected sock) /\
       (forall u, snd (speak_stream (Some aec) connected sock st) = Ret u -> rest = [])) /\
  (forall bridge : AEC.EcEchoCanceller,
     AEC.enabled bridge = true ->
     exists buffers : list bytes,
       calls (fst (speak_stream (Some (Some bridge)) connected sock st))
       = calls st ++ map Handed buffers /\
       Forall (fun b => truthy b = true) buffers /\
       Forall (fun b => buffer_threshold <= len b) (removelast buffers)) /\
  (forall aec : option AEC.EcEchoCanceller,
     (TTS.synthesize connected sock = None ->
      speak (Some aec) connected sock st = (st, Ret tt)) /\
     (forall audio_data, TTS.synthesize connected sock = Some audio_data ->
        speak (Some aec) connected sock st = play_audio aec audio_data st /\
        audio_data = join (TTS.synthesize_stream connected sock))).
Proof.
  split; [reflexivity |]. split; [reflexivity |]. split; [| split].
  - intros aec. unfold speak_stream.
    destruct (stream_loop_written aec (TTS.synthesize_stream connected sock) [] st)
      as (cs & rest & Hc & Hw & Hret).
    destruct (stream_loop aec (TTS.synthesize_stream connected sock) [] st)
      as [st1 [buffer | e]]; cbn [fst snd app] in *.
    2:{ exists cs, rest. split; [exact Hc |]. split; [exact Hw |]. discriminate. }
    specialize (Hret buffer eq_refl). subst rest.
    destruct buffer as [| b buffer]; cbn [truthy].
    { exists cs, []. split; [exact Hc |]. split; [exact Hw |]. reflexivity. }
    destruct (play_audio_written aec (b :: buffer) st1) as (cs2 & rest2 & Hc2 & Hw2 & Hr2).
    exists (cs ++ cs2), rest2.
    split; [rewrite Hc2, Hc; now rewrite <- app_assoc |].
    split; [rewrite written_app, <- app_assoc, Hw2; exact Hw | exact Hr2].
  - intros bridge Hon. unfold speak_stream.
    destruct (stream_loop_handed bridge (TTS.synthesize_stream connected sock) Hon [] st)
      as (buffers & Hc & Hall).
    assert (Hnonempty : Forall (fun b : bytes => truthy b = true) buffers).
    { eapply Forall_impl; [| exact Hall]. intros b Hb.
      destruct b; [exfalso; unfold buffer_threshold in Hb;
                   change (len (@nil byte)) with 0 in Hb; lia | reflexivity]. }
    destruct (stream_loop (Some bridge) (TTS.synthesize_stream connected sock) [] st)
      as [st1 [buffer | e]]; cbn [fst snd] in *.
    2:{ exists buffers. split; [exact Hc |]. split; [exact Hnonempty |].
        now apply Forall_removelast. }
    destruct buffer as [| b buffer]; cbn [truthy].
    { exists buffers. split; [exact Hc |]. split; [exact Hnonempty |].
      now apply Forall_removelast. }
    exists (buffers ++ [b :: buffer]).
    split; [rewrite (play_audio_handed bridge (b :: buffer) st1 Hon), Hc, map_app;
            now rewrite <- app_assoc |].
    split; [apply Forall_app; split; [exact Hnonempty | now repeat constructor] |].
    now rewrite removelast_last.
  - intros aec. unfold speak, TTS.synthesize. split.
    + destruct (truthy (TTS.synthesize_stream connected sock)); [discriminate | reflexivity].
    + intros audio_data.
      destruct (truthy (TTS.synthesize_stream connected sock)) eqn:Et; [| discriminate].
      intros [= <-]. split; [| reflexivity].
      pose proof (synthesize_stream_truthy connected sock) as Hall.
      assert (Hj : truthy (join (TTS.synthesize_stream connected sock)) = true).
      { apply truthy_join; [| exact Hall].
        intros Hnil. rewrite Hnil in Et. discriminate Et. }
      now rewrite Hj.
Qed.

End PlayerClaims.

(** *** Runs of [speak_stream] *)

(** The audio of [synthesis_session] goes to the bridge in one piece. *)
Example speak_stream_to_bridge :
  TTSPlayer.speak_stream (J := Ref.json) (Some (Some bridge_on)) true synthesis_session
    fresh_card
  = ({| Audio.dev := 1; Audio.calls := [Audio.Handed [x01; x02; x03; x04]] |}, Ret tt).
Proof. vm_compute. reflexivity. Qed.

(** Witness of X24. *)
Lemma speak_stream_plays_all_witness :
  exists buffers : list bytes,
    Audio.calls (fst (TTSPlayer.speak_stream (J := Ref.json) (Some (Some bridge_on)) true
                        synthesis_session fresh_card))
    = [] ++ map Audio.Handed buffers /\
    Forall (fun b => truthy b = true) buffers /\
    Forall (fun b => TTSPlayer.buffer_threshold <= len b) (removelast buffers).
Proof.
  destruct (speak_stream_plays_all (J := Ref.json) (D := counting_card) true
              synthesis_session fresh_card) as (_ & _ & _ & Hbridge & _).
  exact (Hbridge bridge_on eq_refl).
Defined.

(** ** voice/dialog_manager.py: a turn by an unknown voice *)

Section UnknownVoiceClaims.
Context {W : WebRtcVad} {C : Collaborators}.
Import Dialog.


End UnknownVoiceClaims.

